(** * deepgroebner: row-reduction environments, Atari wrapper and baselines

    A shallow embedding of

    - [rowreduce/environments.py]: [RowEchelonEnvironment],
      [RowChoiceEnvironment], [RowChoiceEnvironmentExtra];
    - [environments/atari.py]: [AtariEnv];
    - [deepgroebner/networks.py]: [MultilayerPerceptron],
      [ParallelMultilayerPerceptron], [PairsLeftBaseline], [AgentBaseline].

    numpy arrays are objects in a store: an environment holds the address of
    its matrix, [np.copy] allocates, and [a[i, :] = r] updates the array in
    place.  Methods are written in a state-and-exception monad over the store,
    statement by statement. *)

From Stdlib Require Import ZArith Lia QArith Qabs.
From stdpp Require Import base gmap list strings.

Open Scope Z_scope.

(** ** Python: exceptions, the monad of statements, sequence indexing *)

Module Py.

Inductive exn :=
  IndexError | ValueError | KeyError | AttributeError | ReferenceError | OverflowError.

(** [Running]: a [while] loop had not finished when the fuel ran out. *)
Inductive outcome (A : Type) :=
| Ok (a : A)
| Raise (e : exn)
| Running.
Arguments Ok {A} a.
Arguments Raise {A} e.
Arguments Running {A}.

Definition M (S A : Type) : Type := S → outcome A * S.

Definition ret {S A} (a : A) : M S A := λ s, (Ok a, s).
Definition raise {S A} (e : exn) : M S A := λ s, (Raise e, s).
Definition running {S A} : M S A := λ s, (Running, s).
Definition bind {S A B} (c : M S A) (k : A → M S B) : M S B :=
  λ s, match c s with
       | (Ok a, s') => k a s'
       | (Raise e, s') => (Raise e, s')
       | (Running, s') => (Running, s')
       end.

(** [l[i]] on a sequence of length [n]: an index in [-n, 0) counts from the
    end, anything outside [-n, n) is an [IndexError]. *)
Definition norm_index (n : nat) (i : Z) : option nat :=
  if bool_decide (0 ≤ i < Z.of_nat n) then Some (Z.to_nat i)
  else if bool_decide (- Z.of_nat n ≤ i < 0) then Some (Z.to_nat (Z.of_nat n + i))
  else None.

Definition getitem {A} (l : list A) (i : Z) : option A :=
  norm_index (length l) i ≫= (l !!.).

Definition get {S} : M S S := λ s, (Ok s, s).
Definition put {S} (s : S) : M S unit := λ _, (Ok tt, s).

(** Python values, as far as the shape of a returned tuple is concerned.
    [Arr] is what stands for an array, [Num] for a float. *)
#[local] Unset Elimination Schemes.
Inductive value (Arr Num : Type) :=
| VArray (a : Arr)
| VInt (z : Z)
| VFloat (x : Num)
| VBool (b : bool)
| VDict (d : gmap string Z)
| VTuple (vs : list (value Arr Num)).
#[local] Set Elimination Schemes.
Arguments VArray {Arr Num} a.
Arguments VInt {Arr Num} z.
Arguments VFloat {Arr Num} x.
Arguments VBool {Arr Num} b.
Arguments VDict {Arr Num} d.
Arguments VTuple {Arr Num} vs.

Definition components {Arr Num} (v : value Arr Num) : option (list (value Arr Num)) :=
  match v with VTuple vs => Some vs | _ => None end.

Definition is_dict {Arr Num} (v : value Arr Num) : bool :=
  match v with VDict _ => true | _ => false end.

End Py.

(** The statements of a method are sequenced with [x ← c; k] and [c;; k]. *)
Declare Scope py_scope.
Delimit Scope py_scope with py.
Notation "x ← c ; k" := (Py.bind c (λ x, k))
  (at level 20, c at level 100, k at level 200, only parsing) : py_scope.
Notation "c ;; k" := (Py.bind c (λ _, k))
  (at level 100, k at level 200, only parsing, right associativity) : py_scope.
Open Scope py_scope.

(** ** Floating point numbers, as an interface

    The source computes with IEEE doubles in a few places (the density
    threshold, discounted returns, the sign of a reward).  None of the
    properties below depends on how a double rounds, so the operations are an
    interface.  [fpow x n] is [x ** n] for a Python float [x] and an int
    [n >= 0]: Python raises [OverflowError] when the result is beyond the
    range of a double, which is [None] here. *)

Class Float := {
  float : Type;
  of_Z : Z → float;
  fadd : float → float → float;
  fsub : float → float → float;
  fmul : float → float → float;
  fdiv : float → float → float;
  fpow : float → nat → option float;
  fneg : float → float;
  fsign : float → float;
  feqb : float → float → bool;
  fgtb : float → float → bool
}.

(** ** numpy: two-dimensional arrays in a store *)

Module Np.

Abbreviation loc := positive.
Abbreviation ndarray := (list (list Z)).
Abbreviation heap := (gmap positive (list (list Z))).
Abbreviation M := (Py.M heap).

(** The dtypes of the arrays of the sources: [np.random.randint] gives int64,
    [np.zeros] and [np.ones] give float64. *)
Inductive dtype := int64 | float64.

(** A Python int that is the second operand of an array operation takes the
    dtype of the array (numpy 2); the conversion raises [OverflowError] for
    an int outside int64, and for one too large to round to a double. *)
Definition fits_int64 (z : Z) : bool := bool_decide (- 2 ^ 63 ≤ z < 2 ^ 63).
Definition fits_float64 (z : Z) : bool := bool_decide (Z.abs z < 2 ^ 1024 - 2 ^ 970).

(** int64 arithmetic wraps around. *)
Definition wrap64 (z : Z) : Z := (z + 2 ^ 63) `mod` 2 ^ 64 - 2 ^ 63.

(** [x % d] on int64, for a divisor [d] that is an int64 itself: the sign of
    the divisor; numpy yields 0 for [d = 0]. *)
Definition remainder (x d : Z) : Z := if d =? 0 then 0 else x `mod` d.

(** [(r1 + r2) % d] on two int64 rows. *)
Definition add_mod (r1 r2 : list Z) (d : Z) : list Z :=
  zip_with (λ x y, remainder (wrap64 (x + y)) d) r1 r2.

(** [(r1 + r2) % d] on two float64 rows holding small integers, where the
    sum and the remainder are exact. *)
Definition add_mod_float (r1 r2 : list Z) (d : Z) : list Z :=
  zip_with (λ x y, remainder (x + y) d) r1 r2.

(** [(r1 + r2) % d] on two float64 rows whose entries are zero or nan, held
    as 0 and 1: the sum of two zeros is zero and its remainder by a [d]
    other than 0 is zero; the remainder by 0 is nan, and so are the sum and
    the remainder of a nan. *)
Definition add_mod_nan (r1 r2 : list Z) (d : Z) : list Z :=
  zip_with (λ x y, if bool_decide (x = 0 ∧ y = 0 ∧ d ≠ 0) then 0 else 1) r1 r2.

Definition zeros (n m : nat) : ndarray := replicate n (replicate m 0).
Definition ones (n m : nat) : ndarray := replicate n (replicate m 1).

(** The [n] by [m] array with entry [f i j] at [(i, j)]. *)
Definition tabulate (n m : nat) (f : nat → nat → Z) : ndarray :=
  (λ i, f i <$> seq 0 m) <$> seq 0 n.

(** [next((i for i, x in enumerate(r) if x != 0), None)] *)
Definition lead (r : list Z) : option nat :=
  fst <$> list_find (λ x, x ≠ 0) r.

Definition read (l : loc) : M ndarray :=
  λ h, match h !! l with
       | Some a => (Py.Ok a, h)
       | None => (Py.Raise Py.ReferenceError, h)
       end.

Definition write (l : loc) (a : ndarray) : M unit :=
  λ h, (Py.Ok tt, <[l := a]> h).

(** A new array object. *)
Definition alloc (a : ndarray) : M loc :=
  λ h, let l := fresh (dom h) in (Py.Ok l, <[l := a]> h).

(** [np.copy(a)] *)
Definition copy (l : loc) : M loc :=
  a ← read l; alloc a.

(** [a[i, :]], read *)
Definition row (l : loc) (i : Z) : M (list Z) :=
  a ← read l;
  match Py.getitem a i with
  | Some r => Py.ret r
  | None => Py.raise Py.IndexError
  end.

(** [a[i, j]] *)
Definition item (l : loc) (i j : Z) : M Z :=
  r ← row l i;
  match Py.getitem r j with
  | Some x => Py.ret x
  | None => Py.raise Py.IndexError
  end.

(** [a[i, :] = r], in place.  The sources assign only rows of [a] and sums
    of two of them, which have the length of a row. *)
Definition set_row (l : loc) (i : Z) (r : list Z) : M unit :=
  a ← read l;
  match Py.norm_index (length a) i with
  | Some k => write l (<[k := r]> a)
  | None => Py.raise Py.IndexError
  end.

(** [a[i] = x] for a scalar [x]: the whole row is set to [x], in place *)
Definition fill_row (l : loc) (i : Z) (x : Z) : M unit :=
  r ← row l i; set_row l i (replicate (length r) x).

End Np.

(** ** rowreduce/environments.py: RowEchelonEnvironment *)

Module RowEchelonEnvironment.

Inductive kind := swap | add.

(** [dtype] is the dtype of the array [self.matrix]: float64 for the zeros of
    [__init__], which a step can only turn into nan, and int64 for a matrix
    of [_random_matrix]. *)
Record t := Build {
  N : nat;
  M : nat;
  F : Z;
  matrix : Np.loc;
  action_tuples : list (kind * nat * nat);
  dtype : Np.dtype
}.

(** [self.matrix = l] for an array [l] of [_random_matrix]. *)
Definition set_matrix (self : t) (l : Np.loc) : t :=
  Build (N self) (M self) (F self) l (action_tuples self) Np.int64.

Definition action_size (self : t) : nat := length (action_tuples self).

(** [[('swap', i, j) for i in range(N) for j in range(i)]
     + [('add', i, j) for i in range(N) for j in range(N) if i != j]] *)
Definition make_action_tuples (n : nat) : list (kind * nat * nat) :=
  (seq 0 n ≫= λ i, seq 0 i ≫= λ j, [(swap, i, j)])
  ++ (seq 0 n ≫= λ i, filter (λ j, i ≠ j) (seq 0 n) ≫= λ j, [(add, i, j)]).

(** [__init__]: [np.zeros((self.N, self.M))] is a float64 array. *)
Definition init (shape : nat * nat) (modulus : Z) : Np.M t :=
  l ← Np.alloc (Np.zeros (fst shape) (snd shape));
  Py.ret (Build (fst shape) (snd shape) modulus l (make_action_tuples (fst shape)) Np.float64).

(** [np.random.randint(self.F, size=(self.N, self.M))]; [draw i j] is the
    entry the generator produces at [(i, j)].  numpy rejects a bound that
    is not positive or lies beyond int64. *)
Definition _random_matrix (self : t) (draw : nat → nat → Z) : Np.M Np.loc :=
  if bool_decide (0 < F self ≤ 2 ^ 63)
  then Np.alloc (Np.tabulate (N self) (M self) draw)
  else Py.raise Py.ValueError.

(** The body of the [for row in range(self.N)] loop of [_is_row_echelon];
    [prev_lead] is [-1], an index, or [None]. *)
Fixpoint echelon_loop (self : t) (rows : list nat) (prev_lead : option Z) : Np.M bool :=
  match rows with
  | [] => Py.ret true
  | row :: rest =>
      r ← Np.row (matrix self) (Z.of_nat row);
      match Np.lead r with
      | Some next_lead =>
          match prev_lead with
          | None => Py.ret false
          | Some p =>
              if bool_decide (Z.of_nat next_lead ≤ p) then Py.ret false
              else echelon_loop self rest (Some (Z.of_nat next_lead))
          end
      | None => echelon_loop self rest None
      end
  end.

Definition _is_row_echelon (self : t) : Np.M bool :=
  echelon_loop self (seq 0 (N self)) (Some (-1)).

(** [(r1 + r0) % self.F] for two rows of [self.matrix]: the Python int
    [self.F] is converted to the dtype of the rows, or [OverflowError]. *)
Definition sum_mod (self : t) (r1 r0 : list Z) : Np.M (list Z) :=
  match dtype self with
  | Np.int64 =>
      if Np.fits_int64 (F self) then Py.ret (Np.add_mod r1 r0 (F self))
      else Py.raise Py.OverflowError
  | Np.float64 =>
      if Np.fits_float64 (F self) then Py.ret (Np.add_mod_nan r1 r0 (F self))
      else Py.raise Py.OverflowError
  end.

(** [self.matrix[pair[1], :] = (self.matrix[pair[1], :] + self.matrix[pair[0], :]) % self.F] *)
Definition _add_rows (self : t) (pair : nat * nat) : Np.M unit :=
  r1 ← Np.row (matrix self) (Z.of_nat (snd pair));
  r0 ← Np.row (matrix self) (Z.of_nat (fst pair));
  r ← sum_mod self r1 r0;
  Np.set_row (matrix self) (Z.of_nat (snd pair)) r.

(** [self.matrix[pair, :] = self.matrix[(pair[1], pair[0]), :]]: the right
    side is a copy of rows [pair[1]], [pair[0]], assigned to rows
    [pair[0]], [pair[1]] in this order. *)
Definition _swap_rows (self : t) (pair : nat * nat) : Np.M unit :=
  r1 ← Np.row (matrix self) (Z.of_nat (snd pair));
  r0 ← Np.row (matrix self) (Z.of_nat (fst pair));
  Np.set_row (matrix self) (Z.of_nat (fst pair)) r1;;
  Np.set_row (matrix self) (Z.of_nat (snd pair)) r0.

(** [step] returns [np.copy(self.matrix), -1, self._is_row_echelon()]. *)
Definition step (self : t) (action : Z) : Np.M (Np.loc * Z * bool) :=
  match Py.getitem (action_tuples self) action with
  | None => Py.raise Py.IndexError
  | Some (k, i, j) =>
      match k with
      | add => _add_rows self (i, j)
      | swap => _swap_rows self (i, j)
      end;;
      obs ← Np.copy (matrix self);
      done ← _is_row_echelon self;
      Py.ret (obs, -1, done)
  end.

(** [while self._is_row_echelon(): self.matrix = self._random_matrix()];
    [draws k] is the [k]-th matrix the generator produces. *)
Fixpoint reset_loop (fuel : nat) (draws : nat → nat → nat → Z) (k : nat) (self : t) : Np.M t :=
  b ← _is_row_echelon self;
  if b then
    match fuel with
    | O => Py.running
    | S fuel' =>
        l ← _random_matrix self (draws k);
        reset_loop fuel' draws (S k) (set_matrix self l)
    end
  else Py.ret self.

Definition reset (fuel : nat) (draws : nat → nat → nat → Z) (self : t) : Np.M (t * Np.loc) :=
  l ← _random_matrix self (draws O);
  self' ← reset_loop fuel draws 1%nat (set_matrix self l);
  obs ← Np.copy (matrix self');
  Py.ret (self', obs).

(** The tuple [step] returns, as a Python value. *)
Definition returned {Num} (r : Np.loc * Z * bool) : Py.value Np.loc Num :=
  let '(obs, reward, done) := r in
  Py.VTuple [Py.VArray obs; Py.VInt reward; Py.VBool done].

End RowEchelonEnvironment.

(** ** rowreduce/environments.py: RowChoiceEnvironment and RowChoiceEnvironmentExtra

    The two classes repeat the text of [_is_reduced] and of the pivot loop of
    [step]; the loops are written once, over the address of the matrix and
    the row sum of the class. *)

Module RowChoiceLoops.

(** [for i in range(self.N): if i != row and self.matrix[i, lead] != 0: return False];
    [false] stands for the early [return False]. *)
Fixpoint column_clear (matrix : Np.loc) (row lead : nat) (rows : list nat) : Np.M bool :=
  match rows with
  | [] => Py.ret true
  | i :: rest =>
      if bool_decide (i ≠ row) then
        x ← Np.item matrix (Z.of_nat i) (Z.of_nat lead);
        if bool_decide (x ≠ 0) then Py.ret false
        else column_clear matrix row lead rest
      else column_clear matrix row lead rest
  end.

(** The outer [for row in range(self.N)] of [_is_reduced]; [n] is [self.N]. *)
Fixpoint reduced_loop (n : nat) (matrix : Np.loc) (rows : list nat) : Np.M bool :=
  match rows with
  | [] => Py.ret true
  | row :: rest =>
      r ← Np.row matrix (Z.of_nat row);
      match Np.lead r with
      | Some lead =>
          ok ← column_clear matrix row lead (seq 0 n);
          if ok then reduced_loop n matrix rest else Py.ret false
      | None => reduced_loop n matrix rest
      end
  end.

Definition is_reduced (n : nat) (matrix : Np.loc) : Np.M bool :=
  reduced_loop n matrix (seq 0 n).

(** [for i in range(self.N):
       if i != action and self.matrix[i, lead] != 0:
         self.matrix[i, :] = (self.matrix[i, :] + self.matrix[action, :]) % 2
         moves += 1]
    [action] is the index as the caller gave it: numpy resolves a negative
    one, the comparison [i != action] does not. *)
Fixpoint pivot_loop (sum_mod : list Z → list Z → Z → list Z)
    (matrix : Np.loc) (action : Z) (lead : nat) (rows : list nat) (moves : Z) : Np.M Z :=
  match rows with
  | [] => Py.ret moves
  | i :: rest =>
      if bool_decide (Z.of_nat i ≠ action) then
        x ← Np.item matrix (Z.of_nat i) (Z.of_nat lead);
        if bool_decide (x ≠ 0) then
          ri ← Np.row matrix (Z.of_nat i);
          ra ← Np.row matrix action;
          Np.set_row matrix (Z.of_nat i) (sum_mod ri ra 2);;
          pivot_loop sum_mod matrix action lead rest (moves + 1)
        else pivot_loop sum_mod matrix action lead rest moves
      else pivot_loop sum_mod matrix action lead rest moves
  end.

End RowChoiceLoops.

Module RowChoiceEnvironment.
Section WithFloat.
Context `{Float}.

Record t := Build {
  N : nat;
  M : nat;
  density : float;
  matrix : Np.loc
}.

Definition set_matrix (self : t) (l : Np.loc) : t :=
  Build (N self) (M self) (density self) l.

Definition action_size (self : t) : nat := N self.

Definition init (shape : nat * nat) (density : float) : Np.M t :=
  l ← Np.alloc (Np.zeros (fst shape) (snd shape));
  Py.ret (Build (fst shape) (snd shape) density l).

(** [1 * (np.random.rand(self.N, self.M) > (1 - self.density))];
    [draw i j] is the sample at [(i, j)]. *)
Definition _random_matrix (self : t) (draw : nat → nat → float) : Np.M Np.loc :=
  Np.alloc (Np.tabulate (N self) (M self)
    (λ i j, 1 * Z.b2z (fgtb (draw i j) (fsub (of_Z 1) (density self))))).

Definition _is_reduced (self : t) : Np.M bool :=
  RowChoiceLoops.is_reduced (N self) (matrix self).

Definition step (self : t) (action : Z) : Np.M (Np.loc * Z * bool) :=
  r ← Np.row (matrix self) action;
  match Np.lead r with
  | None =>
      obs ← Np.copy (matrix self);
      done ← _is_reduced self;
      Py.ret (obs, -100, done)
  | Some lead =>
      moves ← RowChoiceLoops.pivot_loop Np.add_mod (matrix self) action lead (seq 0 (N self)) 0;
      if bool_decide (moves = 0) then
        obs ← Np.copy (matrix self);
        done ← _is_reduced self;
        Py.ret (obs, -100, done)
      else
        obs ← Np.copy (matrix self);
        done ← _is_reduced self;
        Py.ret (obs, - moves, done)
  end.

(** [while self._is_reduced(): self.matrix = self._random_matrix()] *)
Fixpoint reset_loop (fuel : nat) (draws : nat → nat → nat → float) (k : nat) (self : t) : Np.M t :=
  b ← _is_reduced self;
  if b then
    match fuel with
    | O => Py.running
    | S fuel' =>
        l ← _random_matrix self (draws k);
        reset_loop fuel' draws (S k) (set_matrix self l)
    end
  else Py.ret self.

Definition reset (fuel : nat) (draws : nat → nat → nat → float) (self : t) : Np.M (t * Np.loc) :=
  l ← _random_matrix self (draws O);
  self' ← reset_loop fuel draws 1%nat (set_matrix self l);
  obs ← Np.copy (matrix self');
  Py.ret (self', obs).

(** The tuple [step] returns, as a Python value. *)
Definition returned (r : Np.loc * Z * bool) : Py.value Np.loc float :=
  let '(obs, reward, done) := r in
  Py.VTuple [Py.VArray obs; Py.VInt reward; Py.VBool done].

End WithFloat.
End RowChoiceEnvironment.

Module RowChoiceEnvironmentExtra.
Section WithFloat.
Context `{Float}.

(** [matrix] and [rows] are float64 arrays whose entries are 0.0 and 1.0;
    they are held as the integers they denote. *)
Record t := Build {
  N : nat;
  M : nat;
  density : float;
  matrix : Np.loc;
  rows : Np.loc
}.

Definition set_matrix (self : t) (l : Np.loc) : t :=
  Build (N self) (M self) (density self) l (rows self).
Definition set_rows (self : t) (l : Np.loc) : t :=
  Build (N self) (M self) (density self) (matrix self) l.

Definition action_size (self : t) : nat := N self.

(** [self.rows = np.ones(self.N)] is one-dimensional until [reset] replaces
    it, so that [self.rows[action, 0]] raises [IndexError] for every
    [action]; among two-dimensional arrays the empty one behaves so. *)
Definition init (shape : nat * nat) (density : float) : Np.M t :=
  l ← Np.alloc (Np.zeros (fst shape) (snd shape));
  r ← Np.alloc [];
  Py.ret (Build (fst shape) (snd shape) density l r).

(** [1.0 * (np.random.rand(self.N, self.M) > (1 - self.density))] *)
Definition _random_matrix (self : t) (draw : nat → nat → float) : Np.M Np.loc :=
  Np.alloc (Np.tabulate (N self) (M self)
    (λ i j, 1 * Z.b2z (fgtb (draw i j) (fsub (of_Z 1) (density self))))).

Definition _is_reduced (self : t) : Np.M bool :=
  RowChoiceLoops.is_reduced (N self) (matrix self).

(** [step] returns [((np.copy(self.rows), np.copy(self.matrix)), reward, done)]. *)
Definition step (self : t) (action : Z) : Np.M (Np.loc * Np.loc * Z * bool) :=
  is_new ← Np.item (rows self) action 0;
  Np.fill_row (rows self) action 0;;
  r ← Np.row (matrix self) action;
  match Np.lead r with
  | None =>
      obs_rows ← Np.copy (rows self);
      obs ← Np.copy (matrix self);
      done ← _is_reduced self;
      Py.ret (obs_rows, obs, 1000 * (is_new - 1), done)
  | Some lead =>
      moves ← RowChoiceLoops.pivot_loop Np.add_mod_float (matrix self) action lead (seq 0 (N self)) 0;
      if bool_decide (moves = 0) then
        obs_rows ← Np.copy (rows self);
        obs ← Np.copy (matrix self);
        done ← _is_reduced self;
        Py.ret (obs_rows, obs, 1000 * (is_new - 1), done)
      else
        obs_rows ← Np.copy (rows self);
        obs ← Np.copy (matrix self);
        done ← _is_reduced self;
        Py.ret (obs_rows, obs, - moves, done)
  end.

Fixpoint reset_loop (fuel : nat) (draws : nat → nat → nat → float) (k : nat) (self : t) : Np.M t :=
  b ← _is_reduced self;
  if b then
    match fuel with
    | O => Py.running
    | S fuel' =>
        l ← _random_matrix self (draws k);
        reset_loop fuel' draws (S k) (set_matrix self l)
    end
  else Py.ret self.

Definition reset (fuel : nat) (draws : nat → nat → nat → float) (self : t)
    : Np.M (t * (Np.loc * Np.loc)) :=
  l ← _random_matrix self (draws O);
  self' ← reset_loop fuel draws 1%nat (set_matrix self l);
  r ← Np.alloc (Np.ones (N self') 1);
  obs_rows ← Np.copy r;
  obs ← Np.copy (matrix self');
  Py.ret (set_rows self' r, (obs_rows, obs)).

Definition returned (r : Np.loc * Np.loc * Z * bool) : Py.value Np.loc float :=
  let '(obs_rows, obs, reward, done) := r in
  Py.VTuple [Py.VTuple [Py.VArray obs_rows; Py.VArray obs]; Py.VInt reward; Py.VBool done].

End WithFloat.
End RowChoiceEnvironmentExtra.

(** ** environments/atari.py: AtariEnv

    The gym environment is a collaborator: [gym] is the state of the emulator,
    [gym_step] its [step].  Images are height by width by channel arrays of
    uint8. *)

Module AtariEnv.
Abbreviation image := (list (list (list Z))).
Abbreviation frame := (list (list Z)).
Abbreviation info := (gmap string Z).

Section Gym.
Context `{Float}.
Context {gym : Type}.

Variable gym_step : gym → Z → Py.outcome (image * float * bool * info) * gym.

Record t := Build {
  env : gym;
  no_op_max : Z;
  history : option (list frame);
  lives : Z;
  reset_on_death : bool
}.

Definition set_env (self : t) (g : gym) : t :=
  Build g (no_op_max self) (history self) (lives self) (reset_on_death self).
Definition set_lives (self : t) (l : Z) : t :=
  Build (env self) (no_op_max self) (history self) l (reset_on_death self).
Definition set_history (self : t) (d : list frame) : t :=
  Build (env self) (no_op_max self) (Some d) (lives self) (reset_on_death self).

(** [l[::2]] *)
Fixpoint every_other {A} (l : list A) : list A :=
  match l with
  | x :: _ :: rest => x :: every_other rest
  | _ => l
  end.

(** [np.mean(px).astype(np.uint8)] over the channels of one pixel: the sum
    of at most a few bytes divided by their number is exact up to the
    truncation, which gives the integer quotient. *)
Definition mean_uint8 (px : list Z) : Z :=
  foldr Z.add 0 px `div` Z.of_nat (length px).

(** [np.mean(state[::2, ::2], axis=2).astype(np.uint8)] *)
Definition to_frame (state : image) : frame :=
  (λ r, mean_uint8 <$> every_other r) <$> every_other state.

Definition shape (f : frame) : nat * nat := (length f, length (default [] (head f))).

(** [np.stack(history, axis=-1)]: the stacked array is held as the list of
    its channels; frames of different shapes do not stack. *)
Definition stack (d : list frame) : Py.M t (list frame) :=
  match d with
  | [] => Py.raise Py.ValueError
  | f :: rest =>
      if forallb (λ g, bool_decide (shape g = shape f)) rest then Py.ret d
      else Py.raise Py.ValueError
  end.

(** [self.env.step(action)] *)
Definition env_step (action : Z) : Py.M t (image * float * bool * info) :=
  λ self, let '(r, g) := gym_step (env self) action in (r, set_env self g).

(** [self.history.pop(); self.history.appendleft(frame)] *)
Definition push_frame (f : frame) : Py.M t unit :=
  self ← Py.get;
  match history self with
  | None => Py.raise Py.AttributeError
  | Some [] => Py.raise Py.IndexError
  | Some (g :: d) => Py.put (set_history self (f :: removelast (g :: d)))
  end.

Definition step (action : Z) : Py.M t (list frame * float * bool * info) :=
  r ← env_step action;
  let '(state, reward, done, inf) := r in
  match inf !! "ale.lives"%string with
  | None => Py.raise Py.KeyError
  | Some l =>
      self ← Py.get;
      done ← (if bool_decide (l < lives self) && reset_on_death self
              then Py.put (set_lives self l);; Py.ret true
              else Py.ret done);
      push_frame (to_frame state);;
      self ← Py.get;
      stacked ← stack (default [] (history self));
      Py.ret (stacked, fsign reward, done, inf)
  end.

(** The tuple [step] returns, as a Python value. *)
Definition returned (r : list frame * float * bool * info) : Py.value (list frame) float :=
  let '(obs, reward, done, inf) := r in
  Py.VTuple [Py.VArray obs; Py.VFloat reward; Py.VBool done; Py.VDict inf].

(** The test [info['ale.lives'] < self.lives and self.reset_on_death] of
    [step], for the lives [l] the info reports. *)
Definition life_lost (self : t) (l : Z) : bool :=
  bool_decide (l < lives self) && reset_on_death self.

(** The frame [step] has put in front of the window it returns. *)
Definition newest (r : list frame * float * bool * info) : frame :=
  default [] (head r.1.1.1).

(** [self.env.reset()] returns the first image; [self.env.unwrapped.ale.lives()]
    reads the lives off the emulator. *)
Variable gym_reset : gym → Py.outcome image * gym.
Variable ale_lives : gym → Z.

Definition env_reset : Py.M t image :=
  λ self, let '(r, g) := gym_reset (env self) in (r, set_env self g).

(** [np.random.randint(high)], [x] being the number the generator produces;
    numpy rejects a bound that is not positive or lies beyond int64. *)
Definition randint (high x : Z) : Py.M t Z :=
  if bool_decide (0 < high ≤ 2 ^ 63) then Py.ret x else Py.raise Py.ValueError.

(** [for _ in range(no_ops): state, _, done, _ = self.step(0); if done: break] *)
Fixpoint no_ops_loop (n : nat) (state : list frame) (done : bool)
    : Py.M t (list frame * bool) :=
  match n with
  | O => Py.ret (state, done)
  | S n' =>
      r ← step 0;
      let '(state', _, done', _) := r in
      if done' then Py.ret (state', done') else no_ops_loop n' state' done'
  end.

(** The body of [reset] up to its [return]: the state and the done flag the
    [return] looks at.  [x] is the number [np.random.randint] produces. *)
Definition reset_body (x : Z) : Py.M t (list frame * bool) :=
  self ← Py.get;
  r ← (if bool_decide (lives self = 0) then
         state ← env_reset;
         self ← Py.get;
         Py.put (set_lives self (ale_lives (env self)));;
         Py.ret (state, false)
       else
         r ← env_step 0;
         let '(state, _, done, _) := r in Py.ret (state, done));
  let '(state, done) := r in
  let frame := to_frame state in
  self ← Py.get;
  Py.put (set_history self [frame; frame; frame; frame]);;
  self ← Py.get;
  state ← stack (default [] (history self));
  self ← Py.get;
  no_ops ← randint (no_op_max self) x;
  no_ops_loop (Z.to_nat no_ops) state done.

(** [return state if not done else self.reset()]; [draws k] is the number
    the generator produces in the [k]-th call of [reset].  [fuel] bounds the
    depth of the recursion, and [Running] stands for a call that has not
    returned within it (Python gives up at its own recursion limit). *)
Fixpoint reset (fuel : nat) (draws : nat → Z) (k : nat) : Py.M t (list frame) :=
  r ← reset_body (draws k);
  let '(state, done) := r in
  if done then
    match fuel with
    | O => Py.running
    | S fuel' => reset fuel' draws (S k)
    end
  else Py.ret state.

(** A caller's loop over a list of actions. *)
Fixpoint play (actions : list Z) : Py.M t (list (list frame * float * bool * info)) :=
  match actions with
  | [] => Py.ret []
  | action :: rest =>
      r ← step action;
      rs ← play rest;
      Py.ret (r :: rs)
  end.

End Gym.
End AtariEnv.

(** ** deepgroebner/networks.py: PairsLeftBaseline *)

Module PairsLeftBaseline.
Section WithFloat.
Context `{Float}.

Record t := Build { gam : float }.

(** An input array: its shape and its entries. *)
Record ndarray := Array { shape : list nat; data : list float }.

(** A Python number: [- pairs] is an [int], the other fill value a float. *)
Inductive number := Int (z : Z) | Flt (x : float).

(** [np.full((n, m), x)] *)
Definition full (n m : nat) (x : number) : list (list number) :=
  replicate n (replicate m x).

(** [self.gam ** pairs] raises [OverflowError] when the power is beyond the
    range of a double. *)
Definition predict (self : t) (X : ndarray) : Py.outcome (list (list number)) :=
  match shape X with
  | states :: pairs :: _ =>
      if feqb (gam self) (of_Z 1) then Py.Ok (full states 1 (Int (- Z.of_nat pairs)))
      else
        match fpow (gam self) pairs with
        | Some g =>
            Py.Ok (full states 1
                     (Flt (fdiv (fneg (fsub (of_Z 1) g)) (fsub (of_Z 1) (gam self)))))
        | None => Py.Raise Py.OverflowError
        end
  | _ => Py.Raise Py.ValueError
  end.

End WithFloat.
End PairsLeftBaseline.

(** ** deepgroebner/networks.py: AgentBaseline

    [predict] runs the agent on a copy of the environment it is given.  The
    environments it is meant for ([copy], [G], [P], [_matrix]) are described
    by the specification only.  Their lists are objects in a store; an
    environment object holds the addresses of its basis and pair queue, or of
    its matrix. *)

Module AgentBaseline.
Section Rollout.
Context `{Float}.
Context {Item Obs Agent : Type}.

#[local] Abbreviation store := (gmap positive (list Item)).

Inductive env :=
| Buchberger (G P : positive)
| Matrix (matrix : positive).

Definition cells (e : env) : list positive :=
  match e with
  | Buchberger G P => [G; P]
  | Matrix m => [m]
  end.

(** [self.agent.act(state)]; the agent may update itself. *)
Variable act : Agent → Obs → Z * Agent.

(** What the agent is shown of the contents of an environment:
    [(env.G, env.P)] or [env._matrix()]. *)
Variable observe : list (list Item) → Obs.

(** The transition of an environment on the contents of its own lists. *)
Variable transition : list (list Item) → Z → Py.outcome (Obs * float * bool) * list (list Item).

Definition read (l : positive) : Py.M store (list Item) :=
  λ h, match h !! l with
       | Some a => (Py.Ok a, h)
       | None => (Py.Raise Py.ReferenceError, h)
       end.

Definition write (l : positive) (a : list Item) : Py.M store unit :=
  λ h, (Py.Ok tt, <[l := a]> h).

Definition alloc (a : list Item) : Py.M store positive :=
  λ h, let l := fresh (dom h) in (Py.Ok l, <[l := a]> h).

Fixpoint read_all (ls : list positive) : Py.M store (list (list Item)) :=
  match ls with
  | [] => Py.ret []
  | l :: rest => a ← read l; r ← read_all rest; Py.ret (a :: r)
  end.

Fixpoint write_all (ls : list positive) (contents : list (list Item)) : Py.M store unit :=
  match ls, contents with
  | l :: rest, a :: r => write l a;; write_all rest r
  | _, _ => Py.ret tt
  end.

(** Modelled from the spec: [env.copy()], the method of the environments
    that is not among the sources; "a deep, independent clone of (G, P)",
    "a structural deep copy so no aliasing occurs". *)
Definition copy (e : env) : Py.M store env :=
  match e with
  | Buchberger G P =>
      g ← read G; p ← read P;
      G' ← alloc g; P' ← alloc p;
      Py.ret (Buchberger G' P')
  | Matrix m =>
      a ← read m; m' ← alloc a;
      Py.ret (Matrix m')
  end.

(** Modelled from the spec: [env.step(action)] of those environments, which
    "mutates basis/pair lists in place": the lists of the object it is
    called on, at their addresses. *)
Definition step (e : env) (action : Z) : Py.M store (Obs * float * bool) :=
  contents ← read_all (cells e);
  let '(r, contents') := transition contents action in
  write_all (cells e) contents';;
  match r with
  | Py.Ok x => Py.ret x
  | Py.Raise ex => Py.raise ex
  | Py.Running => Py.running
  end.

Record t := Build { agent : Agent; gam : float }.

(** [while not done: ...]; [done] is [False] when the loop is entered. *)
Fixpoint rollout (fuel : nat) (self : t) (ag : Agent) (e : env)
    (state : Obs) (R discount : float) : Py.M store float :=
  match fuel with
  | O => Py.running
  | S fuel' =>
      let '(action, ag') := act ag state in
      r ← step e action;
      let '(state', reward, done) := r in
      let R' := fadd R (fmul reward discount) in
      let discount' := fmul discount (gam self) in
      if done then Py.ret R'
      else rollout fuel' self ag' e state' R' discount'
  end.

Definition predict (fuel : nat) (self : t) (e : env) : Py.M store float :=
  e' ← copy e;
  contents ← read_all (cells e');
  rollout fuel self (agent self) e' (observe contents) (of_Z 0) (of_Z 1).

End Rollout.
End AgentBaseline.

(** ** deepgroebner/networks.py: MultilayerPerceptron, ParallelMultilayerPerceptron

    The keras model is a collaborator: [network_weights] is the list
    [self.network.get_weights()] returns.  [get_weights] runs on
    [self.weights], the state of its monad. *)

Module MultilayerPerceptron.

Section Weights.
Context {W : Type}.

(** [for i in range(len(network_weights)//2):
       m = network_weights[2*i]; b = network_weights[2*i + 1]
       self.weights.append((m, b))] *)
Fixpoint append_pairs (network_weights : list W) (range : list nat)
    : Py.M (list (W * W)) unit :=
  match range with
  | [] => Py.ret tt
  | i :: rest =>
      match Py.getitem network_weights (2 * Z.of_nat i) with
      | None => Py.raise Py.IndexError
      | Some m =>
          match Py.getitem network_weights (2 * Z.of_nat i + 1) with
          | None => Py.raise Py.IndexError
          | Some b =>
              weights ← Py.get;
              Py.put (weights ++ [(m, b)]);;
              append_pairs network_weights rest
          end
      end
  end.

Definition get_weights (network_weights : list W) : Py.M (list (W * W)) (list (W * W)) :=
  Py.put [];;
  append_pairs network_weights (seq 0 (length network_weights / 2));;
  Py.get.

End Weights.

Section Predict.
Context `{Float}.

(** [np.maximum] on two floats and [sc.softmax] along one row are library
    functions. *)
Variable maximum : float → float → float.
Variable softmax : list float → list float.

(** A two-dimensional float array with its shape. *)
Record ndarray := Array { nrows : nat; ncols : nat; cells : list (list float) }.

Record t := Build {
  weights : list (ndarray * list float);
  final_activation : string
}.

Definition column (m : ndarray) (j : nat) : list float :=
  (λ r, default (of_Z 0) (r !! j)) <$> cells m.

(** The sum of the products, here taken from left to right. *)
Definition inner (u v : list float) : float :=
  foldl fadd (of_Z 0) (zip_with fmul u v).

(** [np.dot(X, m)] on two-dimensional arrays *)
Definition dot (X m : ndarray) : Py.outcome ndarray :=
  if bool_decide (ncols X = nrows m)
  then Py.Ok (Array (nrows X) (ncols m)
                ((λ r : list float, (λ j, inner r (column m j)) <$> seq 0 (ncols m))
                   <$> cells X))
  else Py.Raise Py.ValueError.

(** [Y + b] for a two-dimensional [Y] and a one-dimensional [b]: numpy
    stretches an axis of length 1 to the length of the other operand. *)
Definition add_bias (Y : ndarray) (b : list float) : Py.outcome ndarray :=
  if bool_decide (length b = ncols Y)
  then Py.Ok (Array (nrows Y) (ncols Y) ((λ r, zip_with fadd r b) <$> cells Y))
  else if bool_decide (length b = 1%nat)
  then Py.Ok (Array (nrows Y) (ncols Y)
                ((λ r : list float, (λ y, fadd y (default (of_Z 0) (head b))) <$> r)
                   <$> cells Y))
  else if bool_decide (ncols Y = 1%nat)
  then Py.Ok (Array (nrows Y) (length b)
                ((λ r : list float, (λ x, fadd (default (of_Z 0) (head r)) x) <$> b)
                   <$> cells Y))
  else Py.Raise Py.ValueError.

(** [np.maximum(X, 0, X)] *)
Definition relu (Y : ndarray) : ndarray :=
  Array (nrows Y) (ncols Y)
    ((λ r : list float, (λ y, maximum y (of_Z 0)) <$> r) <$> cells Y).

(** [sc.softmax(X, axis=1)] *)
Definition softmax_rows (Y : ndarray) : ndarray :=
  Array (nrows Y) (ncols Y) (softmax <$> cells Y).

(** [for i, (m, b) in enumerate(self.weights): ...], from index [i] on. *)
Fixpoint layers (self : t) (i : nat) (rest : list (ndarray * list float)) (X : ndarray)
    : Py.outcome ndarray :=
  match rest with
  | [] => Py.Ok X
  | (m, b) :: rest' =>
      match dot X m with
      | Py.Ok Y =>
          match add_bias Y b with
          | Py.Ok Y' =>
              let X' :=
                if bool_decide (Z.of_nat i = Z.of_nat (length (weights self)) - 1) then
                  if bool_decide (final_activation self = "softmax"%string)
                  then softmax_rows Y' else Y'
                else relu Y' in
              layers self (S i) rest' X'
          | Py.Raise e => Py.Raise e
          | Py.Running => Py.Running
          end
      | Py.Raise e => Py.Raise e
      | Py.Running => Py.Running
      end
  end.

Definition predict (self : t) (X : ndarray) : Py.outcome ndarray :=
  layers self 0 (weights self) X.

End Predict.
End MultilayerPerceptron.

Module ParallelMultilayerPerceptron.

(** An array of any number of dimensions, as nested lists. *)
#[local] Unset Elimination Schemes.
Inductive tensor (Num : Type) :=
| Scalar (x : Num)
| Nested (ts : list (tensor Num)).
#[local] Set Elimination Schemes.
Arguments Scalar {Num} x.
Arguments Nested {Num} ts.

Section Weights.
Context {Num : Type}.

(** [a.squeeze(axis=0)]: a first axis of length 1 is removed, an array of
    no dimensions is returned as it is, and a first axis of any other length
    is a [ValueError]. *)
Definition squeeze0 (a : tensor Num) : Py.M (list (tensor Num * tensor Num)) (tensor Num) :=
  match a with
  | Scalar x => Py.ret (Scalar x)
  | Nested [a'] => Py.ret a'
  | Nested _ => Py.raise Py.ValueError
  end.

(** [for i in range(len(network_weights)//2):
       m = network_weights[2*i].squeeze(axis=0); b = network_weights[2*i + 1]
       self.weights.append((m, b))] *)
Fixpoint append_pairs (network_weights : list (tensor Num)) (range : list nat)
    : Py.M (list (tensor Num * tensor Num)) unit :=
  match range with
  | [] => Py.ret tt
  | i :: rest =>
      match Py.getitem network_weights (2 * Z.of_nat i) with
      | None => Py.raise Py.IndexError
      | Some k =>
          m ← squeeze0 k;
          match Py.getitem network_weights (2 * Z.of_nat i + 1) with
          | None => Py.raise Py.IndexError
          | Some b =>
              weights ← Py.get;
              Py.put (weights ++ [(m, b)]);;
              append_pairs network_weights rest
          end
      end
  end.

Definition get_weights (network_weights : list (tensor Num))
    : Py.M (list (tensor Num * tensor Num)) (list (tensor Num * tensor Num)) :=
  Py.put [];;
  append_pairs network_weights (seq 0 (length network_weights / 2));;
  Py.get.

End Weights.
End ParallelMultilayerPerceptron.

(** An instance of the float interface on the rationals, for evaluating the
    definitions on examples: exact arithmetic, and a power is out of range
    when it would round beyond the largest double. *)
Definition Qfloat : Float := {|
  float := Q;
  of_Z := inject_Z;
  fadd := Qplus;
  fsub := Qminus;
  fmul := Qmult;
  fdiv := Qdiv;
  fpow := λ q n,
    let r := Qpower q (Z.of_nat n) in
    if Qle_bool (inject_Z (2 ^ 1024 - 2 ^ 970)) (Qabs r) then None else Some r;
  fneg := Qopp;
  fsign := λ q, inject_Z (Z.sgn (Qnum q));
  feqb := Qeq_bool;
  fgtb := λ x y, negb (Qle_bool x y)
|}.

(** * Specification side

    Pure counterparts of the loops, on the contents of the matrix, and the
    predicates the theorems are stated with. *)

Module Pure.

(** An [n] by [m] array. *)
Definition shaped (n m : nat) (a : Np.ndarray) : Prop :=
  length a = n ∧ Forall (λ r, length r = m) a.

Definition row (a : Np.ndarray) (i : nat) : list Z := default [] (a !! i).
Definition entry (a : Np.ndarray) (i j : nat) : Z := default 0 (row a i !! j).

(** The loop of [_is_row_echelon], over the rows themselves. *)
Fixpoint echelon_rows (prev_lead : option Z) (rows : list (list Z)) : bool :=
  match rows with
  | [] => true
  | r :: rest =>
      match Np.lead r with
      | Some next_lead =>
          match prev_lead with
          | None => false
          | Some p =>
              if bool_decide (Z.of_nat next_lead ≤ p) then false
              else echelon_rows (Some (Z.of_nat next_lead)) rest
          end
      | None => echelon_rows None rest
      end
  end.

Definition is_row_echelon (a : Np.ndarray) : bool := echelon_rows (Some (-1)) a.

Definition add_rows (F : Z) (i j : nat) (a : Np.ndarray) : Np.ndarray :=
  <[j := Np.add_mod (row a j) (row a i) F]> a.

(** [_add_rows] on the float64 matrix of [__init__]. *)
Definition add_rows_nan (F : Z) (i j : nat) (a : Np.ndarray) : Np.ndarray :=
  <[j := Np.add_mod_nan (row a j) (row a i) F]> a.

Definition swap_rows (i j : nat) (a : Np.ndarray) : Np.ndarray :=
  <[j := row a i]> (<[i := row a j]> a).

Definition apply (F : Z) (act : RowEchelonEnvironment.kind * nat * nat) (a : Np.ndarray) : Np.ndarray :=
  match act with
  | (RowEchelonEnvironment.add, i, j) => add_rows F i j a
  | (RowEchelonEnvironment.swap, i, j) => swap_rows i j a
  end.

(** The matrix after the update of [RowEchelonEnvironment.step], for a matrix
    of dtype [dt]; [None] when the modulus does not convert to [dt]. *)
Definition updated (dt : Np.dtype) (F : Z) (act : RowEchelonEnvironment.kind * nat * nat)
    (a : Np.ndarray) : option Np.ndarray :=
  match act with
  | (RowEchelonEnvironment.swap, i, j) => Some (swap_rows i j a)
  | (RowEchelonEnvironment.add, i, j) =>
      match dt with
      | Np.int64 => if Np.fits_int64 F then Some (add_rows F i j a) else None
      | Np.float64 => if Np.fits_float64 F then Some (add_rows_nan F i j a) else None
      end
  end.

(** The inner loop of [_is_reduced]. *)
Fixpoint column_clear (a : Np.ndarray) (row lead : nat) (rows : list nat) : bool :=
  match rows with
  | [] => true
  | i :: rest =>
      if bool_decide (i ≠ row) then
        if bool_decide (entry a i lead ≠ 0) then false
        else column_clear a row lead rest
      else column_clear a row lead rest
  end.

(** The outer loop of [_is_reduced]. *)
Fixpoint reduced_rows (n : nat) (a : Np.ndarray) (rows : list nat) : bool :=
  match rows with
  | [] => true
  | r :: rest =>
      match Np.lead (row a r) with
      | Some lead =>
          if column_clear a r lead (seq 0 n) then reduced_rows n a rest else false
      | None => reduced_rows n a rest
      end
  end.

Definition is_reduced (a : Np.ndarray) : bool :=
  reduced_rows (length a) a (seq 0 (length a)).

(** The pivot loop of [step]; [p] is the row numpy resolves [action] to. *)
Fixpoint pivot (sum_mod : list Z → list Z → Z → list Z) (action : Z) (p lead : nat)
    (rows : list nat) (a : Np.ndarray) (moves : Z) : Np.ndarray * Z :=
  match rows with
  | [] => (a, moves)
  | i :: rest =>
      if bool_decide (Z.of_nat i ≠ action) then
        if bool_decide (entry a i lead ≠ 0) then
          pivot sum_mod action p lead rest (<[i := sum_mod (row a i) (row a p) 2]> a) (moves + 1)
        else pivot sum_mod action p lead rest a moves
      else pivot sum_mod action p lead rest a moves
  end.

(** The matrix and the moves counter after the loop of [step], [None] when
    the chosen row has no lead. *)
Definition pivoted (sum_mod : list Z → list Z → Z → list Z) (action : Z) (p : nat)
    (a : Np.ndarray) : option (Np.ndarray * Z) :=
  match Np.lead (row a p) with
  | Some lead => Some (pivot sum_mod action p lead (seq 0 (length a)) a 0)
  | None => None
  end.

(** The matrix after [RowChoiceEnvironment.step] and the reward. *)
Definition choice_step (action : Z) (p : nat) (a : Np.ndarray) : Np.ndarray * Z :=
  match pivoted Np.add_mod action p a with
  | None => (a, -100)
  | Some (a', moves) => (a', if bool_decide (moves = 0) then -100 else - moves)
  end.

(** The matrix after [RowChoiceEnvironmentExtra.step] and the reward;
    [is_new] is the entry of [rows] read at the start. *)
Definition extra_step (action : Z) (p : nat) (is_new : Z) (a : Np.ndarray) : Np.ndarray * Z :=
  match pivoted Np.add_mod_float action p a with
  | None => (a, 1000 * (is_new - 1))
  | Some (a', moves) => (a', if bool_decide (moves = 0) then 1000 * (is_new - 1) else - moves)
  end.

(** There is no move when the chosen row [p] is zero, or when no other row
    has an entry in the column of its lead. *)
Definition no_move (n : nat) (a : Np.ndarray) (p : nat) : Prop :=
  match Np.lead (row a p) with
  | None => True
  | Some lead => ∀ i, (i < n)%nat → i ≠ p → entry a i lead = 0
  end.

(** The matrix after [RowChoiceEnvironment.step] with each of [actions] in
    turn. *)
Definition choice_run (actions : list Z) (a : Np.ndarray) : Np.ndarray :=
  foldl (λ a action, (choice_step action (Z.to_nat action) a).1) a actions.

(** Entries in [0, F), as [np.random.randint(F, ...)] draws them. *)
Definition ranged (F : Z) (a : Np.ndarray) : Prop :=
  Forall (Forall (λ x, 0 ≤ x < F)) a.

(** The matrix after [RowEchelonEnvironment.step] with each of the action
    tuples [acts] in turn. *)
Definition echelon_run (F : Z) (acts : list (RowEchelonEnvironment.kind * nat * nat))
    (a : Np.ndarray) : Np.ndarray :=
  foldl (λ a act, apply F act a) a acts.

(** The sum of column [c] over the rows [rows]. *)
Definition colsum (a : Np.ndarray) (c : nat) (rows : list nat) : Z :=
  foldr (λ i s, entry a i c + s) 0 rows.

(** What the pivot loop needs of the row sum: it keeps the length of rows. *)
Definition keeps_length (sum_mod : list Z → list Z → Z → list Z) : Prop :=
  ∀ r1 r2 d, length r1 = length r2 → length (sum_mod r1 r2 d) = length r1.

(** Entries 0 and 1 only. *)
Definition binary (a : Np.ndarray) : Prop :=
  Forall (Forall (λ x, x = 0 ∨ x = 1)) a.

End Pure.

(** ** States and runs of the row-reduction environments

    [state_of b self h]: the object [self] with the store [h] is what a caller
    can have after [__init__] ([b = false]) and at least one [reset]
    ([b = true]), calling [step] with valid actions and doing what it likes
    with the arrays it holds, which never include the matrix of the object.
    [play] is the caller's loop over a list of actions. *)

Module RowEchelonSpec.
Import RowEchelonEnvironment.

Definition valid_action (self : t) (action : Z) : Prop :=
  0 ≤ action < Z.of_nat (action_size self).

(** What [np.random.randint(F, ...)] can produce. *)
Definition randint (F : Z) (draws : nat → nat → nat → Z) : Prop :=
  ∀ k i j, 0 ≤ draws k i j < F.

Inductive state_of : bool → t → Np.heap → Prop :=
| st_init shape modulus h0 self h :
    init shape modulus h0 = (Py.Ok self, h) → state_of false self h
| st_reset b self0 h0 fuel draws self obs h :
    state_of b self0 h0 → randint (F self0) draws →
    reset fuel draws self0 h0 = (Py.Ok (self, obs), h) → state_of true self h
| st_step b self h action r h' :
    state_of b self h → valid_action self action →
    step self action h = (Py.Ok r, h') → state_of b self h'
| st_caller b self h h' :
    state_of b self h → h' !! matrix self = h !! matrix self → state_of b self h'.

Definition reachable : t → Np.heap → Prop := state_of true.

Fixpoint play (self : t) (actions : list Z) : Np.M (list (Np.loc * Z * bool)) :=
  match actions with
  | [] => Py.ret []
  | action :: rest =>
      r ← step self action;
      rs ← play self rest;
      Py.ret (r :: rs)
  end.

(** [holds b self h held]: as [state_of], and [held] are the arrays [reset]
    and [step] have returned to the caller so far, which the caller may
    overwrite. *)
Inductive holds : bool → t → Np.heap → gset positive → Prop :=
| holds_init shape modulus h0 self h :
    init shape modulus h0 = (Py.Ok self, h) → holds false self h ∅
| holds_reset b self0 h0 held fuel draws self obs h :
    holds b self0 h0 held → randint (F self0) draws →
    reset fuel draws self0 h0 = (Py.Ok (self, obs), h) →
    holds true self h ({[obs]} ∪ held)
| holds_step b self h held action obs reward done h' :
    holds b self h held → valid_action self action →
    step self action h = (Py.Ok (obs, reward, done), h') →
    holds b self h' ({[obs]} ∪ held)
| holds_mutate b self h held l x :
    holds b self h held → l ∈ held → holds b self (<[l := x]> h) held.

Definition reward (r : Np.loc * Z * bool) : Z := r.1.2.
Definition done (r : Np.loc * Z * bool) : bool := r.2.
Definition total_reward (rs : list (Np.loc * Z * bool)) : Z :=
  foldr (λ r acc, reward r + acc) 0 rs.

End RowEchelonSpec.

Module RowChoiceSpec.
Import RowChoiceEnvironment.
Section WithFloat.
Context `{Float}.

Definition valid_action (self : t) (action : Z) : Prop :=
  0 ≤ action < Z.of_nat (action_size self).

Inductive state_of : bool → t → Np.heap → Prop :=
| st_init shape density h0 self h :
    init shape density h0 = (Py.Ok self, h) → state_of false self h
| st_reset b self0 h0 fuel draws self obs h :
    state_of b self0 h0 →
    reset fuel draws self0 h0 = (Py.Ok (self, obs), h) → state_of true self h
| st_step b self h action r h' :
    state_of b self h → valid_action self action →
    step self action h = (Py.Ok r, h') → state_of b self h'
| st_caller b self h h' :
    state_of b self h → h' !! matrix self = h !! matrix self → state_of b self h'.

Definition reachable : t → Np.heap → Prop := state_of true.

Inductive holds : bool → t → Np.heap → gset positive → Prop :=
| holds_init shape density h0 self h :
    init shape density h0 = (Py.Ok self, h) → holds false self h ∅
| holds_reset b self0 h0 held fuel draws self obs h :
    holds b self0 h0 held →
    reset fuel draws self0 h0 = (Py.Ok (self, obs), h) →
    holds true self h ({[obs]} ∪ held)
| holds_step b self h held action obs reward done h' :
    holds b self h held → valid_action self action →
    step self action h = (Py.Ok (obs, reward, done), h') →
    holds b self h' ({[obs]} ∪ held)
| holds_mutate b self h held l x :
    holds b self h held → l ∈ held → holds b self (<[l := x]> h) held.

Fixpoint play (self : t) (actions : list Z) : Np.M (list (Np.loc * Z * bool)) :=
  match actions with
  | [] => Py.ret []
  | action :: rest =>
      r ← step self action;
      rs ← play self rest;
      Py.ret (r :: rs)
  end.

End WithFloat.
End RowChoiceSpec.

Module RowChoiceExtraSpec.
Import RowChoiceEnvironmentExtra.
Section WithFloat.
Context `{Float}.

Definition valid_action (self : t) (action : Z) : Prop :=
  0 ≤ action < Z.of_nat (action_size self).

Inductive state_of : bool → t → Np.heap → Prop :=
| st_init shape density h0 self h :
    init shape density h0 = (Py.Ok self, h) → state_of false self h
| st_reset b self0 h0 fuel draws self obs h :
    state_of b self0 h0 →
    reset fuel draws self0 h0 = (Py.Ok (self, obs), h) → state_of true self h
| st_step b self h action r h' :
    state_of b self h → valid_action self action →
    step self action h = (Py.Ok r, h') → state_of b self h'
| st_caller b self h h' :
    state_of b self h →
    h' !! matrix self = h !! matrix self → h' !! rows self = h !! rows self →
    state_of b self h'.

Definition reachable : t → Np.heap → Prop := state_of true.

Inductive holds : bool → t → Np.heap → gset positive → Prop :=
| holds_init shape density h0 self h :
    init shape density h0 = (Py.Ok self, h) → holds false self h ∅
| holds_reset b self0 h0 held fuel draws self obs_rows obs h :
    holds b self0 h0 held →
    reset fuel draws self0 h0 = (Py.Ok (self, (obs_rows, obs)), h) →
    holds true self h ({[obs_rows; obs]} ∪ held)
| holds_step b self h held action obs_rows obs reward done h' :
    holds b self h held → valid_action self action →
    step self action h = (Py.Ok (obs_rows, obs, reward, done), h') →
    holds b self h' ({[obs_rows; obs]} ∪ held)
| holds_mutate b self h held l x :
    holds b self h held → l ∈ held → holds b self (<[l := x]> h) held.

End WithFloat.
End RowChoiceExtraSpec.

(** ** Shapes of the arrays of the networks *)

Module MultilayerPerceptronSpec.
Import MultilayerPerceptron.
Section WithFloat.
Context `{Float}.

(** The cells are as many rows and columns as the shape says. *)
Definition well_formed (X : ndarray) : Prop :=
  length (cells X) = nrows X ∧ Forall (λ r, length r = ncols X) (cells X).

(** Layers that fit an input of [d] columns: each kernel has as many rows as
    its input has columns, each bias as many entries as its kernel has
    columns. *)
Fixpoint fits (d : nat) (ws : list (ndarray * list float)) : Prop :=
  match ws with
  | [] => True
  | (m, b) :: rest => nrows m = d ∧ length b = ncols m ∧ fits (ncols m) rest
  end.

(** The number of columns after the layers. *)
Fixpoint out_dim (d : nat) (ws : list (ndarray * list float)) : nat :=
  match ws with
  | [] => d
  | (m, _) :: rest => out_dim (ncols m) rest
  end.

End WithFloat.

(** The pairs of a list of weights, side by side again. *)
Definition flatten {W} (ws : list (W * W)) : list W := ws ≫= λ p, [p.1; p.2].

End MultilayerPerceptronSpec.

Module ParallelMultilayerPerceptronSpec.
Import ParallelMultilayerPerceptron.

(** The array without its first axis, when that axis has length 1; an array
    of no dimensions has no axis to lose; [None] for a first axis of another
    length. *)
Definition squeezed {Num} (a : tensor Num) : option (tensor Num) :=
  match a with
  | Scalar x => Some (Scalar x)
  | Nested [a'] => Some a'
  | Nested _ => None
  end.

End ParallelMultilayerPerceptronSpec.

(** ** Concrete states, for evaluating the definitions *)

Module Examples.

(** A 2 by 1 matrix modulo 2; the generator draws [[0], [1]]. *)
Definition echelon_draws : nat → nat → nat → Z :=
  λ _ i _, if bool_decide (i = 1%nat) then 1 else 0.
Definition echelon_self0 : RowEchelonEnvironment.t :=
  RowEchelonEnvironment.Build 2 1 2 1%positive (RowEchelonEnvironment.make_action_tuples 2)
    Np.float64.
Definition echelon_heap0 : Np.heap := {[ 1%positive := [[0]; [0]] ]}.
Definition echelon_self : RowEchelonEnvironment.t :=
  RowEchelonEnvironment.Build 2 1 2 2%positive (RowEchelonEnvironment.make_action_tuples 2)
    Np.int64.
Definition echelon_heap : Np.heap :=
  <[ 3%positive := [[0]; [1]] ]> (<[ 2%positive := [[0]; [1]] ]> echelon_heap0).

(** A 3 by 2 matrix over F2 with density 1/2; the generator draws samples
    that give [[1, 1], [1, 0], [0, 0]]. *)
Definition choice_draws : nat → nat → nat → Q :=
  λ _ i j, if bool_decide ((i + j < 2)%nat) then 1%Q else 0%Q.
Definition choice_self0 : @RowChoiceEnvironment.t Qfloat :=
  @RowChoiceEnvironment.Build Qfloat 3 2 (1 # 2)%Q 1%positive.
Definition choice_heap0 : Np.heap := {[ 1%positive := [[0; 0]; [0; 0]; [0; 0]] ]}.
Definition choice_self : @RowChoiceEnvironment.t Qfloat :=
  @RowChoiceEnvironment.Build Qfloat 3 2 (1 # 2)%Q 2%positive.
Definition choice_heap : Np.heap :=
  <[ 3%positive := [[1; 1]; [1; 0]; [0; 0]] ]>
    (<[ 2%positive := [[1; 1]; [1; 0]; [0; 0]] ]> choice_heap0).

Definition extra_self0 : @RowChoiceEnvironmentExtra.t Qfloat :=
  @RowChoiceEnvironmentExtra.Build Qfloat 3 2 (1 # 2)%Q 1%positive 2%positive.
Definition extra_heap0 : Np.heap :=
  <[ 2%positive := [] ]> {[ 1%positive := [[0; 0]; [0; 0]; [0; 0]] ]}.
Definition extra_self : @RowChoiceEnvironmentExtra.t Qfloat :=
  @RowChoiceEnvironmentExtra.Build Qfloat 3 2 (1 # 2)%Q 3%positive 4%positive.
Definition extra_heap : Np.heap :=
  <[ 6%positive := [[1; 1]; [1; 0]; [0; 0]] ]>
    (<[ 5%positive := [[1]; [1]; [1]] ]>
       (<[ 4%positive := [[1]; [1]; [1]] ]>
          (<[ 3%positive := [[1; 1]; [1; 0]; [0; 0]] ]> extra_heap0))).

(** A gym environment that always shows the same 2 by 2 image with three
    channels, pays 5 and reports 3 lives; the wrapper holds four 1 by 1
    frames. *)
Definition atari_image : AtariEnv.image :=
  [[[10; 20; 30]; [1; 2; 3]]; [[4; 5; 6]; [7; 8; 9]]].
Definition atari_gym_step (g : nat) (action : Z)
    : Py.outcome (AtariEnv.image * Q * bool * AtariEnv.info) * nat :=
  (Py.Ok (atari_image, 5%Q, false, {[ "ale.lives"%string := 3 ]}), S g).
Definition atari_self : @AtariEnv.t nat :=
  AtariEnv.Build 0%nat 30 (Some [[[0]]; [[0]]; [[0]]; [[0]]]) 3 true.

(** An environment whose step drops the first pair of the queue and pays -1,
    done when the queue is empty; an agent that always picks the first pair. *)
Definition baseline_act (ag : unit) (state : nat) : Z * unit := (0, tt).
Definition baseline_observe (contents : list (list Z)) : nat :=
  length (default [] (contents !! 1%nat)).
Definition baseline_transition (contents : list (list Z)) (action : Z)
    : Py.outcome (nat * Q * bool) * list (list Z) :=
  match contents with
  | [g; p] => (Py.Ok (length (tail p), (-1)%Q, bool_decide (tail p = [])), [g; tail p])
  | _ => (Py.Raise Py.ValueError, contents)
  end.
Definition baseline_store : gmap positive (list Z) :=
  <[ 2%positive := [7; 8] ]> {[ 1%positive := [10; 20] ]}.
Definition baseline_env : AgentBaseline.env := AgentBaseline.Buchberger 1 2.
Definition baseline_self : @AgentBaseline.t Qfloat unit :=
  @AgentBaseline.Build Qfloat unit tt (99 # 100)%Q.

(** Draws of which the first gives the zero matrix and the later ones
    [[0], [1]]. *)
Definition echelon_late_draws : nat → nat → nat → Z :=
  λ k i _, if bool_decide (k = 0%nat) then 0 else if bool_decide (i = 1%nat) then 1 else 0.

(** Environments with a single row. *)
Definition echelon_one_row : RowEchelonEnvironment.t :=
  RowEchelonEnvironment.Build 1 3 5 1%positive (RowEchelonEnvironment.make_action_tuples 1)
    Np.float64.
Definition choice_one_row : @RowChoiceEnvironment.t Qfloat :=
  @RowChoiceEnvironment.Build Qfloat 1 2 (1 # 2)%Q 1%positive.

(** The store after the steps 0 and 1 from [choice_heap]: the matrix is
    reduced. *)
Definition choice_reduced_heap : Np.heap :=
  <[ 5%positive := [[1; 0]; [0; 1]; [0; 0]] ]>
    (<[ 4%positive := [[1; 1]; [0; 1]; [0; 0]] ]>
       (<[ 3%positive := [[1; 1]; [1; 0]; [0; 0]] ]>
          (<[ 2%positive := [[1; 0]; [0; 1]; [0; 0]] ]> choice_heap0))).

(** The emulator of [atari_gym_step], reset: the same image, 3 lives. *)
Definition atari_gym_reset (g : nat) : Py.outcome AtariEnv.image * nat :=
  (Py.Ok atari_image, O).
Definition atari_ale_lives (g : nat) : Z := 3.
(** The wrapper as [__init__] leaves it, with [no_op_max] 30 and 0. *)
Definition atari_new : @AtariEnv.t nat := AtariEnv.Build 0%nat 30 None 0 true.
Definition atari_no_noops : @AtariEnv.t nat := AtariEnv.Build 0%nat 0 None 0 true.

(** A wrapper without [reset_on_death] that holds 3 lives, and an emulator
    whose reset fails. *)
Definition atari_keep_lives : @AtariEnv.t nat :=
  AtariEnv.Build 0%nat 30 (Some [[[0]]; [[0]]; [[0]]; [[0]]]) 3 false.
Definition atari_gym_reset_fails (g : nat) : Py.outcome AtariEnv.image * nat :=
  (Py.Raise Py.ValueError, g).

(** A perceptron with layers 2 -> 3 -> 1 and a batch of two rows; the
    maximum of two rationals, and a row normalised by its sum standing in
    for [sc.softmax]. *)
Definition mlp_maximum (x y : Q) : Q := if Qle_bool x y then y else x.
Definition mlp_softmax (r : list Q) : list Q := (λ x, Qdiv x (foldr Qplus 0%Q r)) <$> r.
Definition mlp_batch : @MultilayerPerceptron.ndarray Qfloat :=
  @MultilayerPerceptron.Array Qfloat 2 2 [[1%Q; 2%Q]; [3%Q; 4%Q]].
Definition mlp_self : @MultilayerPerceptron.t Qfloat :=
  @MultilayerPerceptron.Build Qfloat
    [(@MultilayerPerceptron.Array Qfloat 2 3 [[1%Q; 0%Q; 1%Q]; [0%Q; 1%Q; 1%Q]],
      [0%Q; 0%Q; 0%Q]);
     (@MultilayerPerceptron.Array Qfloat 3 1 [[1%Q]; [1%Q]; [1%Q]], [0%Q])]
    "softmax".

(** The weights of a network with two layers: kernels with a first axis of
    length 1, and the same with the second kernel's first axis of length 2;
    and a kernel of no dimensions with its bias. *)
Definition parallel_weights_flat : list (ParallelMultilayerPerceptron.tensor Z) :=
  [ParallelMultilayerPerceptron.Scalar 7;
   ParallelMultilayerPerceptron.Nested [ParallelMultilayerPerceptron.Scalar 2]].
Definition parallel_weights : list (ParallelMultilayerPerceptron.tensor Z) :=
  [ParallelMultilayerPerceptron.Nested
     [ParallelMultilayerPerceptron.Nested [ParallelMultilayerPerceptron.Scalar 1]];
   ParallelMultilayerPerceptron.Nested [ParallelMultilayerPerceptron.Scalar 2];
   ParallelMultilayerPerceptron.Nested
     [ParallelMultilayerPerceptron.Nested [ParallelMultilayerPerceptron.Scalar 3]];
   ParallelMultilayerPerceptron.Nested [ParallelMultilayerPerceptron.Scalar 4]].
Definition parallel_weights_wide : list (ParallelMultilayerPerceptron.tensor Z) :=
  [ParallelMultilayerPerceptron.Nested
     [ParallelMultilayerPerceptron.Nested [ParallelMultilayerPerceptron.Scalar 1]];
   ParallelMultilayerPerceptron.Nested [ParallelMultilayerPerceptron.Scalar 2];
   ParallelMultilayerPerceptron.Nested
     [ParallelMultilayerPerceptron.Nested [ParallelMultilayerPerceptron.Scalar 3];
      ParallelMultilayerPerceptron.Nested [ParallelMultilayerPerceptron.Scalar 5]];
   ParallelMultilayerPerceptron.Nested [ParallelMultilayerPerceptron.Scalar 4]].

(** The 2 by 1 matrix of [echelon_self] with the largest modulus
    [np.random.randint] accepts, before and after [reset]; and a modulus
    that is too large for a double. *)
Definition echelon_wide_self0 : RowEchelonEnvironment.t :=
  RowEchelonEnvironment.Build 2 1 (2 ^ 63) 1%positive
    (RowEchelonEnvironment.make_action_tuples 2) Np.float64.
Definition echelon_wide_self : RowEchelonEnvironment.t :=
  RowEchelonEnvironment.Build 2 1 (2 ^ 63) 2%positive
    (RowEchelonEnvironment.make_action_tuples 2) Np.int64.
Definition echelon_huge_self0 : RowEchelonEnvironment.t :=
  RowEchelonEnvironment.Build 2 1 (10 ^ 400) 1%positive
    (RowEchelonEnvironment.make_action_tuples 2) Np.float64.

(** A baseline with [gam] 1.5 and an input with 2000 pairs. *)
Definition pairs_steep : @PairsLeftBaseline.t Qfloat :=
  @PairsLeftBaseline.Build Qfloat (3 # 2)%Q.
Definition pairs_long : @PairsLeftBaseline.ndarray Qfloat :=
  @PairsLeftBaseline.Array Qfloat [1; 2000]%nat [].

(** An environment that pays -1 for every step and never reports done. *)
Definition baseline_endless (contents : list (list Z)) (action : Z)
    : Py.outcome (nat * Q * bool) * list (list Z) :=
  (Py.Ok (O, (-1)%Q, false), contents).

End Examples.

(** * Proofs *)

(** ** The monad and the array primitives *)

Section Primitives.
Context {S : Type}.

Lemma bind_Ok {A B} (c : Py.M S A) (k : A → Py.M S B) s a s' :
  c s = (Py.Ok a, s') → Py.bind c k s = k a s'.
Proof. intros Hc. unfold Py.bind. by rewrite Hc. Qed.

Lemma bind_Raise {A B} (c : Py.M S A) (k : A → Py.M S B) s e s' :
  c s = (Py.Raise e, s') → Py.bind c k s = (Py.Raise e, s').
Proof. intros Hc. unfold Py.bind. by rewrite Hc. Qed.

Lemma bind_Running {A B} (c : Py.M S A) (k : A → Py.M S B) s s' :
  c s = (Py.Running, s') → Py.bind c k s = (Py.Running, s').
Proof. intros Hc. unfold Py.bind. by rewrite Hc. Qed.

(** A run of [bind] that returns went through a returning first part. *)
Lemma bind_inv_Ok {A B} (c : Py.M S A) (k : A → Py.M S B) s b s2 :
  Py.bind c k s = (Py.Ok b, s2) →
  ∃ a s1, c s = (Py.Ok a, s1) ∧ k a s1 = (Py.Ok b, s2).
Proof.
  unfold Py.bind. destruct (c s) as [[a | e |] s1]; intros Hk; try discriminate.
  by exists a, s1.
Qed.
End Primitives.

Lemma norm_index_nat (n i : nat) : (i < n)%nat → Py.norm_index n (Z.of_nat i) = Some i.
Proof.
  intros Hi. unfold Py.norm_index.
  rewrite bool_decide_eq_true_2 by lia. by rewrite Nat2Z.id.
Qed.

Lemma norm_index_lt n i k : Py.norm_index n i = Some k → (k < n)%nat.
Proof.
  unfold Py.norm_index. repeat case_bool_decide; intros [= <-]; lia.
Qed.

Lemma norm_index_None n i : Py.norm_index n i = None ↔ (i < - Z.of_nat n ∨ Z.of_nat n ≤ i).
Proof.
  unfold Py.norm_index. repeat case_bool_decide; split; intros; try done; lia.
Qed.

Lemma getitem_nat {A} (l : list A) (i : nat) x :
  l !! i = Some x → Py.getitem l (Z.of_nat i) = Some x.
Proof.
  intros Hx. unfold Py.getitem.
  rewrite norm_index_nat by (by eapply lookup_lt_Some). done.
Qed.

Lemma getitem_None {A} (l : list A) i :
  Py.getitem l i = None ↔ (i < - Z.of_nat (length l) ∨ Z.of_nat (length l) ≤ i).
Proof.
  unfold Py.getitem. rewrite <- norm_index_None.
  destruct (Py.norm_index (length l) i) as [k|] eqn:Hk; simpl; [|done].
  apply norm_index_lt in Hk. apply lookup_lt_is_Some_2 in Hk as [x ->]. done.
Qed.

Section Arrays.
Implicit Types (h : Np.heap) (l : Np.loc) (a : Np.ndarray).

Lemma read_Ok h l a : h !! l = Some a → Np.read l h = (Py.Ok a, h).
Proof. intros Hl. unfold Np.read. by rewrite Hl. Qed.

Lemma row_Ok h l a (i : nat) r :
  h !! l = Some a → a !! i = Some r → Np.row l (Z.of_nat i) h = (Py.Ok r, h).
Proof.
  intros Hl Hr. unfold Np.row. rewrite (bind_Ok _ _ _ _ _ (read_Ok _ _ _ Hl)).
  by rewrite (getitem_nat _ _ _ Hr).
Qed.

Lemma item_Ok h l a (i j : nat) r x :
  h !! l = Some a → a !! i = Some r → r !! j = Some x →
  Np.item l (Z.of_nat i) (Z.of_nat j) h = (Py.Ok x, h).
Proof.
  intros Hl Hr Hx. unfold Np.item. rewrite (bind_Ok _ _ _ _ _ (row_Ok _ _ _ _ _ Hl Hr)).
  by rewrite (getitem_nat _ _ _ Hx).
Qed.

Lemma set_row_Ok h l a (i : nat) r :
  h !! l = Some a → (i < length a)%nat →
  Np.set_row l (Z.of_nat i) r h = (Py.Ok tt, <[l := <[i := r]> a]> h).
Proof.
  intros Hl Hi. unfold Np.set_row. rewrite (bind_Ok _ _ _ _ _ (read_Ok _ _ _ Hl)).
  by rewrite norm_index_nat.
Qed.

Lemma copy_Ok h l a :
  h !! l = Some a → Np.copy l h = (Py.Ok (fresh (dom h)), <[fresh (dom h) := a]> h).
Proof.
  intros Hl. unfold Np.copy. by rewrite (bind_Ok _ _ _ _ _ (read_Ok _ _ _ Hl)).
Qed.

Lemma fresh_not_in h l : is_Some (h !! l) → fresh (dom h) ≠ l.
Proof.
  intros Hl%elem_of_dom Heq. rewrite <- Heq in Hl. by apply is_fresh in Hl.
Qed.

Lemma fresh_lookup h : h !! fresh (dom h) = None.
Proof. apply not_elem_of_dom, is_fresh. Qed.

Lemma dom_overwrite h l a a' : h !! l = Some a → dom (<[l := a']> h) = dom h.
Proof.
  intros Hl. rewrite dom_insert_L. apply elem_of_dom_2 in Hl.
  apply subseteq_union_1_L. by apply singleton_subseteq_l.
Qed.
End Arrays.

(** ** RowEchelonEnvironment: the methods on the contents of the matrix *)

Section RowEchelon.
Import RowEchelonEnvironment.
Implicit Types (self : t) (h : Np.heap) (a : Np.ndarray).

Lemma row_lookup a i r : a !! i = Some r → Pure.row a i = r.
Proof. unfold Pure.row. by intros ->. Qed.

Lemma echelon_loop_Ok self h a :
  h !! matrix self = Some a →
  ∀ rows k prev, drop k a = rows →
    echelon_loop self (seq k (length rows)) prev h = (Py.Ok (Pure.echelon_rows prev rows), h).
Proof.
  intros Hl. induction rows as [|r rest IH]; intros k prev Hd; [done|].
  assert (Hk : a !! k = Some r).
  { rewrite <- (Nat.add_0_r k), <- lookup_drop, Hd. done. }
  assert (Hrest : drop (Datatypes.S k) a = rest).
  { rewrite (drop_S _ _ _ Hk) in Hd. by injection Hd. }
  cbn [length seq echelon_loop Pure.echelon_rows].
  rewrite (bind_Ok _ _ _ _ _ (row_Ok _ _ _ _ _ Hl Hk)).
  destruct (Np.lead r) as [nl|]; [|by apply IH].
  destruct prev as [p|]; [|done].
  case_bool_decide; [done|]. by apply IH.
Qed.

Lemma is_row_echelon_Ok self h a :
  h !! matrix self = Some a → length a = N self →
  _is_row_echelon self h = (Py.Ok (Pure.is_row_echelon a), h).
Proof.
  intros Hl Hn. unfold _is_row_echelon. rewrite <- Hn.
  by apply (echelon_loop_Ok self h a Hl a O).
Qed.

(** [_add_rows] assigns the sum, or raises [OverflowError] before it has
    assigned anything. *)
Lemma add_rows_cases self h a i j :
  h !! matrix self = Some a → (i < length a)%nat → (j < length a)%nat →
  _add_rows self (i, j) h =
    match Pure.updated (dtype self) (F self) (add, i, j) a with
    | Some a' => (Py.Ok tt, <[matrix self := a']> h)
    | None => (Py.Raise Py.OverflowError, h)
    end.
Proof.
  intros Hl Hi Hj.
  destruct (lookup_lt_is_Some_2 _ _ Hi) as [ri Hri].
  destruct (lookup_lt_is_Some_2 _ _ Hj) as [rj Hrj].
  unfold _add_rows, Pure.updated, Pure.add_rows, Pure.add_rows_nan. cbn [fst snd].
  rewrite (bind_Ok _ _ _ _ _ (row_Ok _ _ _ _ _ Hl Hrj)).
  rewrite (bind_Ok _ _ _ _ _ (row_Ok _ _ _ _ _ Hl Hri)).
  rewrite (row_lookup _ _ _ Hri), (row_lookup _ _ _ Hrj).
  unfold sum_mod.
  destruct (dtype self);
    [destruct (Np.fits_int64 (F self)) | destruct (Np.fits_float64 (F self))];
    try done; unfold Py.bind, Py.ret; by rewrite (set_row_Ok _ _ _ _ _ Hl Hj).
Qed.

Lemma swap_rows_Ok self h a i j :
  h !! matrix self = Some a → (i < length a)%nat → (j < length a)%nat →
  _swap_rows self (i, j) h = (Py.Ok tt, <[matrix self := Pure.swap_rows i j a]> h).
Proof.
  intros Hl Hi Hj.
  destruct (lookup_lt_is_Some_2 _ _ Hi) as [ri Hri].
  destruct (lookup_lt_is_Some_2 _ _ Hj) as [rj Hrj].
  unfold _swap_rows, Pure.swap_rows. cbn [fst snd].
  rewrite (bind_Ok _ _ _ _ _ (row_Ok _ _ _ _ _ Hl Hrj)).
  rewrite (bind_Ok _ _ _ _ _ (row_Ok _ _ _ _ _ Hl Hri)).
  rewrite (bind_Ok _ _ _ _ _ (set_row_Ok _ _ _ _ _ Hl Hi)).
  rewrite (set_row_Ok _ (matrix self) (<[i := rj]> a) j ri).
  - rewrite insert_insert_eq.
    by rewrite (row_lookup _ _ _ Hri), (row_lookup _ _ _ Hrj).
  - apply lookup_insert_eq.
  - by rewrite length_insert.
Qed.

(** The tuples of [action_tuples] name rows of the matrix. *)
Lemma make_action_tuples_bound n k i j :
  (k, i, j) ∈ make_action_tuples n → (i < n)%nat ∧ (j < n)%nat ∧ i ≠ j.
Proof.
  unfold make_action_tuples. rewrite elem_of_app. intros [Hin | Hin].
  - apply list_elem_of_bind in Hin as (i' & Hin & Hi').
    apply list_elem_of_bind in Hin as (j' & Hin & Hj').
    apply list_elem_of_singleton in Hin. injection Hin as _ -> ->.
    apply elem_of_seq in Hi', Hj'. lia.
  - apply list_elem_of_bind in Hin as (i' & Hin & Hi').
    apply list_elem_of_bind in Hin as (j' & Hin & Hj').
    apply list_elem_of_singleton in Hin. injection Hin as _ -> ->.
    apply list_elem_of_filter in Hj' as [Hne Hj'].
    apply elem_of_seq in Hi', Hj'. lia.
Qed.

Lemma apply_length F act a : length (Pure.apply F act a) = length a.
Proof.
  destruct act as [[[] i] j]; unfold Pure.apply, Pure.add_rows, Pure.swap_rows;
    by rewrite !length_insert.
Qed.

Lemma updated_length dt F act a a' : Pure.updated dt F act a = Some a' → length a' = length a.
Proof.
  destruct act as [[[] i] j]; unfold Pure.updated.
  - intros [= <-]. unfold Pure.swap_rows. by rewrite !length_insert.
  - destruct dt; [destruct (Np.fits_int64 F) | destruct (Np.fits_float64 F)];
      intros [= <-]; unfold Pure.add_rows, Pure.add_rows_nan; by rewrite ?length_insert.
Qed.

(** On an int64 matrix a modulus within int64 is taken as it is. *)
Lemma updated_int64 F act a :
  - 2 ^ 63 ≤ F < 2 ^ 63 → Pure.updated Np.int64 F act a = Some (Pure.apply F act a).
Proof.
  intros HF. destruct act as [[[] i] j]; [done|]. unfold Pure.updated, Np.fits_int64.
  by rewrite bool_decide_eq_true_2.
Qed.

Lemma updated_int64_inv F act a a' :
  Pure.updated Np.int64 F act a = Some a' → a' = Pure.apply F act a.
Proof.
  destruct act as [[[] i] j]; unfold Pure.updated; [by intros [= <-]|].
  destruct (Np.fits_int64 F); [by intros [= <-]|done].
Qed.

(** [step] with an action that names two rows: the update, the copy and the
    predicate, or the [OverflowError] of the update. *)
Lemma echelon_step_cases self h a action k i j :
  h !! matrix self = Some a → length a = N self →
  Py.getitem (action_tuples self) action = Some (k, i, j) →
  (i < N self)%nat → (j < N self)%nat →
  step self action h =
    match Pure.updated (dtype self) (F self) (k, i, j) a with
    | Some a' =>
        (Py.Ok (fresh (dom h), -1, Pure.is_row_echelon a'),
         <[fresh (dom h) := a']> (<[matrix self := a']> h))
    | None => (Py.Raise Py.OverflowError, h)
    end.
Proof.
  intros Hl Hn Hact Hi Hj. unfold step. rewrite Hact.
  assert (Hupd : (match k with add => _add_rows self (i, j) | swap => _swap_rows self (i, j) end) h
                 = match Pure.updated (dtype self) (F self) (k, i, j) a with
                   | Some a' => (Py.Ok tt, <[matrix self := a']> h)
                   | None => (Py.Raise Py.OverflowError, h)
                   end).
  { destruct k; [apply swap_rows_Ok | apply add_rows_cases]; (done || lia). }
  destruct (Pure.updated (dtype self) (F self) (k, i, j) a) as [a'|] eqn:Hup;
    [|by rewrite (bind_Raise _ _ _ _ _ Hupd)].
  rewrite (bind_Ok _ _ _ _ _ Hupd).
  assert (Hl' : <[matrix self := a']> h !! matrix self = Some a') by apply lookup_insert_eq.
  rewrite (bind_Ok _ _ _ _ _ (copy_Ok _ _ _ Hl')).
  rewrite (dom_overwrite _ _ _ _ Hl).
  assert (Hl2 : <[fresh (dom h) := a']> (<[matrix self := a']> h) !! matrix self = Some a').
  { rewrite lookup_insert_ne; [done|]. apply fresh_not_in. by rewrite Hl. }
  assert (Hn' : length a' = N self) by (by rewrite (updated_length _ _ _ _ _ Hup)).
  by rewrite (bind_Ok _ _ _ _ _ (is_row_echelon_Ok self _ a' Hl2 Hn')).
Qed.

End RowEchelon.

(** ** The loops of the row-choice environments on the contents of the matrix *)

Section RowChoiceLoops.
Implicit Types (h : Np.heap) (l : Np.loc) (a : Np.ndarray).

Lemma shaped_lookup n m a i r : Pure.shaped n m a → a !! i = Some r → length r = m.
Proof.
  intros [_ Hall] Hr. by apply (Forall_lookup_1 _ _ _ _ Hall Hr).
Qed.

Lemma shaped_row n m a i : Pure.shaped n m a → (i < n)%nat → a !! i = Some (Pure.row a i).
Proof.
  intros [Hn _] Hi. unfold Pure.row.
  destruct (lookup_lt_is_Some_2 a i) as [r ->]; [lia|done].
Qed.

Lemma shaped_row_length n m a i :
  Pure.shaped n m a → (i < n)%nat → length (Pure.row a i) = m.
Proof.
  intros Hs Hi. apply (shaped_lookup n m a i); [done|]. by apply (shaped_row n m).
Qed.

Lemma shaped_entry n m a i j :
  Pure.shaped n m a → (i < n)%nat → (j < m)%nat →
  Pure.row a i !! j = Some (Pure.entry a i j).
Proof.
  intros Hs Hi Hj. unfold Pure.entry.
  destruct (lookup_lt_is_Some_2 (Pure.row a i) j) as [x ->]; [|done].
  by rewrite (shaped_row_length n m).
Qed.

Lemma shaped_insert n m a i r :
  Pure.shaped n m a → length r = m → Pure.shaped n m (<[i := r]> a).
Proof.
  intros [Hn Hall] Hr. split; [by rewrite length_insert|].
  by apply Forall_insert.
Qed.

Lemma lead_lt r k : Np.lead r = Some k → (k < length r)%nat.
Proof.
  unfold Np.lead. destruct (list_find _ r) as [[i x]|] eqn:Hf; [|done].
  intros [= <-]. apply list_find_Some in Hf as (Hi & _). by apply lookup_lt_Some in Hi.
Qed.

Lemma row_Z_Ok h l a action p :
  h !! l = Some a → Py.norm_index (length a) action = Some p →
  Np.row l action h = (Py.Ok (Pure.row a p), h).
Proof.
  intros Hl Hp. unfold Np.row. rewrite (bind_Ok _ _ _ _ _ (read_Ok _ _ _ Hl)).
  unfold Py.getitem. rewrite Hp. simpl.
  destruct (lookup_lt_is_Some_2 a p (norm_index_lt _ _ _ Hp)) as [r Hr].
  by rewrite (row_lookup _ _ _ Hr), Hr.
Qed.

Lemma item_shaped_Ok h l n m a i j :
  h !! l = Some a → Pure.shaped n m a → (i < n)%nat → (j < m)%nat →
  Np.item l (Z.of_nat i) (Z.of_nat j) h = (Py.Ok (Pure.entry a i j), h).
Proof.
  intros Hl Hs Hi Hj.
  apply (item_Ok h l a i j (Pure.row a i)); [done| |].
  - by apply (shaped_row n m).
  - by apply (shaped_entry n m).
Qed.

Lemma column_clear_Ok h l n m a row lead rows :
  h !! l = Some a → Pure.shaped n m a → (lead < m)%nat →
  Forall (λ i, (i < n)%nat) rows →
  RowChoiceLoops.column_clear l row lead rows h
  = (Py.Ok (Pure.column_clear a row lead rows), h).
Proof.
  intros Hl Hs Hlead. induction 1 as [|i rest Hi _ IH]; [done|].
  cbn [RowChoiceLoops.column_clear Pure.column_clear].
  case_bool_decide; [|done].
  rewrite (bind_Ok _ _ _ _ _ (item_shaped_Ok _ _ _ _ _ _ _ Hl Hs Hi Hlead)).
  by case_bool_decide.
Qed.

Lemma Forall_seq_lt n : Forall (λ i, (i < n)%nat) (seq 0 n).
Proof. apply Forall_forall. intros i Hi%elem_of_seq. lia. Qed.

Lemma reduced_loop_Ok h l n m a rows :
  h !! l = Some a → Pure.shaped n m a →
  Forall (λ i, (i < n)%nat) rows →
  RowChoiceLoops.reduced_loop n l rows h = (Py.Ok (Pure.reduced_rows n a rows), h).
Proof.
  intros Hl Hs. induction 1 as [|i rest Hi _ IH]; [done|].
  cbn [RowChoiceLoops.reduced_loop Pure.reduced_rows].
  rewrite (bind_Ok _ _ _ _ _ (row_Ok _ _ _ _ _ Hl (shaped_row _ _ _ _ Hs Hi))).
  destruct (Np.lead (Pure.row a i)) as [lead|] eqn:Hlead; [|done].
  assert (Hlt : (lead < m)%nat).
  { apply lead_lt in Hlead. by rewrite (shaped_row_length n m) in Hlead. }
  rewrite (bind_Ok _ _ _ _ _
    (column_clear_Ok _ _ _ _ _ i lead _ Hl Hs Hlt (Forall_seq_lt n))).
  by destruct (Pure.column_clear a i lead (seq 0 n)).
Qed.

Lemma is_reduced_Ok h l n m a :
  h !! l = Some a → Pure.shaped n m a →
  RowChoiceLoops.is_reduced n l h = (Py.Ok (Pure.is_reduced a), h).
Proof.
  intros Hl Hs. unfold RowChoiceLoops.is_reduced, Pure.is_reduced.
  destruct Hs as [Hn Hall]. rewrite Hn.
  by apply (reduced_loop_Ok h l n m a), Forall_seq_lt.
Qed.

Lemma add_mod_keeps_length : Pure.keeps_length Np.add_mod.
Proof. intros r1 r2 d Hr. unfold Np.add_mod. rewrite length_zip_with. lia. Qed.

Lemma add_mod_float_keeps_length : Pure.keeps_length Np.add_mod_float.
Proof. intros r1 r2 d Hr. unfold Np.add_mod_float. rewrite length_zip_with. lia. Qed.

Lemma pivot_shaped sum_mod action p lead n m rows :
  Pure.keeps_length sum_mod → (p < n)%nat → Forall (λ i, (i < n)%nat) rows →
  ∀ a moves, Pure.shaped n m a →
    Pure.shaped n m (Pure.pivot sum_mod action p lead rows a moves).1.
Proof.
  intros Hk Hp. induction 1 as [|i rest Hi _ IH]; intros a moves Hs; [done|].
  cbn [Pure.pivot]. repeat case_bool_decide; try by apply IH.
  apply IH, shaped_insert; [done|].
  rewrite Hk; rewrite !(shaped_row_length n m) by done; done.
Qed.

Lemma pivot_loop_Ok sum_mod l action p lead n m rows :
  Pure.keeps_length sum_mod → (lead < m)%nat → Forall (λ i, (i < n)%nat) rows →
  ∀ h a moves, h !! l = Some a → Pure.shaped n m a → Py.norm_index n action = Some p →
    RowChoiceLoops.pivot_loop sum_mod l action lead rows moves h
    = (Py.Ok (Pure.pivot sum_mod action p lead rows a moves).2,
       <[l := (Pure.pivot sum_mod action p lead rows a moves).1]> h).
Proof.
  intros Hk Hlead. induction 1 as [|i rest Hi _ IH]; intros h a moves Hl Hs Hp.
  { cbn. by rewrite insert_id. }
  cbn [RowChoiceLoops.pivot_loop Pure.pivot].
  case_bool_decide; [|by apply IH].
  rewrite (bind_Ok _ _ _ _ _ (item_shaped_Ok _ _ _ _ _ _ _ Hl Hs Hi Hlead)).
  case_bool_decide; [|by apply IH].
  rewrite (bind_Ok _ _ _ _ _ (row_Ok _ _ _ _ _ Hl (shaped_row _ _ _ _ Hs Hi))).
  assert (Hp' : Py.norm_index (length a) action = Some p) by (by rewrite (proj1 Hs)).
  rewrite (bind_Ok _ _ _ _ _ (row_Z_Ok _ _ _ _ _ Hl Hp')).
  assert (Hi' : (i < length a)%nat) by (by rewrite (proj1 Hs)).
  rewrite (bind_Ok _ _ _ _ _ (set_row_Ok _ _ _ _ _ Hl Hi')).
  set (a1 := <[i := sum_mod (Pure.row a i) (Pure.row a p) 2]> a).
  assert (Hs1 : Pure.shaped n m a1).
  { apply shaped_insert; [done|]. apply norm_index_lt in Hp.
    rewrite Hk; rewrite !(shaped_row_length n m) by done; done. }
  rewrite (IH (<[l := a1]> h) a1 (moves + 1) (lookup_insert_eq _ _ _) Hs1 Hp).
  by rewrite insert_insert_eq.
Qed.
End RowChoiceLoops.

(** ** Shapes of the arrays the environments build *)

Section Shapes.
Lemma tabulate_shaped n m f : Pure.shaped n m (Np.tabulate n m f).
Proof.
  unfold Np.tabulate. split.
  - by rewrite length_fmap, length_seq.
  - apply Forall_fmap, Forall_forall. intros i _. simpl.
    by rewrite length_fmap, length_seq.
Qed.

Lemma zeros_shaped n m : Pure.shaped n m (Np.zeros n m).
Proof.
  unfold Np.zeros. split; [by rewrite length_replicate|].
  apply Forall_replicate. by rewrite length_replicate.
Qed.

Lemma ones_shaped n m : Pure.shaped n m (Np.ones n m).
Proof.
  unfold Np.ones. split; [by rewrite length_replicate|].
  apply Forall_replicate. by rewrite length_replicate.
Qed.

Lemma alloc_Ok (h : Np.heap) a :
  Np.alloc a h = (Py.Ok (fresh (dom h)), <[fresh (dom h) := a]> h).
Proof. done. Qed.

Lemma alloc_subseteq (h : Np.heap) a : h ⊆ <[fresh (dom h) := a]> h.
Proof. apply insert_subseteq, fresh_lookup. Qed.
End Shapes.

(** ** RowEchelonEnvironment: reset, and what holds of every state *)

Section RowEchelonStates.
Import RowEchelonEnvironment RowEchelonSpec.
Implicit Types (self : t) (h : Np.heap) (a : Np.ndarray).

Lemma apply_shaped n m F k i j a :
  Pure.shaped n m a → (i < n)%nat → (j < n)%nat →
  Pure.shaped n m (Pure.apply F (k, i, j) a).
Proof.
  intros Hs Hi Hj.
  destruct k; unfold Pure.apply, Pure.swap_rows, Pure.add_rows.
  - apply shaped_insert; [apply shaped_insert; [done|]|];
      by apply (shaped_row_length n m).
  - apply shaped_insert; [done|].
    rewrite add_mod_keeps_length; rewrite !(shaped_row_length n m); done.
Qed.

Lemma add_mod_nan_keeps_length : Pure.keeps_length Np.add_mod_nan.
Proof. intros r1 r2 d Hlen. unfold Np.add_mod_nan. rewrite length_zip_with. lia. Qed.

Lemma updated_shaped n m dt F k i j a a' :
  Pure.shaped n m a → (i < n)%nat → (j < n)%nat →
  Pure.updated dt F (k, i, j) a = Some a' → Pure.shaped n m a'.
Proof.
  intros Hs Hi Hj. destruct k; unfold Pure.updated.
  - intros [= <-]. by apply (apply_shaped n m F swap).
  - destruct dt; [destruct (Np.fits_int64 F) | destruct (Np.fits_float64 F)];
      intros [= <-]; [by apply (apply_shaped n m F add)|].
    unfold Pure.add_rows_nan. apply shaped_insert; [done|].
    rewrite add_mod_nan_keeps_length; rewrite !(shaped_row_length n m); done.
Qed.

Lemma echelon_reset_loop_Ok fuel draws :
  ∀ k self h a self' h',
    dtype self = Np.int64 →
    h !! matrix self = Some a → length a = N self →
    reset_loop fuel draws k self h = (Py.Ok self', h') →
    ∃ a', h' !! matrix self' = Some a'
          ∧ Pure.is_row_echelon a' = false
          ∧ (a' = a ∨ ∃ k', a' = Np.tabulate (N self) (M self) (draws k'))
          ∧ h ⊆ h'
          ∧ self' = set_matrix self (matrix self')
          ∧ (matrix self' = matrix self ∨ h !! matrix self' = None).
Proof.
  induction fuel as [|fuel IH]; intros k self h a self' h' Hdt Hl Hn Hrun.
  - cbn [reset_loop] in Hrun.
    rewrite (bind_Ok _ _ _ _ _ (is_row_echelon_Ok _ _ _ Hl Hn)) in Hrun.
    destruct (Pure.is_row_echelon a) eqn:Ha; [done|].
    injection Hrun as <- <-. exists a. destruct self. simpl in Hdt. subst. naive_solver.
  - cbn [reset_loop] in Hrun.
    rewrite (bind_Ok _ _ _ _ _ (is_row_echelon_Ok _ _ _ Hl Hn)) in Hrun.
    destruct (Pure.is_row_echelon a) eqn:Ha.
    2:{ injection Hrun as <- <-. exists a. destruct self. simpl in Hdt. subst. naive_solver. }
    unfold _random_matrix in Hrun. case_bool_decide; [|done].
    rewrite (bind_Ok _ _ _ _ _ (alloc_Ok _ _)) in Hrun.
    apply (IH _ _ _ (Np.tabulate (N self) (M self) (draws k))) in Hrun
      as (a' & Hl' & He & Ha' & Hsub & Hself & Hm).
    + exists a'. split_and!; [done|done| | | |].
      * right. destruct Ha' as [-> | Ha']; [by exists k|done].
      * etrans; [apply alloc_subseteq|done].
      * rewrite Hself. by destruct self.
      * right. destruct Hm as [-> | Hm]; [apply fresh_lookup|].
        destruct (h !! matrix self') eqn:Hh; [|done].
        eapply lookup_weaken in Hh; [|apply alloc_subseteq]. by rewrite Hh in Hm.
    + done.
    + apply lookup_insert_eq.
    + apply tabulate_shaped.
Qed.

Lemma echelon_reset_Ok fuel draws self h self' obs h' :
  reset fuel draws self h = (Py.Ok (self', obs), h') →
  ∃ a' k', a' = Np.tabulate (N self) (M self) (draws k')
    ∧ h' !! matrix self' = Some a' ∧ h' !! obs = Some a' ∧ obs ≠ matrix self'
    ∧ Pure.is_row_echelon a' = false
    ∧ h ⊆ h' ∧ self' = set_matrix self (matrix self')
    ∧ h !! matrix self' = None ∧ h !! obs = None
    ∧ 0 < F self ≤ 2 ^ 63.
Proof.
  unfold reset, _random_matrix. intros Hrun. case_bool_decide as HF; [|done].
  rewrite (bind_Ok _ _ _ _ _ (alloc_Ok _ _)) in Hrun.
  apply bind_inv_Ok in Hrun as (self1 & h1 & Hloop & Hrun).
  apply (echelon_reset_loop_Ok _ _ _ _ _ (Np.tabulate (N self) (M self) (draws O))) in Hloop
    as (a' & Hl' & He & Ha' & Hsub & Hself & Hm);
    [|done|apply lookup_insert_eq|apply tabulate_shaped].
  rewrite (bind_Ok _ _ _ _ _ (copy_Ok _ _ _ Hl')) in Hrun.
  injection Hrun as <- <- <-.
  assert (Hne : fresh (dom h1) ≠ matrix self1) by (apply fresh_not_in; by rewrite Hl').
  assert (Hk : ∃ k', a' = Np.tabulate (N self) (M self) (draws k')).
  { destruct Ha' as [-> | Hk]; [by exists O|done]. }
  destruct Hk as [k' Hk]. exists a', k'. split_and!.
  - done.
  - by rewrite lookup_insert_ne.
  - apply lookup_insert_eq.
  - done.
  - done.
  - etrans; [apply alloc_subseteq|]. etrans; [apply Hsub|apply alloc_subseteq].
  - rewrite Hself. by destruct self.
  - destruct Hm as [Hm | Hm].
    + rewrite Hm. apply fresh_lookup.
    + eapply lookup_weaken_None; [apply Hm|apply alloc_subseteq].
  - eapply lookup_weaken_None; [apply fresh_lookup|].
    etrans; [apply alloc_subseteq|apply Hsub].
  - tauto.
  - tauto.
Qed.

(** The matrix of the object is an [N] by [M] array in the store, and the
    actions are those [__init__] listed. *)
Lemma echelon_state_of_inv b self h :
  state_of b self h →
  ∃ a, h !! matrix self = Some a ∧ Pure.shaped (N self) (M self) a
       ∧ action_tuples self = make_action_tuples (N self).
Proof.
  induction 1 as [shape modulus h0 self h Hinit
                 |b self0 h0 fuel draws self obs h _ IH _ Hreset
                 |b self h action r h' _ IH Hact Hstep
                 |b self h h' _ IH Hsame].
  - unfold init in Hinit. rewrite (bind_Ok _ _ _ _ _ (alloc_Ok _ _)) in Hinit.
    injection Hinit as <- <-. eexists. split; [apply lookup_insert_eq|].
    split; [apply zeros_shaped|done].
  - destruct IH as (a0 & _ & _ & Hacts).
    apply echelon_reset_Ok in Hreset as (a' & k' & -> & Hl' & _ & _ & _ & _ & -> & _).
    eexists. split; [done|]. split; [apply tabulate_shaped|done].
  - destruct IH as (a & Hl & Hs & Hacts).
    unfold step in Hstep.
    destruct (Py.getitem (action_tuples self) action) as [[[k i] j]|] eqn:Hget; [|done].
    assert (Hb : (i < N self)%nat ∧ (j < N self)%nat ∧ i ≠ j).
    { apply (make_action_tuples_bound _ k). rewrite <- Hacts.
      unfold Py.getitem in Hget. destruct (Py.norm_index _ _) as [p|]; [|done].
      by apply list_elem_of_lookup_2 in Hget. }
    destruct Hb as (Hi & Hj & _).
    pose proof (echelon_step_cases self h a action k i j Hl (proj1 Hs) Hget Hi Hj) as Hok.
    unfold step in Hok. rewrite Hget in Hok.
    rewrite Hok in Hstep.
    destruct (Pure.updated (dtype self) (F self) (k, i, j) a) as [a'|] eqn:Hup; [|done].
    injection Hstep as <- <-.
    exists a'. split; [|split; [|done]].
    + rewrite lookup_insert_ne; [apply lookup_insert_eq|].
      apply fresh_not_in. by rewrite Hl.
    + by apply (updated_shaped _ _ (dtype self) (F self) k i j a).
  - destruct IH as (a & Hl & Hs & Hacts). exists a. by rewrite Hsame.
Qed.

Lemma echelon_valid_action_getitem self action :
  action_tuples self = make_action_tuples (N self) → valid_action self action →
  ∃ k i j, Py.getitem (action_tuples self) action = Some (k, i, j)
           ∧ (i < N self)%nat ∧ (j < N self)%nat.
Proof.
  intros Hacts [H0 Hlt]. unfold action_size in Hlt.
  destruct (lookup_lt_is_Some_2 (action_tuples self) (Z.to_nat action)) as [[[k i] j] Hx]; [lia|].
  exists k, i, j. split.
  - rewrite <- (Z2Nat.id action) by done. by apply getitem_nat.
  - apply list_elem_of_lookup_2 in Hx. rewrite Hacts in Hx.
    apply make_action_tuples_bound in Hx. tauto.
Qed.

(** After [reset] the matrix is an int64 array, and the modulus one that
    [np.random.randint] accepts; before, the matrix is the float64 array of
    [__init__]. *)
Lemma echelon_state_dtype b self h :
  state_of b self h →
  if b then dtype self = Np.int64 ∧ 0 < F self ≤ 2 ^ 63 else dtype self = Np.float64.
Proof.
  induction 1 as [shape modulus h0 self h Hinit
                 |b self0 h0 fuel draws self obs h _ IH _ Hreset
                 |b self h action r h' _ IH Hact Hstep
                 |b self h h' _ IH Hsame]; [|
                 |done|done].
  - unfold init in Hinit. rewrite (bind_Ok _ _ _ _ _ (alloc_Ok _ _)) in Hinit.
    by injection Hinit as <- <-.
  - apply echelon_reset_Ok in Hreset as (a' & k' & _ & _ & _ & _ & _ & _ & -> & _ & _ & HF).
    done.
Qed.

(** [step] on a state the caller can have, with a valid action. *)
Lemma echelon_step_any b self h action :
  state_of b self h → valid_action self action →
  ∃ a k i j,
    h !! matrix self = Some a ∧ Pure.shaped (N self) (M self) a
    ∧ Py.getitem (action_tuples self) action = Some (k, i, j)
    ∧ step self action h =
        match Pure.updated (dtype self) (F self) (k, i, j) a with
        | Some a' =>
            (Py.Ok (fresh (dom h), -1, Pure.is_row_echelon a'),
             <[fresh (dom h) := a']> (<[matrix self := a']> h))
        | None => (Py.Raise Py.OverflowError, h)
        end.
Proof.
  intros (a & Hl & Hs & Hacts)%echelon_state_of_inv Hact.
  destruct (echelon_valid_action_getitem _ _ Hacts Hact) as (k & i & j & Hget & Hi & Hj).
  exists a, k, i, j. split_and!; [done..|].
  by apply echelon_step_cases; [|apply Hs|..].
Qed.

(** [step] with an action whose update does what [Pure.apply] does. *)
Lemma echelon_step_exact b self h action act :
  state_of b self h → valid_action self action →
  Py.getitem (action_tuples self) action = Some act →
  (∀ a, Pure.updated (dtype self) (F self) act a = Some (Pure.apply (F self) act a)) →
  ∃ a,
    h !! matrix self = Some a ∧ Pure.shaped (N self) (M self) a
    ∧ step self action h =
        (Py.Ok (fresh (dom h), -1, Pure.is_row_echelon (Pure.apply (F self) act a)),
         <[fresh (dom h) := Pure.apply (F self) act a]>
           (<[matrix self := Pure.apply (F self) act a]> h)).
Proof.
  intros Hst Hact Hget Hex.
  destruct (echelon_step_any _ _ _ _ Hst Hact) as (a & k & i & j & Hl & Hs & Hget' & Hstep).
  rewrite Hget in Hget'. injection Hget' as ->.
  exists a. split_and!; [done..|]. by rewrite Hstep, Hex.
Qed.

(** After [reset], with a modulus below [2 ^ 63], [step] returns. *)
Lemma echelon_step_state self h action :
  reachable self h → F self < 2 ^ 63 → valid_action self action →
  ∃ a k i j,
    h !! matrix self = Some a ∧ Pure.shaped (N self) (M self) a
    ∧ Py.getitem (action_tuples self) action = Some (k, i, j)
    ∧ step self action h =
        (Py.Ok (fresh (dom h), -1, Pure.is_row_echelon (Pure.apply (F self) (k, i, j) a)),
         <[fresh (dom h) := Pure.apply (F self) (k, i, j) a]>
           (<[matrix self := Pure.apply (F self) (k, i, j) a]> h)).
Proof.
  intros Hst HF Hact.
  destruct (echelon_state_dtype _ _ _ Hst) as [Hdt HF0].
  destruct (echelon_step_any _ _ _ _ Hst Hact) as (a & k & i & j & Hl & Hs & Hget & Hstep).
  exists a, k, i, j. split_and!; [done..|].
  rewrite Hstep, Hdt, updated_int64; [done|lia].
Qed.
End RowEchelonStates.

(** ** RowChoiceEnvironment: step, reset, and what holds of every state *)

Section RowChoiceStates.
Import RowChoiceEnvironment RowChoiceSpec.
Context `{Float}.
Implicit Types (self : t) (h : Np.heap) (a : Np.ndarray).

Lemma pivoted_shaped sum_mod action p n m a a' moves :
  Pure.keeps_length sum_mod → Pure.shaped n m a → (p < n)%nat →
  Pure.pivoted sum_mod action p a = Some (a', moves) → Pure.shaped n m a'.
Proof.
  intros Hk Hs Hp. unfold Pure.pivoted.
  destruct (Np.lead (Pure.row a p)) as [lead|]; [|done].
  intros [= Hpiv]. rewrite (proj1 Hs) in Hpiv.
  pose proof (pivot_shaped sum_mod action p lead n m (seq 0 n) Hk Hp
                (Forall_seq_lt n) a 0 Hs) as Hs'.
  by rewrite Hpiv in Hs'.
Qed.

Lemma choice_step_shaped action p n m a :
  Pure.shaped n m a → (p < n)%nat → Pure.shaped n m (Pure.choice_step action p a).1.
Proof.
  intros Hs Hp. unfold Pure.choice_step.
  destruct (Pure.pivoted Np.add_mod action p a) as [[a' moves]|] eqn:Hpiv; [|done].
  by apply (pivoted_shaped _ _ _ _ _ _ _ _ add_mod_keeps_length Hs Hp Hpiv).
Qed.

Lemma choice_step_Ok self h a action p :
  h !! matrix self = Some a → Pure.shaped (N self) (M self) a →
  Py.norm_index (N self) action = Some p →
  step self action h =
    (Py.Ok (fresh (dom h), (Pure.choice_step action p a).2,
            Pure.is_reduced (Pure.choice_step action p a).1),
     <[fresh (dom h) := (Pure.choice_step action p a).1]>
       (<[matrix self := (Pure.choice_step action p a).1]> h)).
Proof.
  intros Hl Hs Hp. unfold step.
  assert (Hp' : Py.norm_index (length a) action = Some p) by (by rewrite (proj1 Hs)).
  rewrite (bind_Ok _ _ _ _ _ (row_Z_Ok _ _ _ _ _ Hl Hp')).
  assert (Hfin : ∀ a' (reward : Z), Pure.shaped (N self) (M self) a' →
    (obs ← Np.copy (matrix self); done ← _is_reduced self; Py.ret (obs, reward, done))
      (<[matrix self := a']> h)
    = (Py.Ok (fresh (dom h), reward, Pure.is_reduced a'),
       <[fresh (dom h) := a']> (<[matrix self := a']> h))).
  { intros a' reward Hs'.
    assert (Hl' : <[matrix self := a']> h !! matrix self = Some a') by apply lookup_insert_eq.
    rewrite (bind_Ok _ _ _ _ _ (copy_Ok _ _ _ Hl')). rewrite (dom_overwrite _ _ _ _ Hl).
    assert (Hl2 : <[fresh (dom h) := a']> (<[matrix self := a']> h) !! matrix self = Some a').
    { rewrite lookup_insert_ne; [done|]. apply fresh_not_in. by rewrite Hl. }
    unfold _is_reduced. by rewrite (bind_Ok _ _ _ _ _ (is_reduced_Ok _ _ _ _ _ Hl2 Hs')). }
  unfold Pure.choice_step, Pure.pivoted.
  destruct (Np.lead (Pure.row a p)) as [lead|] eqn:Hlead.
  - assert (Hlt : (lead < M self)%nat).
    { apply lead_lt in Hlead. apply norm_index_lt in Hp.
      by rewrite (shaped_row_length _ _ _ _ Hs Hp) in Hlead. }
    rewrite (bind_Ok _ _ _ _ _
      (pivot_loop_Ok Np.add_mod _ action p lead _ _ _ add_mod_keeps_length Hlt
         (Forall_seq_lt _) h a 0 Hl Hs Hp)).
    rewrite (proj1 Hs).
    pose proof (pivot_shaped Np.add_mod action p lead _ (M self) (seq 0 (N self))
                  add_mod_keeps_length (norm_index_lt _ _ _ Hp) (Forall_seq_lt _) a 0 Hs) as Hs'.
    destruct (Pure.pivot Np.add_mod action p lead (seq 0 (N self)) a 0) as [a' moves].
    cbn [fst snd] in *. case_bool_decide; by apply Hfin.
  - cbn [fst snd]. rewrite <- (insert_id h (matrix self) a Hl) at 1. by apply Hfin.
Qed.

Lemma row_Raise h l a action :
  h !! l = Some a → Py.norm_index (length a) action = None →
  Np.row l action h = (Py.Raise Py.IndexError, h).
Proof.
  intros Hl Hp. unfold Np.row. rewrite (bind_Ok _ _ _ _ _ (read_Ok _ _ _ Hl)).
  unfold Py.getitem. by rewrite Hp.
Qed.

Lemma choice_step_Raise self h a action :
  h !! matrix self = Some a → length a = N self →
  Py.norm_index (N self) action = None →
  step self action h = (Py.Raise Py.IndexError, h).
Proof.
  intros Hl Hn Hp. unfold step. rewrite <- Hn in Hp.
  by rewrite (bind_Raise _ _ _ _ _ (row_Raise _ _ _ _ Hl Hp)).
Qed.

Lemma choice_reset_loop_Ok fuel draws :
  ∀ k self h a self' h',
    h !! matrix self = Some a → Pure.shaped (N self) (M self) a →
    reset_loop fuel draws k self h = (Py.Ok self', h') →
    ∃ a', h' !! matrix self' = Some a'
          ∧ Pure.is_reduced a' = false
          ∧ (a' = a ∨ ∃ draw, a' = Np.tabulate (N self) (M self) (λ i j, 1 * Z.b2z (draw i j)))
          ∧ h ⊆ h'
          ∧ self' = set_matrix self (matrix self')
          ∧ (matrix self' = matrix self ∨ h !! matrix self' = None).
Proof.
  induction fuel as [|fuel IH]; intros k self h a self' h' Hl Hs Hrun.
  - cbn [reset_loop] in Hrun. unfold _is_reduced in Hrun.
    rewrite (bind_Ok _ _ _ _ _ (is_reduced_Ok _ _ _ _ _ Hl Hs)) in Hrun.
    destruct (Pure.is_reduced a) eqn:Ha; [done|].
    injection Hrun as <- <-. exists a. destruct self. naive_solver.
  - cbn [reset_loop] in Hrun. unfold _is_reduced in Hrun.
    rewrite (bind_Ok _ _ _ _ _ (is_reduced_Ok _ _ _ _ _ Hl Hs)) in Hrun.
    destruct (Pure.is_reduced a) eqn:Ha.
    2:{ injection Hrun as <- <-. exists a. destruct self. naive_solver. }
    unfold _random_matrix in Hrun.
    rewrite (bind_Ok _ _ _ _ _ (alloc_Ok _ _)) in Hrun.
    eapply IH in Hrun as (a' & Hl' & He & Ha' & Hsub & Hself & Hm);
      [|apply lookup_insert_eq|apply tabulate_shaped].
    exists a'. split_and!; [done|done| | | |].
    + right. destruct Ha' as [-> | Ha']; [|done]. by eexists (λ i j, fgtb _ _).
    + etrans; [apply alloc_subseteq|done].
    + rewrite Hself. by destruct self.
    + right. destruct Hm as [Hm | Hm].
      * rewrite Hm. apply fresh_lookup.
      * eapply lookup_weaken_None; [apply Hm|apply alloc_subseteq].
Qed.

Lemma choice_reset_Ok fuel draws self h self' obs h' :
  reset fuel draws self h = (Py.Ok (self', obs), h') →
  ∃ a' draw, a' = Np.tabulate (N self) (M self) (λ i j, 1 * Z.b2z (draw i j))
    ∧ h' !! matrix self' = Some a' ∧ h' !! obs = Some a' ∧ obs ≠ matrix self'
    ∧ Pure.is_reduced a' = false
    ∧ h ⊆ h' ∧ self' = set_matrix self (matrix self')
    ∧ h !! matrix self' = None ∧ h !! obs = None.
Proof.
  unfold reset, _random_matrix. intros Hrun.
  rewrite (bind_Ok _ _ _ _ _ (alloc_Ok _ _)) in Hrun.
  apply bind_inv_Ok in Hrun as (self1 & h1 & Hloop & Hrun).
  eapply choice_reset_loop_Ok in Hloop as (a' & Hl' & He & Ha' & Hsub & Hself & Hm);
    [|apply lookup_insert_eq|apply tabulate_shaped].
  rewrite (bind_Ok _ _ _ _ _ (copy_Ok _ _ _ Hl')) in Hrun.
  injection Hrun as <- <- <-.
  assert (Hne : fresh (dom h1) ≠ matrix self1) by (apply fresh_not_in; by rewrite Hl').
  assert (Hk : ∃ draw, a' = Np.tabulate (N self) (M self) (λ i j, 1 * Z.b2z (draw i j))).
  { destruct Ha' as [-> | Hk]; [|done]. by eexists (λ i j, fgtb _ _). }
  destruct Hk as [draw Hk]. exists a', draw. split_and!.
  - done.
  - by rewrite lookup_insert_ne.
  - apply lookup_insert_eq.
  - done.
  - done.
  - etrans; [apply alloc_subseteq|]. etrans; [apply Hsub|apply alloc_subseteq].
  - rewrite Hself. by destruct self.
  - destruct Hm as [Hm | Hm].
    + rewrite Hm. apply fresh_lookup.
    + eapply lookup_weaken_None; [apply Hm|apply alloc_subseteq].
  - eapply lookup_weaken_None; [apply fresh_lookup|].
    etrans; [apply alloc_subseteq|apply Hsub].
Qed.

Lemma choice_valid_action_index self action :
  valid_action self action → Py.norm_index (N self) action = Some (Z.to_nat action).
Proof.
  intros [H0 Hlt]. unfold action_size in Hlt.
  rewrite <- (Z2Nat.id action) at 1 by done. apply norm_index_nat. lia.
Qed.

(** The matrix of the object is an [N] by [M] array in the store. *)
Lemma choice_state_of_inv b self h :
  state_of b self h →
  ∃ a, h !! matrix self = Some a ∧ Pure.shaped (N self) (M self) a.
Proof.
  induction 1 as [shape density h0 self h Hinit
                 |b self0 h0 fuel draws self obs h _ IH Hreset
                 |b self h action r h' _ IH Hact Hstep
                 |b self h h' _ IH Hsame].
  - unfold init in Hinit. rewrite (bind_Ok _ _ _ _ _ (alloc_Ok _ _)) in Hinit.
    injection Hinit as <- <-. eexists. split; [apply lookup_insert_eq|].
    apply zeros_shaped.
  - apply choice_reset_Ok in Hreset as (a' & k' & -> & Hl' & _ & _ & _ & _ & -> & _).
    eexists. split; [done|]. apply tabulate_shaped.
  - destruct IH as (a & Hl & Hs).
    rewrite (choice_step_Ok _ _ _ _ _ Hl Hs (choice_valid_action_index _ _ Hact)) in Hstep.
    injection Hstep as <- <-. eexists. split.
    + rewrite lookup_insert_ne; [apply lookup_insert_eq|].
      apply fresh_not_in. by rewrite Hl.
    + apply choice_step_shaped; [done|]. destruct Hact. unfold action_size in *. lia.
  - destruct IH as (a & Hl & Hs). exists a. by rewrite Hsame.
Qed.

(** [step] on a state the caller can have, with a valid action. *)
Lemma choice_step_state b self h action :
  state_of b self h → valid_action self action →
  ∃ a, h !! matrix self = Some a ∧ Pure.shaped (N self) (M self) a
    ∧ step self action h =
        (Py.Ok (fresh (dom h), (Pure.choice_step action (Z.to_nat action) a).2,
                Pure.is_reduced (Pure.choice_step action (Z.to_nat action) a).1),
         <[fresh (dom h) := (Pure.choice_step action (Z.to_nat action) a).1]>
           (<[matrix self := (Pure.choice_step action (Z.to_nat action) a).1]> h)).
Proof.
  intros (a & Hl & Hs)%choice_state_of_inv Hact. exists a. split_and!; [done..|].
  by apply choice_step_Ok, choice_valid_action_index.
Qed.
End RowChoiceStates.

(** ** RowChoiceEnvironmentExtra: step, reset, and what holds of every state *)

Section RowChoiceExtraStates.
Import RowChoiceEnvironmentExtra RowChoiceExtraSpec.
Context `{Float}.
Implicit Types (self : t) (h : Np.heap) (a rw : Np.ndarray).

Lemma item_Z_Ok h l n m a i p (j : nat) :
  h !! l = Some a → Pure.shaped n m a → Py.norm_index n i = Some p → (j < m)%nat →
  Np.item l i (Z.of_nat j) h = (Py.Ok (Pure.entry a p j), h).
Proof.
  intros Hl Hs Hp Hj. unfold Np.item.
  assert (Hp' : Py.norm_index (length a) i = Some p) by (by rewrite (proj1 Hs)).
  rewrite (bind_Ok _ _ _ _ _ (row_Z_Ok _ _ _ _ _ Hl Hp')).
  apply norm_index_lt in Hp.
  by rewrite (getitem_nat _ _ _ (shaped_entry _ _ _ _ _ Hs Hp Hj)).
Qed.

Lemma fill_row_Ok h l n m a i p x :
  h !! l = Some a → Pure.shaped n m a → Py.norm_index n i = Some p →
  Np.fill_row l i x h = (Py.Ok tt, <[l := <[p := replicate m x]> a]> h).
Proof.
  intros Hl Hs Hp. unfold Np.fill_row.
  assert (Hp' : Py.norm_index (length a) i = Some p) by (by rewrite (proj1 Hs)).
  rewrite (bind_Ok _ _ _ _ _ (row_Z_Ok _ _ _ _ _ Hl Hp')).
  unfold Np.set_row. rewrite (bind_Ok _ _ _ _ _ (read_Ok _ _ _ Hl)), Hp'.
  by rewrite (shaped_row_length _ _ _ _ Hs (norm_index_lt _ _ _ Hp)).
Qed.

Lemma extra_step_shaped action p is_new n m a :
  Pure.shaped n m a → (p < n)%nat → Pure.shaped n m (Pure.extra_step action p is_new a).1.
Proof.
  intros Hs Hp. unfold Pure.extra_step.
  destruct (Pure.pivoted Np.add_mod_float action p a) as [[a' moves]|] eqn:Hpiv; [|done].
  by apply (pivoted_shaped _ _ _ _ _ _ _ _ add_mod_float_keeps_length Hs Hp Hpiv).
Qed.

Lemma extra_step_Ok self h a rw action p :
  h !! matrix self = Some a → Pure.shaped (N self) (M self) a →
  h !! rows self = Some rw → Pure.shaped (N self) 1 rw →
  rows self ≠ matrix self →
  Py.norm_index (N self) action = Some p →
  let o1 := fresh (dom h) in
  let o2 := fresh ({[o1]} ∪ dom h) in
  let rw' := <[p := [0]]> rw in
  let res := Pure.extra_step action p (Pure.entry rw p 0) a in
  step self action h =
    (Py.Ok (o1, o2, res.2, Pure.is_reduced res.1),
     <[o2 := res.1]> (<[o1 := rw']> (<[matrix self := res.1]> (<[rows self := rw']> h)))).
Proof.
  intros Hl Hs Hr Hsr Hne Hp o1 o2 rw' res. unfold step.
  rewrite (bind_Ok _ _ _ _ _ (item_Z_Ok _ _ _ _ _ _ _ O Hr Hsr Hp Nat.lt_0_1)).
  rewrite (bind_Ok _ _ _ _ _ (fill_row_Ok _ _ _ _ _ _ _ 0 Hr Hsr Hp)).
  change (replicate 1 0) with [0]. fold rw'.
  set (h1 := <[rows self := rw']> h).
  assert (Hl1 : h1 !! matrix self = Some a) by (subst h1; by rewrite lookup_insert_ne).
  assert (Hd1 : dom h1 = dom h) by apply (dom_overwrite _ _ _ _ Hr).
  assert (Hp' : Py.norm_index (length a) action = Some p) by (by rewrite (proj1 Hs)).
  rewrite (bind_Ok _ _ _ _ _ (row_Z_Ok _ _ _ _ _ Hl1 Hp')).
  assert (Hfin : ∀ a' (reward : Z), Pure.shaped (N self) (M self) a' →
    (obs_rows ← Np.copy (rows self); obs ← Np.copy (matrix self);
     done ← _is_reduced self; Py.ret (obs_rows, obs, reward, done))
      (<[matrix self := a']> h1)
    = (Py.Ok (o1, o2, reward, Pure.is_reduced a'),
       <[o2 := a']> (<[o1 := rw']> (<[matrix self := a']> h1)))).
  { intros a' reward Hs'. set (h2 := <[matrix self := a']> h1).
    assert (Hr2 : h2 !! rows self = Some rw').
    { subst h2 h1. rewrite lookup_insert_ne by done. apply lookup_insert_eq. }
    assert (Hd2 : dom h2 = dom h).
    { subst h2. by rewrite (dom_overwrite _ _ _ _ Hl1). }
    rewrite (bind_Ok _ _ _ _ _ (copy_Ok _ _ _ Hr2)). rewrite Hd2. fold o1.
    assert (Ho1 : o1 ≠ matrix self).
    { subst o1. apply fresh_not_in. by rewrite Hl. }
    assert (Hl3 : <[o1 := rw']> h2 !! matrix self = Some a').
    { rewrite lookup_insert_ne by done. apply lookup_insert_eq. }
    rewrite (bind_Ok _ _ _ _ _ (copy_Ok _ _ _ Hl3)).
    rewrite dom_insert_L, Hd2. fold o2.
    assert (Hl4 : <[o2 := a']> (<[o1 := rw']> h2) !! matrix self = Some a').
    { rewrite lookup_insert_ne; [done|]. subst o2.
      intros Heq. apply (is_fresh ({[o1]} ∪ dom h)). rewrite Heq.
      apply elem_of_union_r, elem_of_dom. by rewrite Hl. }
    unfold _is_reduced. by rewrite (bind_Ok _ _ _ _ _ (is_reduced_Ok _ _ _ _ _ Hl4 Hs')). }
  subst res. unfold Pure.extra_step, Pure.pivoted.
  destruct (Np.lead (Pure.row a p)) as [lead|] eqn:Hlead.
  - assert (Hlt : (lead < M self)%nat).
    { apply lead_lt in Hlead. apply norm_index_lt in Hp.
      by rewrite (shaped_row_length _ _ _ _ Hs Hp) in Hlead. }
    rewrite (bind_Ok _ _ _ _ _
      (pivot_loop_Ok Np.add_mod_float _ action p lead _ _ _ add_mod_float_keeps_length Hlt
         (Forall_seq_lt _) h1 a 0 Hl1 Hs Hp)).
    rewrite (proj1 Hs).
    pose proof (pivot_shaped Np.add_mod_float action p lead _ (M self) (seq 0 (N self))
                  add_mod_float_keeps_length (norm_index_lt _ _ _ Hp) (Forall_seq_lt _) a 0 Hs)
      as Hs'.
    destruct (Pure.pivot Np.add_mod_float action p lead (seq 0 (N self)) a 0) as [a' moves].
    cbn [fst snd] in *. case_bool_decide; by apply Hfin.
  - cbn [fst snd]. rewrite <- (insert_id h1 (matrix self) a Hl1) at 1. by apply Hfin.
Qed.
End RowChoiceExtraStates.

Section RowChoiceExtraReset.
Import RowChoiceEnvironmentExtra RowChoiceExtraSpec.
Context `{Float}.
Implicit Types (self : t) (h : Np.heap) (a rw : Np.ndarray).

Lemma extra_reset_loop_Ok fuel draws :
  ∀ k self h a self' h',
    h !! matrix self = Some a → Pure.shaped (N self) (M self) a →
    reset_loop fuel draws k self h = (Py.Ok self', h') →
    ∃ a', h' !! matrix self' = Some a'
          ∧ Pure.is_reduced a' = false
          ∧ (a' = a ∨ ∃ draw, a' = Np.tabulate (N self) (M self) (λ i j, 1 * Z.b2z (draw i j)))
          ∧ h ⊆ h'
          ∧ self' = set_matrix self (matrix self')
          ∧ (matrix self' = matrix self ∨ h !! matrix self' = None).
Proof.
  induction fuel as [|fuel IH]; intros k self h a self' h' Hl Hs Hrun.
  - cbn [reset_loop] in Hrun. unfold _is_reduced in Hrun.
    rewrite (bind_Ok _ _ _ _ _ (is_reduced_Ok _ _ _ _ _ Hl Hs)) in Hrun.
    destruct (Pure.is_reduced a) eqn:Ha; [done|].
    injection Hrun as <- <-. exists a. destruct self. naive_solver.
  - cbn [reset_loop] in Hrun. unfold _is_reduced in Hrun.
    rewrite (bind_Ok _ _ _ _ _ (is_reduced_Ok _ _ _ _ _ Hl Hs)) in Hrun.
    destruct (Pure.is_reduced a) eqn:Ha.
    2:{ injection Hrun as <- <-. exists a. destruct self. naive_solver. }
    unfold _random_matrix in Hrun.
    rewrite (bind_Ok _ _ _ _ _ (alloc_Ok _ _)) in Hrun.
    eapply IH in Hrun as (a' & Hl' & He & Ha' & Hsub & Hself & Hm);
      [|apply lookup_insert_eq|apply tabulate_shaped].
    exists a'. split_and!; [done|done| | | |].
    + right. destruct Ha' as [-> | Ha']; [|done]. by eexists (λ i j, fgtb _ _).
    + etrans; [apply alloc_subseteq|done].
    + rewrite Hself. by destruct self.
    + right. destruct Hm as [Hm | Hm].
      * rewrite Hm. apply fresh_lookup.
      * eapply lookup_weaken_None; [apply Hm|apply alloc_subseteq].
Qed.

Lemma extra_reset_Ok fuel draws self h self' obs_rows obs h' :
  reset fuel draws self h = (Py.Ok (self', (obs_rows, obs)), h') →
  ∃ a' draw, a' = Np.tabulate (N self) (M self) (λ i j, 1 * Z.b2z (draw i j))
    ∧ h' !! matrix self' = Some a' ∧ h' !! rows self' = Some (Np.ones (N self) 1)
    ∧ h' !! obs = Some a' ∧ h' !! obs_rows = Some (Np.ones (N self) 1)
    ∧ rows self' ≠ matrix self'
    ∧ obs ≠ matrix self' ∧ obs ≠ rows self'
    ∧ obs_rows ≠ matrix self' ∧ obs_rows ≠ rows self'
    ∧ Pure.is_reduced a' = false
    ∧ h ⊆ h' ∧ N self' = N self ∧ M self' = M self
    ∧ h !! matrix self' = None ∧ h !! rows self' = None
    ∧ h !! obs = None ∧ h !! obs_rows = None.
Proof.
  unfold reset, _random_matrix. intros Hrun.
  rewrite (bind_Ok _ _ _ _ _ (alloc_Ok _ _)) in Hrun.
  apply bind_inv_Ok in Hrun as (self1 & h1 & Hloop & Hrun).
  eapply extra_reset_loop_Ok in Hloop as (a' & Hl' & He & Ha' & Hsub & Hself & Hm);
    [|apply lookup_insert_eq|apply tabulate_shaped].
  rewrite (bind_Ok _ _ _ _ _ (alloc_Ok _ _)) in Hrun.
  set (r := fresh (dom h1)) in *.
  set (h2 := <[r := Np.ones (N self1) 1]> h1) in *.
  assert (Hr2 : h2 !! r = Some (Np.ones (N self1) 1)) by apply lookup_insert_eq.
  rewrite (bind_Ok _ _ _ _ _ (copy_Ok _ _ _ Hr2)) in Hrun.
  set (o1 := fresh (dom h2)) in *.
  set (h3 := <[o1 := Np.ones (N self1) 1]> h2) in *.
  assert (Hrm : r ≠ matrix self1) by (apply fresh_not_in; by rewrite Hl').
  assert (Hl2 : h2 !! matrix self1 = Some a') by (subst h2; by rewrite lookup_insert_ne).
  assert (Ho1m : o1 ≠ matrix self1) by (apply fresh_not_in; by rewrite Hl2).
  assert (Ho1r : o1 ≠ r) by (apply fresh_not_in; by rewrite Hr2).
  assert (Hl3 : h3 !! matrix self1 = Some a') by (subst h3; by rewrite lookup_insert_ne).
  assert (Hr3 : h3 !! r = Some (Np.ones (N self1) 1)) by (subst h3; by rewrite lookup_insert_ne).
  rewrite (bind_Ok _ _ _ _ _ (copy_Ok _ _ _ Hl3)) in Hrun.
  set (o2 := fresh (dom h3)) in *.
  assert (Ho2m : o2 ≠ matrix self1) by (apply fresh_not_in; by rewrite Hl3).
  assert (Ho2r : o2 ≠ r) by (apply fresh_not_in; by rewrite Hr3).
  injection Hrun as <- <- <- <-.
  assert (HN : N self1 = N self) by (rewrite Hself; by destruct self).
  assert (Hsub1 : h ⊆ h1) by (etrans; [apply alloc_subseteq|apply Hsub]).
  assert (Hsub2 : h1 ⊆ h2) by apply alloc_subseteq.
  assert (Hsub3 : h2 ⊆ h3) by apply alloc_subseteq.
  assert (Hk : ∃ draw, a' = Np.tabulate (N self) (M self) (λ i j, 1 * Z.b2z (draw i j))).
  { destruct Ha' as [-> | Hk]; [|done]. by eexists (λ i j, fgtb _ _). }
  destruct Hk as [draw Hk]. exists a', draw. cbn [matrix rows set_rows N M].
  assert (Ho21 : o2 ≠ o1).
  { apply fresh_not_in. subst h3. by rewrite lookup_insert_eq. }
  rewrite HN in *.
  split_and!; try done;
    try (rewrite ?lookup_insert_ne by done; first [done | apply lookup_insert_eq]).
  - rewrite lookup_insert_ne by done. unfold h3. rewrite lookup_insert_eq. by rewrite HN.
  - etrans; [apply Hsub1|]. etrans; [apply Hsub2|]. etrans; [apply Hsub3|]. apply alloc_subseteq.
  - rewrite Hself. by destruct self.
  - destruct Hm as [Hm | Hm].
    + rewrite Hm. apply fresh_lookup.
    + eapply lookup_weaken_None; [apply Hm|apply alloc_subseteq].
  - apply (lookup_weaken_None h h1 r (fresh_lookup h1) Hsub1).
  - apply (lookup_weaken_None h h3 o2 (fresh_lookup h3)).
    etrans; [apply Hsub1|]. by etrans.
  - apply (lookup_weaken_None h h2 o1 (fresh_lookup h2)). by etrans.
Qed.

Lemma item_empty_Raise h l i j :
  h !! l = Some [] → Np.item l i j h = (Py.Raise Py.IndexError, h).
Proof.
  intros Hl. unfold Np.item.
  assert (Hn : Py.norm_index (length ([] : Np.ndarray)) i = None).
  { apply norm_index_None. simpl. lia. }
  by rewrite (bind_Raise _ _ _ _ _ (row_Raise _ _ _ _ Hl Hn)).
Qed.

Lemma extra_valid_action_index self action :
  valid_action self action → Py.norm_index (N self) action = Some (Z.to_nat action).
Proof.
  intros [H0 Hlt]. unfold action_size in Hlt.
  rewrite <- (Z2Nat.id action) at 1 by done. apply norm_index_nat. lia.
Qed.

(** The matrix and the vector of unused rows are two arrays in the store,
    [N] by [M] and, once [reset] has run, [N] by 1. *)
Lemma extra_state_of_inv b self h :
  state_of b self h →
  ∃ a rw, h !! matrix self = Some a ∧ Pure.shaped (N self) (M self) a
          ∧ h !! rows self = Some rw ∧ rows self ≠ matrix self
          ∧ (if b then Pure.shaped (N self) 1 rw else rw = []).
Proof.
  induction 1 as [shape density h0 self h Hinit
                 |b self0 h0 fuel draws self obs h _ IH Hreset
                 |b self h action r h' _ IH Hact Hstep
                 |b self h h' _ IH Hsame Hsame'].
  - unfold init in Hinit. rewrite (bind_Ok _ _ _ _ _ (alloc_Ok _ _)) in Hinit.
    rewrite (bind_Ok _ _ _ _ _ (alloc_Ok _ _)) in Hinit.
    injection Hinit as <- <-. cbn [matrix rows N M].
    set (l := fresh (dom h0)).
    assert (Hl : <[l := Np.zeros shape.1 shape.2]> h0 !! l = Some (Np.zeros shape.1 shape.2))
      by apply lookup_insert_eq.
    assert (Hne : fresh (dom (<[l := Np.zeros shape.1 shape.2]> h0)) ≠ l)
      by (apply fresh_not_in; by rewrite Hl).
    exists (Np.zeros shape.1 shape.2), []. split_and!.
    + by rewrite lookup_insert_ne.
    + apply zeros_shaped.
    + apply lookup_insert_eq.
    + done.
    + done.
  - destruct obs as [obs_rows obs].
    apply extra_reset_Ok in Hreset
      as (a' & draw & -> & Hl' & Hr' & _ & _ & Hne & _ & _ & _ & _ & _ & _ & HN & HM & _).
    eexists _, _. rewrite HN, HM. split_and!; [done|apply tabulate_shaped|done|done|].
    apply ones_shaped.
  - destruct IH as (a & rw & Hl & Hs & Hr & Hne & Hrw). destruct b.
    + rewrite (extra_step_Ok _ _ _ _ _ _ Hl Hs Hr Hrw Hne (extra_valid_action_index _ _ Hact))
        in Hstep.
      injection Hstep as <- <-.
      set (o1 := fresh (dom h)). set (o2 := fresh ({[o1]} ∪ dom h)).
      assert (Ho1m : o1 ≠ matrix self) by (apply fresh_not_in; by rewrite Hl).
      assert (Ho1r : o1 ≠ rows self) by (apply fresh_not_in; by rewrite Hr).
      assert (Ho2 : ∀ l, is_Some (h !! l) → o2 ≠ l).
      { intros l Hsome Heq. apply (is_fresh ({[o1]} ∪ dom h)). fold o2. rewrite Heq.
        by apply elem_of_union_r, elem_of_dom. }
      assert (Hp : (Z.to_nat action < N self)%nat).
      { destruct Hact. unfold action_size in *. lia. }
      eexists _, _. split_and!.
      * rewrite lookup_insert_ne by (apply Ho2; by rewrite Hl).
        rewrite lookup_insert_ne by done. apply lookup_insert_eq.
      * by apply extra_step_shaped.
      * rewrite lookup_insert_ne by (apply Ho2; by rewrite Hr).
        rewrite lookup_insert_ne by done. rewrite lookup_insert_ne by done.
        apply lookup_insert_eq.
      * done.
      * by apply shaped_insert.
    + subst rw. unfold step in Hstep.
      by rewrite (bind_Raise _ _ _ _ _ (item_empty_Raise _ _ _ _ Hr)) in Hstep.
  - destruct IH as (a & rw & Hl & Hs & Hr & Hne & Hrw). exists a, rw.
    by rewrite Hsame, Hsame'.
Qed.
End RowChoiceExtraReset.

(** ** Entries 0 and 1 *)

Section Binary.
Implicit Types (a : Np.ndarray).

Lemma remainder_2_binary x : Np.remainder x 2 = 0 ∨ Np.remainder x 2 = 1.
Proof. unfold Np.remainder. simpl. pose proof (Z.mod_pos_bound x 2). lia. Qed.

Lemma add_mod_binary r1 r2 : Forall (λ x, x = 0 ∨ x = 1) (Np.add_mod r1 r2 2).
Proof.
  unfold Np.add_mod. revert r2. induction r1 as [|x r1 IH]; intros [|y r2]; simpl; try done.
  constructor; [apply remainder_2_binary|apply IH].
Qed.

Lemma add_mod_float_binary r1 r2 : Forall (λ x, x = 0 ∨ x = 1) (Np.add_mod_float r1 r2 2).
Proof.
  unfold Np.add_mod_float. revert r2. induction r1 as [|x r1 IH]; intros [|y r2]; simpl; try done.
  constructor; [apply remainder_2_binary|apply IH].
Qed.

Lemma pivot_binary sum_mod action p lead rows :
  (∀ r1 r2, Forall (λ x, x = 0 ∨ x = 1) (sum_mod r1 r2 2)) →
  ∀ a moves, Pure.binary a → Pure.binary (Pure.pivot sum_mod action p lead rows a moves).1.
Proof.
  intros Hsum. induction rows as [|i rest IH]; intros a moves Ha; [done|].
  cbn [Pure.pivot]. repeat case_bool_decide; try by apply IH.
  apply IH. by apply Forall_insert.
Qed.

Lemma choice_step_binary action p a :
  Pure.binary a → Pure.binary (Pure.choice_step action p a).1.
Proof.
  intros Ha. unfold Pure.choice_step, Pure.pivoted.
  destruct (Np.lead (Pure.row a p)) as [lead|]; [|done].
  pose proof (pivot_binary Np.add_mod action p lead (seq 0 (length a)) add_mod_binary a 0 Ha).
  by destruct (Pure.pivot _ _ _ _ _ _ _).
Qed.

Lemma extra_step_binary action p is_new a :
  Pure.binary a → Pure.binary (Pure.extra_step action p is_new a).1.
Proof.
  intros Ha. unfold Pure.extra_step, Pure.pivoted.
  destruct (Np.lead (Pure.row a p)) as [lead|]; [|done].
  pose proof (pivot_binary Np.add_mod_float action p lead (seq 0 (length a))
                add_mod_float_binary a 0 Ha).
  by destruct (Pure.pivot _ _ _ _ _ _ _).
Qed.

Lemma tabulate_binary n m (draw : nat → nat → bool) :
  Pure.binary (Np.tabulate n m (λ i j, 1 * Z.b2z (draw i j))).
Proof.
  unfold Pure.binary, Np.tabulate. apply Forall_fmap, Forall_forall. intros i _. simpl.
  apply Forall_fmap, Forall_forall. intros j _. simpl. destruct (draw i j); simpl; lia.
Qed.

Lemma zeros_binary n m : Pure.binary (Np.zeros n m).
Proof.
  unfold Pure.binary, Np.zeros. apply Forall_replicate, Forall_replicate. by left.
Qed.
End Binary.

Section BinaryStates.
Context `{Float}.

Lemma choice_state_binary b self h :
  RowChoiceSpec.state_of b self h →
  ∃ a, h !! RowChoiceEnvironment.matrix self = Some a ∧ Pure.binary a.
Proof.
  induction 1 as [shape density h0 self h Hinit
                 |b self0 h0 fuel draws self obs h Hst IH Hreset
                 |b self h action r h' Hst IH Hact Hstep
                 |b self h h' Hst IH Hsame].
  - unfold RowChoiceEnvironment.init in Hinit.
    rewrite (bind_Ok _ _ _ _ _ (alloc_Ok _ _)) in Hinit.
    injection Hinit as <- <-. eexists. split; [apply lookup_insert_eq|apply zeros_binary].
  - apply choice_reset_Ok in Hreset as (a' & draw & -> & Hl' & _).
    eexists. split; [done|apply tabulate_binary].
  - destruct IH as (a & Hl & Ha).
    destruct (choice_step_state _ _ _ _ Hst Hact) as (a0 & Hl0 & Hs & Hok).
    rewrite Hok in Hstep. injection Hstep as <- <-.
    rewrite Hl in Hl0. injection Hl0 as <-.
    eexists. split; [|by apply choice_step_binary].
    rewrite lookup_insert_ne; [apply lookup_insert_eq|].
    apply fresh_not_in. by rewrite Hl.
  - destruct IH as (a & Hl & Ha). exists a. by rewrite Hsame.
Qed.

Lemma extra_state_binary b self h :
  RowChoiceExtraSpec.state_of b self h →
  ∃ a, h !! RowChoiceEnvironmentExtra.matrix self = Some a ∧ Pure.binary a.
Proof.
  induction 1 as [shape density h0 self h Hinit
                 |b self0 h0 fuel draws self obs h Hst IH Hreset
                 |b self h action r h' Hst IH Hact Hstep
                 |b self h h' Hst IH Hsame Hsame'].
  - unfold RowChoiceEnvironmentExtra.init in Hinit.
    rewrite (bind_Ok _ _ _ _ _ (alloc_Ok _ _)) in Hinit.
    rewrite (bind_Ok _ _ _ _ _ (alloc_Ok _ _)) in Hinit.
    injection Hinit as <- <-. cbn [RowChoiceEnvironmentExtra.matrix].
    exists (Np.zeros shape.1 shape.2). split; [|apply zeros_binary].
    rewrite lookup_insert_ne; [apply lookup_insert_eq|].
    apply fresh_not_in. by rewrite lookup_insert_eq.
  - destruct obs as [obs_rows obs].
    apply extra_reset_Ok in Hreset as (a' & draw & -> & Hl' & _).
    eexists. split; [done|apply tabulate_binary].
  - destruct IH as (a & Hl & Ha).
    destruct (extra_state_of_inv _ _ _ Hst) as (a0 & rw & Hl0 & Hs & Hr & Hne & Hrw).
    rewrite Hl in Hl0. injection Hl0 as <-. destruct b.
    + rewrite (extra_step_Ok _ _ _ _ _ _ Hl Hs Hr Hrw Hne (extra_valid_action_index _ _ Hact))
        in Hstep.
      injection Hstep as <- <-.
      eexists. split; [|by apply extra_step_binary].
      set (o1 := fresh (dom h)).
      assert (Ho1m : o1 ≠ RowChoiceEnvironmentExtra.matrix self)
        by (apply fresh_not_in; by rewrite Hl).
      rewrite lookup_insert_ne.
      * rewrite lookup_insert_ne by done. apply lookup_insert_eq.
      * intros Heq. apply (is_fresh ({[o1]} ∪ dom h)). rewrite Heq.
        apply elem_of_union_r, elem_of_dom. by rewrite Hl.
    + subst rw. unfold RowChoiceEnvironmentExtra.step in Hstep.
      by rewrite (bind_Raise _ _ _ _ _ (item_empty_Raise _ _ _ _ Hr)) in Hstep.
  - destruct IH as (a & Hl & Ha). exists a. by rewrite Hsame.
Qed.

(** C8.  In every state of [RowChoiceEnvironment] and of
    [RowChoiceEnvironmentExtra] that is reached by [reset] and then by [step]
    with valid actions, the matrix has entries 0 and 1 only. *)
Theorem C8_entries_binary :
  (∀ self h, RowChoiceSpec.reachable self h →
     ∃ a, h !! RowChoiceEnvironment.matrix self = Some a ∧ Pure.binary a)
  ∧ (∀ self h, RowChoiceExtraSpec.reachable self h →
     ∃ a, h !! RowChoiceEnvironmentExtra.matrix self = Some a ∧ Pure.binary a).
Proof.
  split; intros self h Hreach.
  - by apply (choice_state_binary true).
  - by apply (extra_state_binary true).
Qed.
End BinaryStates.

(** ** The concrete states are states of the environments *)

Section ExampleStates.
Import Examples.

Lemma echelon_example_init :
  RowEchelonEnvironment.init (2%nat, 1%nat) 2 ∅ = (Py.Ok echelon_self0, echelon_heap0).
Proof. vm_compute. reflexivity. Defined.

Lemma echelon_example_reset :
  RowEchelonEnvironment.reset 0 echelon_draws echelon_self0 echelon_heap0
  = (Py.Ok (echelon_self, 3%positive), echelon_heap).
Proof. vm_compute. reflexivity. Defined.

Lemma echelon_example_randint : RowEchelonSpec.randint 2 echelon_draws.
Proof. intros k i j. unfold echelon_draws. case_bool_decide; lia. Defined.

Lemma echelon_example_reachable : RowEchelonSpec.reachable echelon_self echelon_heap.
Proof.
  apply (RowEchelonSpec.st_reset false echelon_self0 echelon_heap0 0 echelon_draws
           echelon_self 3%positive echelon_heap).
  - apply (RowEchelonSpec.st_init (2%nat, 1%nat) 2 ∅). apply echelon_example_init.
  - apply echelon_example_randint.
  - apply echelon_example_reset.
Defined.

Lemma echelon_wide_init :
  RowEchelonEnvironment.init (2%nat, 1%nat) (2 ^ 63) ∅ = (Py.Ok echelon_wide_self0, echelon_heap0).
Proof. vm_compute. reflexivity. Defined.

Lemma echelon_wide_reset :
  RowEchelonEnvironment.reset 0 echelon_draws echelon_wide_self0 echelon_heap0
  = (Py.Ok (echelon_wide_self, 3%positive), echelon_heap).
Proof. vm_compute. reflexivity. Defined.

Lemma echelon_wide_randint : RowEchelonSpec.randint (2 ^ 63) echelon_draws.
Proof. intros k i j. unfold echelon_draws. case_bool_decide; lia. Defined.

Lemma echelon_wide_reachable : RowEchelonSpec.reachable echelon_wide_self echelon_heap.
Proof.
  apply (RowEchelonSpec.st_reset false echelon_wide_self0 echelon_heap0 0 echelon_draws
           echelon_wide_self 3%positive echelon_heap).
  - apply (RowEchelonSpec.st_init (2%nat, 1%nat) (2 ^ 63) ∅). apply echelon_wide_init.
  - apply echelon_wide_randint.
  - apply echelon_wide_reset.
Defined.

Lemma choice_example_init :
  RowChoiceEnvironment.init (H := Qfloat) (3%nat, 2%nat) (1 # 2)%Q ∅
  = (Py.Ok choice_self0, choice_heap0).
Proof. vm_compute. reflexivity. Defined.

Lemma choice_example_reset :
  RowChoiceEnvironment.reset (H := Qfloat) 0 choice_draws choice_self0 choice_heap0
  = (Py.Ok (choice_self, 3%positive), choice_heap).
Proof. vm_compute. reflexivity. Defined.

Lemma choice_example_reachable : RowChoiceSpec.reachable choice_self choice_heap.
Proof.
  apply (RowChoiceSpec.st_reset (H := Qfloat) false choice_self0 choice_heap0 0 choice_draws
           choice_self 3%positive choice_heap).
  - apply (RowChoiceSpec.st_init (H := Qfloat) (3%nat, 2%nat) (1 # 2)%Q ∅). apply choice_example_init.
  - apply choice_example_reset.
Defined.

Lemma extra_example_init :
  RowChoiceEnvironmentExtra.init (H := Qfloat) (3%nat, 2%nat) (1 # 2)%Q ∅
  = (Py.Ok extra_self0, extra_heap0).
Proof. vm_compute. reflexivity. Defined.

Lemma extra_example_reset :
  RowChoiceEnvironmentExtra.reset (H := Qfloat) 0 choice_draws extra_self0 extra_heap0
  = (Py.Ok (extra_self, (5%positive, 6%positive)), extra_heap).
Proof. vm_compute. reflexivity. Defined.

Lemma extra_example_reachable : RowChoiceExtraSpec.reachable extra_self extra_heap.
Proof.
  apply (RowChoiceExtraSpec.st_reset (H := Qfloat) false extra_self0 extra_heap0 0 choice_draws
           extra_self (5%positive, 6%positive) extra_heap).
  - apply (RowChoiceExtraSpec.st_init (H := Qfloat) (3%nat, 2%nat) (1 # 2)%Q ∅). apply extra_example_init.
  - apply extra_example_reset.
Defined.
End ExampleStates.

(** ** Rewards of RowEchelonEnvironment *)

Section Rewards.
Import RowEchelonEnvironment RowEchelonSpec.

(** C4, as the claim has it, fails for the largest modulus [reset] accepts:
    at a reachable state of a 2 by 1 environment with modulus [2 ^ 63], the
    valid action 1, which adds row 0 to row 1, raises [OverflowError] when
    the remainder is taken, so this call to [step] returns no reward; the
    store is left as it was. *)
Lemma C4_counterexample :
  reachable Examples.echelon_wide_self Examples.echelon_heap
  ∧ valid_action Examples.echelon_wide_self 1
  ∧ step Examples.echelon_wide_self 1 Examples.echelon_heap
    = (Py.Raise Py.OverflowError, Examples.echelon_heap)
  ∧ ¬ ∃ r h', step Examples.echelon_wide_self 1 Examples.echelon_heap = (Py.Ok r, h').
Proof.
  assert (Hstep : step Examples.echelon_wide_self 1 Examples.echelon_heap
                  = (Py.Raise Py.OverflowError, Examples.echelon_heap))
    by (vm_compute; reflexivity).
  split_and!; [apply echelon_wide_reachable|by vm_compute|done|].
  intros (r & h' & Hok). by rewrite Hstep in Hok.
Qed.

(** C4.  In a [RowEchelonEnvironment] whose modulus is below [2 ^ 63], every
    [step] with a valid action, at every reachable state, returns the reward
    -1; a caller that steps through any list of valid actions collects as
    many results as it took steps, each with reward -1, and a total reward
    of minus the number of steps. *)
Theorem C4_reward_accounting self h actions :
  reachable self h → F self < 2 ^ 63 → Forall (valid_action self) actions →
  ∃ rs h', play self actions h = (Py.Ok rs, h')
    ∧ length rs = length actions
    ∧ Forall (λ r, reward r = -1) rs
    ∧ total_reward rs = - Z.of_nat (length actions).
Proof.
  intros Hreach HF Hvalid. revert h Hreach.
  induction Hvalid as [|action rest Hact _ IH]; intros h Hreach.
  - exists [], h. by split_and!.
  - destruct (echelon_step_state _ _ _ Hreach HF Hact) as (a & k & i & j & _ & _ & _ & Hstep).
    destruct (IH _ (st_step _ _ _ _ _ _ Hreach Hact Hstep)) as (rs & h' & Hplay & Hlen & Hall & Htot).
    eexists (_ :: rs), h'. cbn [play].
    rewrite (bind_Ok _ _ _ _ _ Hstep), (bind_Ok _ _ _ _ _ Hplay).
    split_and!; [done|by simpl; rewrite Hlen|by constructor|].
    cbn [total_reward foldr length]. fold (total_reward rs). rewrite Htot.
    unfold reward. cbn [fst snd]. lia.
Qed.

Lemma C4_witness :
  reachable Examples.echelon_self Examples.echelon_heap
  ∧ F Examples.echelon_self < 2 ^ 63
  ∧ Forall (valid_action Examples.echelon_self) [1; 0; 2]
  ∧ ∃ rs h', play Examples.echelon_self [1; 0; 2] Examples.echelon_heap = (Py.Ok rs, h')
    ∧ length rs = 3%nat
    ∧ Forall (λ r, reward r = -1) rs
    ∧ total_reward rs = -3.
Proof.
  assert (Hv : Forall (valid_action Examples.echelon_self) [1; 0; 2]).
  { repeat constructor; vm_compute; congruence. }
  assert (HF : F Examples.echelon_self < 2 ^ 63) by (vm_compute; reflexivity).
  split; [apply echelon_example_reachable|]. split; [exact HF|]. split; [exact Hv|].
  exact (C4_reward_accounting Examples.echelon_self Examples.echelon_heap [1; 0; 2]
           echelon_example_reachable HF Hv).
Defined.
End Rewards.

(** ** The done flag *)

Section Done.
Context `{Float}.

Lemma echelon_step_done b self h action obs reward done h' :
  RowEchelonSpec.state_of b self h → RowEchelonSpec.valid_action self action →
  RowEchelonEnvironment.step self action h = (Py.Ok (obs, reward, done), h') →
  RowEchelonEnvironment._is_row_echelon self h' = (Py.Ok done, h').
Proof.
  intros Hst Hact Hok.
  destruct (echelon_step_any _ _ _ _ Hst Hact) as (a & k & i & j & Hl & Hs & Hget & Hstep).
  rewrite Hstep in Hok.
  destruct (Pure.updated _ _ _ a) as [a'|] eqn:Hup; [|done].
  injection Hok as <- <- <- <-.
  apply is_row_echelon_Ok.
  - rewrite lookup_insert_ne; [apply lookup_insert_eq|].
    apply fresh_not_in. by rewrite Hl.
  - rewrite (updated_length _ _ _ _ _ Hup). apply Hs.
Qed.

Lemma choice_step_done b self h action :
  RowChoiceSpec.state_of b self h → RowChoiceSpec.valid_action self action →
  ∃ obs reward done h',
    RowChoiceEnvironment.step self action h = (Py.Ok (obs, reward, done), h')
    ∧ RowChoiceEnvironment._is_reduced self h' = (Py.Ok done, h').
Proof.
  intros Hst Hact.
  destruct (choice_step_state _ _ _ _ Hst Hact) as (a & Hl & Hs & Hstep).
  eexists _, _, _, _. split; [exact Hstep|].
  apply (is_reduced_Ok _ _ _ (RowChoiceEnvironment.M self)).
  - rewrite lookup_insert_ne; [apply lookup_insert_eq|].
    apply fresh_not_in. by rewrite Hl.
  - apply choice_step_shaped; [done|].
    destruct Hact. unfold RowChoiceEnvironment.action_size in *. lia.
Qed.

(** C5.  At every reachable state and for every valid action, whenever
    [step] returns, the done flag it returns is the value of the terminal
    predicate ([_is_row_echelon], [_is_reduced]) in the state [step] leaves
    behind; the objects hold no step counter, and nothing else enters the
    flag.  [step] of [RowChoiceEnvironment] always returns there, and [step]
    of [RowEchelonEnvironment] returns when the modulus is below [2 ^ 63]. *)
Theorem C5_done_is_terminal_predicate :
  (∀ self h action,
     RowEchelonSpec.reachable self h → RowEchelonSpec.valid_action self action →
     (∀ obs reward done h',
        RowEchelonEnvironment.step self action h = (Py.Ok (obs, reward, done), h') →
        RowEchelonEnvironment._is_row_echelon self h' = (Py.Ok done, h'))
     ∧ (RowEchelonEnvironment.F self < 2 ^ 63 →
        ∃ obs reward done h',
          RowEchelonEnvironment.step self action h = (Py.Ok (obs, reward, done), h')
          ∧ RowEchelonEnvironment._is_row_echelon self h' = (Py.Ok done, h')))
  ∧ (∀ self h action,
     RowChoiceSpec.reachable self h → RowChoiceSpec.valid_action self action →
     ∃ obs reward done h',
       RowChoiceEnvironment.step self action h = (Py.Ok (obs, reward, done), h')
       ∧ RowChoiceEnvironment._is_reduced self h' = (Py.Ok done, h')).
Proof.
  split; intros self h action Hreach Hact.
  - split.
    + intros obs reward done h' Hok. by apply (echelon_step_done true _ h action obs reward).
    + intros HF.
      destruct (echelon_step_state _ _ _ Hreach HF Hact) as (a & k & i & j & _ & _ & _ & Hstep).
      eexists _, _, _, _. split; [exact Hstep|].
      by apply (echelon_step_done true _ h action _ _ _ _ Hreach Hact Hstep).
  - by apply (choice_step_done true).
Qed.
End Done.

(** C5, as the claim has it, fails for the largest modulus [reset] accepts:
    at a reachable state of a 2 by 1 environment with modulus [2 ^ 63] and
    the matrix [[0], [1]], the valid action 2, which adds row 1 to row 0,
    raises [OverflowError], so [step] returns no done flag. *)
Lemma C5_counterexample :
  RowEchelonSpec.reachable Examples.echelon_wide_self Examples.echelon_heap
  ∧ RowEchelonSpec.valid_action Examples.echelon_wide_self 2
  ∧ RowEchelonEnvironment.step Examples.echelon_wide_self 2 Examples.echelon_heap
    = (Py.Raise Py.OverflowError, Examples.echelon_heap)
  ∧ ¬ ∃ obs reward done h',
        RowEchelonEnvironment.step Examples.echelon_wide_self 2 Examples.echelon_heap
        = (Py.Ok (obs, reward, done), h').
Proof.
  assert (Hstep : RowEchelonEnvironment.step Examples.echelon_wide_self 2 Examples.echelon_heap
                  = (Py.Raise Py.OverflowError, Examples.echelon_heap))
    by (vm_compute; reflexivity).
  split_and!; [apply echelon_wide_reachable|by vm_compute|done|].
  intros (obs & reward & done & h' & Hok). by rewrite Hstep in Hok.
Qed.

Lemma C5_witness :
  (RowEchelonSpec.reachable Examples.echelon_self Examples.echelon_heap
   ∧ RowEchelonSpec.valid_action Examples.echelon_self 0
   ∧ RowEchelonEnvironment.F Examples.echelon_self < 2 ^ 63
   ∧ ∃ obs reward done h',
       RowEchelonEnvironment.step Examples.echelon_self 0 Examples.echelon_heap
       = (Py.Ok (obs, reward, done), h')
       ∧ RowEchelonEnvironment._is_row_echelon Examples.echelon_self h' = (Py.Ok done, h'))
  ∧ (RowChoiceSpec.reachable Examples.choice_self Examples.choice_heap
     ∧ RowChoiceSpec.valid_action Examples.choice_self 1
     ∧ ∃ obs reward done h',
       RowChoiceEnvironment.step Examples.choice_self 1 Examples.choice_heap
       = (Py.Ok (obs, reward, done), h')
       ∧ RowChoiceEnvironment._is_reduced Examples.choice_self h' = (Py.Ok done, h')).
Proof.
  assert (Hv1 : RowEchelonSpec.valid_action Examples.echelon_self 0)
    by (vm_compute; split; congruence).
  assert (Hv2 : RowChoiceSpec.valid_action Examples.choice_self 1)
    by (vm_compute; split; congruence).
  assert (HF : RowEchelonEnvironment.F Examples.echelon_self < 2 ^ 63)
    by (vm_compute; reflexivity).
  split.
  - split; [apply echelon_example_reachable|]. split; [exact Hv1|]. split; [exact HF|].
    exact (proj2 (proj1 (C5_done_is_terminal_predicate (H := Qfloat)) _ _ _
                    echelon_example_reachable Hv1) HF).
  - split; [apply choice_example_reachable|]. split; [exact Hv2|].
    exact (proj2 (C5_done_is_terminal_predicate (H := Qfloat)) _ _ _
             choice_example_reachable Hv2).
Defined.

(** ** reset leaves a state that is not terminal *)

Section ResetNotTerminal.
Context `{Float}.

(** C9.  Whenever [reset] of [RowEchelonEnvironment], [RowChoiceEnvironment]
    or [RowChoiceEnvironmentExtra] returns, the terminal predicate of the
    environment ([_is_row_echelon], [_is_reduced]) is false in the state it
    leaves. *)
Theorem C9_reset_not_terminal :
  (∀ fuel draws self h self' obs h',
     RowEchelonEnvironment.reset fuel draws self h = (Py.Ok (self', obs), h') →
     RowEchelonEnvironment._is_row_echelon self' h' = (Py.Ok false, h'))
  ∧ (∀ fuel draws self h self' obs h',
     RowChoiceEnvironment.reset fuel draws self h = (Py.Ok (self', obs), h') →
     RowChoiceEnvironment._is_reduced self' h' = (Py.Ok false, h'))
  ∧ (∀ fuel draws self h self' obs h',
     RowChoiceEnvironmentExtra.reset fuel draws self h = (Py.Ok (self', obs), h') →
     RowChoiceEnvironmentExtra._is_reduced self' h' = (Py.Ok false, h')).
Proof.
  split_and!; intros fuel draws self h self' obs h' Hreset.
  - apply echelon_reset_Ok in Hreset
      as (a' & k' & Ha' & Hl' & _ & _ & He & _ & Hself & _).
    rewrite <- He. apply is_row_echelon_Ok; [done|].
    rewrite Ha', Hself. apply tabulate_shaped.
  - apply choice_reset_Ok in Hreset
      as (a' & draw & Ha' & Hl' & _ & _ & He & _ & Hself & _).
    rewrite <- He. unfold RowChoiceEnvironment._is_reduced.
    apply (is_reduced_Ok _ _ _ (RowChoiceEnvironment.M self')); [done|].
    rewrite Ha', Hself. apply tabulate_shaped.
  - destruct obs as [obs_rows obs].
    apply extra_reset_Ok in Hreset
      as (a' & draw & Ha' & Hl' & _ & _ & _ & _ & _ & _ & _ & _ & He & _ & HN & HM & _).
    rewrite <- He. unfold RowChoiceEnvironmentExtra._is_reduced.
    apply (is_reduced_Ok _ _ _ (RowChoiceEnvironmentExtra.M self')); [done|].
    rewrite Ha', HN, HM. apply tabulate_shaped.
Qed.
End ResetNotTerminal.

Lemma C9_witness :
  (RowEchelonEnvironment.reset 0 Examples.echelon_draws Examples.echelon_self0 Examples.echelon_heap0
   = (Py.Ok (Examples.echelon_self, 3%positive), Examples.echelon_heap)
   ∧ RowEchelonEnvironment._is_row_echelon Examples.echelon_self Examples.echelon_heap
     = (Py.Ok false, Examples.echelon_heap))
  ∧ (RowChoiceEnvironment.reset (H := Qfloat) 0 Examples.choice_draws
       Examples.choice_self0 Examples.choice_heap0
     = (Py.Ok (Examples.choice_self, 3%positive), Examples.choice_heap)
     ∧ RowChoiceEnvironment._is_reduced Examples.choice_self Examples.choice_heap
       = (Py.Ok false, Examples.choice_heap))
  ∧ (RowChoiceEnvironmentExtra.reset (H := Qfloat) 0 Examples.choice_draws
       Examples.extra_self0 Examples.extra_heap0
     = (Py.Ok (Examples.extra_self, (5%positive, 6%positive)), Examples.extra_heap)
     ∧ RowChoiceEnvironmentExtra._is_reduced Examples.extra_self Examples.extra_heap
       = (Py.Ok false, Examples.extra_heap)).
Proof.
  split_and!.
  - apply echelon_example_reset.
  - exact (proj1 (C9_reset_not_terminal (H := Qfloat)) _ _ _ _ _ _ _ echelon_example_reset).
  - apply choice_example_reset.
  - exact (proj1 (proj2 (C9_reset_not_terminal (H := Qfloat))) _ _ _ _ _ _ _
             choice_example_reset).
  - apply extra_example_reset.
  - exact (proj2 (proj2 (C9_reset_not_terminal (H := Qfloat))) _ _ _ _ _ _ _
             extra_example_reset).
Defined.

(** ** The tuples step returns *)

Section Tuples.
Context `{Float}.

Lemma atari_step_tuple {gym : Type} gym_step (self : @AtariEnv.t gym) action r self' :
  AtariEnv.step gym_step action self = (Py.Ok r, self') →
  ∃ obs done inf state reward0 done0,
    r = (obs, fsign reward0, done, inf)
    ∧ (gym_step (AtariEnv.env self) action).1 = Py.Ok (state, reward0, done0, inf).
Proof.
  unfold AtariEnv.step. intros Hrun.
  apply bind_inv_Ok in Hrun as ([[[state reward0] done0] inf] & s1 & Hgym & Hrun).
  destruct (inf !! "ale.lives"%string) as [l|]; [|done].
  apply bind_inv_Ok in Hrun as (s2 & s3 & _ & Hrun).
  apply bind_inv_Ok in Hrun as (done & s4 & _ & Hrun).
  apply bind_inv_Ok in Hrun as ([] & s5 & _ & Hrun).
  apply bind_inv_Ok in Hrun as (s6 & s7 & _ & Hrun).
  apply bind_inv_Ok in Hrun as (stacked & s8 & _ & Hrun).
  injection Hrun as <- <-.
  exists stacked, done, inf, state, reward0, done0. split; [done|].
  unfold AtariEnv.env_step in Hgym.
  destruct (gym_step (AtariEnv.env self) action) as [res g]. by injection Hgym as -> _.
Qed.

(** C3, as the code has it.  At every reachable state and for every valid
    action, [step] of [RowEchelonEnvironment] with a modulus below [2 ^ 63]
    and [step] of [RowChoiceEnvironment] return a tuple of exactly three
    components, the observation, the reward and the done flag, and no info
    dict; so does every [step] of [RowEchelonEnvironment] that returns.
    [AtariEnv.step], when it returns, returns exactly four: observation, the
    sign of the reward of the wrapped gym environment, done flag, and as the
    fourth the info dict that environment returned. *)
Theorem C3_step_tuple_components :
  (∀ self h action,
     RowEchelonSpec.reachable self h → RowEchelonSpec.valid_action self action →
     (∀ r h', RowEchelonEnvironment.step self action h = (Py.Ok r, h') →
        ∃ obs done,
          Py.components (RowEchelonEnvironment.returned (Num := float) r)
          = Some [Py.VArray obs; Py.VInt (-1); Py.VBool done])
     ∧ (RowEchelonEnvironment.F self < 2 ^ 63 →
        ∃ r h' obs done,
          RowEchelonEnvironment.step self action h = (Py.Ok r, h')
          ∧ Py.components (RowEchelonEnvironment.returned (Num := float) r)
            = Some [Py.VArray obs; Py.VInt (-1); Py.VBool done]))
  ∧ (∀ self h action,
     RowChoiceSpec.reachable self h → RowChoiceSpec.valid_action self action →
     ∃ r h' obs reward done,
       RowChoiceEnvironment.step self action h = (Py.Ok r, h')
       ∧ Py.components (RowChoiceEnvironment.returned r)
         = Some [Py.VArray obs; Py.VInt reward; Py.VBool done])
  ∧ (∀ (gym : Type) gym_step (self : @AtariEnv.t gym) action r self',
     AtariEnv.step gym_step action self = (Py.Ok r, self') →
     ∃ obs done inf state reward0 done0,
       Py.components (AtariEnv.returned r)
       = Some [Py.VArray obs; Py.VFloat (fsign reward0); Py.VBool done; Py.VDict inf]
       ∧ (gym_step (AtariEnv.env self) action).1 = Py.Ok (state, reward0, done0, inf)).
Proof.
  split_and!.
  - intros self h action Hreach Hact. split.
    + intros r h' Hok.
      destruct (echelon_step_any _ _ _ _ Hreach Hact) as (a & k & i & j & _ & _ & _ & Hstep).
      rewrite Hstep in Hok.
      destruct (Pure.updated _ _ _ a) as [a'|]; [|done].
      injection Hok as <- <-. by eexists _, _.
    + intros HF.
      destruct (echelon_step_state _ _ _ Hreach HF Hact) as (a & k & i & j & _ & _ & _ & Hstep).
      by eexists _, _, _, _.
  - intros self h action Hreach Hact.
    destruct (choice_step_state _ _ _ _ Hreach Hact) as (a & _ & _ & Hstep).
    by eexists _, _, _, _, _.
  - intros gym gym_step self action r self' Hstep.
    apply atari_step_tuple in Hstep
      as (obs & done & inf & state & reward0 & done0 & -> & Hgym).
    by exists obs, done, inf, state, reward0, done0.
Qed.
End Tuples.

Lemma atari_example_step :
  ∃ r self', AtariEnv.step (H := Qfloat) Examples.atari_gym_step 0 Examples.atari_self
             = (Py.Ok r, self').
Proof. eexists _, _. vm_compute. reflexivity. Defined.

Lemma C3_witness :
  (RowEchelonSpec.reachable Examples.echelon_self Examples.echelon_heap
   ∧ RowEchelonSpec.valid_action Examples.echelon_self 0
   ∧ RowEchelonEnvironment.F Examples.echelon_self < 2 ^ 63
   ∧ ∃ r h' obs done,
       RowEchelonEnvironment.step Examples.echelon_self 0 Examples.echelon_heap = (Py.Ok r, h')
       ∧ Py.components (RowEchelonEnvironment.returned (Num := Q) r)
         = Some [Py.VArray obs; Py.VInt (-1); Py.VBool done])
  ∧ (RowChoiceSpec.reachable Examples.choice_self Examples.choice_heap
     ∧ RowChoiceSpec.valid_action Examples.choice_self 1
     ∧ ∃ r h' obs reward done,
       RowChoiceEnvironment.step Examples.choice_self 1 Examples.choice_heap = (Py.Ok r, h')
       ∧ Py.components (RowChoiceEnvironment.returned (H := Qfloat) r)
         = Some [Py.VArray obs; Py.VInt reward; Py.VBool done])
  ∧ (∃ r self' obs done inf state reward0 done0,
       AtariEnv.step (H := Qfloat) Examples.atari_gym_step 0 Examples.atari_self = (Py.Ok r, self')
       ∧ Py.components (AtariEnv.returned (H := Qfloat) r)
         = Some [Py.VArray obs; Py.VFloat (@fsign Qfloat reward0); Py.VBool done; Py.VDict inf]
       ∧ (Examples.atari_gym_step (AtariEnv.env Examples.atari_self) 0).1
         = Py.Ok (state, reward0, done0, inf)).
Proof.
  assert (Hv1 : RowEchelonSpec.valid_action Examples.echelon_self 0)
    by (vm_compute; split; congruence).
  assert (Hv2 : RowChoiceSpec.valid_action Examples.choice_self 1)
    by (vm_compute; split; congruence).
  assert (HF : RowEchelonEnvironment.F Examples.echelon_self < 2 ^ 63)
    by (vm_compute; reflexivity).
  split_and!.
  - apply echelon_example_reachable.
  - exact Hv1.
  - exact HF.
  - exact (proj2 (proj1 (C3_step_tuple_components (H := Qfloat)) _ _ _
                    echelon_example_reachable Hv1) HF).
  - apply choice_example_reachable.
  - exact Hv2.
  - exact (proj1 (proj2 (C3_step_tuple_components (H := Qfloat))) _ _ _
             choice_example_reachable Hv2).
  - destruct atari_example_step as (r & self' & Hstep).
    destruct (proj2 (proj2 (C3_step_tuple_components (H := Qfloat))) _ _ _ _ _ _ Hstep)
      as (obs & done & inf & state & reward0 & done0 & Hc & Hg).
    by exists r, self', obs, done, inf, state, reward0, done0.
Defined.

(** The claim as written fails: at a reachable state of
    [RowEchelonEnvironment], [step] with a valid action returns a tuple of
    three components, not four, and none of them is a dict.  And with the
    modulus [2 ^ 63], which [reset] accepts, [step] with the valid action 1,
    which adds rows, returns no tuple at all: it raises [OverflowError]. *)
Lemma C3_counterexample :
  (RowEchelonSpec.reachable Examples.echelon_self Examples.echelon_heap
   ∧ RowEchelonSpec.valid_action Examples.echelon_self 0
   ∧ ∃ r h' vs,
       RowEchelonEnvironment.step Examples.echelon_self 0 Examples.echelon_heap = (Py.Ok r, h')
       ∧ Py.components (RowEchelonEnvironment.returned (Num := Q) r) = Some vs
       ∧ length vs = 3%nat
       ∧ vs !! 3%nat = None
       ∧ Forall (λ v, Py.is_dict v = false) vs)
  ∧ (RowEchelonSpec.reachable Examples.echelon_wide_self Examples.echelon_heap
     ∧ RowEchelonSpec.valid_action Examples.echelon_wide_self 1
     ∧ RowEchelonEnvironment.step Examples.echelon_wide_self 1 Examples.echelon_heap
       = (Py.Raise Py.OverflowError, Examples.echelon_heap)).
Proof.
  split.
  - split; [apply echelon_example_reachable|].
    split; [vm_compute; split; congruence|].
    eexists _, _, _. split; [vm_compute; reflexivity|].
    split; [reflexivity|]. split; [reflexivity|]. split; [reflexivity|].
    repeat constructor.
  - split; [apply echelon_wide_reachable|].
    split; [vm_compute; split; congruence|].
    vm_compute. reflexivity.
Qed.

(** ** Actions out of range, and actions that move nothing *)

Section OutOfRange.
Context `{Float}.
Import RowChoiceEnvironment RowChoiceSpec.

(** The pivot loop changes nothing when the lead column is clear in the
    rows it visits. *)
Lemma pivot_clear sum_mod action p lead rows a moves :
  Forall (λ i, Z.of_nat i ≠ action → Pure.entry a i lead = 0) rows →
  Pure.pivot sum_mod action p lead rows a moves = (a, moves).
Proof.
  induction 1 as [|i rest Hi _ IH]; [done|].
  cbn [Pure.pivot]. case_bool_decide as Hne; [|done].
  rewrite bool_decide_eq_false_2; [done|]. rewrite (Hi Hne). lia.
Qed.

Lemma choice_step_no_move (action : Z) a :
  0 ≤ action → Pure.no_move (length a) a (Z.to_nat action) →
  Pure.choice_step action (Z.to_nat action) a = (a, -100).
Proof.
  intros H0 Hno. unfold Pure.choice_step, Pure.pivoted. unfold Pure.no_move in Hno.
  destruct (Np.lead (Pure.row a (Z.to_nat action))) as [lead|]; [|done].
  rewrite pivot_clear; [done|].
  apply Forall_forall. intros i Hi%elem_of_seq Hne. apply Hno; lia.
Qed.

(** C2, as the code has it.  At a reachable state of [RowChoiceEnvironment],
    [step] with an action index beyond the rows, [action >= N] or
    [action < -N], raises [IndexError] and leaves the store as it was.  The
    fixed reward -100 is what [step] returns, with the matrix unchanged, for
    a valid action that moves nothing: the chosen row is zero, or no other
    row has an entry in the column of its lead. *)
Theorem C2_out_of_range_raises :
  (∀ self h action,
     reachable self h → (action < - Z.of_nat (N self) ∨ Z.of_nat (N self) ≤ action) →
     step self action h = (Py.Raise Py.IndexError, h))
  ∧ (∀ self h action a,
     reachable self h → valid_action self action → h !! matrix self = Some a →
     Pure.no_move (N self) a (Z.to_nat action) →
     step self action h
     = (Py.Ok (fresh (dom h), -100, Pure.is_reduced a), <[fresh (dom h) := a]> h)).
Proof.
  split.
  - intros self h action Hreach Hout.
    destruct (choice_state_of_inv _ _ _ Hreach) as (a & Hl & Hs).
    apply (choice_step_Raise self h a); [done|apply Hs|].
    by apply norm_index_None.
  - intros self h action a Hreach Hact Hl Hno.
    destruct (choice_step_state _ _ _ _ Hreach Hact) as (a0 & Hl0 & Hs & Hstep).
    rewrite Hl in Hl0. injection Hl0 as <-.
    rewrite <- (proj1 Hs) in Hno.
    rewrite (choice_step_no_move action a (proj1 Hact) Hno) in Hstep.
    cbn [fst snd] in Hstep. by rewrite (insert_id h _ _ Hl) in Hstep.
Qed.
End OutOfRange.

Lemma C2_witness :
  (RowChoiceSpec.reachable Examples.choice_self Examples.choice_heap
   ∧ (3 < - Z.of_nat (RowChoiceEnvironment.N Examples.choice_self)
      ∨ Z.of_nat (RowChoiceEnvironment.N Examples.choice_self) ≤ 3)
   ∧ RowChoiceEnvironment.step Examples.choice_self 3 Examples.choice_heap
     = (Py.Raise Py.IndexError, Examples.choice_heap))
  ∧ (RowChoiceSpec.reachable Examples.choice_self Examples.choice_heap
     ∧ RowChoiceSpec.valid_action Examples.choice_self 2
     ∧ Examples.choice_heap !! RowChoiceEnvironment.matrix Examples.choice_self
       = Some [[1; 1]; [1; 0]; [0; 0]]
     ∧ Pure.no_move 3 [[1; 1]; [1; 0]; [0; 0]] 2
     ∧ RowChoiceEnvironment.step Examples.choice_self 2 Examples.choice_heap
       = (Py.Ok (fresh (dom Examples.choice_heap), -100,
                 Pure.is_reduced [[1; 1]; [1; 0]; [0; 0]]),
          <[fresh (dom Examples.choice_heap) := [[1; 1]; [1; 0]; [0; 0]]]>
            Examples.choice_heap)).
Proof.
  assert (Hout : 3 < - Z.of_nat (RowChoiceEnvironment.N Examples.choice_self)
                 ∨ Z.of_nat (RowChoiceEnvironment.N Examples.choice_self) ≤ 3)
    by (right; vm_compute; congruence).
  assert (Hv : RowChoiceSpec.valid_action Examples.choice_self 2)
    by (vm_compute; split; congruence).
  assert (Hl : Examples.choice_heap !! RowChoiceEnvironment.matrix Examples.choice_self
               = Some [[1; 1]; [1; 0]; [0; 0]]) by reflexivity.
  assert (Hno : Pure.no_move 3 [[1; 1]; [1; 0]; [0; 0]] 2) by (vm_compute; exact I).
  split.
  - split; [apply choice_example_reachable|]. split; [exact Hout|].
    exact (proj1 (C2_out_of_range_raises (H := Qfloat)) _ _ _ choice_example_reachable Hout).
  - split; [apply choice_example_reachable|]. split; [exact Hv|].
    split; [exact Hl|]. split; [exact Hno|].
    exact (proj2 (C2_out_of_range_raises (H := Qfloat)) _ _ _ _
             choice_example_reachable Hv Hl Hno).
Defined.

(** The claim as written fails: at a reachable state of a three-row
    [RowChoiceEnvironment], the action 3 is outside [0, N) and [step] raises
    [IndexError] instead of returning; the action -2 is outside [0, N) too,
    and [step] returns the reward -2 after changing two rows. *)
Lemma C2_counterexample :
  RowChoiceSpec.reachable Examples.choice_self Examples.choice_heap
  ∧ ¬ RowChoiceSpec.valid_action Examples.choice_self 3
  ∧ RowChoiceEnvironment.step Examples.choice_self 3 Examples.choice_heap
    = (Py.Raise Py.IndexError, Examples.choice_heap)
  ∧ ¬ RowChoiceSpec.valid_action Examples.choice_self (-2)
  ∧ ∃ obs done h',
      RowChoiceEnvironment.step Examples.choice_self (-2) Examples.choice_heap
      = (Py.Ok (obs, -2, done), h')
      ∧ h' !! RowChoiceEnvironment.matrix Examples.choice_self = Some [[0; 1]; [0; 0]; [0; 0]].
Proof.
  split; [apply choice_example_reachable|].
  split; [vm_compute; intros [? ?]; congruence|].
  split; [vm_compute; reflexivity|].
  split; [vm_compute; intros [? ?]; congruence|].
  eexists _, _, _. split; vm_compute; reflexivity.
Qed.

(** ** PairsLeftBaseline *)

Section PairsLeft.
Context `{Float}.
Import PairsLeftBaseline.

(** C10.  [PairsLeftBaseline.predict] reads the shape of its input only: two
    inputs of equal shape give equal outcomes.  On an input of shape
    [(s, p, ...)] it returns an [s] by 1 array whose every entry is [-p] when
    [gam == 1], and [-(1 - gam ** p) / (1 - gam)] otherwise if the power
    [gam ** p] is within the range of a double; if it is not, [predict]
    raises [OverflowError]. *)
Theorem C10_predict_shape_only self X states pairs rest :
  shape X = states :: pairs :: rest →
  (∀ Y, shape Y = shape X → predict self Y = predict self X)
  ∧ (feqb (gam self) (of_Z 1) = true →
     ∃ out, predict self X = Py.Ok out
       ∧ length out = states
       ∧ Forall (λ r, r = [Int (- Z.of_nat pairs)]) out)
  ∧ (feqb (gam self) (of_Z 1) = false →
     ∀ g, fpow (gam self) pairs = Some g →
     ∃ out, predict self X = Py.Ok out
       ∧ length out = states
       ∧ Forall (λ r, r = [Flt (fdiv (fneg (fsub (of_Z 1) g)) (fsub (of_Z 1) (gam self)))]) out)
  ∧ (feqb (gam self) (of_Z 1) = false →
     fpow (gam self) pairs = None →
     predict self X = Py.Raise Py.OverflowError).
Proof.
  intros HX. split_and!.
  - intros Y HY. unfold predict. by rewrite HY.
  - intros Hg. eexists. unfold predict. rewrite HX, Hg. split; [done|].
    unfold full. split; [by rewrite length_replicate|by apply Forall_replicate].
  - intros Hg g Hpow. eexists. unfold predict. rewrite HX, Hg, Hpow. split; [done|].
    unfold full. split; [by rewrite length_replicate|by apply Forall_replicate].
  - intros Hg Hpow. unfold predict. by rewrite HX, Hg, Hpow.
Qed.
End PairsLeft.

Lemma C10_witness :
  let self := PairsLeftBaseline.Build (H := Qfloat) (99 # 100)%Q in
  let X := PairsLeftBaseline.Array (H := Qfloat) [2; 3; 4]%nat [] in
  PairsLeftBaseline.shape X = [2; 3; 4]%nat
  ∧ (∀ Y, PairsLeftBaseline.shape Y = PairsLeftBaseline.shape X →
          PairsLeftBaseline.predict self Y = PairsLeftBaseline.predict self X)
  ∧ ∃ out, PairsLeftBaseline.predict self X = Py.Ok out
    ∧ length out = 2%nat
    ∧ Forall (λ r, r = [PairsLeftBaseline.Flt (H := Qfloat)
                          (Qdiv (Qopp (Qminus 1 (Qpower (99 # 100) 3))) (Qminus 1 (99 # 100)))]) out.
Proof.
  intros self X. split; [reflexivity|].
  pose proof (C10_predict_shape_only (H := Qfloat) self X 2 3 [4%nat] eq_refl)
    as (Hshape & _ & Hflt & _).
  split; [exact Hshape|].
  exact (Hflt eq_refl (Qpower (99 # 100) 3) eq_refl).
Defined.

(** C10, as the claim has it, fails where the power overflows: with [gam]
    1.5 and an input of shape [(1, 2000)], [gam ** 2000] is beyond the range
    of a double and [predict] raises [OverflowError]; it returns no array. *)
Lemma C10_counterexample :
  PairsLeftBaseline.shape Examples.pairs_long = [1; 2000]%nat
  ∧ PairsLeftBaseline.gam Examples.pairs_steep = (3 # 2)%Q
  ∧ PairsLeftBaseline.predict Examples.pairs_steep Examples.pairs_long
    = Py.Raise Py.OverflowError
  ∧ ¬ ∃ out, PairsLeftBaseline.predict Examples.pairs_steep Examples.pairs_long = Py.Ok out.
Proof.
  assert (Hp : PairsLeftBaseline.predict Examples.pairs_steep Examples.pairs_long
               = Py.Raise Py.OverflowError) by (vm_compute; reflexivity).
  split_and!; [done|done|done|].
  intros [out Hout]. by rewrite Hp in Hout.
Qed.

(** ** AgentBaseline.predict works on a copy *)

Section Baseline.
Context `{Float}.
Context {Item Obs Agent : Type}.
Context (act : Agent → Obs → Z * Agent).
Context (observe : list (list Item) → Obs).
Context (transition : list (list Item) → Z → Py.outcome (Obs * float * bool) * list (list Item)).
Implicit Types (h : gmap positive (list Item)) (e : AgentBaseline.env).

Lemma baseline_read_all_store ls h : (AgentBaseline.read_all ls h).2 = h.
Proof.
  induction ls as [|l ls IH]; [done|]. cbn [AgentBaseline.read_all].
  unfold Py.bind, AgentBaseline.read at 1. destruct (h !! l); [|done].
  destruct (AgentBaseline.read_all ls h) as [[r | ex |] h'] eqn:Hr; by simpl in IH; subst h'.
Qed.

Lemma baseline_write_all_frame ls : ∀ contents h0 h,
  h0 ⊆ h → Forall (λ l, h0 !! l = None) ls →
  h0 ⊆ (AgentBaseline.write_all ls contents h).2.
Proof.
  induction ls as [|l ls IH]; intros contents h0 h Hsub Hfresh; [done|].
  destruct contents as [|a contents]; [done|].
  apply Forall_cons in Hfresh as [Hl Hfresh].
  cbn [AgentBaseline.write_all]. unfold Py.bind, AgentBaseline.write at 1.
  apply IH; [|done]. by apply insert_subseteq_r.
Qed.

Lemma baseline_step_frame e action h0 h :
  h0 ⊆ h → Forall (λ l, h0 !! l = None) (AgentBaseline.cells e) →
  h0 ⊆ (AgentBaseline.step transition e action h).2.
Proof.
  intros Hsub Hfresh. unfold AgentBaseline.step, Py.bind.
  pose proof (baseline_read_all_store (AgentBaseline.cells e) h) as Hread.
  destruct (AgentBaseline.read_all (AgentBaseline.cells e) h) as [[contents | ex |] h1];
    simpl in Hread; subst h1; try done.
  destruct (transition contents action) as [r contents'].
  pose proof (baseline_write_all_frame (AgentBaseline.cells e) contents' h0 h Hsub Hfresh) as Hw.
  destruct (AgentBaseline.write_all (AgentBaseline.cells e) contents' h) as [[[] | ex |] h2];
    simpl in Hw; try done.
  by destruct r.
Qed.

Lemma baseline_rollout_frame fuel self e h0 :
  Forall (λ l, h0 !! l = None) (AgentBaseline.cells e) →
  ∀ ag state R discount h, h0 ⊆ h →
    h0 ⊆ (AgentBaseline.rollout act transition fuel self ag e state R discount h).2.
Proof.
  intros Hfresh. induction fuel as [|fuel IH]; intros ag state R discount h Hsub; [done|].
  cbn [AgentBaseline.rollout]. destruct (act ag state) as [action ag'].
  unfold Py.bind.
  pose proof (baseline_step_frame e action h0 h Hsub Hfresh) as Hstep.
  destruct (AgentBaseline.step transition e action h) as [[[[state' reward] fin] | ex |] h1];
    simpl in Hstep; simpl; [|done|done].
  destruct fin; [done|]. by apply IH.
Qed.

Lemma baseline_alloc_subseteq h (a : list Item) : h ⊆ <[fresh (dom h) := a]> h.
Proof. apply insert_subseteq, not_elem_of_dom, is_fresh. Qed.

Lemma baseline_copy_fresh e h :
  h ⊆ (AgentBaseline.copy e h).2
  ∧ ∀ e', (AgentBaseline.copy e h).1 = Py.Ok e' →
      Forall (λ l, h !! l = None) (AgentBaseline.cells e').
Proof.
  destruct e as [G P | m]; unfold AgentBaseline.copy, Py.bind, AgentBaseline.read,
    AgentBaseline.alloc, Py.ret; simpl.
  - destruct (h !! G) as [g|]; [|done]. destruct (h !! P) as [p|]; [|done]. simpl. split.
    + etrans; apply baseline_alloc_subseteq.
    + intros e' [= <-]. repeat constructor.
      * apply not_elem_of_dom, is_fresh.
      * eapply lookup_weaken_None; [|apply (baseline_alloc_subseteq h g)].
        apply not_elem_of_dom, is_fresh.
  - destruct (h !! m) as [a|]; [|done]. simpl. split.
    + apply baseline_alloc_subseteq.
    + intros e' [= <-]. repeat constructor. apply not_elem_of_dom, is_fresh.
Qed.

(** C6.  [AgentBaseline.predict(env)] steps the copy only.  Every object of
    the store keeps its contents over the call, whatever the agent, the
    transition of the environment and the fuel; in particular the basis and
    the pair queue, or the matrix, of the environment passed in.  And one
    [step] of a fresh copy leaves the lists of the original as they were. *)
Theorem C6_predict_leaves_env_unchanged fuel self e h :
  Forall (λ l, is_Some (h !! l)) (AgentBaseline.cells e) →
  h ⊆ (AgentBaseline.predict act observe transition fuel self e h).2
  ∧ Forall (λ l, (AgentBaseline.predict act observe transition fuel self e h).2 !! l = h !! l)
      (AgentBaseline.cells e)
  ∧ ∀ e' h1 action,
      AgentBaseline.copy e h = (Py.Ok e', h1) →
      Forall (λ l, (AgentBaseline.step transition e' action h1).2 !! l = h !! l)
        (AgentBaseline.cells e).
Proof.
  intros Hcells.
  assert (Hsub : h ⊆ (AgentBaseline.predict act observe transition fuel self e h).2).
  { unfold AgentBaseline.predict, Py.bind.
    destruct (baseline_copy_fresh e h) as [Hsub Hfresh].
    destruct (AgentBaseline.copy e h) as [[e' | ex |] h1]; simpl in Hsub, Hfresh; try done.
    specialize (Hfresh e' eq_refl).
    pose proof (baseline_read_all_store (AgentBaseline.cells e') h1) as Hread.
    destruct (AgentBaseline.read_all (AgentBaseline.cells e') h1) as [[contents | ex |] h2];
      simpl in Hread; subst h2; try done.
    by apply baseline_rollout_frame. }
  split; [done|]. split.
  - eapply Forall_impl; [exact Hcells|]. intros l [x Hx]. simpl.
    rewrite Hx. by apply (lookup_weaken _ _ _ _ Hx).
  - intros e' h1 action Hcopy.
    destruct (baseline_copy_fresh e h) as [Hsub1 Hfresh]. rewrite Hcopy in Hsub1, Hfresh.
    simpl in Hsub1, Hfresh. specialize (Hfresh e' eq_refl).
    pose proof (baseline_step_frame e' action h h1 Hsub1 Hfresh) as Hstep.
    eapply Forall_impl; [exact Hcells|]. intros l [x Hx]. simpl.
    rewrite Hx. by apply (lookup_weaken _ _ _ _ Hx).
Qed.
End Baseline.

Lemma C6_witness :
  Forall (λ l, is_Some (Examples.baseline_store !! l)) (AgentBaseline.cells Examples.baseline_env)
  ∧ Examples.baseline_store
    ⊆ (AgentBaseline.predict (H := Qfloat) Examples.baseline_act Examples.baseline_observe
         Examples.baseline_transition 5 Examples.baseline_self Examples.baseline_env
         Examples.baseline_store).2
  ∧ Forall (λ l, (AgentBaseline.predict (H := Qfloat) Examples.baseline_act
                    Examples.baseline_observe Examples.baseline_transition 5
                    Examples.baseline_self Examples.baseline_env Examples.baseline_store).2 !! l
                 = Examples.baseline_store !! l)
      (AgentBaseline.cells Examples.baseline_env)
  ∧ ∀ e' h1 action,
      AgentBaseline.copy Examples.baseline_env Examples.baseline_store = (Py.Ok e', h1) →
      Forall (λ l, (AgentBaseline.step (H := Qfloat) Examples.baseline_transition e' action h1).2 !! l
                   = Examples.baseline_store !! l)
        (AgentBaseline.cells Examples.baseline_env).
Proof.
  assert (Hcells : Forall (λ l, is_Some (Examples.baseline_store !! l))
                     (AgentBaseline.cells Examples.baseline_env)).
  { repeat constructor; eexists; vm_compute; reflexivity. }
  split; [exact Hcells|].
  exact (C6_predict_leaves_env_unchanged (H := Qfloat) Examples.baseline_act
           Examples.baseline_observe Examples.baseline_transition 5 Examples.baseline_self
           Examples.baseline_env Examples.baseline_store Hcells).
Defined.

(** On the example the rollout takes two steps and returns; the copy has lost
    its pairs, the original has not. *)
Lemma baseline_example_predict :
  ∃ R h', AgentBaseline.predict (H := Qfloat) Examples.baseline_act Examples.baseline_observe
            Examples.baseline_transition 5 Examples.baseline_self Examples.baseline_env
            Examples.baseline_store = (Py.Ok R, h')
    ∧ h' !! 2%positive = Some [7; 8] ∧ h' !! 4%positive = Some [].
Proof. eexists _, _. split_and!; vm_compute; reflexivity. Qed.

(** ** Observations are copies: overwriting one changes no later call *)

Section Overwrite.
Implicit Types (h : Np.heap) (l : Np.loc) (a x : Np.ndarray).

Lemma dom_mutate h l x : is_Some (h !! l) → dom (<[l := x]> h) = dom h.
Proof. intros [a Ha]. by apply (dom_overwrite h l a). Qed.

Lemma is_Some_insert h l k x : is_Some (h !! l) → is_Some (<[k := x]> h !! l).
Proof. intros Hl. apply lookup_insert_is_Some'. by right. Qed.

Lemma fresh_ne_held h l : is_Some (h !! l) → l ≠ fresh (dom h).
Proof. intros Hl Heq. by apply (fresh_not_in h l). Qed.

(** Allocation and overwriting commute. *)
Lemma alloc_mutate h l x a :
  is_Some (h !! l) →
  Np.alloc a (<[l := x]> h) = ((Np.alloc a h).1, <[l := x]> (Np.alloc a h).2).
Proof.
  intros Hl. unfold Np.alloc. cbn [fst snd]. rewrite (dom_mutate _ _ _ Hl).
  by rewrite (insert_insert_ne _ l (fresh (dom h))) by (by apply fresh_ne_held).
Qed.

Lemma copy_mutate h l x k a :
  is_Some (h !! l) → h !! k = Some a → l ≠ k →
  Np.copy k (<[l := x]> h) = (Py.Ok (fresh (dom h)), <[l := x]> (<[fresh (dom h) := a]> h)).
Proof.
  intros Hl Hk Hne.
  assert (Hk' : <[l := x]> h !! k = Some a) by (by rewrite lookup_insert_ne).
  rewrite (copy_Ok _ _ _ Hk'). rewrite (dom_mutate _ _ _ Hl).
  by rewrite (insert_insert_ne _ l (fresh (dom h))) by (by apply fresh_ne_held).
Qed.
End Overwrite.

Section EchelonOverwrite.
Import RowEchelonEnvironment RowEchelonSpec.
Implicit Types (self : t) (h : Np.heap) (l : Np.loc) (a x : Np.ndarray).

Lemma echelon_step_mutate self h a action l x :
  h !! matrix self = Some a → Pure.shaped (N self) (M self) a →
  action_tuples self = make_action_tuples (N self) → valid_action self action →
  l ≠ matrix self → is_Some (h !! l) →
  step self action (<[l := x]> h) = ((step self action h).1, <[l := x]> (step self action h).2).
Proof.
  intros Hl Hs Hacts Hact Hne Hsome.
  destruct (echelon_valid_action_getitem _ _ Hacts Hact) as (k & i & j & Hget & Hi & Hj).
  assert (Hl' : <[l := x]> h !! matrix self = Some a) by (by rewrite lookup_insert_ne).
  rewrite (echelon_step_cases self _ a action k i j Hl' (proj1 Hs) Hget Hi Hj).
  rewrite (echelon_step_cases self _ a action k i j Hl (proj1 Hs) Hget Hi Hj).
  destruct (Pure.updated (dtype self) (F self) (k, i, j) a) as [a'|]; [|done].
  cbn [fst snd]. rewrite (dom_mutate _ _ _ Hsome). f_equal.
  rewrite (insert_insert_ne _ l (fresh (dom h))) by (by apply fresh_ne_held).
  by rewrite (insert_insert_ne _ l (matrix self)).
Qed.

Lemma echelon_reset_loop_mutate fuel draws l x :
  ∀ k self h a,
    h !! matrix self = Some a → length a = N self → l ≠ matrix self → is_Some (h !! l) →
    reset_loop fuel draws k self (<[l := x]> h)
    = ((reset_loop fuel draws k self h).1, <[l := x]> (reset_loop fuel draws k self h).2).
Proof.
  induction fuel as [|fuel IH]; intros k self h a Hl Hn Hne Hsome;
    (assert (Hl' : <[l := x]> h !! matrix self = Some a) by (by rewrite lookup_insert_ne));
    cbn [reset_loop];
    rewrite (bind_Ok _ _ _ _ _ (is_row_echelon_Ok _ _ _ Hl' Hn));
    rewrite (bind_Ok _ _ _ _ _ (is_row_echelon_Ok _ _ _ Hl Hn));
    destruct (Pure.is_row_echelon a); try done.
  unfold _random_matrix. case_bool_decide; [|done].
  rewrite (bind_Ok _ _ _ _ _ (alloc_Ok _ _)), (bind_Ok _ _ _ _ _ (alloc_Ok _ _)).
  rewrite (dom_mutate _ _ _ Hsome).
  rewrite (insert_insert_ne _ (fresh (dom h)) l) by (apply not_eq_sym; by apply fresh_ne_held).
  apply (IH _ _ _ (Np.tabulate (N self) (M self) (draws k))).
  - apply lookup_insert_eq.
  - apply tabulate_shaped.
  - by apply fresh_ne_held.
  - by apply is_Some_insert.
Qed.

Lemma echelon_reset_mutate fuel draws self h l x :
  is_Some (h !! l) →
  reset fuel draws self (<[l := x]> h)
  = ((reset fuel draws self h).1, <[l := x]> (reset fuel draws self h).2).
Proof.
  intros Hsome. unfold reset, _random_matrix. case_bool_decide; [|done].
  rewrite (bind_Ok _ _ _ _ _ (alloc_Ok _ _)), (bind_Ok _ _ _ _ _ (alloc_Ok _ _)).
  rewrite (dom_mutate _ _ _ Hsome).
  rewrite (insert_insert_ne _ (fresh (dom h)) l) by (apply not_eq_sym; by apply fresh_ne_held).
  set (l0 := fresh (dom h)). set (tab := Np.tabulate (N self) (M self) (draws 0%nat)).
  set (h0 := <[l0 := tab]> h).
  assert (Hl0 : h0 !! matrix (set_matrix self l0) = Some tab) by apply lookup_insert_eq.
  assert (Hn0 : length tab = N (set_matrix self l0)) by apply tabulate_shaped.
  assert (Hne0 : l ≠ matrix (set_matrix self l0)) by (by apply fresh_ne_held).
  assert (Hsome0 : is_Some (h0 !! l)) by (by apply is_Some_insert).
  pose proof (echelon_reset_loop_mutate fuel draws l x 1%nat _ h0 tab Hl0 Hn0 Hne0 Hsome0)
    as Hmut.
  destruct (reset_loop fuel draws 1 (set_matrix self l0) h0) as [[self1 | ex |] h1] eqn:Hloop;
    cbn [fst snd] in Hmut.
  2:{ by rewrite (bind_Raise _ _ _ _ _ Hmut), (bind_Raise _ _ _ _ _ Hloop). }
  2:{ by rewrite (bind_Running _ _ _ _ Hmut), (bind_Running _ _ _ _ Hloop). }
  rewrite (bind_Ok _ _ _ _ _ Hmut), (bind_Ok _ _ _ _ _ Hloop).
  apply (echelon_reset_loop_Ok _ _ _ _ _ tab) in Hloop
    as (a' & Hl1 & _ & _ & Hsub & _ & Hm); [|done|done|done].
  assert (Hsome1 : is_Some (h1 !! l)).
  { destruct Hsome0 as [y Hy]. exists y. by apply (lookup_weaken _ _ _ _ Hy). }
  assert (Hne1 : l ≠ matrix self1).
  { destruct Hm as [Hm | Hm]; [by rewrite Hm|].
    intros ->. rewrite Hm in Hsome0. by destruct Hsome0. }
  rewrite (bind_Ok _ _ _ _ _ (copy_mutate _ _ x _ _ Hsome1 Hl1 Hne1)).
  by rewrite (bind_Ok _ _ _ _ _ (copy_Ok _ _ _ Hl1)).
Qed.

(** The arrays the caller holds are in the store, and none is the matrix. *)
Lemma echelon_holds_inv b self h held :
  holds b self h held →
  state_of b self h ∧ (matrix self ∉ held) ∧ ∀ l, l ∈ held → is_Some (h !! l).
Proof.
  induction 1 as [shape modulus h0 self h Hinit
                 |b self0 h0 held fuel draws self obs h _ IH Hrand Hreset
                 |b self h held action obs reward done h' _ IH Hact Hstep
                 |b self h held l x _ IH Hin].
  - split; [by eapply st_init|]. split; [set_solver|]. set_solver.
  - destruct IH as (Hst & Hnot & Hheld).
    split; [by eapply st_reset|].
    apply echelon_reset_Ok in Hreset
      as (a' & k' & _ & Hl' & Ho & Hne & _ & Hsub & _ & Hfresh & _).
    split.
    + intros [Hin | Hin]%elem_of_union.
      * apply elem_of_singleton in Hin. by symmetry in Hin.
      * apply Hheld in Hin as [y Hy]. by rewrite Hfresh in Hy.
    + intros l [Hin | Hin]%elem_of_union.
      * apply elem_of_singleton in Hin as ->. by rewrite Ho.
      * apply Hheld in Hin as [y Hy]. exists y. by apply (lookup_weaken _ _ _ _ Hy).
  - destruct IH as (Hst & Hnot & Hheld).
    split; [by eapply st_step|].
    destruct (echelon_step_any _ _ _ _ Hst Hact) as (a & k & i & j & Hl & _ & _ & Hok).
    rewrite Hok in Hstep.
    destruct (Pure.updated (dtype self) (F self) (k, i, j) a) as [a'|]; [|done].
    injection Hstep as <- _ _ <-.
    split.
    + intros [Hin | Hin]%elem_of_union; [|done].
      apply elem_of_singleton in Hin. apply (fresh_not_in h (matrix self)); [by rewrite Hl|done].
    + intros l [Hin | Hin]%elem_of_union.
      * apply elem_of_singleton in Hin as ->. by rewrite lookup_insert_eq.
      * by apply is_Some_insert, is_Some_insert, Hheld.
  - destruct IH as (Hst & Hnot & Hheld).
    assert (Hne : l ≠ matrix self) by (intros ->; done).
    split; [|split; [done|]].
    + apply (st_caller _ _ h); [done|]. by rewrite lookup_insert_ne.
    + intros l' Hin'. by apply is_Some_insert, Hheld.
Qed.

Lemma echelon_observations_fresh self h held :
  holds true self h held →
  (matrix self ∉ held)
  ∧ (∀ action obs reward done h',
       valid_action self action → step self action h = (Py.Ok (obs, reward, done), h') →
       h !! obs = None ∧ obs ≠ matrix self ∧ h' !! obs = h' !! matrix self)
  ∧ (∀ fuel draws self' obs h',
       reset fuel draws self h = (Py.Ok (self', obs), h') →
       h !! obs = None ∧ obs ≠ matrix self' ∧ h' !! obs = h' !! matrix self')
  ∧ (∀ l x, l ∈ held →
       <[l := x]> h !! matrix self = h !! matrix self
       ∧ (∀ action, valid_action self action →
            step self action (<[l := x]> h)
            = ((step self action h).1, <[l := x]> (step self action h).2))
       ∧ (∀ fuel draws,
            reset fuel draws self (<[l := x]> h)
            = ((reset fuel draws self h).1, <[l := x]> (reset fuel draws self h).2))).
Proof.
  intros (Hst & Hnot & Hheld)%echelon_holds_inv.
  destruct (echelon_state_of_inv _ _ _ Hst) as (a & Hl & Hs & Hacts).
  split; [done|]. split_and!.
  - intros action obs reward done h' Hact Hstep.
    destruct (echelon_step_any _ _ _ _ Hst Hact) as (a0 & k & i & j & _ & _ & _ & Hok).
    rewrite Hok in Hstep.
    destruct (Pure.updated (dtype self) (F self) (k, i, j) a0) as [a'|]; [|done].
    injection Hstep as <- _ _ <-.
    assert (Hne : fresh (dom h) ≠ matrix self) by (apply fresh_not_in; by rewrite Hl).
    split; [apply fresh_lookup|]. split; [done|].
    rewrite lookup_insert_eq, lookup_insert_ne by done. by rewrite lookup_insert_eq.
  - intros fuel draws self' obs h' Hreset.
    apply echelon_reset_Ok in Hreset
      as (a' & k' & _ & Hl' & Ho & Hne & _ & _ & _ & _ & Hfresh & _).
    split; [done|]. split; [done|]. by rewrite Hl', Ho.
  - intros l x Hin.
    assert (Hne : l ≠ matrix self) by (intros ->; done).
    split; [by rewrite lookup_insert_ne|]. split.
    + intros action Hact. by apply (echelon_step_mutate self h a); [..|apply Hheld].
    + intros fuel draws. by apply echelon_reset_mutate, Hheld.
Qed.
End EchelonOverwrite.

Section ChoiceOverwrite.
Context `{Float}.
Import RowChoiceEnvironment RowChoiceSpec.
Implicit Types (self : t) (h : Np.heap) (l : Np.loc) (a x : Np.ndarray).

Lemma choice_step_mutate self h a action l x :
  h !! matrix self = Some a → Pure.shaped (N self) (M self) a →
  valid_action self action → l ≠ matrix self → is_Some (h !! l) →
  step self action (<[l := x]> h) = ((step self action h).1, <[l := x]> (step self action h).2).
Proof.
  intros Hl Hs Hact Hne Hsome.
  assert (Hl' : <[l := x]> h !! matrix self = Some a) by (by rewrite lookup_insert_ne).
  rewrite (choice_step_Ok self _ a action _ Hl' Hs (choice_valid_action_index _ _ Hact)).
  rewrite (choice_step_Ok self _ a action _ Hl Hs (choice_valid_action_index _ _ Hact)).
  cbn [fst snd]. rewrite (dom_mutate _ _ _ Hsome). f_equal.
  rewrite (insert_insert_ne _ l (fresh (dom h))) by (by apply fresh_ne_held).
  by rewrite (insert_insert_ne _ l (matrix self)).
Qed.

Lemma choice_reset_loop_mutate fuel draws l x :
  ∀ k self h a,
    h !! matrix self = Some a → Pure.shaped (N self) (M self) a →
    l ≠ matrix self → is_Some (h !! l) →
    reset_loop fuel draws k self (<[l := x]> h)
    = ((reset_loop fuel draws k self h).1, <[l := x]> (reset_loop fuel draws k self h).2).
Proof.
  induction fuel as [|fuel IH]; intros k self h a Hl Hs Hne Hsome;
    (assert (Hl' : <[l := x]> h !! matrix self = Some a) by (by rewrite lookup_insert_ne));
    cbn [reset_loop]; unfold _is_reduced;
    rewrite (bind_Ok _ _ _ _ _ (is_reduced_Ok _ _ _ _ _ Hl' Hs));
    rewrite (bind_Ok _ _ _ _ _ (is_reduced_Ok _ _ _ _ _ Hl Hs));
    destruct (Pure.is_reduced a); try done.
  unfold _random_matrix.
  rewrite (bind_Ok _ _ _ _ _ (alloc_Ok _ _)), (bind_Ok _ _ _ _ _ (alloc_Ok _ _)).
  rewrite (dom_mutate _ _ _ Hsome).
  rewrite (insert_insert_ne _ (fresh (dom h)) l) by (apply not_eq_sym; by apply fresh_ne_held).
  eapply IH.
  - apply lookup_insert_eq.
  - apply tabulate_shaped.
  - by apply fresh_ne_held.
  - by apply is_Some_insert.
Qed.

Lemma choice_reset_mutate fuel draws self h l x :
  is_Some (h !! l) →
  reset fuel draws self (<[l := x]> h)
  = ((reset fuel draws self h).1, <[l := x]> (reset fuel draws self h).2).
Proof.
  intros Hsome. unfold reset, _random_matrix.
  rewrite (bind_Ok _ _ _ _ _ (alloc_Ok _ _)), (bind_Ok _ _ _ _ _ (alloc_Ok _ _)).
  rewrite (dom_mutate _ _ _ Hsome).
  rewrite (insert_insert_ne _ (fresh (dom h)) l) by (apply not_eq_sym; by apply fresh_ne_held).
  set (l0 := fresh (dom h)).
  set (tab := Np.tabulate (N self) (M self) _).
  set (h0 := <[l0 := tab]> h).
  assert (Hl0 : h0 !! matrix (set_matrix self l0) = Some tab) by apply lookup_insert_eq.
  assert (Hs0 : Pure.shaped (N (set_matrix self l0)) (M (set_matrix self l0)) tab)
    by apply tabulate_shaped.
  assert (Hne0 : l ≠ matrix (set_matrix self l0)) by (by apply fresh_ne_held).
  assert (Hsome0 : is_Some (h0 !! l)) by (by apply is_Some_insert).
  pose proof (choice_reset_loop_mutate fuel draws l x 1%nat _ h0 tab Hl0 Hs0 Hne0 Hsome0)
    as Hmut.
  destruct (reset_loop fuel draws 1 (set_matrix self l0) h0) as [[self1 | ex |] h1] eqn:Hloop;
    cbn [fst snd] in Hmut.
  2:{ by rewrite (bind_Raise _ _ _ _ _ Hmut), (bind_Raise _ _ _ _ _ Hloop). }
  2:{ by rewrite (bind_Running _ _ _ _ Hmut), (bind_Running _ _ _ _ Hloop). }
  rewrite (bind_Ok _ _ _ _ _ Hmut), (bind_Ok _ _ _ _ _ Hloop).
  apply (choice_reset_loop_Ok _ _ _ _ _ tab) in Hloop
    as (a' & Hl1 & _ & _ & Hsub & _ & Hm); [|done|done].
  assert (Hsome1 : is_Some (h1 !! l)).
  { destruct Hsome0 as [y Hy]. exists y. by apply (lookup_weaken _ _ _ _ Hy). }
  assert (Hne1 : l ≠ matrix self1).
  { destruct Hm as [Hm | Hm]; [by rewrite Hm|].
    intros ->. rewrite Hm in Hsome0. by destruct Hsome0. }
  rewrite (bind_Ok _ _ _ _ _ (copy_mutate _ _ x _ _ Hsome1 Hl1 Hne1)).
  by rewrite (bind_Ok _ _ _ _ _ (copy_Ok _ _ _ Hl1)).
Qed.

Lemma choice_holds_inv b self h held :
  holds b self h held →
  state_of b self h ∧ (matrix self ∉ held) ∧ ∀ l, l ∈ held → is_Some (h !! l).
Proof.
  induction 1 as [shape density h0 self h Hinit
                 |b self0 h0 held fuel draws self obs h _ IH Hreset
                 |b self h held action obs reward done h' _ IH Hact Hstep
                 |b self h held l x _ IH Hin].
  - split; [by eapply st_init|]. split; [set_solver|]. set_solver.
  - destruct IH as (Hst & Hnot & Hheld).
    split; [by eapply st_reset|].
    apply choice_reset_Ok in Hreset
      as (a' & k' & _ & Hl' & Ho & Hne & _ & Hsub & _ & Hfresh & _).
    split.
    + intros [Hin | Hin]%elem_of_union.
      * apply elem_of_singleton in Hin. by symmetry in Hin.
      * apply Hheld in Hin as [y Hy]. by rewrite Hfresh in Hy.
    + intros l [Hin | Hin]%elem_of_union.
      * apply elem_of_singleton in Hin as ->. by rewrite Ho.
      * apply Hheld in Hin as [y Hy]. exists y. by apply (lookup_weaken _ _ _ _ Hy).
  - destruct IH as (Hst & Hnot & Hheld).
    split; [by eapply st_step|].
    destruct (choice_step_state _ _ _ _ Hst Hact) as (a & Hl & _ & Hok).
    rewrite Hok in Hstep. injection Hstep as <- _ _ <-.
    split.
    + intros [Hin | Hin]%elem_of_union; [|done].
      apply elem_of_singleton in Hin. apply (fresh_not_in h (matrix self)); [by rewrite Hl|done].
    + intros l [Hin | Hin]%elem_of_union.
      * apply elem_of_singleton in Hin as ->. by rewrite lookup_insert_eq.
      * by apply is_Some_insert, is_Some_insert, Hheld.
  - destruct IH as (Hst & Hnot & Hheld).
    assert (Hne : l ≠ matrix self) by (intros ->; done).
    split; [|split; [done|]].
    + apply (st_caller _ _ h); [done|]. by rewrite lookup_insert_ne.
    + intros l' Hin'. by apply is_Some_insert, Hheld.
Qed.

Lemma choice_observations_fresh self h held :
  holds true self h held →
  (matrix self ∉ held)
  ∧ (∀ action obs reward done h',
       valid_action self action → step self action h = (Py.Ok (obs, reward, done), h') →
       h !! obs = None ∧ obs ≠ matrix self ∧ h' !! obs = h' !! matrix self)
  ∧ (∀ fuel draws self' obs h',
       reset fuel draws self h = (Py.Ok (self', obs), h') →
       h !! obs = None ∧ obs ≠ matrix self' ∧ h' !! obs = h' !! matrix self')
  ∧ (∀ l x, l ∈ held →
       <[l := x]> h !! matrix self = h !! matrix self
       ∧ (∀ action, valid_action self action →
            step self action (<[l := x]> h)
            = ((step self action h).1, <[l := x]> (step self action h).2))
       ∧ (∀ fuel draws,
            reset fuel draws self (<[l := x]> h)
            = ((reset fuel draws self h).1, <[l := x]> (reset fuel draws self h).2))).
Proof.
  intros (Hst & Hnot & Hheld)%choice_holds_inv.
  destruct (choice_state_of_inv _ _ _ Hst) as (a & Hl & Hs).
  split; [done|]. split_and!.
  - intros action obs reward done h' Hact Hstep.
    destruct (choice_step_state _ _ _ _ Hst Hact) as (a0 & _ & _ & Hok).
    rewrite Hok in Hstep. injection Hstep as <- _ _ <-.
    assert (Hne : fresh (dom h) ≠ matrix self) by (apply fresh_not_in; by rewrite Hl).
    split; [apply fresh_lookup|]. split; [done|].
    rewrite lookup_insert_eq, lookup_insert_ne by done. by rewrite lookup_insert_eq.
  - intros fuel draws self' obs h' Hreset.
    apply choice_reset_Ok in Hreset
      as (a' & k' & _ & Hl' & Ho & Hne & _ & _ & _ & _ & Hfresh).
    split; [done|]. split; [done|]. by rewrite Hl', Ho.
  - intros l x Hin.
    assert (Hne : l ≠ matrix self) by (intros ->; done).
    split; [by rewrite lookup_insert_ne|]. split.
    + intros action Hact. by apply (choice_step_mutate self h a); [..|apply Hheld].
    + intros fuel draws. by apply choice_reset_mutate, Hheld.
Qed.
End ChoiceOverwrite.

Section ExtraOverwrite.
Context `{Float}.
Import RowChoiceEnvironmentExtra RowChoiceExtraSpec.
Implicit Types (self : t) (h : Np.heap) (l : Np.loc) (a rw x : Np.ndarray).

Lemma fresh_union_ne h (o l : Np.loc) : is_Some (h !! l) → l ≠ fresh ({[o]} ∪ dom h).
Proof.
  intros Hl%elem_of_dom Heq. apply (is_fresh ({[o]} ∪ dom h)). rewrite <- Heq.
  by apply elem_of_union_r.
Qed.

Lemma extra_step_mutate self h a rw action l x :
  h !! matrix self = Some a → Pure.shaped (N self) (M self) a →
  h !! rows self = Some rw → Pure.shaped (N self) 1 rw → rows self ≠ matrix self →
  valid_action self action → l ≠ matrix self → l ≠ rows self → is_Some (h !! l) →
  step self action (<[l := x]> h) = ((step self action h).1, <[l := x]> (step self action h).2).
Proof.
  intros Hl Hs Hr Hsr Hrm Hact Hne Hne' Hsome.
  assert (Hl' : <[l := x]> h !! matrix self = Some a) by (by rewrite lookup_insert_ne).
  assert (Hr' : <[l := x]> h !! rows self = Some rw) by (by rewrite lookup_insert_ne).
  rewrite (extra_step_Ok self _ a rw action _ Hl' Hs Hr' Hsr Hrm
             (extra_valid_action_index _ _ Hact)).
  rewrite (extra_step_Ok self _ a rw action _ Hl Hs Hr Hsr Hrm
             (extra_valid_action_index _ _ Hact)).
  cbn [fst snd]. rewrite (dom_mutate _ _ _ Hsome). f_equal.
  rewrite (insert_insert_ne _ l (fresh ({[fresh (dom h)]} ∪ dom h)))
    by (by apply fresh_union_ne).
  rewrite (insert_insert_ne _ l (fresh (dom h))) by (by apply fresh_ne_held).
  rewrite (insert_insert_ne _ l (matrix self)) by done.
  by rewrite (insert_insert_ne _ l (rows self)).
Qed.

Lemma extra_reset_loop_mutate fuel draws l x :
  ∀ k self h a,
    h !! matrix self = Some a → Pure.shaped (N self) (M self) a →
    l ≠ matrix self → is_Some (h !! l) →
    reset_loop fuel draws k self (<[l := x]> h)
    = ((reset_loop fuel draws k self h).1, <[l := x]> (reset_loop fuel draws k self h).2).
Proof.
  induction fuel as [|fuel IH]; intros k self h a Hl Hs Hne Hsome;
    (assert (Hl' : <[l := x]> h !! matrix self = Some a) by (by rewrite lookup_insert_ne));
    cbn [reset_loop]; unfold _is_reduced;
    rewrite (bind_Ok _ _ _ _ _ (is_reduced_Ok _ _ _ _ _ Hl' Hs));
    rewrite (bind_Ok _ _ _ _ _ (is_reduced_Ok _ _ _ _ _ Hl Hs));
    destruct (Pure.is_reduced a); try done.
  unfold _random_matrix.
  rewrite (bind_Ok _ _ _ _ _ (alloc_Ok _ _)), (bind_Ok _ _ _ _ _ (alloc_Ok _ _)).
  rewrite (dom_mutate _ _ _ Hsome).
  rewrite (insert_insert_ne _ (fresh (dom h)) l) by (apply not_eq_sym; by apply fresh_ne_held).
  eapply IH.
  - apply lookup_insert_eq.
  - apply tabulate_shaped.
  - by apply fresh_ne_held.
  - by apply is_Some_insert.
Qed.

Lemma extra_reset_mutate fuel draws self h l x :
  is_Some (h !! l) →
  reset fuel draws self (<[l := x]> h)
  = ((reset fuel draws self h).1, <[l := x]> (reset fuel draws self h).2).
Proof.
  intros Hsome. unfold reset, _random_matrix.
  rewrite (bind_Ok _ _ _ _ _ (alloc_Ok _ _)), (bind_Ok _ _ _ _ _ (alloc_Ok _ _)).
  rewrite (dom_mutate _ _ _ Hsome).
  rewrite (insert_insert_ne _ (fresh (dom h)) l) by (apply not_eq_sym; by apply fresh_ne_held).
  set (l0 := fresh (dom h)).
  set (tab := Np.tabulate (N self) (M self) _).
  set (h0 := <[l0 := tab]> h).
  assert (Hl0 : h0 !! matrix (set_matrix self l0) = Some tab) by apply lookup_insert_eq.
  assert (Hs0 : Pure.shaped (N (set_matrix self l0)) (M (set_matrix self l0)) tab)
    by apply tabulate_shaped.
  assert (Hne0 : l ≠ matrix (set_matrix self l0)) by (by apply fresh_ne_held).
  assert (Hsome0 : is_Some (h0 !! l)) by (by apply is_Some_insert).
  pose proof (extra_reset_loop_mutate fuel draws l x 1%nat _ h0 tab Hl0 Hs0 Hne0 Hsome0)
    as Hmut.
  destruct (reset_loop fuel draws 1 (set_matrix self l0) h0) as [[self1 | ex |] h1] eqn:Hloop;
    cbn [fst snd] in Hmut.
  2:{ by rewrite (bind_Raise _ _ _ _ _ Hmut), (bind_Raise _ _ _ _ _ Hloop). }
  2:{ by rewrite (bind_Running _ _ _ _ Hmut), (bind_Running _ _ _ _ Hloop). }
  rewrite (bind_Ok _ _ _ _ _ Hmut), (bind_Ok _ _ _ _ _ Hloop).
  apply (extra_reset_loop_Ok _ _ _ _ _ tab) in Hloop
    as (a' & Hl1 & _ & _ & Hsub & _ & Hm); [|done|done].
  assert (Hsome1 : is_Some (h1 !! l)).
  { destruct Hsome0 as [y Hy]. exists y. by apply (lookup_weaken _ _ _ _ Hy). }
  assert (Hne1 : l ≠ matrix self1).
  { destruct Hm as [Hm | Hm]; [by rewrite Hm|].
    intros ->. rewrite Hm in Hsome0. by destruct Hsome0. }
  rewrite (bind_Ok _ _ _ _ _ (alloc_Ok _ _)), (bind_Ok _ _ _ _ _ (alloc_Ok _ _)).
  rewrite (dom_mutate _ _ _ Hsome1).
  set (r := fresh (dom h1)). set (ones := Np.ones (N self1) 1).
  rewrite (insert_insert_ne _ r l) by (apply not_eq_sym; by apply fresh_ne_held).
  set (h2 := <[r := ones]> h1).
  assert (Hr2 : h2 !! r = Some ones) by apply lookup_insert_eq.
  assert (Hsome2 : is_Some (h2 !! l)) by (by apply is_Some_insert).
  assert (Hlr : l ≠ r) by (by apply fresh_ne_held).
  rewrite (bind_Ok _ _ _ _ _ (copy_mutate _ _ x _ _ Hsome2 Hr2 Hlr)).
  rewrite (bind_Ok _ _ _ _ _ (copy_Ok _ _ _ Hr2)).
  set (h3 := <[fresh (dom h2) := ones]> h2).
  assert (Hl3 : h3 !! matrix self1 = Some a').
  { subst h3 h2. rewrite lookup_insert_ne.
    - rewrite lookup_insert_ne; [done|]. apply fresh_not_in. by rewrite Hl1.
    - apply fresh_not_in. apply is_Some_insert. by rewrite Hl1. }
  assert (Hsome3 : is_Some (h3 !! l)) by (by apply is_Some_insert).
  rewrite (bind_Ok _ _ _ _ _ (copy_mutate _ _ x _ _ Hsome3 Hl3 Hne1)).
  by rewrite (bind_Ok _ _ _ _ _ (copy_Ok _ _ _ Hl3)).
Qed.

Lemma extra_holds_inv b self h held :
  holds b self h held →
  state_of b self h ∧ (matrix self ∉ held) ∧ (rows self ∉ held)
  ∧ ∀ l, l ∈ held → is_Some (h !! l).
Proof.
  induction 1 as [shape density h0 self h Hinit
                 |b self0 h0 held fuel draws self obs_rows obs h _ IH Hreset
                 |b self h held action obs_rows obs reward done h' _ IH Hact Hstep
                 |b self h held l x _ IH Hin].
  - split; [by eapply st_init|]. split_and!; set_solver.
  - destruct IH as (Hst & Hnot & Hnot' & Hheld).
    split; [by eapply st_reset|].
    apply extra_reset_Ok in Hreset
      as (a' & draw & _ & Hl' & Hr' & Ho & Hor & Hrm & Hom & Hor' & Horm & Horr & _
          & Hsub & _ & _ & Hfm & Hfr & _).
    split_and!.
    + intros [Hin | Hin]%elem_of_union.
      * apply elem_of_union in Hin as [Hin | Hin]; apply elem_of_singleton in Hin;
          by symmetry in Hin.
      * apply Hheld in Hin as [y Hy]. by rewrite Hfm in Hy.
    + intros [Hin | Hin]%elem_of_union.
      * apply elem_of_union in Hin as [Hin | Hin]; apply elem_of_singleton in Hin;
          by symmetry in Hin.
      * apply Hheld in Hin as [y Hy]. by rewrite Hfr in Hy.
    + intros l [Hin | Hin]%elem_of_union.
      * apply elem_of_union in Hin as [Hin | Hin]; apply elem_of_singleton in Hin as ->.
        -- by rewrite Hor.
        -- by rewrite Ho.
      * apply Hheld in Hin as [y Hy]. exists y. by apply (lookup_weaken _ _ _ _ Hy).
  - destruct IH as (Hst & Hnot & Hnot' & Hheld).
    split; [by eapply st_step|].
    destruct (extra_state_of_inv _ _ _ Hst) as (a & rw & Hl & Hs & Hr & Hne & Hrw).
    destruct b.
    2:{ subst rw. unfold step in Hstep.
        by rewrite (bind_Raise _ _ _ _ _ (item_empty_Raise _ _ _ _ Hr)) in Hstep. }
    rewrite (extra_step_Ok _ _ _ _ _ _ Hl Hs Hr Hrw Hne (extra_valid_action_index _ _ Hact))
      in Hstep.
    injection Hstep as <- <- _ _ <-.
    set (o1 := fresh (dom h)). set (o2 := fresh ({[o1]} ∪ dom h)).
    assert (Ho1m : matrix self ≠ o1) by (apply fresh_ne_held; by rewrite Hl).
    assert (Ho1r : rows self ≠ o1) by (apply fresh_ne_held; by rewrite Hr).
    assert (Ho2m : matrix self ≠ o2) by (apply fresh_union_ne; by rewrite Hl).
    assert (Ho2r : rows self ≠ o2) by (apply fresh_union_ne; by rewrite Hr).
    split_and!.
    + intros [Hin | Hin]%elem_of_union; [|done].
      apply elem_of_union in Hin as [Hin | Hin]; by apply elem_of_singleton in Hin.
    + intros [Hin | Hin]%elem_of_union; [|done].
      apply elem_of_union in Hin as [Hin | Hin]; by apply elem_of_singleton in Hin.
    + intros l [Hin | Hin]%elem_of_union.
      * apply elem_of_union in Hin as [Hin | Hin]; apply elem_of_singleton in Hin as ->.
        -- apply lookup_insert_is_Some'. right. by rewrite lookup_insert_eq.
        -- by rewrite lookup_insert_eq.
      * by apply is_Some_insert, is_Some_insert, is_Some_insert, is_Some_insert, Hheld.
  - destruct IH as (Hst & Hnot & Hnot' & Hheld).
    assert (Hne : l ≠ matrix self) by (intros ->; done).
    assert (Hne' : l ≠ rows self) by (intros ->; done).
    split; [|split_and!; [done|done|]].
    + apply (st_caller _ _ h); [done| |]; by rewrite lookup_insert_ne.
    + intros l' Hin'. by apply is_Some_insert, Hheld.
Qed.

Lemma extra_observations_fresh self h held :
  holds true self h held →
  (matrix self ∉ held) ∧ (rows self ∉ held)
  ∧ (∀ action obs_rows obs reward done h',
       valid_action self action →
       step self action h = (Py.Ok (obs_rows, obs, reward, done), h') →
       h !! obs = None ∧ h !! obs_rows = None
       ∧ obs ≠ matrix self ∧ obs ≠ rows self
       ∧ obs_rows ≠ matrix self ∧ obs_rows ≠ rows self
       ∧ h' !! obs = h' !! matrix self ∧ h' !! obs_rows = h' !! rows self)
  ∧ (∀ fuel draws self' obs_rows obs h',
       reset fuel draws self h = (Py.Ok (self', (obs_rows, obs)), h') →
       h !! obs = None ∧ h !! obs_rows = None
       ∧ obs ≠ matrix self' ∧ obs ≠ rows self'
       ∧ obs_rows ≠ matrix self' ∧ obs_rows ≠ rows self'
       ∧ h' !! obs = h' !! matrix self' ∧ h' !! obs_rows = h' !! rows self')
  ∧ (∀ l x, l ∈ held →
       <[l := x]> h !! matrix self = h !! matrix self
       ∧ <[l := x]> h !! rows self = h !! rows self
       ∧ (∀ action, valid_action self action →
            step self action (<[l := x]> h)
            = ((step self action h).1, <[l := x]> (step self action h).2))
       ∧ (∀ fuel draws,
            reset fuel draws self (<[l := x]> h)
            = ((reset fuel draws self h).1, <[l := x]> (reset fuel draws self h).2))).
Proof.
  intros (Hst & Hnot & Hnot' & Hheld)%extra_holds_inv.
  destruct (extra_state_of_inv _ _ _ Hst) as (a & rw & Hl & Hs & Hr & Hne & Hrw).
  split; [done|]. split; [done|]. split_and!.
  - intros action obs_rows obs reward done h' Hact Hstep.
    rewrite (extra_step_Ok _ _ _ _ _ _ Hl Hs Hr Hrw Hne (extra_valid_action_index _ _ Hact))
      in Hstep.
    injection Hstep as <- <- _ _ <-.
    set (o1 := fresh (dom h)). set (o2 := fresh ({[o1]} ∪ dom h)).
    assert (Ho1m : o1 ≠ matrix self) by (apply fresh_not_in; by rewrite Hl).
    assert (Ho1r : o1 ≠ rows self) by (apply fresh_not_in; by rewrite Hr).
    assert (Ho2m : o2 ≠ matrix self) by (apply not_eq_sym, fresh_union_ne; by rewrite Hl).
    assert (Ho2r : o2 ≠ rows self) by (apply not_eq_sym, fresh_union_ne; by rewrite Hr).
    assert (Ho21 : o2 ≠ o1).
    { intros Heq. apply (is_fresh ({[o1]} ∪ dom h)). fold o2. rewrite Heq.
      apply elem_of_union_l. by apply elem_of_singleton. }
    split_and!; try done.
    + apply not_elem_of_dom. intros Hin. apply (is_fresh ({[o1]} ∪ dom h)).
      by apply elem_of_union_r.
    + apply fresh_lookup.
    + rewrite lookup_insert_eq. rewrite !lookup_insert_ne by done.
      by rewrite lookup_insert_eq.
    + rewrite (lookup_insert_ne _ o2) by done. rewrite lookup_insert_eq.
      rewrite !lookup_insert_ne by done. by rewrite lookup_insert_eq.
  - intros fuel draws self' obs_rows obs h' Hreset.
    apply extra_reset_Ok in Hreset
      as (a' & draw & _ & Hl' & Hr' & Ho & Hor & Hrm & Hom & Hor' & Horm & Horr & _
          & Hsub & _ & _ & Hfm & Hfr & Hfo & Hfor).
    split_and!; try done.
    + by rewrite Hl', Ho.
    + by rewrite Hr', Hor.
  - intros l x Hin.
    assert (Hnel : l ≠ matrix self) by (intros ->; done).
    assert (Hnel' : l ≠ rows self) by (intros ->; done).
    split; [by rewrite lookup_insert_ne|]. split; [by rewrite lookup_insert_ne|]. split.
    + intros action Hact.
      by apply (extra_step_mutate self h a rw); [..|apply Hheld].
    + intros fuel draws. by apply extra_reset_mutate, Hheld.
Qed.
End ExtraOverwrite.

Section Observations.
Context `{Float}.

(** C7.  In every state of the three row-reduction environments reached by
    [reset] and valid [step]s, with [held] the arrays returned to the caller
    so far (which the caller may have overwritten): the arrays of the object
    are not among them; the observation a further [step] or [reset] returns
    is a new array, distinct from the arrays of the object, with the contents
    of the matrix (for [RowChoiceEnvironmentExtra] also of the vector of
    unused rows); and overwriting a held array with anything leaves the
    arrays of the object as they are and changes no result of a following
    [step] or [reset], whose store differs only by that overwriting. *)
Theorem C7_observations_are_copies :
  (∀ self h held,
     RowEchelonSpec.holds true self h held →
     (RowEchelonEnvironment.matrix self ∉ held)
     ∧ (∀ action obs reward done h',
          RowEchelonSpec.valid_action self action →
          RowEchelonEnvironment.step self action h = (Py.Ok (obs, reward, done), h') →
          h !! obs = None ∧ obs ≠ RowEchelonEnvironment.matrix self
          ∧ h' !! obs = h' !! RowEchelonEnvironment.matrix self)
     ∧ (∀ fuel draws self' obs h',
          RowEchelonEnvironment.reset fuel draws self h = (Py.Ok (self', obs), h') →
          h !! obs = None ∧ obs ≠ RowEchelonEnvironment.matrix self'
          ∧ h' !! obs = h' !! RowEchelonEnvironment.matrix self')
     ∧ (∀ l x, l ∈ held →
          <[l := x]> h !! RowEchelonEnvironment.matrix self
          = h !! RowEchelonEnvironment.matrix self
          ∧ (∀ action, RowEchelonSpec.valid_action self action →
               RowEchelonEnvironment.step self action (<[l := x]> h)
               = ((RowEchelonEnvironment.step self action h).1,
                  <[l := x]> (RowEchelonEnvironment.step self action h).2))
          ∧ (∀ fuel draws,
               RowEchelonEnvironment.reset fuel draws self (<[l := x]> h)
               = ((RowEchelonEnvironment.reset fuel draws self h).1,
                  <[l := x]> (RowEchelonEnvironment.reset fuel draws self h).2))))
  ∧ (∀ self h held,
     RowChoiceSpec.holds true self h held →
     (RowChoiceEnvironment.matrix self ∉ held)
     ∧ (∀ action obs reward done h',
          RowChoiceSpec.valid_action self action →
          RowChoiceEnvironment.step self action h = (Py.Ok (obs, reward, done), h') →
          h !! obs = None ∧ obs ≠ RowChoiceEnvironment.matrix self
          ∧ h' !! obs = h' !! RowChoiceEnvironment.matrix self)
     ∧ (∀ fuel draws self' obs h',
          RowChoiceEnvironment.reset fuel draws self h = (Py.Ok (self', obs), h') →
          h !! obs = None ∧ obs ≠ RowChoiceEnvironment.matrix self'
          ∧ h' !! obs = h' !! RowChoiceEnvironment.matrix self')
     ∧ (∀ l x, l ∈ held →
          <[l := x]> h !! RowChoiceEnvironment.matrix self
          = h !! RowChoiceEnvironment.matrix self
          ∧ (∀ action, RowChoiceSpec.valid_action self action →
               RowChoiceEnvironment.step self action (<[l := x]> h)
               = ((RowChoiceEnvironment.step self action h).1,
                  <[l := x]> (RowChoiceEnvironment.step self action h).2))
          ∧ (∀ fuel draws,
               RowChoiceEnvironment.reset fuel draws self (<[l := x]> h)
               = ((RowChoiceEnvironment.reset fuel draws self h).1,
                  <[l := x]> (RowChoiceEnvironment.reset fuel draws self h).2))))
  ∧ (∀ self h held,
     RowChoiceExtraSpec.holds true self h held →
     (RowChoiceEnvironmentExtra.matrix self ∉ held)
     ∧ (RowChoiceEnvironmentExtra.rows self ∉ held)
     ∧ (∀ action obs_rows obs reward done h',
          RowChoiceExtraSpec.valid_action self action →
          RowChoiceEnvironmentExtra.step self action h
          = (Py.Ok (obs_rows, obs, reward, done), h') →
          h !! obs = None ∧ h !! obs_rows = None
          ∧ obs ≠ RowChoiceEnvironmentExtra.matrix self
          ∧ obs ≠ RowChoiceEnvironmentExtra.rows self
          ∧ obs_rows ≠ RowChoiceEnvironmentExtra.matrix self
          ∧ obs_rows ≠ RowChoiceEnvironmentExtra.rows self
          ∧ h' !! obs = h' !! RowChoiceEnvironmentExtra.matrix self
          ∧ h' !! obs_rows = h' !! RowChoiceEnvironmentExtra.rows self)
     ∧ (∀ fuel draws self' obs_rows obs h',
          RowChoiceEnvironmentExtra.reset fuel draws self h
          = (Py.Ok (self', (obs_rows, obs)), h') →
          h !! obs = None ∧ h !! obs_rows = None
          ∧ obs ≠ RowChoiceEnvironmentExtra.matrix self'
          ∧ obs ≠ RowChoiceEnvironmentExtra.rows self'
          ∧ obs_rows ≠ RowChoiceEnvironmentExtra.matrix self'
          ∧ obs_rows ≠ RowChoiceEnvironmentExtra.rows self'
          ∧ h' !! obs = h' !! RowChoiceEnvironmentExtra.matrix self'
          ∧ h' !! obs_rows = h' !! RowChoiceEnvironmentExtra.rows self')
     ∧ (∀ l x, l ∈ held →
          <[l := x]> h !! RowChoiceEnvironmentExtra.matrix self
          = h !! RowChoiceEnvironmentExtra.matrix self
          ∧ <[l := x]> h !! RowChoiceEnvironmentExtra.rows self
            = h !! RowChoiceEnvironmentExtra.rows self
          ∧ (∀ action, RowChoiceExtraSpec.valid_action self action →
               RowChoiceEnvironmentExtra.step self action (<[l := x]> h)
               = ((RowChoiceEnvironmentExtra.step self action h).1,
                  <[l := x]> (RowChoiceEnvironmentExtra.step self action h).2))
          ∧ (∀ fuel draws,
               RowChoiceEnvironmentExtra.reset fuel draws self (<[l := x]> h)
               = ((RowChoiceEnvironmentExtra.reset fuel draws self h).1,
                  <[l := x]> (RowChoiceEnvironmentExtra.reset fuel draws self h).2)))).
Proof.
  split_and!.
  - apply echelon_observations_fresh.
  - apply choice_observations_fresh.
  - apply extra_observations_fresh.
Qed.
End Observations.

Section ExampleHolds.
Import Examples.

Lemma echelon_example_holds : RowEchelonSpec.holds true echelon_self echelon_heap {[3%positive]}.
Proof.
  replace ({[3%positive]} : gset positive) with ({[3%positive]} ∪ ∅ : gset positive)
    by apply (right_id_L ∅ (∪)).
  apply (RowEchelonSpec.holds_reset false echelon_self0 echelon_heap0 ∅ 0 echelon_draws).
  - apply (RowEchelonSpec.holds_init (2%nat, 1%nat) 2 ∅). apply echelon_example_init.
  - apply echelon_example_randint.
  - apply echelon_example_reset.
Defined.

Lemma choice_example_holds :
  RowChoiceSpec.holds (H := Qfloat) true choice_self choice_heap {[3%positive]}.
Proof.
  replace ({[3%positive]} : gset positive) with ({[3%positive]} ∪ ∅ : gset positive)
    by apply (right_id_L ∅ (∪)).
  apply (RowChoiceSpec.holds_reset (H := Qfloat) false choice_self0 choice_heap0 ∅ 0 choice_draws).
  - apply (RowChoiceSpec.holds_init (H := Qfloat) (3%nat, 2%nat) (1 # 2)%Q ∅).
    apply choice_example_init.
  - apply choice_example_reset.
Defined.

Lemma extra_example_holds :
  RowChoiceExtraSpec.holds (H := Qfloat) true extra_self extra_heap {[5%positive; 6%positive]}.
Proof.
  replace ({[5%positive; 6%positive]} : gset positive)
    with ({[5%positive; 6%positive]} ∪ ∅ : gset positive) by apply (right_id_L ∅ (∪)).
  apply (RowChoiceExtraSpec.holds_reset (H := Qfloat) false extra_self0 extra_heap0 ∅ 0
           choice_draws).
  - apply (RowChoiceExtraSpec.holds_init (H := Qfloat) (3%nat, 2%nat) (1 # 2)%Q ∅).
    apply extra_example_init.
  - apply extra_example_reset.
Defined.
End ExampleHolds.

Lemma C7_witness :
  RowEchelonSpec.holds true Examples.echelon_self Examples.echelon_heap {[3%positive]}
  ∧ 3%positive ∈ ({[3%positive]} : gset positive)
  ∧ RowEchelonSpec.valid_action Examples.echelon_self 0
  ∧ (RowEchelonEnvironment.matrix Examples.echelon_self ∉ ({[3%positive]} : gset positive))
  ∧ <[3%positive := [[5]; [5]]]> Examples.echelon_heap
      !! RowEchelonEnvironment.matrix Examples.echelon_self
    = Examples.echelon_heap !! RowEchelonEnvironment.matrix Examples.echelon_self
  ∧ RowEchelonEnvironment.step Examples.echelon_self 0
      (<[3%positive := [[5]; [5]]]> Examples.echelon_heap)
    = ((RowEchelonEnvironment.step Examples.echelon_self 0 Examples.echelon_heap).1,
       <[3%positive := [[5]; [5]]]>
         (RowEchelonEnvironment.step Examples.echelon_self 0 Examples.echelon_heap).2)
  ∧ RowChoiceSpec.holds (H := Qfloat) true Examples.choice_self Examples.choice_heap
      {[3%positive]}
  ∧ (RowChoiceEnvironment.matrix Examples.choice_self ∉ ({[3%positive]} : gset positive))
  ∧ RowChoiceExtraSpec.holds (H := Qfloat) true Examples.extra_self Examples.extra_heap
      {[5%positive; 6%positive]}
  ∧ (RowChoiceEnvironmentExtra.matrix Examples.extra_self
       ∉ ({[5%positive; 6%positive]} : gset positive))
  ∧ (RowChoiceEnvironmentExtra.rows Examples.extra_self
       ∉ ({[5%positive; 6%positive]} : gset positive)).
Proof.
  assert (Hin : 3%positive ∈ ({[3%positive]} : gset positive)) by (by apply elem_of_singleton).
  assert (Hv : RowEchelonSpec.valid_action Examples.echelon_self 0)
    by (vm_compute; split; congruence).
  destruct (proj1 (C7_observations_are_copies (H := Qfloat)) _ _ _ echelon_example_holds)
    as (Hnot & _ & _ & Hmut).
  destruct (Hmut 3%positive [[5]; [5]] Hin) as (Hsame & Hstep & _).
  split; [apply echelon_example_holds|]. split; [exact Hin|]. split; [exact Hv|].
  split; [exact Hnot|]. split; [exact Hsame|]. split; [exact (Hstep 0 Hv)|].
  split; [apply choice_example_holds|].
  split; [exact (proj1 (proj1 (proj2 (C7_observations_are_copies (H := Qfloat))) _ _ _
                          choice_example_holds))|].
  split; [apply extra_example_holds|].
  destruct (proj2 (proj2 (C7_observations_are_copies (H := Qfloat))) _ _ _
              extra_example_holds) as (Hm & Hr & _).
  split; [exact Hm|exact Hr].
Defined.

(** ** Pivoting on every row in turn reduces the matrix *)

Section Pivoting.
Implicit Types (a : Np.ndarray) (r : list Z).

Lemma row_insert_eq a i r : (i < length a)%nat → Pure.row (<[i := r]> a) i = r.
Proof. intros Hi. unfold Pure.row. by rewrite list_lookup_insert_eq. Qed.

Lemma row_insert_ne a i j r : i ≠ j → Pure.row (<[i := r]> a) j = Pure.row a j.
Proof. intros Hne. unfold Pure.row. by rewrite list_lookup_insert_ne. Qed.

Lemma entry_insert_ne a i i' j r : i ≠ i' → Pure.entry (<[i := r]> a) i' j = Pure.entry a i' j.
Proof. intros Hne. unfold Pure.entry. by rewrite row_insert_ne. Qed.

(** After the pivot loop over distinct rows, a visited row other than the
    pivot row [k] with an entry in the lead column is the sum, and every
    other row is as before. *)
Lemma pivot_rows sum_mod k lead rows :
  NoDup rows →
  ∀ a moves, Forall (λ i, (i < length a)%nat) rows →
    let a' := (Pure.pivot sum_mod (Z.of_nat k) k lead rows a moves).1 in
    length a' = length a
    ∧ ∀ i, Pure.row a' i
           = if bool_decide (i ∈ rows ∧ i ≠ k ∧ Pure.entry a i lead ≠ 0)
             then sum_mod (Pure.row a i) (Pure.row a k) 2 else Pure.row a i.
Proof.
  induction 1 as [|i0 rest Hnotin Hnd IH]; intros a moves Hlt.
  { split; [done|]. intros i. rewrite bool_decide_eq_false_2; [done|].
    intros [Hc _]. by inversion Hc. }
  apply Forall_cons in Hlt as [Hi0 Hlt]. cbn [Pure.pivot].
  case_bool_decide as Hk.
  - case_bool_decide as He.
    + assert (Hik : i0 ≠ k) by (intros ->; done).
      set (a1 := <[i0 := sum_mod (Pure.row a i0) (Pure.row a k) 2]> a).
      assert (Hlt1 : Forall (λ i, (i < length a1)%nat) rest)
        by (subst a1; by rewrite length_insert).
      destruct (IH a1 (moves + 1) Hlt1) as [Hlen Hrows]. cbn zeta in Hlen, Hrows.
      split; [by rewrite Hlen; subst a1; rewrite length_insert|].
      intros i. rewrite Hrows.
      destruct (decide (i = i0)) as [-> | Hne].
      * rewrite bool_decide_eq_false_2 by tauto.
        rewrite bool_decide_eq_true_2 by (split; [by left|done]).
        subst a1. by rewrite row_insert_eq.
      * assert (He1 : Pure.entry a1 i lead = Pure.entry a i lead)
          by (subst a1; by rewrite entry_insert_ne).
        assert (Hr1 : Pure.row a1 i = Pure.row a i) by (subst a1; by rewrite row_insert_ne).
        assert (Hrk : Pure.row a1 k = Pure.row a k) by (subst a1; by rewrite row_insert_ne).
        rewrite He1, Hr1, Hrk.
        rewrite (bool_decide_ext (i ∈ rest ∧ i ≠ k ∧ Pure.entry a i lead ≠ 0)
                   (i ∈ i0 :: rest ∧ i ≠ k ∧ Pure.entry a i lead ≠ 0)); [done|].
        rewrite elem_of_cons. tauto.
    + destruct (IH a moves Hlt) as [Hlen Hrows]. cbn zeta in Hlen, Hrows.
      split; [done|]. intros i. rewrite Hrows.
      rewrite (bool_decide_ext (i ∈ rest ∧ i ≠ k ∧ Pure.entry a i lead ≠ 0)
                 (i ∈ i0 :: rest ∧ i ≠ k ∧ Pure.entry a i lead ≠ 0)); [done|].
      rewrite elem_of_cons. split; [tauto|]. intros ([-> | Hin] & ? & ?); [done|tauto].
  - assert (Hik : i0 = k) by lia.
    destruct (IH a moves Hlt) as [Hlen Hrows]. cbn zeta in Hlen, Hrows.
    split; [done|]. intros i. rewrite Hrows.
    rewrite (bool_decide_ext (i ∈ rest ∧ i ≠ k ∧ Pure.entry a i lead ≠ 0)
               (i ∈ i0 :: rest ∧ i ≠ k ∧ Pure.entry a i lead ≠ 0)); [done|].
    rewrite elem_of_cons. split; [tauto|]. intros ([-> | Hin] & ? & ?); [done|tauto].
Qed.

Lemma lead_Some_entries r l :
  Np.lead r = Some l
  ↔ (l < length r)%nat ∧ default 0 (r !! l) ≠ 0 ∧ ∀ j, (j < l)%nat → default 0 (r !! j) = 0.
Proof.
  unfold Np.lead. split.
  - destruct (list_find _ r) as [[i x]|] eqn:Hf; [|done]. intros [= <-].
    apply list_find_Some in Hf as (Hi & Hx & Hbefore). split_and!.
    + by apply lookup_lt_Some in Hi.
    + by rewrite Hi.
    + intros j Hj. destruct (r !! j) as [y|] eqn:Hy; [|done]. simpl.
      destruct (decide (y = 0)) as [|Hne]; [done|]. by destruct (Hbefore j y Hy Hj).
  - intros (Hl & Hx & Hbefore).
    destruct (lookup_lt_is_Some_2 r l Hl) as [x Hlx]. rewrite Hlx in Hx. simpl in Hx.
    assert (Hf : list_find (λ x, x ≠ 0) r = Some (l, x)).
    { apply list_find_Some. split_and!; [done|done|].
      intros j y Hy Hj Hne. specialize (Hbefore j Hj). rewrite Hy in Hbefore. done. }
    by rewrite Hf.
Qed.

Lemma lead_None_entries r : Np.lead r = None ↔ ∀ j, default 0 (r !! j) = 0.
Proof.
  unfold Np.lead. split.
  - destruct (list_find _ r) as [[i x]|] eqn:Hf; [done|]. intros _ j.
    destruct (r !! j) as [y|] eqn:Hy; [|done]. simpl.
    apply list_find_None in Hf. apply (Forall_lookup_1 _ _ _ _ Hf) in Hy.
    destruct (decide (y = 0)); [done|]. by destruct Hy.
  - intros Hall. destruct (list_find _ r) as [[i x]|] eqn:Hf; [|done].
    apply list_find_Some in Hf as (Hi & Hx & _). specialize (Hall i). by rewrite Hi in Hall.
Qed.

Lemma binary_entry a i j : Pure.binary a → Pure.entry a i j = 0 ∨ Pure.entry a i j = 1.
Proof.
  intros Ha. unfold Pure.entry, Pure.row.
  destruct (a !! i) as [r|] eqn:Hr; [|by left]. simpl.
  destruct (r !! j) as [x|] eqn:Hx; [|by left]. simpl.
  apply (Forall_lookup_1 _ _ _ _ Ha) in Hr. by apply (Forall_lookup_1 _ _ _ _ Hr) in Hx.
Qed.

Lemma wrap64_small z : - 2 ^ 63 ≤ z < 2 ^ 63 → Np.wrap64 z = z.
Proof. intros Hz. unfold Np.wrap64. rewrite Z.mod_small; lia. Qed.

(** An entry of the sum of two rows of 0 and 1. *)
Lemma add_mod_entry r1 r2 j :
  length r1 = length r2 →
  Forall (λ x, x = 0 ∨ x = 1) r1 → Forall (λ x, x = 0 ∨ x = 1) r2 →
  default 0 (Np.add_mod r1 r2 2 !! j) = (default 0 (r1 !! j) + default 0 (r2 !! j)) `mod` 2.
Proof.
  intros Hlen H1 H2. unfold Np.add_mod. rewrite lookup_zip_with.
  destruct (r1 !! j) as [x|] eqn:Hx.
  - destruct (lookup_lt_is_Some_2 r2 j) as [y Hy].
    { rewrite <- Hlen. by apply lookup_lt_Some in Hx. }
    rewrite Hy. simpl. unfold Np.remainder. simpl.
    apply (Forall_lookup_1 _ _ _ _ H1) in Hx. apply (Forall_lookup_1 _ _ _ _ H2) in Hy.
    cbv beta in Hx, Hy. by destruct Hx as [-> | ->], Hy as [-> | ->].
  - simpl. rewrite (lookup_ge_None_2 r2 j); [done|].
    rewrite <- Hlen. by apply lookup_ge_None in Hx.
Qed.

Lemma entry_out_of_range n m a i j : Pure.shaped n m a → (n ≤ i)%nat → Pure.entry a i j = 0.
Proof.
  intros [Hn _] Hi. unfold Pure.entry, Pure.row. by rewrite (lookup_ge_None_2 a i) by lia.
Qed.

Lemma binary_row a i : Pure.binary a → Forall (λ x, x = 0 ∨ x = 1) (Pure.row a i).
Proof.
  intros Ha. unfold Pure.row. destruct (a !! i) as [r|] eqn:Hr; [|by constructor].
  by apply (Forall_lookup_1 _ _ _ _ Ha) in Hr.
Qed.

(** The entries of the matrix after [step] with the action [k], when row [k]
    has a lead. *)
Lemma choice_step_entries n m a k lead :
  Pure.shaped n m a → Pure.binary a → (k < n)%nat →
  Np.lead (Pure.row a k) = Some lead →
  ∀ i j, Pure.entry (Pure.choice_step (Z.of_nat k) k a).1 i j
         = if bool_decide (i ≠ k ∧ Pure.entry a i lead ≠ 0)
           then (Pure.entry a i j + Pure.entry a k j) `mod` 2
           else Pure.entry a i j.
Proof.
  intros Hs Ha Hk Hlead i j. unfold Pure.choice_step, Pure.pivoted. rewrite Hlead.
  assert (Hlt : Forall (λ i, (i < length a)%nat) (seq 0 (length a))) by apply Forall_seq_lt.
  destruct (pivot_rows Np.add_mod k lead (seq 0 (length a)) (NoDup_seq _ _) a 0 Hlt)
    as [_ Hrows]. cbn zeta in Hrows.
  destruct (Pure.pivot Np.add_mod (Z.of_nat k) k lead (seq 0 (length a)) a 0) as [a' moves].
  cbn [fst] in *.
  assert (Hent : Pure.entry a' i j
                 = if bool_decide (i ≠ k ∧ Pure.entry a i lead ≠ 0)
                   then (Pure.entry a i j + Pure.entry a k j) `mod` 2
                   else Pure.entry a i j).
  { unfold Pure.entry at 1. rewrite Hrows.
    rewrite (bool_decide_ext (i ∈ seq 0 (length a) ∧ i ≠ k ∧ Pure.entry a i lead ≠ 0)
               (i ≠ k ∧ Pure.entry a i lead ≠ 0)).
    - case_bool_decide as Hc; [|done].
      destruct Hc as [Hik Hne].
      assert (Hi : (i < n)%nat).
      { destruct (decide (i < n)%nat); [done|].
        rewrite (entry_out_of_range n m a i lead) in Hne; [done|done|lia]. }
      rewrite add_mod_entry; [done| |by apply binary_row|by apply binary_row].
      by rewrite !(shaped_row_length n m).
    - rewrite elem_of_seq. split; [tauto|]. intros [Hik Hne]. split; [|done].
      destruct (decide (i < length a)%nat); [lia|].
      rewrite (entry_out_of_range n m a i lead) in Hne; [done|done|].
      rewrite <- (proj1 Hs). lia. }
  by case_bool_decide.
Qed.
End Pivoting.

Section Reducing.
Implicit Types (a : Np.ndarray).

Lemma no_move_entries n m a r :
  Pure.shaped n m a → (r < n)%nat →
  Pure.no_move n a r
  ↔ (∀ j, Pure.entry a r j = 0)
    ∨ ∃ lr, (lr < m)%nat ∧ Pure.entry a r lr ≠ 0
            ∧ (∀ j, (j < lr)%nat → Pure.entry a r j = 0)
            ∧ ∀ i, (i < n)%nat → i ≠ r → Pure.entry a i lr = 0.
Proof.
  intros Hs Hr. unfold Pure.no_move.
  destruct (Np.lead (Pure.row a r)) as [l|] eqn:Hlead.
  - apply lead_Some_entries in Hlead as (Hl & Hne & Hbefore).
    rewrite (shaped_row_length n m) in Hl by done.
    split.
    + intros Hcol. right. by exists l.
    + intros [Hzero | (lr & Hlr & Hne' & Hbefore' & Hcol)].
      * by destruct Hne; apply Hzero.
      * assert (l = lr) as ->; [|done].
        destruct (Nat.lt_trichotomy l lr) as [Hlt | [Heq | Hgt]]; [|done|].
        -- by destruct Hne; apply Hbefore'.
        -- by destruct Hne'; apply Hbefore.
  - split; [|done]. intros _. left. by apply lead_None_entries.
Qed.

Lemma choice_step_no_lead (k : nat) a :
  Np.lead (Pure.row a k) = None → (Pure.choice_step (Z.of_nat k) k a).1 = a.
Proof. intros Hlead. unfold Pure.choice_step, Pure.pivoted. by rewrite Hlead. Qed.

(** After [step] with the action [k], nothing is left to move for row [k]. *)
Lemma choice_step_settles n m a k :
  Pure.shaped n m a → Pure.binary a → (k < n)%nat →
  Pure.no_move n (Pure.choice_step (Z.of_nat k) k a).1 k.
Proof.
  intros Hs Ha Hk.
  destruct (Np.lead (Pure.row a k)) as [lead|] eqn:Hlead.
  2:{ rewrite (choice_step_no_lead _ _ Hlead). unfold Pure.no_move. by rewrite Hlead. }
  pose proof (choice_step_entries n m a k lead Hs Ha Hk Hlead) as Hent.
  pose proof (choice_step_shaped (Z.of_nat k) k n m a Hs Hk) as Hs'.
  apply (no_move_entries n m _ k Hs' Hk). right. exists lead.
  apply lead_Some_entries in Hlead as (Hl & Hne & Hbefore).
  rewrite (shaped_row_length n m) in Hl by done.
  fold (Pure.entry a k lead) in Hne.
  split_and!; [done| | |].
  - rewrite Hent. by rewrite bool_decide_eq_false_2 by tauto.
  - intros j Hj. rewrite Hent. rewrite bool_decide_eq_false_2 by tauto. by apply Hbefore.
  - intros i Hi Hik. rewrite Hent. case_bool_decide as Hc.
    + destruct Hc as [_ Hie].
      destruct (binary_entry a i lead Ha) as [H0 | H1]; [done|].
      destruct (binary_entry a k lead Ha) as [H0' | H1']; [done|].
      by rewrite H1, H1'.
    + destruct (decide (Pure.entry a i lead = 0)); [done|]. by destruct Hc.
Qed.

(** And a row that had nothing left to move stays so. *)
Lemma choice_step_keeps n m a k r :
  Pure.shaped n m a → Pure.binary a → (k < n)%nat → (r < n)%nat → r ≠ k →
  Pure.no_move n a r → Pure.no_move n (Pure.choice_step (Z.of_nat k) k a).1 r.
Proof.
  intros Hs Ha Hk Hr Hrk Hno.
  destruct (Np.lead (Pure.row a k)) as [lead|] eqn:Hlead.
  2:{ by rewrite (choice_step_no_lead _ _ Hlead). }
  pose proof (choice_step_entries n m a k lead Hs Ha Hk Hlead) as Hent.
  pose proof (choice_step_shaped (Z.of_nat k) k n m a Hs Hk) as Hs'.
  apply lead_Some_entries in Hlead as (Hl & Hne & Hbefore).
  fold (Pure.entry a k lead) in Hne.
  assert (Hbefore' : ∀ j, (j < lead)%nat → Pure.entry a k j = 0) by exact Hbefore.
  apply (no_move_entries n m _ r Hs' Hr).
  apply (no_move_entries n m _ r Hs Hr) in Hno
    as [Hzero | (lr & Hlr & Hne' & Hrbefore & Hcol)].
  - left. intros j. rewrite Hent. rewrite bool_decide_eq_false_2; [done|].
    intros [_ Hc]. by apply Hc.
  - right. exists lr.
    assert (Hklr : Pure.entry a k lr = 0) by (by apply Hcol).
    assert (Hlead_after : Pure.entry a r lead ≠ 0 → (lr < lead)%nat).
    { intros Hc. destruct (Nat.lt_trichotomy lr lead) as [Hlt | [Heq | Hgt]]; [done| |].
      - subst lr. by destruct Hne.
      - by destruct Hc; apply Hrbefore. }
    split_and!; [done| | |].
    + rewrite Hent. case_bool_decide as Hc; [|done].
      rewrite Hklr, Z.add_0_r.
      destruct (binary_entry a r lr Ha) as [H0 | H1]; [done|]. by rewrite H1.
    + intros j Hj. rewrite Hent. case_bool_decide as Hc; [|by apply Hrbefore].
      destruct Hc as [_ Hc]. apply Hlead_after in Hc.
      rewrite (Hrbefore j Hj), (Hbefore' j); [done|lia].
    + intros i Hi Hir. rewrite Hent. case_bool_decide as Hc; [|by apply Hcol].
      by rewrite (Hcol i Hi Hir), Hklr.
Qed.

Lemma choice_run_snoc actions action a :
  Pure.choice_run (actions ++ [action]) a
  = (Pure.choice_step action (Z.to_nat action) (Pure.choice_run actions a)).1.
Proof. unfold Pure.choice_run. by rewrite foldl_app. Qed.

(** Pivoting on the rows 0, ..., k-1 in turn settles them all. *)
Lemma choice_run_settles n m a :
  Pure.shaped n m a → Pure.binary a →
  ∀ k, (k ≤ n)%nat →
    Pure.shaped n m (Pure.choice_run (Z.of_nat <$> seq 0 k) a)
    ∧ Pure.binary (Pure.choice_run (Z.of_nat <$> seq 0 k) a)
    ∧ ∀ r, (r < k)%nat → Pure.no_move n (Pure.choice_run (Z.of_nat <$> seq 0 k) a) r.
Proof.
  intros Hs Ha. induction k as [|k IH]; intros Hk.
  { split; [done|]. split; [done|]. intros r Hr. lia. }
  destruct IH as (Hsk & Hak & Hnok); [lia|].
  rewrite seq_S, fmap_app. cbn [fmap list_fmap]. rewrite choice_run_snoc.
  rewrite Nat2Z.id. cbn [Nat.add].
  split_and!.
  - apply choice_step_shaped; [done|lia].
  - by apply choice_step_binary.
  - intros r Hr. destruct (decide (r = k)) as [-> | Hne].
    + apply (choice_step_settles n m); [done|done|lia].
    + apply (choice_step_keeps n m); [done|done|lia|lia|done|]. apply Hnok. lia.
Qed.

Lemma column_clear_true a row lead rows :
  Forall (λ i, i ≠ row → Pure.entry a i lead = 0) rows →
  Pure.column_clear a row lead rows = true.
Proof.
  induction 1 as [|i rest Hi _ IH]; [done|]. cbn [Pure.column_clear].
  case_bool_decide as Hne; [|done].
  rewrite bool_decide_eq_false_2; [done|]. rewrite (Hi Hne). lia.
Qed.

Lemma reduced_rows_true n a rows :
  Forall (Pure.no_move n a) rows → Pure.reduced_rows n a rows = true.
Proof.
  induction 1 as [|r rest Hr _ IH]; [done|]. cbn [Pure.reduced_rows].
  unfold Pure.no_move in Hr.
  destruct (Np.lead (Pure.row a r)) as [lead|]; [|done].
  rewrite column_clear_true; [done|].
  apply Forall_forall. intros i Hi%elem_of_seq Hne. apply Hr; [lia|done].
Qed.

Lemma is_reduced_true n m a :
  Pure.shaped n m a → (∀ r, (r < n)%nat → Pure.no_move n a r) → Pure.is_reduced a = true.
Proof.
  intros [Hn _] Hno. unfold Pure.is_reduced. rewrite Hn.
  apply reduced_rows_true, Forall_forall. intros r Hr%elem_of_seq. apply Hno. lia.
Qed.
End Reducing.

(** ** Runs of RowChoiceEnvironment *)

Section ChoiceRuns.
Context `{Float}.
Import RowChoiceEnvironment RowChoiceSpec.
Implicit Types (self : t) (h : Np.heap) (a : Np.ndarray).

(** [play] follows [Pure.choice_run] on the contents of the matrix. *)
Lemma choice_play_run b self actions :
  Forall (valid_action self) actions →
  ∀ h a, state_of b self h → h !! matrix self = Some a →
    ∃ rs h', play self actions h = (Py.Ok rs, h')
      ∧ state_of b self h'
      ∧ h' !! matrix self = Some (Pure.choice_run actions a)
      ∧ length rs = length actions
      ∧ ∀ r, last rs = Some r → r.2 = Pure.is_reduced (Pure.choice_run actions a).
Proof.
  induction 1 as [|action rest Hact _ IH]; intros h a Hst Hl.
  { exists [], h. by split_and!. }
  destruct (choice_step_state _ _ _ _ Hst Hact) as (a0 & Hl0 & Hs & Hstep).
  rewrite Hl in Hl0. injection Hl0 as <-.
  set (a1 := (Pure.choice_step action (Z.to_nat action) a).1) in *.
  set (h1 := <[fresh (dom h) := a1]> (<[matrix self := a1]> h)) in *.
  assert (Hl1 : h1 !! matrix self = Some a1).
  { subst h1. rewrite lookup_insert_ne; [apply lookup_insert_eq|].
    apply fresh_not_in. by rewrite Hl. }
  destruct (IH h1 a1 (st_step _ _ _ _ _ _ Hst Hact Hstep) Hl1)
    as (rs & h' & Hplay & Hst' & Hl' & Hlen & Hlast).
  eexists (_ :: rs), h'. cbn [play].
  rewrite (bind_Ok _ _ _ _ _ Hstep), (bind_Ok _ _ _ _ _ Hplay).
  split_and!; [done|done|done|by simpl; rewrite Hlen|].
  intros r Hr. change (Pure.choice_run (action :: rest) a) with (Pure.choice_run rest a1).
  destruct rs as [|r' rs'].
  - simpl in Hr. injection Hr as <-. destruct rest; [done|discriminate].
  - apply Hlast. by rewrite last_cons_cons in Hr.
Qed.

(** A state after [reset] has at least one row: the empty matrix is reduced. *)
Lemma choice_reachable_rows b self h : state_of b self h → b = true → (0 < N self)%nat.
Proof.
  induction 1 as [shape density h0 self h Hinit
                 |b self0 h0 fuel draws self obs h _ _ Hreset
                 |b self h action r h' _ IH Hact Hstep
                 |b self h h' _ IH Hsame]; intros Hb; try done; try (by apply IH).
  apply choice_reset_Ok in Hreset as (a' & draw & -> & _ & _ & _ & He & _ & -> & _).
  cbn [N set_matrix]. destruct (N self0); [done|lia].
Qed.

Lemma seq_actions_valid self :
  Forall (valid_action self) (Z.of_nat <$> seq 0 (N self)).
Proof.
  apply Forall_fmap, Forall_forall. intros i Hi%elem_of_seq.
  unfold valid_action, action_size. simpl. lia.
Qed.

(** From a reachable state, choosing the rows 0, ..., N-1 in turn ends with
    done. *)
Lemma choice_rows_in_turn self h :
  reachable self h →
  ∃ rs h' obs reward,
    play self (Z.of_nat <$> seq 0 (N self)) h = (Py.Ok rs, h')
    ∧ length rs = N self
    ∧ last rs = Some (obs, reward, true).
Proof.
  intros Hreach.
  destruct (choice_state_of_inv _ _ _ Hreach) as (a & Hl & Hs).
  destruct (choice_state_binary _ _ _ Hreach) as (a0 & Hl0 & Ha).
  rewrite Hl in Hl0. injection Hl0 as <-.
  destruct (choice_play_run true self _ (seq_actions_valid self) h a Hreach Hl)
    as (rs & h' & Hplay & _ & _ & Hlen & Hlast).
  rewrite length_fmap, length_seq in Hlen.
  pose proof (choice_reachable_rows _ _ _ Hreach eq_refl) as Hpos.
  destruct (last rs) as [[[obs reward] fin]|] eqn:Hr.
  2:{ apply last_None in Hr. subst rs. simpl in Hlen. lia. }
  exists rs, h', obs, reward. split_and!; [done|done|].
  specialize (Hlast _ eq_refl). simpl in Hlast.
  destruct (choice_run_settles _ _ a Hs Ha (N self) (Nat.le_refl _)) as (Hs' & _ & Hno).
  rewrite (is_reduced_true _ _ _ Hs' Hno) in Hlast. by subst fin.
Qed.

(** But an action that moves nothing can be repeated for ever. *)
Lemma choice_idle_forever self action a :
  valid_action self action → Pure.no_move (N self) a (Z.to_nat action) →
  Pure.is_reduced a = false →
  ∀ n h, state_of true self h → h !! matrix self = Some a →
    ∃ rs h', play self (replicate n action) h = (Py.Ok rs, h')
      ∧ length rs = n ∧ Forall (λ r, r.2 = false) rs.
Proof.
  intros Hact Hno Hred. induction n as [|n IH]; intros h Hst Hl.
  { exists [], h. by split_and!. }
  destruct (choice_step_state _ _ _ _ Hst Hact) as (a0 & Hl0 & Hs & Hstep).
  rewrite Hl in Hl0. injection Hl0 as <-.
  rewrite <- (proj1 Hs) in Hno.
  rewrite (choice_step_no_move action a (proj1 Hact) Hno) in Hstep. cbn [fst snd] in Hstep.
  assert (Hl1 : <[fresh (dom h) := a]> (<[matrix self := a]> h) !! matrix self = Some a).
  { rewrite lookup_insert_ne; [apply lookup_insert_eq|]. apply fresh_not_in. by rewrite Hl. }
  destruct (IH _ (st_step _ _ _ _ _ _ Hst Hact Hstep) Hl1) as (rs & h' & Hplay & Hlen & Hall).
  eexists (_ :: rs), h'. cbn [play replicate].
  rewrite (bind_Ok _ _ _ _ _ Hstep), (bind_Ok _ _ _ _ _ Hplay).
  split_and!; [done|by simpl; rewrite Hlen|]. constructor; [|done]. by simpl.
Qed.
End ChoiceRuns.

Section EchelonRuns.
Import RowEchelonEnvironment RowEchelonSpec.
Implicit Types (self : t) (h : Np.heap) (a : Np.ndarray).

(** In [RowEchelonEnvironment] too, an action that leaves the matrix as it
    is can be repeated for ever. *)
Lemma echelon_idle_forever self action act a :
  F self < 2 ^ 63 →
  valid_action self action → Py.getitem (action_tuples self) action = Some act →
  Pure.apply (F self) act a = a → Pure.is_row_echelon a = false →
  ∀ n h, state_of true self h → h !! matrix self = Some a →
    ∃ rs h', play self (replicate n action) h = (Py.Ok rs, h')
      ∧ length rs = n ∧ Forall (λ r, done r = false) rs.
Proof.
  intros HF Hact Hget Hsame Hech. induction n as [|n IH]; intros h Hst Hl.
  { exists [], h. by split_and!. }
  destruct (echelon_step_state _ _ _ Hst HF Hact) as (a0 & k & i & j & Hl0 & Hs & Hget' & Hstep).
  rewrite Hl in Hl0. injection Hl0 as <-.
  rewrite Hget in Hget'. injection Hget' as ->.
  rewrite Hsame, Hech in Hstep.
  assert (Hl1 : <[fresh (dom h) := a]> (<[matrix self := a]> h) !! matrix self = Some a).
  { rewrite lookup_insert_ne; [apply lookup_insert_eq|]. apply fresh_not_in. by rewrite Hl. }
  destruct (IH _ (st_step _ _ _ _ _ _ Hst Hact Hstep) Hl1) as (rs & h' & Hplay & Hlen & Hall).
  eexists (_ :: rs), h'. cbn [play replicate].
  rewrite (bind_Ok _ _ _ _ _ Hstep), (bind_Ok _ _ _ _ _ Hplay).
  split_and!; [done|by simpl; rewrite Hlen|]. constructor; [|done]. by simpl.
Qed.
End EchelonRuns.

(** The claim as written fails.  At a reachable state of
    [RowEchelonEnvironment] (the matrix [[0], [1]] modulo 2) the valid action
    1, which adds row 0 to row 1, leaves the matrix as it is; at a reachable
    state of [RowChoiceEnvironment] the valid action 2 chooses a zero row.
    Repeating these actions any number of times, every [step] returns
    done = false: along the constant infinite action sequence done stays
    false for ever. *)
Lemma C1_counterexample :
  (RowEchelonSpec.reachable Examples.echelon_self Examples.echelon_heap
   ∧ RowEchelonSpec.valid_action Examples.echelon_self 1
   ∧ ∀ n, ∃ rs h',
       RowEchelonSpec.play Examples.echelon_self (replicate n 1) Examples.echelon_heap
       = (Py.Ok rs, h')
       ∧ length rs = n ∧ Forall (λ r, RowEchelonSpec.done r = false) rs)
  ∧ (RowChoiceSpec.reachable Examples.choice_self Examples.choice_heap
     ∧ RowChoiceSpec.valid_action Examples.choice_self 2
     ∧ ∀ n, ∃ rs h',
         RowChoiceSpec.play Examples.choice_self (replicate n 2) Examples.choice_heap
         = (Py.Ok rs, h')
         ∧ length rs = n ∧ Forall (λ r, r.2 = false) rs).
Proof.
  split.
  - split; [apply echelon_example_reachable|].
    assert (Hv : RowEchelonSpec.valid_action Examples.echelon_self 1)
      by (vm_compute; split; congruence).
    split; [exact Hv|]. intros n.
    apply (echelon_idle_forever Examples.echelon_self 1 (RowEchelonEnvironment.add, 0%nat, 1%nat)
             [[0]; [1]]); [reflexivity|done|reflexivity|reflexivity|reflexivity| |reflexivity].
    apply echelon_example_reachable.
  - split; [apply choice_example_reachable|].
    assert (Hv : RowChoiceSpec.valid_action Examples.choice_self 2)
      by (vm_compute; split; congruence).
    split; [exact Hv|]. intros n.
    apply (choice_idle_forever (H := Qfloat) Examples.choice_self 2 [[1; 1]; [1; 0]; [0; 0]]);
      [done|by vm_compute|reflexivity| |reflexivity].
    apply choice_example_reachable.
Qed.

Lemma C8_witness :
  (RowChoiceSpec.reachable Examples.choice_self Examples.choice_heap
   ∧ ∃ a, Examples.choice_heap !! RowChoiceEnvironment.matrix Examples.choice_self = Some a
          ∧ Pure.binary a)
  ∧ (RowChoiceExtraSpec.reachable Examples.extra_self Examples.extra_heap
     ∧ ∃ a, Examples.extra_heap !! RowChoiceEnvironmentExtra.matrix Examples.extra_self = Some a
            ∧ Pure.binary a).
Proof.
  split.
  - split; [apply choice_example_reachable|].
    exact (proj1 (C8_entries_binary (H := Qfloat)) _ _ choice_example_reachable).
  - split; [apply extra_example_reachable|].
    exact (proj2 (C8_entries_binary (H := Qfloat)) _ _ extra_example_reachable).
Defined.

(** ** Row operations modulo F, entry by entry *)

Section RowOperations.
Implicit Types (a : Np.ndarray).
Variable F : Z.
Hypothesis F_pos : 0 < F.
Hypothesis F_small : F ≤ 2 ^ 62.

Lemma pow_62_63 : 2 ^ 62 + 2 ^ 62 = 2 ^ 63.
Proof. reflexivity. Qed.

Lemma ranged_entry a i j : Pure.ranged F a → 0 ≤ Pure.entry a i j < F.
Proof.
  intros Ha. unfold Pure.entry, Pure.row.
  destruct (a !! i) as [r|] eqn:Hr; [|simpl; lia]. simpl.
  destruct (r !! j) as [x|] eqn:Hx; [|simpl; lia]. simpl.
  apply (Forall_lookup_1 _ _ _ _ Ha) in Hr. by apply (Forall_lookup_1 _ _ _ _ Hr) in Hx.
Qed.

Lemma ranged_row a i : Pure.ranged F a → Forall (λ x, 0 ≤ x < F) (Pure.row a i).
Proof.
  intros Ha. unfold Pure.row. destruct (a !! i) as [r|] eqn:Hr; [|by constructor].
  by apply (Forall_lookup_1 _ _ _ _ Ha) in Hr.
Qed.

Lemma add_mod_ranged r1 r2 : Forall (λ x, 0 ≤ x < F) (Np.add_mod r1 r2 F).
Proof.
  unfold Np.add_mod. revert r2. induction r1 as [|x r1 IH]; intros [|y r2]; simpl; try done.
  constructor; [|apply IH]. unfold Np.remainder.
  rewrite (proj2 (Z.eqb_neq F 0)) by lia. apply Z.mod_pos_bound. lia.
Qed.

Lemma add_mod_entry_ranged r1 r2 c :
  length r1 = length r2 →
  Forall (λ x, 0 ≤ x < F) r1 → Forall (λ x, 0 ≤ x < F) r2 →
  default 0 (Np.add_mod r1 r2 F !! c) = (default 0 (r1 !! c) + default 0 (r2 !! c)) `mod` F.
Proof.
  intros Hlen H1 H2. unfold Np.add_mod. rewrite lookup_zip_with.
  destruct (r1 !! c) as [x|] eqn:Hx.
  - destruct (lookup_lt_is_Some_2 r2 c) as [y Hy].
    { rewrite <- Hlen. by apply lookup_lt_Some in Hx. }
    rewrite Hy. simpl. unfold Np.remainder. rewrite (proj2 (Z.eqb_neq F 0)) by lia.
    apply (Forall_lookup_1 _ _ _ _ H1) in Hx. apply (Forall_lookup_1 _ _ _ _ H2) in Hy.
    cbv beta in Hx, Hy. rewrite wrap64_small; [done|].
    pose proof pow_62_63. lia.
  - simpl. rewrite (lookup_ge_None_2 r2 c).
    + simpl. by rewrite Z.mod_0_l by lia.
    + rewrite <- Hlen. by apply lookup_ge_None in Hx.
Qed.

Lemma entry_insert_eq a i r c :
  (i < length a)%nat → Pure.entry (<[i := r]> a) i c = default 0 (r !! c).
Proof. intros Hi. unfold Pure.entry. by rewrite row_insert_eq. Qed.

Lemma ranged_insert a i r :
  Pure.ranged F a → Forall (λ x, 0 ≤ x < F) r → Pure.ranged F (<[i := r]> a).
Proof. intros Ha Hr. by apply Forall_insert. Qed.

Lemma add_rows_entry n m a i j i' c :
  Pure.shaped n m a → Pure.ranged F a → (i < n)%nat → (j < n)%nat →
  Pure.entry (Pure.add_rows F i j a) i' c
  = if bool_decide (i' = j) then (Pure.entry a j c + Pure.entry a i c) `mod` F
    else Pure.entry a i' c.
Proof.
  intros Hs Ha Hi Hj. unfold Pure.add_rows. case_bool_decide as Heq.
  - subst i'. rewrite entry_insert_eq by (by rewrite (proj1 Hs)).
    rewrite add_mod_entry_ranged; [done| |by apply ranged_row|by apply ranged_row].
    by rewrite !(shaped_row_length n m).
  - by rewrite entry_insert_ne.
Qed.

Lemma add_rows_shaped n m a i j :
  Pure.shaped n m a → (i < n)%nat → (j < n)%nat → Pure.shaped n m (Pure.add_rows F i j a).
Proof. intros Hs Hi Hj. by apply (apply_shaped n m F RowEchelonEnvironment.add i j). Qed.

Lemma add_rows_ranged a i j : Pure.ranged F a → Pure.ranged F (Pure.add_rows F i j a).
Proof. intros Ha. apply ranged_insert; [done|apply add_mod_ranged]. Qed.

(** Adding row [i] to row [j] [t] times. *)
Lemma iter_add_rows n m a i j t :
  Pure.shaped n m a → Pure.ranged F a → (i < n)%nat → (j < n)%nat → i ≠ j →
  Pure.shaped n m (Nat.iter t (Pure.add_rows F i j) a)
  ∧ Pure.ranged F (Nat.iter t (Pure.add_rows F i j) a)
  ∧ ∀ i' c, Pure.entry (Nat.iter t (Pure.add_rows F i j) a) i' c
            = if bool_decide (i' = j)
              then (Pure.entry a j c + Z.of_nat t * Pure.entry a i c) `mod` F
              else Pure.entry a i' c.
Proof.
  intros Hs Ha Hi Hj Hij. induction t as [|t (Hst & Hat & Hent)].
  { split; [done|]. split; [done|]. intros i' c. simpl. case_bool_decide; [|done].
    subst i'. rewrite Z.add_0_r, Z.mod_small; [done|]. by apply ranged_entry. }
  rewrite Nat.iter_succ. split; [by apply add_rows_shaped|]. split; [by apply add_rows_ranged|].
  intros i' c. rewrite (add_rows_entry n m) by done.
  case_bool_decide as Heq; [|rewrite Hent; by rewrite bool_decide_eq_false_2].
  rewrite !Hent. rewrite bool_decide_eq_true_2 by done.
  rewrite bool_decide_eq_false_2 by done.
  rewrite Zplus_mod_idemp_l. f_equal. lia.
Qed.

(** Adding row [i] to row [j] F-1 times subtracts it. *)
Lemma subtract_rows n m a i j :
  Pure.shaped n m a → Pure.ranged F a → (i < n)%nat → (j < n)%nat → i ≠ j →
  let a' := Nat.iter (Z.to_nat (F - 1)) (Pure.add_rows F i j) a in
  Pure.shaped n m a' ∧ Pure.ranged F a'
  ∧ ∀ i' c, Pure.entry a' i' c
            = if bool_decide (i' = j) then (Pure.entry a j c - Pure.entry a i c) `mod` F
              else Pure.entry a i' c.
Proof.
  intros Hs Ha Hi Hj Hij a'.
  destruct (iter_add_rows n m a i j (Z.to_nat (F - 1)) Hs Ha Hi Hj Hij) as (Hs' & Ha' & Hent).
  split; [done|]. split; [done|]. intros i' c. subst a'. rewrite Hent.
  case_bool_decide; [|done]. rewrite Z2Nat.id by lia.
  replace (Pure.entry a j c + (F - 1) * Pure.entry a i c)
    with (Pure.entry a j c - Pure.entry a i c + Pure.entry a i c * F) by lia.
  by rewrite Z_mod_plus_full.
Qed.

Lemma swap_rows_entry n m a i j i' c :
  Pure.shaped n m a → (i < n)%nat → (j < n)%nat →
  Pure.entry (Pure.swap_rows i j a) i' c
  = if bool_decide (i' = j) then Pure.entry a i c
    else if bool_decide (i' = i) then Pure.entry a j c
    else Pure.entry a i' c.
Proof.
  intros Hs Hi Hj. unfold Pure.swap_rows. case_bool_decide as Hj'.
  - subst i'. rewrite entry_insert_eq; [done|]. by rewrite length_insert, (proj1 Hs).
  - rewrite entry_insert_ne by done. case_bool_decide as Hi'.
    + subst i'. rewrite entry_insert_eq; [done|]. by rewrite (proj1 Hs).
    + by rewrite entry_insert_ne.
Qed.

Lemma swap_rows_ranged a i j : Pure.ranged F a → Pure.ranged F (Pure.swap_rows i j a).
Proof.
  intros Ha. unfold Pure.swap_rows.
  apply ranged_insert; [apply ranged_insert; [done|]|]; by apply ranged_row.
Qed.
End RowOperations.

(** ** Reaching row echelon form with swaps and additions *)

Section Actions.
Import RowEchelonEnvironment.

Lemma make_action_tuples_add n i j :
  (i < n)%nat → (j < n)%nat → i ≠ j → (add, i, j) ∈ make_action_tuples n.
Proof.
  intros Hi Hj Hij. unfold make_action_tuples. apply elem_of_app. right.
  apply list_elem_of_bind. exists i. split; [|apply elem_of_seq; lia].
  apply list_elem_of_bind. exists j. split; [by apply list_elem_of_singleton|].
  apply list_elem_of_filter. split; [done|]. apply elem_of_seq. lia.
Qed.

Lemma make_action_tuples_swap n i j :
  (i < n)%nat → (j < i)%nat → (swap, i, j) ∈ make_action_tuples n.
Proof.
  intros Hi Hj. unfold make_action_tuples. apply elem_of_app. left.
  apply list_elem_of_bind. exists i. split; [|apply elem_of_seq; lia].
  apply list_elem_of_bind. exists j. split; [by apply list_elem_of_singleton|].
  apply elem_of_seq. lia.
Qed.

Lemma echelon_run_app F acts1 acts2 a :
  Pure.echelon_run F (acts1 ++ acts2) a = Pure.echelon_run F acts2 (Pure.echelon_run F acts1 a).
Proof. unfold Pure.echelon_run. by rewrite foldl_app. Qed.

Lemma echelon_run_replicate F act t a :
  Pure.echelon_run F (replicate t act) a = Nat.iter t (Pure.apply F act) a.
Proof.
  revert a. induction t as [|t IH]; intros a; [done|].
  cbn [replicate]. change (Pure.echelon_run F (act :: replicate t act) a)
    with (Pure.echelon_run F (replicate t act) (Pure.apply F act a)).
  by rewrite IH, Nat.iter_succ_r.
Qed.
End Actions.

Section ColumnSums.
Implicit Types (a : Np.ndarray).

Lemma colsum_change a a' c rows r :
  NoDup rows → r ∈ rows →
  (∀ i, i ∈ rows → i ≠ r → Pure.entry a' i c = Pure.entry a i c) →
  Pure.colsum a' c rows = Pure.colsum a c rows + (Pure.entry a' r c - Pure.entry a r c).
Proof.
  induction 1 as [|i rest Hnotin Hnd IH]; intros Hin Hsame.
  { by apply elem_of_nil in Hin. }
  cbn [Pure.colsum foldr]. fold (Pure.colsum a' c rest). fold (Pure.colsum a c rest).
  apply elem_of_cons in Hin as [-> | Hin].
  - assert (Hrest : Pure.colsum a' c rest = Pure.colsum a c rest).
    { clear IH. induction rest as [|i' rest IH']; [done|].
      cbn [Pure.colsum foldr]. fold (Pure.colsum a' c rest). fold (Pure.colsum a c rest).
      rewrite IH'.
      - rewrite Hsame; [done|by right; left|]. intros ->. apply Hnotin. by left.
      - intros Hin'. apply Hnotin. by right.
      - by apply NoDup_cons in Hnd as [_ Hnd].
      - intros i0 Hi0 Hne. apply Hsame; [|done].
        apply elem_of_cons in Hi0 as [-> | Hi0]; [by left|]. right. by right. }
    rewrite Hrest. lia.
  - rewrite IH; [|done|].
    + rewrite (Hsame i); [lia|by left|]. intros ->. done.
    + intros i0 Hi0 Hne. apply Hsame; [by right|done].
Qed.

Lemma colsum_nonneg F a c rows : 0 < F → Pure.ranged F a → 0 ≤ Pure.colsum a c rows.
Proof.
  intros HF Ha. induction rows as [|i rest IH]; [done|].
  cbn [Pure.colsum foldr]. fold (Pure.colsum a c rest).
  pose proof (ranged_entry F HF a i c Ha). lia.
Qed.
End ColumnSums.

Section Elimination.
Import RowEchelonEnvironment.
Implicit Types (a : Np.ndarray).
Variable F : Z.
Variables n m : nat.
Hypothesis F_pos : 0 < F.
Hypothesis F_small : F ≤ 2 ^ 62.

(** Column [c] below row [k]: by subtracting rows from each other and one
    swap, either the column is cleared or its only entry is in row [k].  The
    rows above [k] and the zeros left of column [c] stay. *)
Lemma column_phase (k c : nat) :
  ∀ (bound : nat) a,
    Pure.shaped n m a → Pure.ranged F a →
    (∀ i j, (k ≤ i)%nat → (j < c)%nat → Pure.entry a i j = 0) →
    (Z.to_nat (Pure.colsum a c (seq k (n - k))) ≤ bound)%nat →
    ∃ acts,
      Forall (λ act, act ∈ make_action_tuples n) acts
      ∧ Pure.shaped n m (Pure.echelon_run F acts a)
      ∧ Pure.ranged F (Pure.echelon_run F acts a)
      ∧ (∀ i j, (i < k)%nat → Pure.entry (Pure.echelon_run F acts a) i j = Pure.entry a i j)
      ∧ (∀ i j, (k ≤ i)%nat → (j < c)%nat → Pure.entry (Pure.echelon_run F acts a) i j = 0)
      ∧ ((∀ i, (k ≤ i)%nat → Pure.entry (Pure.echelon_run F acts a) i c = 0)
         ∨ ((k < n)%nat ∧ Pure.entry (Pure.echelon_run F acts a) k c ≠ 0
            ∧ ∀ i, (k < i)%nat → Pure.entry (Pure.echelon_run F acts a) i c = 0)).
Proof.
  induction bound as [bound IH] using lt_wf_ind. intros a Hs Ha Hleft Hsum.
  set (rows := seq k (n - k)) in *.
  assert (Hrows : ∀ i, i ∈ rows ↔ (k ≤ i < n)%nat).
  { intros i. subst rows. rewrite elem_of_seq. lia. }
  assert (Hnz : ∀ i, i ∈ filter (λ i, Pure.entry a i c ≠ 0) rows
                     ↔ Pure.entry a i c ≠ 0 ∧ (k ≤ i < n)%nat).
  { intros i. by rewrite list_elem_of_filter, Hrows. }
  assert (Hout : ∀ i, (k ≤ i)%nat → i ∉ filter (λ i, Pure.entry a i c ≠ 0) rows →
                      Pure.entry a i c = 0).
  { intros i Hi Hnot. destruct (decide (Pure.entry a i c = 0)) as [|Hne]; [done|].
    destruct (decide (i < n)%nat) as [Hlt|Hge].
    - destruct Hnot. apply Hnz. split; [done|lia].
    - apply (entry_out_of_range n m); [done|lia]. }
  assert (Hnd : NoDup (filter (λ i, Pure.entry a i c ≠ 0) rows)).
  { apply NoDup_filter. subst rows. apply NoDup_seq. }
  destruct (filter (λ i, Pure.entry a i c ≠ 0) rows) as [|r1 [|r2 rest]] eqn:Hfilter.
  - (* the column is clear already *)
    exists []. split; [constructor|]. split_and!; try done.
    left. intros i Hi. apply Hout; [done|]. apply not_elem_of_nil.
  - (* one entry, in row r1 *)
    assert (Hr1 : Pure.entry a r1 c ≠ 0 ∧ (k ≤ r1 < n)%nat) by (apply Hnz; by left).
    destruct Hr1 as [Hr1 Hr1k].
    assert (Hothers : ∀ i, (k ≤ i)%nat → i ≠ r1 → Pure.entry a i c = 0).
    { intros i Hi Hne. apply Hout; [done|]. by intros ->%list_elem_of_singleton. }
    destruct (decide (r1 = k)) as [-> | Hne].
    + exists []. split; [constructor|]. split_and!; try done.
      right. split; [lia|]. split; [done|]. intros i Hi. apply Hothers; lia.
    + exists [(swap, r1, k)]. split.
      { repeat constructor. apply make_action_tuples_swap; lia. }
      change (Pure.echelon_run F [(swap, r1, k)] a) with (Pure.swap_rows r1 k a).
      assert (Hent := λ i' c', swap_rows_entry n m a r1 k i' c' Hs (proj2 Hr1k)
                                 ltac:(lia)).
      split_and!.
      * apply (apply_shaped n m F swap r1 k); [done|lia|lia].
      * by apply swap_rows_ranged.
      * intros i j Hi. rewrite Hent.
        rewrite bool_decide_eq_false_2 by lia. by rewrite bool_decide_eq_false_2 by lia.
      * intros i j Hi Hj. rewrite Hent. repeat case_bool_decide; apply Hleft; lia.
      * right. split; [lia|]. split.
        -- rewrite Hent. by rewrite bool_decide_eq_true_2.
        -- intros i Hi. rewrite Hent. rewrite bool_decide_eq_false_2 by lia.
           case_bool_decide; apply Hothers; lia.
  - (* two entries, in rows r1 and r2: subtract the smaller from the larger *)
    assert (Hr1 : Pure.entry a r1 c ≠ 0 ∧ (k ≤ r1 < n)%nat) by (apply Hnz; by left).
    assert (Hr2 : Pure.entry a r2 c ≠ 0 ∧ (k ≤ r2 < n)%nat) by (apply Hnz; right; by left).
    destruct Hr1 as [Hr1 Hr1k]. destruct Hr2 as [Hr2 Hr2k].
    assert (Hr12 : r1 ≠ r2).
    { apply NoDup_cons in Hnd as [Hnotin _]. intros ->. apply Hnotin. by left. }
    pose proof (ranged_entry F F_pos a r1 c Ha) as Hb1.
    pose proof (ranged_entry F F_pos a r2 c Ha) as Hb2.
    assert (Hstep : ∀ i j, (k ≤ i < n)%nat → (k ≤ j < n)%nat → i ≠ j →
              0 < Pure.entry a i c ≤ Pure.entry a j c → Pure.entry a j c < F →
              ∃ acts,
                Forall (λ act, act ∈ make_action_tuples n) acts
                ∧ Pure.shaped n m (Pure.echelon_run F acts a)
                ∧ Pure.ranged F (Pure.echelon_run F acts a)
                ∧ (∀ i' j', (i' < k)%nat →
                     Pure.entry (Pure.echelon_run F acts a) i' j' = Pure.entry a i' j')
                ∧ (∀ i' j', (k ≤ i')%nat → (j' < c)%nat →
                     Pure.entry (Pure.echelon_run F acts a) i' j' = 0)
                ∧ Pure.colsum (Pure.echelon_run F acts a) c rows
                  = Pure.colsum a c rows - Pure.entry a i c).
    { intros i j Hi Hj Hij Hle Hlt.
      exists (replicate (Z.to_nat (F - 1)) (add, i, j)).
      split; [apply Forall_replicate; apply make_action_tuples_add; lia|].
      rewrite echelon_run_replicate.
      change (Pure.apply F (add, i, j)) with (Pure.add_rows F i j).
      destruct (subtract_rows F F_pos F_small n m a i j Hs Ha (proj2 Hi) (proj2 Hj) Hij)
        as (Hs' & Ha' & Hent).
      split_and!; [done|done| | |].
      - intros i' j' Hi'. rewrite Hent. by rewrite bool_decide_eq_false_2 by lia.
      - intros i' j' Hi' Hj'. rewrite Hent. case_bool_decide; [|by apply Hleft].
        rewrite (Hleft j j'), (Hleft i j') by lia. by rewrite Z.mod_0_l by lia.
      - rewrite (colsum_change a _ c rows j).
        + rewrite Hent. rewrite bool_decide_eq_true_2 by done.
          rewrite Z.mod_small by lia. lia.
        + subst rows. apply NoDup_seq.
        + by apply Hrows.
        + intros i' _ Hne. rewrite Hent. by rewrite bool_decide_eq_false_2. }
    assert (Hmove : ∃ acts e,
                0 < e
                ∧ Forall (λ act, act ∈ make_action_tuples n) acts
                ∧ Pure.shaped n m (Pure.echelon_run F acts a)
                ∧ Pure.ranged F (Pure.echelon_run F acts a)
                ∧ (∀ i' j', (i' < k)%nat →
                     Pure.entry (Pure.echelon_run F acts a) i' j' = Pure.entry a i' j')
                ∧ (∀ i' j', (k ≤ i')%nat → (j' < c)%nat →
                     Pure.entry (Pure.echelon_run F acts a) i' j' = 0)
                ∧ Pure.colsum (Pure.echelon_run F acts a) c rows = Pure.colsum a c rows - e).
    { destruct (decide (Pure.entry a r1 c ≤ Pure.entry a r2 c)) as [Hle | Hgt].
      - destruct (Hstep r1 r2 Hr1k Hr2k Hr12) as (acts & H1 & H2 & H3 & H4 & H5 & H6);
          [lia|lia|]. exists acts, (Pure.entry a r1 c). split; [lia|done].
      - destruct (Hstep r2 r1 Hr2k Hr1k (not_eq_sym Hr12)) as (acts & H1 & H2 & H3 & H4 & H5 & H6);
          [lia|lia|]. exists acts, (Pure.entry a r2 c). split; [lia|done]. }
    destruct Hmove as (acts1 & e & He & Hacts1 & Hs1 & Ha1 & Habove1 & Hleft1 & Hsum1).
    pose proof (colsum_nonneg F _ c rows F_pos Ha1) as Hnn1.
    pose proof (colsum_nonneg F _ c rows F_pos Ha) as Hnn.
    destruct (IH (Z.to_nat (Pure.colsum (Pure.echelon_run F acts1 a) c rows))
                ltac:(lia) _ Hs1 Ha1 Hleft1 ltac:(done))
      as (acts2 & Hacts2 & Hs2 & Ha2 & Habove2 & Hleft2 & Hfinal).
    exists (acts1 ++ acts2). rewrite echelon_run_app.
    split; [by apply Forall_app|]. split_and!; try done.
    intros i j Hi. by rewrite Habove2, Habove1.
Qed.
End Elimination.

Section EchelonForm.
Import RowEchelonEnvironment.
Implicit Types (a : Np.ndarray).
Variable F : Z.
Variables n m : nat.
Hypothesis F_pos : 0 < F.
Hypothesis F_small : F ≤ 2 ^ 62.

Lemma echelon_rows_zero prev rows :
  Forall (λ r, Np.lead r = None) rows → Pure.echelon_rows prev rows = true.
Proof.
  intros Hall. revert prev. induction Hall as [|r rest Hr _ IH]; intros prev; [done|].
  cbn [Pure.echelon_rows]. rewrite Hr. apply IH.
Qed.

Lemma drop_zero_rows a k :
  Pure.shaped n m a →
  (∀ i j, (k ≤ i)%nat → (j < m)%nat → Pure.entry a i j = 0) →
  Forall (λ r, Np.lead r = None) (drop k a).
Proof.
  intros Hs Hzero. apply Forall_lookup. intros i r Hr. rewrite lookup_drop in Hr.
  apply lead_None_entries. intros j.
  destruct (decide (j < m)%nat) as [Hj|Hj].
  - specialize (Hzero (k + i)%nat j ltac:(lia) Hj).
    unfold Pure.entry, Pure.row in Hzero. by rewrite Hr in Hzero.
  - rewrite lookup_ge_None_2; [done|].
    rewrite (shaped_lookup n m a _ r Hs Hr). lia.
Qed.

(** From column [c] and row [k] on, with zeros left of column [c] below row
    [k], the rows from [k] on can be brought into the form [_is_row_echelon]
    accepts after a lead [prev] left of [c]; the rows above stay. *)
Lemma echelon_form_from (d : nat) :
  ∀ (c k : nat) (prev : Z) a,
    (m - c = d)%nat → (c ≤ m)%nat → (k ≤ n)%nat → prev < Z.of_nat c →
    Pure.shaped n m a → Pure.ranged F a →
    (∀ i j, (k ≤ i)%nat → (j < c)%nat → Pure.entry a i j = 0) →
    ∃ acts,
      Forall (λ act, act ∈ make_action_tuples n) acts
      ∧ Pure.shaped n m (Pure.echelon_run F acts a)
      ∧ (∀ i j, (i < k)%nat → Pure.entry (Pure.echelon_run F acts a) i j = Pure.entry a i j)
      ∧ Pure.echelon_rows (Some prev) (drop k (Pure.echelon_run F acts a)) = true.
Proof.
  induction d as [|d IH]; intros c k prev a Hd Hc Hk Hprev Hs Ha Hleft.
  { exists []. split; [constructor|]. split_and!; try done.
    apply echelon_rows_zero, drop_zero_rows; [done|].
    intros i j Hi Hj. apply Hleft; [done|lia]. }
  destruct (column_phase F n m F_pos F_small k c _ a Hs Ha Hleft (Nat.le_refl _))
    as (acts1 & Hacts1 & Hs1 & Ha1 & Habove1 & Hleft1 & Hcol).
  set (a1 := Pure.echelon_run F acts1 a) in *.
  destruct Hcol as [Hclear | (Hkn & Hpivot & Hbelow)].
  - (* column c is clear below row k: go on with the next column *)
    destruct (IH (Datatypes.S c) k prev a1) as (acts2 & Hacts2 & Hs2 & Habove2 & Hech);
      [lia|lia|done|lia|done|done| |].
    { intros i j Hi Hj. destruct (decide (j = c)) as [-> | Hne]; [by apply Hclear|].
      apply Hleft1; [done|lia]. }
    exists (acts1 ++ acts2). rewrite echelon_run_app. fold a1.
    split; [by apply Forall_app|]. split_and!; try done.
    intros i j Hi. by rewrite Habove2, Habove1.
  - (* row k has its lead in column c: go on below it *)
    destruct (IH (Datatypes.S c) (Datatypes.S k) (Z.of_nat c) a1)
      as (acts2 & Hacts2 & Hs2 & Habove2 & Hech); [lia|lia|lia|lia|done|done| |].
    { intros i j Hi Hj. destruct (decide (j = c)) as [-> | Hne]; [apply Hbelow; lia|].
      apply Hleft1; [lia|lia]. }
    exists (acts1 ++ acts2). rewrite echelon_run_app. fold a1.
    set (a2 := Pure.echelon_run F acts2 a1) in *.
    split; [by apply Forall_app|]. split_and!; try done.
    + intros i j Hi. rewrite Habove2 by lia. by apply Habove1.
    + rewrite (drop_S a2 (Pure.row a2 k) k) by (by apply (shaped_row n m)).
      cbn [Pure.echelon_rows].
      assert (Hlead : Np.lead (Pure.row a2 k) = Some c).
      { apply lead_Some_entries. split_and!.
        - rewrite (shaped_row_length n m); [lia|done|done].
        - fold (Pure.entry a2 k c). by rewrite Habove2 by lia.
        - intros j Hj. fold (Pure.entry a2 k j). rewrite Habove2 by lia.
          by apply Hleft1. }
      rewrite Hlead. by rewrite bool_decide_eq_false_2 by lia.
Qed.

(** Every matrix with entries in [0, F) can be brought into row echelon
    form. *)
Lemma echelon_form_reachable a :
  Pure.shaped n m a → Pure.ranged F a →
  ∃ acts,
    Forall (λ act, act ∈ make_action_tuples n) acts
    ∧ Pure.is_row_echelon (Pure.echelon_run F acts a) = true.
Proof.
  intros Hs Ha.
  destruct (echelon_form_from (m - 0) 0 0 (-1) a) as (acts & Hacts & _ & _ & Hech);
    [done|lia|lia|lia|done|done|intros; lia|].
  by exists acts.
Qed.
End EchelonForm.

(** ** Runs of RowEchelonEnvironment *)

Section EchelonPlays.
Import RowEchelonEnvironment RowEchelonSpec.
Implicit Types (self : t) (h : Np.heap) (a : Np.ndarray).

Lemma tabulate_ranged F n m draw :
  (∀ i j, 0 ≤ draw i j < F) → Pure.ranged F (Np.tabulate n m draw).
Proof.
  intros Hdraw. unfold Pure.ranged, Np.tabulate.
  apply Forall_fmap, Forall_forall. intros i _. simpl.
  apply Forall_fmap, Forall_forall. intros j _. simpl. apply Hdraw.
Qed.

Lemma apply_ranged F act a : 0 < F → Pure.ranged F a → Pure.ranged F (Pure.apply F act a).
Proof.
  intros HF Ha. destruct act as [[[] i] j]; unfold Pure.apply.
  - by apply swap_rows_ranged.
  - by apply add_rows_ranged.
Qed.

(** After [reset] the entries of the matrix are in [0, F). *)
Lemma echelon_state_ranged b self h :
  state_of b self h → b = true →
  ∃ a, h !! matrix self = Some a ∧ Pure.ranged (F self) a ∧ 0 < F self.
Proof.
  induction 1 as [shape modulus h0 self h Hinit
                 |b self0 h0 fuel draws self obs h _ _ Hrand Hreset
                 |b self h action r h' Hst IH Hact Hstep
                 |b self h h' _ IH Hsame]; intros Hb; try done.
  - apply echelon_reset_Ok in Hreset
      as (a' & k' & -> & Hl' & _ & _ & _ & _ & -> & _ & _ & HF).
    eexists. split; [done|]. cbn [F set_matrix]. split; [|lia].
    apply tabulate_ranged. intros i j. apply Hrand.
  - destruct (IH Hb) as (a & Hl & Ha & HF). subst b.
    destruct (echelon_step_any _ _ _ _ Hst Hact) as (a0 & k & i & j & Hl0 & _ & _ & Hok).
    rewrite Hl in Hl0. injection Hl0 as <-.
    rewrite Hok in Hstep.
    rewrite (proj1 (echelon_state_dtype _ _ _ Hst)) in Hstep.
    destruct (Pure.updated Np.int64 (F self) (k, i, j) a) as [a'|] eqn:Hup; [|done].
    apply updated_int64_inv in Hup as ->.
    injection Hstep as <- <-.
    eexists. split; [|split; [by apply (apply_ranged _ (k, i, j))|done]].
    rewrite lookup_insert_ne; [apply lookup_insert_eq|].
    apply fresh_not_in. by rewrite Hl.
  - destruct (IH Hb) as (a & Hl & Ha & HF). exists a. by rewrite Hsame.
Qed.

Lemma is_row_echelon_short a : (length a ≤ 1)%nat → Pure.is_row_echelon a = true.
Proof.
  destruct a as [|r [|r' a]]; simpl; [done| |lia]. intros _.
  unfold Pure.is_row_echelon. cbn [Pure.echelon_rows].
  destruct (Np.lead r) as [l|]; [|done]. by rewrite bool_decide_eq_false_2 by lia.
Qed.

(** A state after [reset] has at least two rows. *)
Lemma echelon_reachable_rows b self h : state_of b self h → b = true → (2 ≤ N self)%nat.
Proof.
  induction 1 as [shape modulus h0 self h Hinit
                 |b self0 h0 fuel draws self obs h _ _ Hrand Hreset
                 |b self h action r h' _ IH Hact Hstep
                 |b self h h' _ IH Hsame]; intros Hb; try done; try (by apply IH).
  apply echelon_reset_Ok in Hreset as (a' & k' & -> & _ & _ & _ & He & _ & -> & _).
  cbn [N set_matrix]. destruct (decide (2 ≤ N self0)%nat) as [|Hlt]; [done|].
  rewrite is_row_echelon_short in He; [done|].
  rewrite (proj1 (tabulate_shaped _ _ _)). lia.
Qed.

(** [play] follows [Pure.echelon_run] on the contents of the matrix. *)
Lemma echelon_play_run b self actions acts :
  Forall2 (λ action act, valid_action self action
                         ∧ Py.getitem (action_tuples self) action = Some act) actions acts →
  Forall (λ act, ∀ a, Pure.updated (dtype self) (F self) act a
                      = Some (Pure.apply (F self) act a)) acts →
  ∀ h a, state_of b self h → h !! matrix self = Some a →
    ∃ rs h', play self actions h = (Py.Ok rs, h')
      ∧ h' !! matrix self = Some (Pure.echelon_run (F self) acts a)
      ∧ length rs = length actions
      ∧ ∀ r, last rs = Some r →
             done r = Pure.is_row_echelon (Pure.echelon_run (F self) acts a).
Proof.
  induction 1 as [|action act actions acts [Hact Hget] Hrest IH]; intros Hex h a Hst Hl.
  { exists [], h. by split_and!. }
  apply Forall_cons in Hex as [Hex Hexs]. specialize (IH Hexs).
  destruct (echelon_step_exact _ _ _ _ _ Hst Hact Hget Hex) as (a0 & Hl0 & Hs & Hstep).
  rewrite Hl in Hl0. injection Hl0 as <-.
  set (a1 := Pure.apply (F self) act a) in *.
  set (h1 := <[fresh (dom h) := a1]> (<[matrix self := a1]> h)) in *.
  assert (Hl1 : h1 !! matrix self = Some a1).
  { subst h1. rewrite lookup_insert_ne; [apply lookup_insert_eq|].
    apply fresh_not_in. by rewrite Hl. }
  destruct (IH h1 a1 (st_step _ _ _ _ _ _ Hst Hact Hstep) Hl1)
    as (rs & h' & Hplay & Hl' & Hlen & Hlast).
  eexists (_ :: rs), h'. cbn [play].
  rewrite (bind_Ok _ _ _ _ _ Hstep), (bind_Ok _ _ _ _ _ Hplay).
  split_and!; [done|done|by simpl; rewrite Hlen|].
  intros r Hr.
  change (Pure.echelon_run (F self) (act :: acts) a)
    with (Pure.echelon_run (F self) acts a1).
  destruct rs as [|r' rs'].
  - simpl in Hr. injection Hr as <-. destruct acts; [done|].
    apply Forall2_length in Hrest. simpl in Hlen. destruct actions; simpl in *; lia.
  - apply Hlast. by rewrite last_cons_cons in Hr.
Qed.

(** On the int64 matrix of a state after [reset], with a modulus below
    [2 ^ 63], every update is the one of [Pure.apply]. *)
Lemma echelon_exact_reachable self h acts :
  reachable self h → F self < 2 ^ 63 →
  Forall (λ act, ∀ a, Pure.updated (dtype self) (F self) act a
                      = Some (Pure.apply (F self) act a)) acts.
Proof.
  intros Hreach HF. destruct (echelon_state_dtype _ _ _ Hreach) as [Hdt HF0].
  apply Forall_forall. intros act _ a. rewrite Hdt. apply updated_int64. lia.
Qed.

(** Every action tuple has an index, which is a valid action. *)
Lemma actions_of_tuples self acts :
  Forall (λ act, act ∈ action_tuples self) acts →
  ∃ actions,
    Forall2 (λ action act, valid_action self action
                           ∧ Py.getitem (action_tuples self) action = Some act) actions acts.
Proof.
  induction 1 as [|act acts Hin _ [actions IH]]; [by exists []|].
  apply list_elem_of_lookup in Hin as [idx Hidx].
  exists (Z.of_nat idx :: actions). constructor; [|done]. split.
  - apply lookup_lt_Some in Hidx. unfold valid_action, action_size. lia.
  - by apply getitem_nat.
Qed.

(** From a reachable state with a modulus up to 2^62, some run of valid
    actions ends with done. *)
Lemma echelon_some_run_ends self h :
  reachable self h → F self ≤ 2 ^ 62 →
  ∃ actions rs h' obs reward,
    Forall (valid_action self) actions
    ∧ play self actions h = (Py.Ok rs, h')
    ∧ last rs = Some (obs, reward, true).
Proof.
  intros Hreach HF.
  destruct (echelon_state_of_inv _ _ _ Hreach) as (a & Hl & Hs & Hacts).
  destruct (echelon_state_ranged _ _ _ Hreach eq_refl) as (a0 & Hl0 & Ha & Hpos).
  rewrite Hl in Hl0. injection Hl0 as <-.
  pose proof (echelon_reachable_rows _ _ _ Hreach eq_refl) as Hrows.
  set (a1 := Pure.apply (F self) (swap, 1%nat, 0%nat) a).
  assert (Hs1 : Pure.shaped (N self) (M self) a1) by (apply apply_shaped; [done|lia|lia]).
  assert (Ha1 : Pure.ranged (F self) a1) by (by apply apply_ranged).
  destruct (echelon_form_reachable (F self) (N self) (M self) Hpos HF a1 Hs1 Ha1)
    as (acts & Hin & Hech).
  assert (Hall : Forall (λ act, act ∈ action_tuples self) ((swap, 1%nat, 0%nat) :: acts)).
  { rewrite Hacts. constructor; [apply make_action_tuples_swap; lia|done]. }
  destruct (actions_of_tuples self _ Hall) as [actions Hf2].
  assert (HF63 : F self < 2 ^ 63) by lia.
  destruct (echelon_play_run true self actions _ Hf2
              (echelon_exact_reachable _ _ _ Hreach HF63) h a Hreach Hl)
    as (rs & h' & Hplay & _ & Hlen & Hlast).
  change (Pure.echelon_run (F self) ((swap, 1%nat, 0%nat) :: acts) a)
    with (Pure.echelon_run (F self) acts a1) in Hlast.
  rewrite Hech in Hlast.
  destruct (last rs) as [[[obs reward] fin]|] eqn:Hr.
  2:{ apply last_None in Hr. subst rs. apply Forall2_length in Hf2.
      simpl in Hlen, Hf2. lia. }
  exists actions, rs, h', obs, reward. split_and!; [|done|].
  - eapply Forall2_Forall_l; [exact Hf2|]. apply Forall_forall. by intros act _ action [? _].
  - specialize (Hlast _ eq_refl). unfold done in Hlast. simpl in Hlast. by subst fin.
Qed.
End EchelonPlays.

(** ** Some run ends *)

Section SomeRunEnds.
Context `{Float}.

(** C1, as the code has it.  Not every action sequence ends, but from every
    reachable state some sequence of valid actions does.  In
    [RowEchelonEnvironment] with a modulus of at most 2^62 there is a finite
    sequence of valid actions whose last [step] returns done = true.  In
    [RowChoiceEnvironment] choosing the rows 0, ..., N-1 in turn is such a
    sequence: the last of its N steps returns done = true. *)
Theorem C1_some_run_ends :
  (∀ self h,
     RowEchelonSpec.reachable self h → RowEchelonEnvironment.F self ≤ 2 ^ 62 →
     ∃ actions rs h' obs reward,
       Forall (RowEchelonSpec.valid_action self) actions
       ∧ RowEchelonSpec.play self actions h = (Py.Ok rs, h')
       ∧ last rs = Some (obs, reward, true))
  ∧ (∀ self h,
       RowChoiceSpec.reachable self h →
       Forall (RowChoiceSpec.valid_action self)
              (Z.of_nat <$> seq 0 (RowChoiceEnvironment.N self))
       ∧ ∃ rs h' obs reward,
           RowChoiceSpec.play self (Z.of_nat <$> seq 0 (RowChoiceEnvironment.N self)) h
           = (Py.Ok rs, h')
           ∧ length rs = RowChoiceEnvironment.N self
           ∧ last rs = Some (obs, reward, true)).
Proof.
  split.
  - intros self h Hreach HF. by apply echelon_some_run_ends.
  - intros self h Hreach. split; [apply seq_actions_valid|]. by apply choice_rows_in_turn.
Qed.
End SomeRunEnds.

Lemma C1_witness :
  (RowEchelonSpec.reachable Examples.echelon_self Examples.echelon_heap
   ∧ RowEchelonEnvironment.F Examples.echelon_self ≤ 2 ^ 62
   ∧ ∃ actions rs h' obs reward,
       Forall (RowEchelonSpec.valid_action Examples.echelon_self) actions
       ∧ RowEchelonSpec.play Examples.echelon_self actions Examples.echelon_heap
         = (Py.Ok rs, h')
       ∧ last rs = Some (obs, reward, true))
  ∧ (RowChoiceSpec.reachable Examples.choice_self Examples.choice_heap
     ∧ Forall (RowChoiceSpec.valid_action Examples.choice_self) [0; 1; 2]
     ∧ ∃ rs h' obs reward,
         RowChoiceSpec.play Examples.choice_self [0; 1; 2] Examples.choice_heap
         = (Py.Ok rs, h')
         ∧ length rs = 3%nat
         ∧ last rs = Some (obs, reward, true)).
Proof.
  split.
  - split; [apply echelon_example_reachable|].
    assert (HF : RowEchelonEnvironment.F Examples.echelon_self ≤ 2 ^ 62) by (by vm_compute).
    split; [exact HF|].
    exact (proj1 (C1_some_run_ends (H := Qfloat)) Examples.echelon_self Examples.echelon_heap
             echelon_example_reachable HF).
  - split; [apply choice_example_reachable|].
    exact (proj2 (C1_some_run_ends (H := Qfloat)) Examples.choice_self Examples.choice_heap
             choice_example_reachable).
Defined.

(** * Further properties of the code *)

(** ** RowEchelonEnvironment: the list of actions *)

Section ActionList.
Import RowEchelonEnvironment.

Lemma length_bind_const {A B} (f : A → list B) (l : list A) (c : nat) :
  (∀ x, x ∈ l → length (f x) = c) → length (l ≫= f) = (length l * c)%nat.
Proof.
  induction l as [|x l IH]; intros Hf; [done|].
  cbn [mbind list_bind]. rewrite length_app, Hf by left.
  rewrite IH by (intros y Hy; apply Hf; by right). simpl. lia.
Qed.

Lemma length_filter_ne_seq (i s k : nat) :
  length (filter (λ j, i ≠ j) (seq s k))
  = if bool_decide (s ≤ i < s + k)%nat then (k - 1)%nat else k.
Proof.
  revert s. induction k as [|k IH]; intros s.
  { simpl. by case_bool_decide. }
  cbn [seq]. rewrite filter_cons. case_decide as Hne.
  - simpl. rewrite IH. repeat case_bool_decide; lia.
  - subst s. rewrite IH. rewrite bool_decide_eq_false_2 by lia.
    rewrite bool_decide_eq_true_2 by lia. lia.
Qed.

Lemma length_swaps (n : nat) :
  (2 * length (seq 0 n ≫= λ i, seq 0 i ≫= λ j, [(swap, i, j)]) = n * (n - 1))%nat.
Proof.
  induction n as [|n IH]; [done|].
  rewrite seq_S, bind_app, length_app.
  assert (Hn : length ([n] ≫= λ i, seq 0 i ≫= λ j, [(swap, i, j)]) = n).
  { cbn [mbind list_bind]. rewrite app_nil_r.
    rewrite (length_bind_const _ (seq 0 n) 1) by done. rewrite length_seq. lia. }
  simpl in Hn |- *. rewrite Hn. nia.
Qed.

Lemma length_adds (n : nat) :
  length (seq 0 n ≫= λ i, filter (λ j, i ≠ j) (seq 0 n) ≫= λ j, [(add, i, j)])
  = (n * (n - 1))%nat.
Proof.
  rewrite (length_bind_const _ _ (n - 1)); [by rewrite length_seq|].
  intros i Hi%elem_of_seq.
  rewrite (length_bind_const _ _ 1) by done.
  rewrite length_filter_ne_seq, bool_decide_eq_true_2 by lia. lia.
Qed.

Lemma length_make_action_tuples (n : nat) :
  (2 * length (make_action_tuples n) = 3 * n * (n - 1))%nat.
Proof.
  unfold make_action_tuples. rewrite length_app, length_adds.
  pose proof (length_swaps n). nia.
Qed.

Lemma NoDup_make_action_tuples (n : nat) : NoDup (make_action_tuples n).
Proof.
  unfold make_action_tuples. apply NoDup_app. split_and!.
  - apply NoDup_bind; [| |apply NoDup_seq].
    + intros i1 i2 y _ _ (j1 & Hy1 & _)%list_elem_of_bind (j2 & Hy2 & _)%list_elem_of_bind.
      apply list_elem_of_singleton in Hy1, Hy2. congruence.
    + intros i _. apply NoDup_bind; [| |apply NoDup_seq].
      * intros j1 j2 y _ _ Hy1%list_elem_of_singleton Hy2%list_elem_of_singleton. congruence.
      * intros j _. apply NoDup_singleton.
  - intros y (i1 & (j1 & Hy1 & _)%list_elem_of_bind & _)%list_elem_of_bind
             (i2 & (j2 & Hy2 & _)%list_elem_of_bind & _)%list_elem_of_bind.
    apply list_elem_of_singleton in Hy1, Hy2. congruence.
  - apply NoDup_bind; [| |apply NoDup_seq].
    + intros i1 i2 y _ _ (j1 & Hy1 & _)%list_elem_of_bind (j2 & Hy2 & _)%list_elem_of_bind.
      apply list_elem_of_singleton in Hy1, Hy2. congruence.
    + intros i _. apply NoDup_bind; [| |apply NoDup_filter, NoDup_seq].
      * intros j1 j2 y _ _ Hy1%list_elem_of_singleton Hy2%list_elem_of_singleton. congruence.
      * intros j _. apply NoDup_singleton.
Qed.

Lemma make_action_tuples_swap_inv n i j :
  (swap, i, j) ∈ make_action_tuples n → (j < i)%nat.
Proof.
  unfold make_action_tuples. intros [Hin|Hin]%elem_of_app.
  - apply list_elem_of_bind in Hin as (i' & Hin & _).
    apply list_elem_of_bind in Hin as (j' & Heq%list_elem_of_singleton & Hj%elem_of_seq).
    injection Heq as -> ->. lia.
  - apply list_elem_of_bind in Hin as (i' & Hin & _).
    apply list_elem_of_bind in Hin as (j' & Heq%list_elem_of_singleton & _). done.
Qed.

(** X1.  [__init__] lists each swap of two rows once (the larger index first) and
    each addition of one row to another once: 3 N (N - 1) / 2 actions, all
    different. *)
Theorem echelon_init_actions shape modulus h :
  ∃ self h', init shape modulus h = (Py.Ok self, h')
    ∧ N self = shape.1
    ∧ (2 * action_size self = 3 * N self * (N self - 1))%nat
    ∧ NoDup (action_tuples self)
    ∧ ∀ k i j, (k, i, j) ∈ action_tuples self
               ↔ (i < N self)%nat ∧ (j < N self)%nat
                 ∧ match k with swap => (j < i)%nat | add => i ≠ j end.
Proof.
  eexists _, _. split; [reflexivity|]. cbn [N action_size action_tuples].
  split_and!; [done|apply length_make_action_tuples|apply NoDup_make_action_tuples|].
  intros k i j. split.
  - intros Hin. destruct (make_action_tuples_bound _ _ _ _ Hin) as (Hi & Hj & Hne).
    split_and!; [done..|]. destruct k; [by apply (make_action_tuples_swap_inv (shape.1))|done].
  - intros (Hi & Hj & Hk). destruct k.
    + by apply make_action_tuples_swap.
    + by apply make_action_tuples_add.
Qed.
End ActionList.

(** ** What the terminal predicates say of a matrix *)

Section Predicates.

Lemma echelon_rows_iff rows :
  ∀ prev,
    Pure.echelon_rows prev rows = true
    ↔ (∀ j rj lj, rows !! j = Some rj → Np.lead rj = Some lj →
         ∃ p, prev = Some p ∧ p < Z.of_nat lj)
      ∧ (∀ i j ri rj lj, (i < j)%nat → rows !! i = Some ri → rows !! j = Some rj →
           Np.lead rj = Some lj → ∃ li, Np.lead ri = Some li ∧ (li < lj)%nat).
Proof.
  induction rows as [|r rows IH]; intros prev.
  { simpl. split; [|done]. intros _. split; intros; simplify_eq. }
  cbn [Pure.echelon_rows]. destruct (Np.lead r) as [l|] eqn:Hl.
  - destruct prev as [p|].
    + case_bool_decide as Hp.
      * split; [done|]. intros [H1 _].
        destruct (H1 0%nat r l eq_refl Hl) as (p' & [= <-] & ?). lia.
      * rewrite IH. split.
        -- intros [H1 H2]. split.
           ++ intros [|j] rj lj Hj Hlj; simpl in Hj.
              ** simplify_eq. exists p. split; [done|lia].
              ** destruct (H1 _ _ _ Hj Hlj) as (p' & [= <-] & ?). exists p. split; [done|lia].
           ++ intros [|i] [|j] ri rj lj Hij Hi Hj Hlj; simpl in Hi, Hj; try lia.
              ** simplify_eq. destruct (H1 _ _ _ Hj Hlj) as (p' & [= <-] & ?).
                 exists l. split; [done|lia].
              ** apply (H2 i j ri rj lj); [lia|done..].
        -- intros [H1 H2]. split.
           ++ intros j rj lj Hj Hlj.
              destruct (H2 0%nat (S j) r rj lj) as (li & Hli & ?); [lia|done..|].
              rewrite Hl in Hli. injection Hli as <-. exists (Z.of_nat l). split; [done|lia].
           ++ intros i j ri rj lj Hij Hi Hj Hlj.
              apply (H2 (S i) (S j) ri rj lj); [lia|done..].
    + split; [done|]. intros [H1 _].
      by destruct (H1 0%nat r l eq_refl Hl) as (p' & ? & ?).
  - rewrite IH. split.
    + intros [H1 H2]. split.
      * intros [|j] rj lj Hj Hlj; simpl in Hj; [by simplify_eq|].
        by destruct (H1 _ _ _ Hj Hlj) as (p' & ? & ?).
      * intros [|i] [|j] ri rj lj Hij Hi Hj Hlj; simpl in Hi, Hj; try lia.
        -- by destruct (H1 _ _ _ Hj Hlj) as (p' & ? & ?).
        -- apply (H2 i j ri rj lj); [lia|done..].
    + intros [H1 H2]. split.
      * intros j rj lj Hj Hlj.
        destruct (H2 0%nat (S j) r rj lj) as (li & Hli & ?); [lia|done..|]. congruence.
      * intros i j ri rj lj Hij Hi Hj Hlj.
        apply (H2 (S i) (S j) ri rj lj); [lia|done..].
Qed.

(** [is_row_echelon]: the lead of every row that has one lies strictly to the
    right of the lead of each row above it, which has one too. *)
Lemma is_row_echelon_iff n m a :
  Pure.shaped n m a →
  Pure.is_row_echelon a = true
  ↔ ∀ i j lj, (i < j)%nat → (j < n)%nat → Np.lead (Pure.row a j) = Some lj →
      ∃ li, Np.lead (Pure.row a i) = Some li ∧ (li < lj)%nat.
Proof.
  intros Hs. unfold Pure.is_row_echelon. rewrite echelon_rows_iff. split.
  - intros [_ H2] i j lj Hij Hj Hlj.
    apply (H2 i j (Pure.row a i) (Pure.row a j) lj); [done| | |done].
    + apply (shaped_row n m); [done|lia].
    + by apply (shaped_row n m).
  - intros Hall. split.
    + intros j rj lj Hj Hlj. exists (-1). split; [done|lia].
    + intros i j ri rj lj Hij Hi Hj Hlj.
      pose proof (lookup_lt_Some _ _ _ Hj) as Hjn. rewrite (proj1 Hs) in Hjn.
      rewrite <- (row_lookup _ _ _ Hi). apply (Hall i j lj); [done..|].
      by rewrite (row_lookup _ _ _ Hj).
Qed.

Lemma column_clear_iff a row lead rows :
  Pure.column_clear a row lead rows = true
  ↔ Forall (λ i, i ≠ row → Pure.entry a i lead = 0) rows.
Proof.
  induction rows as [|i rows IH]; [done|].
  cbn [Pure.column_clear]. rewrite Forall_cons. case_bool_decide as Hne.
  - case_bool_decide as Hx.
    + split; [done|]. intros [Hi _]. by specialize (Hi Hne).
    + rewrite IH. split; [|tauto]. intros Hrest. split; [|done].
      intros _. destruct (decide (Pure.entry a i lead = 0)); [done|]. by destruct Hx.
  - rewrite IH. split; [|tauto]. intros Hrest. split; [|done]. intros Hi. by destruct Hne.
Qed.

Lemma reduced_rows_iff n a rows :
  Pure.reduced_rows n a rows = true ↔ Forall (Pure.no_move n a) rows.
Proof.
  induction rows as [|r rows IH]; [done|].
  cbn [Pure.reduced_rows]. rewrite Forall_cons. unfold Pure.no_move at 1.
  destruct (Np.lead (Pure.row a r)) as [l|].
  - destruct (Pure.column_clear a r l (seq 0 n)) eqn:Hc.
    + rewrite IH. apply column_clear_iff in Hc. rewrite Forall_forall in Hc.
      split; [|tauto]. intros Hr. split; [|done].
      intros i Hi Hne. apply Hc; [apply elem_of_seq; lia|done].
    + split; [done|]. intros [Hall _]. rewrite <- Hc.
      apply (proj2 (column_clear_iff _ _ _ _)), Forall_forall.
      intros i Hi%elem_of_seq Hne. apply Hall; [lia|done].
  - rewrite IH. tauto.
Qed.

(** [is_reduced]: in the column of the lead of each row, every other row has
    a zero. *)
Lemma is_reduced_iff n m a :
  Pure.shaped n m a →
  Pure.is_reduced a = true
  ↔ ∀ r l, (r < n)%nat → Np.lead (Pure.row a r) = Some l →
      ∀ i, (i < n)%nat → i ≠ r → Pure.entry a i l = 0.
Proof.
  intros Hs. unfold Pure.is_reduced. rewrite (proj1 Hs), reduced_rows_iff, Forall_forall.
  split.
  - intros Hall r l Hr Hl. specialize (Hall r). unfold Pure.no_move in Hall.
    rewrite Hl in Hall. apply Hall, elem_of_seq. lia.
  - intros Hall r Hr%elem_of_seq. unfold Pure.no_move.
    destruct (Np.lead (Pure.row a r)) as [l|] eqn:Hl; [|done].
    apply (Hall r l); [lia|done].
Qed.
End Predicates.

Section PredicatesOfStates.
Context `{Float}.

(** X2.  [_is_row_echelon] of [RowEchelonEnvironment] returns, changes nothing,
    and returns True exactly when the lead of every row that has one lies
    strictly to the right of the lead of each row above it (so that rows
    without a lead come last). *)
Theorem echelon_predicate_meaning b self h :
  RowEchelonSpec.state_of b self h →
  ∃ a res,
    h !! RowEchelonEnvironment.matrix self = Some a
    ∧ RowEchelonEnvironment._is_row_echelon self h = (Py.Ok res, h)
    ∧ (res = true
       ↔ ∀ i j lj, (i < j)%nat → (j < RowEchelonEnvironment.N self)%nat →
           Np.lead (Pure.row a j) = Some lj →
           ∃ li, Np.lead (Pure.row a i) = Some li ∧ (li < lj)%nat).
Proof.
  intros (a & Hl & Hs & _)%echelon_state_of_inv.
  exists a, (Pure.is_row_echelon a). split_and!; [done| |].
  - apply is_row_echelon_Ok; [done|apply Hs].
  - by apply (is_row_echelon_iff _ (RowEchelonEnvironment.M self)).
Qed.

(** X9.  [_is_reduced] of [RowChoiceEnvironment] returns, changes nothing, and
    returns True exactly when, for each row with a lead, every other row has
    a zero in the column of that lead. *)
Theorem choice_predicate_meaning b self h :
  RowChoiceSpec.state_of b self h →
  ∃ a res,
    h !! RowChoiceEnvironment.matrix self = Some a
    ∧ RowChoiceEnvironment._is_reduced self h = (Py.Ok res, h)
    ∧ (res = true
       ↔ ∀ r l, (r < RowChoiceEnvironment.N self)%nat → Np.lead (Pure.row a r) = Some l →
           ∀ i, (i < RowChoiceEnvironment.N self)%nat → i ≠ r → Pure.entry a i l = 0).
Proof.
  intros (a & Hl & Hs)%choice_state_of_inv.
  exists a, (Pure.is_reduced a). split_and!; [done| |].
  - by apply (is_reduced_Ok _ _ _ (RowChoiceEnvironment.M self)).
  - by apply (is_reduced_iff _ (RowChoiceEnvironment.M self)).
Qed.
End PredicatesOfStates.

Lemma echelon_predicate_meaning_witness :
  RowEchelonSpec.state_of true Examples.echelon_self Examples.echelon_heap
  ∧ ∃ a res,
      Examples.echelon_heap !! RowEchelonEnvironment.matrix Examples.echelon_self = Some a
      ∧ RowEchelonEnvironment._is_row_echelon Examples.echelon_self Examples.echelon_heap
        = (Py.Ok res, Examples.echelon_heap)
      ∧ (res = true
         ↔ ∀ i j lj, (i < j)%nat → (j < RowEchelonEnvironment.N Examples.echelon_self)%nat →
             Np.lead (Pure.row a j) = Some lj →
             ∃ li, Np.lead (Pure.row a i) = Some li ∧ (li < lj)%nat).
Proof.
  split; [apply echelon_example_reachable|].
  exact (echelon_predicate_meaning true _ _ echelon_example_reachable).
Defined.

Lemma choice_predicate_meaning_witness :
  RowChoiceSpec.state_of (H := Qfloat) true Examples.choice_self Examples.choice_heap
  ∧ ∃ a res,
      Examples.choice_heap !! RowChoiceEnvironment.matrix Examples.choice_self = Some a
      ∧ RowChoiceEnvironment._is_reduced Examples.choice_self Examples.choice_heap
        = (Py.Ok res, Examples.choice_heap)
      ∧ (res = true
         ↔ ∀ r l, (r < RowChoiceEnvironment.N Examples.choice_self)%nat →
             Np.lead (Pure.row a r) = Some l →
             ∀ i, (i < RowChoiceEnvironment.N Examples.choice_self)%nat → i ≠ r →
               Pure.entry a i l = 0).
Proof.
  split; [apply choice_example_reachable|].
  exact (choice_predicate_meaning (H := Qfloat) true _ _ choice_example_reachable).
Defined.

(** ** RowEchelonEnvironment: entries, undoing an action, the range of actions *)

Section EchelonAlgebra.
Import RowEchelonEnvironment RowEchelonSpec.
Implicit Types (self : t) (h : Np.heap) (a : Np.ndarray).

(** Two arrays of one shape with the same entries are the same array. *)
Lemma matrix_ext n m a a' :
  Pure.shaped n m a → Pure.shaped n m a' →
  (∀ i j, Pure.entry a i j = Pure.entry a' i j) → a = a'.
Proof.
  intros Hs Hs' Hall. apply list_eq. intros i.
  destruct (decide (i < n)%nat) as [Hi|Hi].
  - rewrite (shaped_row n m a i Hs Hi), (shaped_row n m a' i Hs' Hi). f_equal.
    apply list_eq. intros j. destruct (decide (j < m)%nat) as [Hj|Hj].
    + rewrite (shaped_entry n m a i j Hs Hi Hj), (shaped_entry n m a' i j Hs' Hi Hj).
      by rewrite Hall.
    + rewrite !lookup_ge_None_2; [done|..].
      * rewrite (shaped_row_length n m) by done. lia.
      * rewrite (shaped_row_length n m) by done. lia.
  - rewrite !lookup_ge_None_2; [done|..].
    + rewrite (proj1 Hs'). lia.
    + rewrite (proj1 Hs). lia.
Qed.

Lemma swap_rows_twice n m a i j :
  Pure.shaped n m a → (i < n)%nat → (j < n)%nat →
  Pure.swap_rows i j (Pure.swap_rows i j a) = a.
Proof.
  intros Hs Hi Hj.
  assert (Hs1 : Pure.shaped n m (Pure.swap_rows i j a))
    by apply (apply_shaped n m 0 swap i j a Hs Hi Hj).
  apply (matrix_ext n m); [|done|].
  { apply (apply_shaped n m 0 swap i j _ Hs1 Hi Hj). }
  intros i' c. rewrite (swap_rows_entry n m) by done.
  rewrite !(swap_rows_entry n m a) by done.
  repeat case_bool_decide; congruence.
Qed.

Lemma add_rows_modulus_times F n m a i j :
  0 < F → F ≤ 2 ^ 62 →
  Pure.shaped n m a → Pure.ranged F a → (i < n)%nat → (j < n)%nat → i ≠ j →
  Nat.iter (Z.to_nat F) (Pure.add_rows F i j) a = a.
Proof.
  intros HF HF' Hs Ha Hi Hj Hne.
  destruct (iter_add_rows F HF HF' n m a i j (Z.to_nat F) Hs Ha Hi Hj Hne) as (Hs' & _ & He).
  apply (matrix_ext n m); [done..|].
  intros i' c. rewrite He. case_bool_decide as Hi'; [|done]. subst i'.
  rewrite Z2Nat.id by lia. rewrite Z.mul_comm, Z.mod_add by lia.
  apply Z.mod_small. by apply ranged_entry.
Qed.

Lemma getitem_negative {A} (l : list A) (i : Z) :
  - Z.of_nat (length l) ≤ i < 0 → Py.getitem l i = Py.getitem l (i + Z.of_nat (length l)).
Proof.
  intros Hi. unfold Py.getitem, Py.norm_index.
  rewrite (bool_decide_eq_false_2 (0 ≤ i < _)) by lia.
  rewrite (bool_decide_eq_true_2 (- _ ≤ i < 0)) by lia.
  rewrite (bool_decide_eq_true_2 (0 ≤ i + _ < _)) by lia.
  do 2 f_equal. lia.
Qed.

(** X3.  After [reset], and after any valid steps, the matrix is [N] by [M] with
    entries in [0, F). *)
Theorem echelon_entries_in_range self h :
  reachable self h →
  ∃ a, h !! matrix self = Some a
       ∧ Pure.shaped (N self) (M self) a ∧ Pure.ranged (F self) a.
Proof.
  intros Hreach.
  destruct (echelon_state_of_inv _ _ _ Hreach) as (a & Hl & Hs & _).
  destruct (echelon_state_ranged _ _ _ Hreach eq_refl) as (a0 & Hl0 & Ha & _).
  rewrite Hl in Hl0. injection Hl0 as <-. by exists a.
Qed.

(** X4.  A swap undoes itself: [step] twice with the action of a swap leaves the
    matrix as it was. *)
Theorem echelon_swap_twice b self h action i j :
  state_of b self h → valid_action self action →
  Py.getitem (action_tuples self) action = Some (swap, i, j) →
  ∃ a rs h',
    h !! matrix self = Some a
    ∧ play self [action; action] h = (Py.Ok rs, h')
    ∧ h' !! matrix self = Some a.
Proof.
  intros Hst Hact Hget.
  destruct (echelon_state_of_inv _ _ _ Hst) as (a & Hl & Hs & Hacts).
  destruct (echelon_valid_action_getitem _ _ Hacts Hact) as (k & i0 & j0 & Hget' & Hi & Hj).
  rewrite Hget in Hget'. injection Hget' as <- <- <-.
  assert (Hf2 : Forall2 (λ action act, valid_action self action
                           ∧ Py.getitem (action_tuples self) action = Some act)
                  [action; action] [(swap, i, j); (swap, i, j)])
    by (constructor; [by split|]; constructor; [by split|]; constructor).
  assert (Hex : Forall (λ act, ∀ a, Pure.updated (dtype self) (F self) act a
                                    = Some (Pure.apply (F self) act a))
                  [(swap, i, j); (swap, i, j)])
    by (constructor; [done|]; constructor; [done|]; constructor).
  destruct (echelon_play_run b self _ _ Hf2 Hex h a Hst Hl) as (rs & h' & Hplay & Hl' & _).
  exists a, rs, h'. split_and!; [done..|].
  rewrite Hl'. f_equal. cbn. by apply (swap_rows_twice (N self) (M self)).
Qed.

(** X5.  An addition is undone by repeating it: with a modulus [F] up to 2^62,
    [step] [F] times with the action that adds row [i] to row [j] leaves the
    matrix as it was. *)
Theorem echelon_add_modulus_times self h action i j :
  reachable self h → F self ≤ 2 ^ 62 → valid_action self action →
  Py.getitem (action_tuples self) action = Some (add, i, j) →
  ∃ a rs h',
    h !! matrix self = Some a
    ∧ play self (replicate (Z.to_nat (F self)) action) h = (Py.Ok rs, h')
    ∧ h' !! matrix self = Some a.
Proof.
  intros Hreach HF Hact Hget.
  destruct (echelon_state_of_inv _ _ _ Hreach) as (a & Hl & Hs & Hacts).
  destruct (echelon_state_ranged _ _ _ Hreach eq_refl) as (a0 & Hl0 & Ha & Hpos).
  rewrite Hl in Hl0. injection Hl0 as <-.
  assert (Hin : (add, i, j) ∈ make_action_tuples (N self)).
  { rewrite <- Hacts. unfold Py.getitem in Hget.
    destruct (Py.norm_index _ _) as [p|]; [|done]. by apply list_elem_of_lookup_2 in Hget. }
  apply make_action_tuples_bound in Hin as (Hi & Hj & Hne).
  set (t := Z.to_nat (F self)).
  assert (Hf2 : Forall2 (λ action act, valid_action self action
                           ∧ Py.getitem (action_tuples self) action = Some act)
                  (replicate t action) (replicate t (add, i, j))).
  { apply Forall2_replicate. done. }
  assert (HF63 : F self < 2 ^ 63) by lia.
  destruct (echelon_play_run true self _ _ Hf2 (echelon_exact_reachable _ _ _ Hreach HF63)
              h a Hreach Hl) as (rs & h' & Hplay & Hl' & _).
  exists a, rs, h'. split_and!; [done..|].
  rewrite Hl'. f_equal. rewrite echelon_run_replicate.
  by apply (add_rows_modulus_times (F self) (N self) (M self)).
Qed.

(** An addition raises [OverflowError] exactly for a modulus that does not
    convert to the dtype of the matrix. *)
Lemma echelon_step_overflow b self h action i j :
  state_of b self h → valid_action self action →
  Py.getitem (action_tuples self) action = Some (add, i, j) →
  (step self action h = (Py.Raise Py.OverflowError, h)
   ↔ if b then F self = 2 ^ 63 else 2 ^ 1024 - 2 ^ 970 ≤ Z.abs (F self)).
Proof.
  intros Hst Hact Hget.
  destruct (echelon_step_any _ _ _ _ Hst Hact) as (a & k & i' & j' & _ & _ & Hget' & Hstep).
  rewrite Hget in Hget'. injection Hget' as <- <- <-. rewrite Hstep.
  pose proof (echelon_state_dtype _ _ _ Hst) as Hdt. unfold Pure.updated.
  destruct b.
  - destruct Hdt as [-> HF]. unfold Np.fits_int64. case_bool_decide; split; (done || lia).
  - rewrite Hdt. unfold Np.fits_float64. case_bool_decide; split; (done || lia).
Qed.

(** X6.  [step] takes the indices of a Python list: below [-action_size] and from
    [action_size] on it raises IndexError and changes nothing; a negative
    index in range is the action [action_size] places further.  An index in
    range is answered, or, if it names an addition, [step] raises
    [OverflowError] and changes nothing: it does so exactly when the modulus
    is [2 ^ 63] after [reset], and before [reset] when the modulus is too
    large to round to a double.  So after [reset], with a modulus below
    [2 ^ 63], every index in range is answered. *)
Theorem echelon_step_index_range b self h action :
  state_of b self h →
  (step self action h = (Py.Raise Py.IndexError, h)
   ↔ action < - Z.of_nat (action_size self) ∨ Z.of_nat (action_size self) ≤ action)
  ∧ (- Z.of_nat (action_size self) ≤ action < 0 →
     step self action h = step self (action + Z.of_nat (action_size self)) h)
  ∧ (- Z.of_nat (action_size self) ≤ action < Z.of_nat (action_size self) →
     (∃ r h', step self action h = (Py.Ok r, h'))
     ∨ (step self action h = (Py.Raise Py.OverflowError, h)
        ∧ ∃ i j, Py.getitem (action_tuples self) action = Some (add, i, j)))
  ∧ (∀ i j,
       - Z.of_nat (action_size self) ≤ action < Z.of_nat (action_size self) →
       Py.getitem (action_tuples self) action = Some (add, i, j) →
       (step self action h = (Py.Raise Py.OverflowError, h)
        ↔ if b then F self = 2 ^ 63 else 2 ^ 1024 - 2 ^ 970 ≤ Z.abs (F self)))
  ∧ (b = true → F self < 2 ^ 63 →
     - Z.of_nat (action_size self) ≤ action < Z.of_nat (action_size self) →
     ∃ r h', step self action h = (Py.Ok r, h')).
Proof.
  intros Hst.
  assert (Hneg : - Z.of_nat (action_size self) ≤ action < 0 →
                 step self action h = step self (action + Z.of_nat (action_size self)) h).
  { intros Hr. unfold step. by rewrite (getitem_negative _ _ Hr). }
  assert (Hvalid : ∀ action', valid_action self action' →
            (∃ r h', step self action' h = (Py.Ok r, h'))
            ∨ (step self action' h = (Py.Raise Py.OverflowError, h)
               ∧ ∃ i j, Py.getitem (action_tuples self) action' = Some (add, i, j))).
  { intros action' Hact.
    destruct (echelon_step_any _ _ _ _ Hst Hact) as (a & k & i & j & _ & _ & Hget & Hstep).
    destruct (Pure.updated (dtype self) (F self) (k, i, j) a) as [a'|] eqn:Hup.
    - left. by eexists _, _.
    - right. split; [done|]. destruct k; [done|]. by exists i, j. }
  assert (Hin : - Z.of_nat (action_size self) ≤ action < Z.of_nat (action_size self) →
            (∃ r h', step self action h = (Py.Ok r, h'))
            ∨ (step self action h = (Py.Raise Py.OverflowError, h)
               ∧ ∃ i j, Py.getitem (action_tuples self) action = Some (add, i, j))).
  { intros Hr. destruct (decide (0 ≤ action)) as [H0|H0]; [apply Hvalid; split; lia|].
    rewrite Hneg by lia. unfold action_size in *. rewrite getitem_negative by lia.
    apply Hvalid. unfold valid_action, action_size. lia. }
  split_and!; [|done|done| |].
  - split.
    + intros Hraise.
      destruct (decide (- Z.of_nat (action_size self) ≤ action < Z.of_nat (action_size self)))
        as [Hr|Hr]; [|lia].
      destruct (Hin Hr) as [(r & h' & Hok) | [Hov _]]; congruence.
    + intros Hout. unfold step.
      by rewrite (proj2 (getitem_None (action_tuples self) action) Hout).
  - intros i j Hr Hget. destruct (decide (0 ≤ action)) as [H0|H0].
    + apply (echelon_step_overflow b self h action i j Hst); [split; lia|done].
    + rewrite Hneg by lia.
      apply (echelon_step_overflow b self h _ i j Hst).
      * unfold valid_action. lia.
      * unfold action_size in *. by rewrite <- getitem_negative by lia.
  - intros -> HF Hr. destruct (decide (0 ≤ action)) as [H0|H0].
    + destruct (echelon_step_state self h action Hst HF) as (a & k & i & j & _ & _ & _ & Hstep);
        [split; lia|]. by eexists _, _.
    + rewrite Hneg by lia.
      destruct (echelon_step_state self h (action + Z.of_nat (action_size self)) Hst HF)
        as (a & k & i & j & _ & _ & _ & Hstep); [split; lia|]. by eexists _, _.
Qed.
End EchelonAlgebra.

Lemma echelon_entries_in_range_witness :
  RowEchelonSpec.reachable Examples.echelon_self Examples.echelon_heap
  ∧ ∃ a, Examples.echelon_heap !! RowEchelonEnvironment.matrix Examples.echelon_self = Some a
         ∧ Pure.shaped 2 1 a ∧ Pure.ranged 2 a.
Proof.
  split; [apply echelon_example_reachable|].
  exact (echelon_entries_in_range _ _ echelon_example_reachable).
Defined.

Lemma echelon_swap_twice_witness :
  RowEchelonSpec.state_of true Examples.echelon_self Examples.echelon_heap
  ∧ RowEchelonSpec.valid_action Examples.echelon_self 0
  ∧ ∃ a rs h',
      Examples.echelon_heap !! RowEchelonEnvironment.matrix Examples.echelon_self = Some a
      ∧ RowEchelonSpec.play Examples.echelon_self [0; 0] Examples.echelon_heap = (Py.Ok rs, h')
      ∧ h' !! RowEchelonEnvironment.matrix Examples.echelon_self = Some a.
Proof.
  assert (Hv : RowEchelonSpec.valid_action Examples.echelon_self 0)
    by (vm_compute; split; congruence).
  split; [apply echelon_example_reachable|]. split; [exact Hv|].
  exact (echelon_swap_twice true Examples.echelon_self Examples.echelon_heap 0 1 0
           echelon_example_reachable Hv eq_refl).
Defined.

Lemma echelon_add_modulus_times_witness :
  RowEchelonSpec.reachable Examples.echelon_self Examples.echelon_heap
  ∧ RowEchelonSpec.valid_action Examples.echelon_self 2
  ∧ ∃ a rs h',
      Examples.echelon_heap !! RowEchelonEnvironment.matrix Examples.echelon_self = Some a
      ∧ RowEchelonSpec.play Examples.echelon_self [2; 2] Examples.echelon_heap = (Py.Ok rs, h')
      ∧ h' !! RowEchelonEnvironment.matrix Examples.echelon_self = Some a.
Proof.
  assert (Hv : RowEchelonSpec.valid_action Examples.echelon_self 2)
    by (vm_compute; split; congruence).
  assert (HF : RowEchelonEnvironment.F Examples.echelon_self ≤ 2 ^ 62) by (by vm_compute).
  split; [apply echelon_example_reachable|]. split; [exact Hv|].
  exact (echelon_add_modulus_times Examples.echelon_self Examples.echelon_heap 2 1 0
           echelon_example_reachable HF Hv eq_refl).
Defined.

Lemma echelon_huge_init :
  RowEchelonEnvironment.init (2%nat, 1%nat) (10 ^ 400) ∅
  = (Py.Ok Examples.echelon_huge_self0, Examples.echelon_heap0).
Proof. vm_compute. reflexivity. Defined.

Lemma echelon_step_index_range_witness :
  (RowEchelonSpec.state_of true Examples.echelon_self Examples.echelon_heap
   ∧ (RowEchelonEnvironment.step Examples.echelon_self 3 Examples.echelon_heap
      = (Py.Raise Py.IndexError, Examples.echelon_heap)
      ↔ 3 < - 3 ∨ 3 ≤ 3)
   ∧ ∃ r h', RowEchelonEnvironment.step Examples.echelon_self (-1) Examples.echelon_heap
             = (Py.Ok r, h'))
  ∧ (RowEchelonSpec.state_of true Examples.echelon_wide_self Examples.echelon_heap
     ∧ RowEchelonEnvironment.step Examples.echelon_wide_self 1 Examples.echelon_heap
       = (Py.Raise Py.OverflowError, Examples.echelon_heap))
  ∧ (RowEchelonSpec.state_of false Examples.echelon_huge_self0 Examples.echelon_heap0
     ∧ RowEchelonEnvironment.step Examples.echelon_huge_self0 1 Examples.echelon_heap0
       = (Py.Raise Py.OverflowError, Examples.echelon_heap0)).
Proof.
  assert (Hhuge : RowEchelonSpec.state_of false Examples.echelon_huge_self0
                    Examples.echelon_heap0)
    by exact (RowEchelonSpec.st_init (2%nat, 1%nat) (10 ^ 400) ∅ _ _ echelon_huge_init).
  split_and!.
  - apply echelon_example_reachable.
  - exact (proj1 (echelon_step_index_range true Examples.echelon_self Examples.echelon_heap 3
                    echelon_example_reachable)).
  - apply (proj2 (proj2 (proj2 (proj2
             (echelon_step_index_range true Examples.echelon_self Examples.echelon_heap (-1)
                echelon_example_reachable)))) eq_refl); [reflexivity|].
    vm_compute. split; congruence.
  - apply echelon_wide_reachable.
  - apply (proj1 (proj2 (proj2 (proj2
             (echelon_step_index_range true Examples.echelon_wide_self Examples.echelon_heap 1
                echelon_wide_reachable))))
             0%nat 1%nat); [vm_compute; split; congruence|reflexivity|reflexivity].
  - exact Hhuge.
  - apply (proj1 (proj2 (proj2 (proj2
             (echelon_step_index_range false Examples.echelon_huge_self0 Examples.echelon_heap0 1
                Hhuge))))
             0%nat 1%nat); [vm_compute; split; congruence|reflexivity|].
    vm_compute. congruence.
Defined.

(** ** reset: which matrix it returns, and when it does not return *)

Section EchelonReset.
Import RowEchelonEnvironment RowEchelonSpec.
Implicit Types (self : t) (h : Np.heap) (a : Np.ndarray).

Lemma echelon_reset_loop_first draws (d : nat) :
  ∀ fuel k self h a,
    (d ≤ fuel)%nat → h !! matrix self = Some a → length a = N self →
    dtype self = Np.int64 → 0 < F self ≤ 2 ^ 63 →
    (∀ j, (j < d)%nat →
       Pure.is_row_echelon
         (match j with O => a | S j' => Np.tabulate (N self) (M self) (draws (k + j')%nat) end)
       = true) →
    Pure.is_row_echelon
      (match d with O => a | S d' => Np.tabulate (N self) (M self) (draws (k + d')%nat) end)
    = false →
    ∃ self' h',
      reset_loop fuel draws k self h = (Py.Ok self', h')
      ∧ h' !! matrix self'
        = Some (match d with O => a | S d' => Np.tabulate (N self) (M self) (draws (k + d')%nat) end)
      ∧ self' = set_matrix self (matrix self').
Proof.
  induction d as [|d IH]; intros fuel k self h a Hd Hl Hn Hdt HF Htrue Hfalse.
  - exists self, h. split_and!; [|done|destruct self; simpl in Hdt; by subst].
    destruct fuel; cbn [reset_loop];
      by rewrite (bind_Ok _ _ _ _ _ (is_row_echelon_Ok _ _ _ Hl Hn)), Hfalse.
  - destruct fuel as [|fuel]; [lia|]. cbn [reset_loop].
    rewrite (bind_Ok _ _ _ _ _ (is_row_echelon_Ok _ _ _ Hl Hn)).
    rewrite (Htrue 0%nat) by lia.
    unfold _random_matrix. rewrite bool_decide_eq_true_2 by done.
    rewrite (bind_Ok _ _ _ _ _ (alloc_Ok _ _)).
    set (a1 := Np.tabulate (N self) (M self) (draws k)).
    set (self1 := set_matrix self (fresh (dom h))).
    destruct (IH fuel (S k) self1 (<[fresh (dom h) := a1]> h) a1)
      as (self' & h' & Hloop & Hl' & Hself);
      [lia|apply lookup_insert_eq|apply tabulate_shaped|done|done| | |].
    + intros j Hj. specialize (Htrue (S j)). destruct j as [|j'].
      * rewrite Nat.add_0_r in Htrue. apply Htrue. lia.
      * cbn [N M self1 set_matrix]. rewrite Nat.add_succ_r in Htrue. apply Htrue. lia.
    + destruct d as [|d'].
      * by rewrite Nat.add_0_r in Hfalse.
      * cbn [N M self1 set_matrix]. by rewrite Nat.add_succ_r in Hfalse.
    + exists self', h'. split_and!; [done| |by rewrite Hself].
      rewrite Hl'. destruct d as [|d'].
      * by rewrite Nat.add_0_r.
      * cbn [N M self1 set_matrix]. by rewrite Nat.add_succ_r.
Qed.

Lemma echelon_reset_loop_running draws :
  ∀ fuel k self h a,
    h !! matrix self = Some a → length a = N self → 0 < F self ≤ 2 ^ 63 →
    Pure.is_row_echelon a = true →
    (∀ j, (j < fuel)%nat →
       Pure.is_row_echelon (Np.tabulate (N self) (M self) (draws (k + j)%nat)) = true) →
    ∃ h', reset_loop fuel draws k self h = (Py.Running, h').
Proof.
  induction fuel as [|fuel IH]; intros k self h a Hl Hn HF Ha Hall.
  - exists h. cbn [reset_loop].
    by rewrite (bind_Ok _ _ _ _ _ (is_row_echelon_Ok _ _ _ Hl Hn)), Ha.
  - cbn [reset_loop].
    rewrite (bind_Ok _ _ _ _ _ (is_row_echelon_Ok _ _ _ Hl Hn)), Ha.
    unfold _random_matrix. rewrite bool_decide_eq_true_2 by done.
    rewrite (bind_Ok _ _ _ _ _ (alloc_Ok _ _)).
    apply (IH (S k) _ _ (Np.tabulate (N self) (M self) (draws k)));
      [apply lookup_insert_eq|apply tabulate_shaped|done| |].
    + specialize (Hall 0%nat). rewrite Nat.add_0_r in Hall. apply Hall. lia.
    + intros j Hj. specialize (Hall (S j)). rewrite Nat.add_succ_r in Hall.
      cbn [N M set_matrix]. apply Hall. lia.
Qed.

Lemma tabulate_no_columns n f : Pure.is_row_echelon (Np.tabulate n 0 f) = true.
Proof.
  apply echelon_rows_zero, Forall_forall. intros r Hr.
  unfold Np.tabulate in Hr. apply list_elem_of_fmap in Hr as (i & -> & _). done.
Qed.

Lemma tabulate_zero_echelon n m f :
  (∀ i j, f i j = 0) → Pure.is_row_echelon (Np.tabulate n m f) = true.
Proof.
  intros Hf. apply echelon_rows_zero, Forall_forall. intros r Hr.
  unfold Np.tabulate in Hr. apply list_elem_of_fmap in Hr as (i & -> & _).
  apply lead_None_entries. intros j. rewrite list_lookup_fmap.
  destruct (seq 0 m !! j); simpl; [apply Hf|done].
Qed.

(** X7.  [reset] returns the first matrix the generator draws that is not in row
    echelon form, and a copy of it as the observation (here the draw with
    index [d], the loop being allowed [d] rounds or more). *)
Theorem echelon_reset_first_draw fuel draws self h (d : nat) :
  0 < F self ≤ 2 ^ 63 → (d ≤ fuel)%nat →
  (∀ j, (j < d)%nat → Pure.is_row_echelon (Np.tabulate (N self) (M self) (draws j)) = true) →
  Pure.is_row_echelon (Np.tabulate (N self) (M self) (draws d)) = false →
  ∃ self' obs h',
    reset fuel draws self h = (Py.Ok (self', obs), h')
    ∧ h' !! matrix self' = Some (Np.tabulate (N self) (M self) (draws d))
    ∧ h' !! obs = Some (Np.tabulate (N self) (M self) (draws d))
    ∧ obs ≠ matrix self'
    ∧ self' = set_matrix self (matrix self').
Proof.
  intros HF Hd Htrue Hfalse. unfold reset, _random_matrix.
  rewrite bool_decide_eq_true_2 by done.
  rewrite (bind_Ok _ _ _ _ _ (alloc_Ok _ _)).
  set (a0 := Np.tabulate (N self) (M self) (draws O)).
  destruct (echelon_reset_loop_first draws d fuel 1%nat (set_matrix self (fresh (dom h)))
              (<[fresh (dom h) := a0]> h) a0)
    as (self' & h' & Hloop & Hl' & Hself);
    [done|apply lookup_insert_eq|apply tabulate_shaped|done|done| | |].
  - intros [|j] Hj; [apply (Htrue 0%nat); lia|apply (Htrue (S j)); lia].
  - by destruct d.
  - assert (Hm : h' !! matrix self' = Some (Np.tabulate (N self) (M self) (draws d)))
      by (by destruct d).
    rewrite (bind_Ok _ _ _ _ _ Hloop), (bind_Ok _ _ _ _ _ (copy_Ok _ _ _ Hm)).
    assert (Hne : fresh (dom h') ≠ matrix self') by (apply fresh_not_in; by rewrite Hm).
    eexists _, _, _. split; [done|]. split_and!.
    + by rewrite lookup_insert_ne.
    + apply lookup_insert_eq.
    + done.
    + rewrite Hself. by destruct self.
Qed.

(** X8.  [reset] does not return for a shape or a modulus that leaves no matrix
    out of row echelon form: fewer than two rows, no column, or the modulus
    1.  However many rounds the loop is given, it is still drawing. *)
Theorem echelon_reset_never_returns fuel draws self h :
  0 < F self ≤ 2 ^ 63 → randint (F self) draws →
  (N self ≤ 1)%nat ∨ M self = 0%nat ∨ F self = 1 →
  ∃ h', reset fuel draws self h = (Py.Running, h').
Proof.
  intros HF Hrand Hcase.
  assert (Hall : ∀ k, Pure.is_row_echelon (Np.tabulate (N self) (M self) (draws k)) = true).
  { intros k. destruct Hcase as [HN | [HM | H1]].
    - apply is_row_echelon_short. rewrite (proj1 (tabulate_shaped _ _ _)). lia.
    - rewrite HM. apply tabulate_no_columns.
    - apply tabulate_zero_echelon. intros i j. specialize (Hrand k i j). lia. }
  unfold reset, _random_matrix. rewrite bool_decide_eq_true_2 by done.
  rewrite (bind_Ok _ _ _ _ _ (alloc_Ok _ _)).
  destruct (echelon_reset_loop_running draws fuel 1%nat (set_matrix self (fresh (dom h)))
              (<[fresh (dom h) := Np.tabulate (N self) (M self) (draws O)]> h)
              (Np.tabulate (N self) (M self) (draws O)))
    as (h' & Hloop); [apply lookup_insert_eq|apply tabulate_shaped|done|apply Hall| |].
  - intros j _. apply Hall.
  - exists h'. by rewrite (bind_Running _ _ _ _ Hloop).
Qed.
End EchelonReset.

Section ChoiceReset.
Context `{Float}.
Import RowChoiceEnvironment RowChoiceSpec.
Implicit Types (self : t) (h : Np.heap) (a : Np.ndarray).

Lemma choice_reset_loop_running draws :
  ∀ fuel k self h a,
    h !! matrix self = Some a → Pure.shaped (N self) (M self) a →
    Pure.is_reduced a = true →
    (∀ f, Pure.is_reduced (Np.tabulate (N self) (M self) f) = true) →
    ∃ h', reset_loop fuel draws k self h = (Py.Running, h').
Proof.
  induction fuel as [|fuel IH]; intros k self h a Hl Hs Ha Hall.
  - exists h. cbn [reset_loop]. unfold _is_reduced.
    by rewrite (bind_Ok _ _ _ _ _ (is_reduced_Ok _ _ _ _ _ Hl Hs)), Ha.
  - cbn [reset_loop]. unfold _is_reduced at 1.
    rewrite (bind_Ok _ _ _ _ _ (is_reduced_Ok _ _ _ _ _ Hl Hs)), Ha.
    unfold _random_matrix. rewrite (bind_Ok _ _ _ _ _ (alloc_Ok _ _)).
    eapply (IH (S k)); [apply lookup_insert_eq|apply tabulate_shaped|apply Hall|apply Hall].
Qed.

Lemma is_reduced_one_row a : (length a ≤ 1)%nat → Pure.is_reduced a = true.
Proof.
  destruct a as [|r [|r' a]]; simpl; [done| |lia]. intros _.
  unfold Pure.is_reduced. cbn [length seq Pure.reduced_rows Pure.column_clear].
  destruct (Np.lead (Pure.row [r] 0)); [|done].
  by rewrite bool_decide_eq_false_2 by (intros Hne; by apply Hne).
Qed.

Lemma is_reduced_no_columns n f : Pure.is_reduced (Np.tabulate n 0 f) = true.
Proof.
  apply (is_reduced_true n 0); [apply tabulate_shaped|].
  intros r Hr. unfold Pure.no_move.
  destruct (Np.lead (Pure.row (Np.tabulate n 0 f) r)) as [l|] eqn:Hl; [|done].
  apply lead_lt in Hl. rewrite (shaped_row_length n 0) in Hl; [lia|apply tabulate_shaped|done].
Qed.

(** X15.  [reset] of [RowChoiceEnvironment] does not return when the matrix has
    fewer than two rows or no column: every such matrix is reduced, and
    however many rounds the loop is given, it is still drawing. *)
Theorem choice_reset_never_returns fuel draws self h :
  (N self ≤ 1)%nat ∨ M self = 0%nat →
  ∃ h', reset fuel draws self h = (Py.Running, h').
Proof.
  intros Hcase.
  assert (Hall : ∀ f, Pure.is_reduced (Np.tabulate (N self) (M self) f) = true).
  { intros f. destruct Hcase as [HN | HM].
    - apply is_reduced_one_row. rewrite (proj1 (tabulate_shaped _ _ _)). lia.
    - rewrite HM. apply is_reduced_no_columns. }
  unfold reset, _random_matrix. rewrite (bind_Ok _ _ _ _ _ (alloc_Ok _ _)).
  edestruct (choice_reset_loop_running draws fuel 1%nat (set_matrix self (fresh (dom h))))
    as (h' & Hloop); [apply lookup_insert_eq|apply tabulate_shaped|apply Hall|apply Hall|].
  exists h'. by rewrite (bind_Running _ _ _ _ Hloop).
Qed.
End ChoiceReset.

Lemma echelon_reset_first_draw_witness :
  0 < RowEchelonEnvironment.F Examples.echelon_self0 ≤ 2 ^ 63
  ∧ ∃ self' obs h',
      RowEchelonEnvironment.reset 1 Examples.echelon_late_draws
        Examples.echelon_self0 Examples.echelon_heap0
      = (Py.Ok (self', obs), h')
      ∧ h' !! RowEchelonEnvironment.matrix self' = Some [[0]; [1]]
      ∧ h' !! obs = Some [[0]; [1]]
      ∧ obs ≠ RowEchelonEnvironment.matrix self'
      ∧ self' = RowEchelonEnvironment.set_matrix Examples.echelon_self0
                  (RowEchelonEnvironment.matrix self').
Proof.
  assert (HF : 0 < RowEchelonEnvironment.F Examples.echelon_self0 ≤ 2 ^ 63)
    by (split; [reflexivity|by vm_compute]).
  split; [exact HF|].
  apply (echelon_reset_first_draw 1 Examples.echelon_late_draws
           Examples.echelon_self0 Examples.echelon_heap0 1 HF).
  - lia.
  - intros [|j] Hj; [reflexivity|lia].
  - reflexivity.
Defined.

Lemma echelon_reset_never_returns_witness :
  0 < RowEchelonEnvironment.F Examples.echelon_one_row ≤ 2 ^ 63
  ∧ RowEchelonSpec.randint (RowEchelonEnvironment.F Examples.echelon_one_row)
      Examples.echelon_draws
  ∧ ∃ h', RowEchelonEnvironment.reset 7 Examples.echelon_draws Examples.echelon_one_row ∅
          = (Py.Running, h').
Proof.
  assert (HF : 0 < RowEchelonEnvironment.F Examples.echelon_one_row ≤ 2 ^ 63)
    by (split; [reflexivity|by vm_compute]).
  assert (Hrand : RowEchelonSpec.randint (RowEchelonEnvironment.F Examples.echelon_one_row)
                    Examples.echelon_draws).
  { intros k i j. unfold Examples.echelon_draws. simpl. case_bool_decide; lia. }
  split; [exact HF|]. split; [exact Hrand|].
  apply (echelon_reset_never_returns 7 Examples.echelon_draws Examples.echelon_one_row ∅
           HF Hrand).
  left. simpl. lia.
Defined.

Lemma choice_reset_never_returns_witness :
  ((RowChoiceEnvironment.N Examples.choice_one_row ≤ 1)%nat
   ∨ RowChoiceEnvironment.M Examples.choice_one_row = 0%nat)
  ∧ ∃ h', RowChoiceEnvironment.reset (H := Qfloat) 3 Examples.choice_draws
            Examples.choice_one_row ∅
          = (Py.Running, h').
Proof.
  assert (Hrows : (RowChoiceEnvironment.N Examples.choice_one_row ≤ 1)%nat
                  ∨ RowChoiceEnvironment.M Examples.choice_one_row = 0%nat)
    by (left; simpl; lia).
  split; [exact Hrows|].
  exact (choice_reset_never_returns (H := Qfloat) 3 Examples.choice_draws
           Examples.choice_one_row ∅ Hrows).
Defined.

(** ** RowChoiceEnvironment: what a step does *)

Section ChoiceStep.
Context `{Float}.
Import RowChoiceEnvironment RowChoiceSpec.
Implicit Types (self : t) (h : Np.heap) (a : Np.ndarray).

Lemma filter_ext_elem {A} (P Q : A → Prop) `{∀ x, Decision (P x)} `{∀ x, Decision (Q x)}
    (l : list A) :
  (∀ x, x ∈ l → P x ↔ Q x) → filter P l = filter Q l.
Proof.
  induction l as [|x l IH]; intros Hext; [done|].
  rewrite !filter_cons. rewrite IH by (intros y Hy; apply Hext; by right).
  destruct (decide (P x)) as [HP|HP], (decide (Q x)) as [HQ|HQ]; try done.
  - destruct HQ. by apply (Hext x); [left|].
  - destruct HP. by apply (Hext x); [left|].
Qed.

(** The moves counter of the pivot loop counts the rows it changes. *)
Lemma pivot_moves sum_mod k lead rows :
  NoDup rows →
  ∀ a moves,
    (Pure.pivot sum_mod (Z.of_nat k) k lead rows a moves).2
    = moves + Z.of_nat (length (filter (λ i, i ≠ k ∧ Pure.entry a i lead ≠ 0) rows)).
Proof.
  induction 1 as [|i0 rest Hnotin Hnd IH]; intros a moves.
  { simpl. lia. }
  cbn [Pure.pivot]. rewrite filter_cons. case_bool_decide as Hk.
  - case_bool_decide as He.
    + rewrite decide_True by (split; [intros ->; done|done]).
      rewrite IH. cbn [length].
      rewrite (filter_ext_elem
                 (λ i, i ≠ k ∧ Pure.entry (<[i0 := sum_mod (Pure.row a i0) (Pure.row a k) 2]> a)
                                   i lead ≠ 0)
                 (λ i, i ≠ k ∧ Pure.entry a i lead ≠ 0)); [lia|].
      intros i Hi. rewrite entry_insert_ne; [done|]. intros ->. done.
    + rewrite decide_False by tauto. apply IH.
  - rewrite decide_False by (intros [Hne _]; lia). apply IH.
Qed.

Lemma length_filter_le_pred (P : nat → Prop) `{∀ x, Decision (P x)} (n k : nat) :
  (k < n)%nat → ¬ P k → (length (filter P (seq 0 n)) ≤ n - 1)%nat.
Proof.
  intros Hk HP.
  assert (Hsplit : seq 0 n = seq 0 k ++ k :: seq (S k) (n - S k)).
  { replace n with (k + S (n - S k))%nat at 1 by lia. by rewrite seq_app. }
  rewrite Hsplit, filter_app, filter_cons, decide_False by done.
  rewrite length_app.
  pose proof (length_filter P (seq 0 k)) as H1.
  pose proof (length_filter P (seq (S k) (n - S k))) as H2.
  rewrite length_seq in H1, H2. lia.
Qed.

(** X10.  [step] with a valid action [k]: if row [k] has its lead in column [l],
    row [k] is added modulo 2 to exactly the other rows with a non-zero entry
    in column [l], so that afterwards column [l] is zero outside row [k];
    the reward is minus the number of rows changed, or -100 when none was.
    If row [k] is zero the matrix stays and the reward is -100. *)
Theorem choice_step_pivots self h action :
  reachable self h → valid_action self action →
  ∃ a a' obs reward done h',
    h !! matrix self = Some a
    ∧ step self action h = (Py.Ok (obs, reward, done), h')
    ∧ h' !! matrix self = Some a'
    ∧ match Np.lead (Pure.row a (Z.to_nat action)) with
      | None => a' = a ∧ reward = -100
      | Some l =>
          (∀ i j, Pure.entry a' i j
                  = if bool_decide (i ≠ Z.to_nat action ∧ Pure.entry a i l ≠ 0)
                    then (Pure.entry a i j + Pure.entry a (Z.to_nat action) j) `mod` 2
                    else Pure.entry a i j)
          ∧ (∀ i, i ≠ Z.to_nat action → Pure.entry a' i l = 0)
          ∧ (let changed :=
               length (filter (λ i, i ≠ Z.to_nat action ∧ Pure.entry a i l ≠ 0)
                              (seq 0 (N self))) in
             (changed < N self)%nat
             ∧ reward = if bool_decide (changed = 0%nat) then -100 else - Z.of_nat changed)
      end.
Proof.
  intros Hreach Hact.
  destruct (choice_step_state _ _ _ _ Hreach Hact) as (a & Hl & Hs & Hstep).
  destruct (choice_state_binary _ _ _ Hreach) as (a0 & Hl0 & Ha).
  rewrite Hl in Hl0. injection Hl0 as <-.
  assert (Hk : (Z.to_nat action < N self)%nat)
    by (destruct Hact; unfold action_size in *; lia).
  set (k := Z.to_nat action) in *.
  assert (Hak : action = Z.of_nat k) by (destruct Hact; lia).
  eexists a, _, _, _, _, _. split; [done|]. split; [exact Hstep|].
  split.
  { rewrite lookup_insert_ne; [apply lookup_insert_eq|]. apply fresh_not_in. by rewrite Hl. }
  destruct (Np.lead (Pure.row a k)) as [l|] eqn:Hlead.
  - rewrite Hak.
    pose proof (choice_step_entries _ _ a k l Hs Ha Hk Hlead) as Hent.
    split; [exact Hent|]. split.
    + intros i Hik. rewrite Hent. case_bool_decide as Hc.
      * destruct Hc as [_ Hie].
        apply lead_Some_entries in Hlead as (_ & Hne & _). fold (Pure.entry a k l) in Hne.
        destruct (binary_entry a i l Ha) as [H0 | H1]; [done|].
        destruct (binary_entry a k l Ha) as [H0' | H1']; [done|].
        by rewrite H1, H1'.
      * destruct (decide (Pure.entry a i l = 0)); [done|]. by destruct Hc.
    + cbn zeta. split.
      * pose proof (length_filter_le_pred
                      (λ i, i ≠ k ∧ Pure.entry a i l ≠ 0) (N self) k Hk) as Hle.
        cbn beta in Hle.
        assert (Hnk : ¬ (k ≠ k ∧ Pure.entry a k l ≠ 0)) by tauto.
        specialize (Hle Hnk). lia.
      * unfold Pure.choice_step, Pure.pivoted. rewrite Hlead.
        pose proof (pivot_moves Np.add_mod k l (seq 0 (length a)) (NoDup_seq _ _) a 0) as Hm.
        destruct (Pure.pivot Np.add_mod (Z.of_nat k) k l (seq 0 (length a)) a 0)
          as [a' moves]. cbn [fst snd] in *. rewrite (proj1 Hs) in Hm. subst moves.
        repeat case_bool_decide; lia.
  - rewrite Hak. unfold Pure.choice_step, Pure.pivoted. by rewrite Hlead.
Qed.

(** X11.  The same action twice: the second [step] changes nothing and is
    answered with -100. *)
Theorem choice_step_repeat self h action :
  reachable self h → valid_action self action →
  ∃ obs1 reward1 done1 h1 a1 obs2 done2 h2,
    step self action h = (Py.Ok (obs1, reward1, done1), h1)
    ∧ h1 !! matrix self = Some a1
    ∧ step self action h1 = (Py.Ok (obs2, -100, done2), h2)
    ∧ h2 !! matrix self = Some a1
    ∧ done2 = done1.
Proof.
  intros Hreach Hact.
  destruct (choice_step_state _ _ _ _ Hreach Hact) as (a & Hl & Hs & Hstep).
  destruct (choice_state_binary _ _ _ Hreach) as (a0 & Hl0 & Ha).
  rewrite Hl in Hl0. injection Hl0 as <-.
  assert (Hk : (Z.to_nat action < N self)%nat)
    by (destruct Hact; unfold action_size in *; lia).
  assert (Hak : action = Z.of_nat (Z.to_nat action)) by (destruct Hact; lia).
  set (a1 := (Pure.choice_step action (Z.to_nat action) a).1) in *.
  pose proof (st_step _ _ _ _ _ _ Hreach Hact Hstep) as Hreach1.
  destruct (choice_step_state _ _ _ _ Hreach1 Hact) as (a1' & Hl1 & Hs1 & Hstep1).
  assert (Hl1' : a1' = a1).
  { rewrite lookup_insert_ne in Hl1 by (apply fresh_not_in; by rewrite Hl).
    rewrite lookup_insert_eq in Hl1. by injection Hl1. }
  subst a1'.
  assert (Hno : Pure.no_move (length a1) a1 (Z.to_nat action)).
  { rewrite (proj1 Hs1). subst a1. rewrite Hak at 1.
    by apply (choice_step_settles (N self) (M self)). }
  rewrite (choice_step_no_move action a1 (proj1 Hact) Hno) in Hstep1. cbn [fst snd] in Hstep1.
  eexists _, _, _, _, a1, _, _, _. split; [exact Hstep|]. split; [exact Hl1|].
  split; [exact Hstep1|]. split; [|done].
  rewrite lookup_insert_ne; [apply lookup_insert_eq|]. apply fresh_not_in. by rewrite Hl1.
Qed.

(** X12.  A reduced matrix stays as it is: when [_is_reduced] holds, [step] with
    any valid action changes nothing and returns the reward -100 and
    done = True. *)
Theorem choice_reduced_is_absorbing self h a action :
  reachable self h → valid_action self action →
  h !! matrix self = Some a → Pure.is_reduced a = true →
  ∃ obs h', step self action h = (Py.Ok (obs, -100, true), h')
            ∧ h' !! matrix self = Some a ∧ h' !! obs = Some a.
Proof.
  intros Hreach Hact Hl Hred.
  destruct (choice_step_state _ _ _ _ Hreach Hact) as (a0 & Hl0 & Hs & Hstep).
  rewrite Hl in Hl0. injection Hl0 as <-.
  assert (Hk : (Z.to_nat action < N self)%nat)
    by (destruct Hact; unfold action_size in *; lia).
  assert (Hno : Pure.no_move (length a) a (Z.to_nat action)).
  { unfold Pure.is_reduced in Hred. rewrite reduced_rows_iff, Forall_forall in Hred.
    apply Hred, elem_of_seq. rewrite (proj1 Hs). lia. }
  rewrite (choice_step_no_move action a (proj1 Hact) Hno) in Hstep. cbn [fst snd] in Hstep.
  rewrite Hred in Hstep.
  eexists _, _. split; [exact Hstep|]. split.
  - rewrite lookup_insert_ne; [apply lookup_insert_eq|]. apply fresh_not_in. by rewrite Hl.
  - apply lookup_insert_eq.
Qed.
End ChoiceStep.

Lemma choice_example_reduced_reachable :
  RowChoiceSpec.reachable (H := Qfloat) Examples.choice_self Examples.choice_reduced_heap.
Proof.
  assert (Hv0 : RowChoiceSpec.valid_action Examples.choice_self 0)
    by (vm_compute; split; congruence).
  assert (Hv1 : RowChoiceSpec.valid_action Examples.choice_self 1)
    by (vm_compute; split; congruence).
  eapply (RowChoiceSpec.st_step (H := Qfloat) true Examples.choice_self _ 1); [|exact Hv1|].
  - eapply (RowChoiceSpec.st_step (H := Qfloat) true Examples.choice_self _ 0);
      [apply choice_example_reachable|exact Hv0|].
    vm_compute. reflexivity.
  - vm_compute. reflexivity.
Defined.

Lemma choice_step_pivots_witness :
  RowChoiceSpec.reachable (H := Qfloat) Examples.choice_self Examples.choice_heap
  ∧ RowChoiceSpec.valid_action Examples.choice_self 0
  ∧ ∃ a a' obs reward done h',
      Examples.choice_heap !! RowChoiceEnvironment.matrix Examples.choice_self = Some a
      ∧ RowChoiceEnvironment.step Examples.choice_self 0 Examples.choice_heap
        = (Py.Ok (obs, reward, done), h')
      ∧ h' !! RowChoiceEnvironment.matrix Examples.choice_self = Some a'
      ∧ match Np.lead (Pure.row a (Z.to_nat 0)) with
        | None => a' = a ∧ reward = -100
        | Some l =>
            (∀ i j, Pure.entry a' i j
                    = if bool_decide (i ≠ Z.to_nat 0 ∧ Pure.entry a i l ≠ 0)
                      then (Pure.entry a i j + Pure.entry a (Z.to_nat 0) j) `mod` 2
                      else Pure.entry a i j)
            ∧ (∀ i, i ≠ Z.to_nat 0 → Pure.entry a' i l = 0)
            ∧ (let changed :=
                 length (filter (λ i, i ≠ Z.to_nat 0 ∧ Pure.entry a i l ≠ 0)
                                (seq 0 (RowChoiceEnvironment.N Examples.choice_self))) in
               (changed < RowChoiceEnvironment.N Examples.choice_self)%nat
               ∧ reward = if bool_decide (changed = 0%nat) then -100 else - Z.of_nat changed)
        end.
Proof.
  assert (Hv : RowChoiceSpec.valid_action Examples.choice_self 0)
    by (vm_compute; split; congruence).
  split; [apply choice_example_reachable|]. split; [exact Hv|].
  exact (choice_step_pivots (H := Qfloat) Examples.choice_self Examples.choice_heap 0
           choice_example_reachable Hv).
Defined.

Lemma choice_step_repeat_witness :
  RowChoiceSpec.reachable (H := Qfloat) Examples.choice_self Examples.choice_heap
  ∧ RowChoiceSpec.valid_action Examples.choice_self 0
  ∧ ∃ obs1 reward1 done1 h1 a1 obs2 done2 h2,
      RowChoiceEnvironment.step Examples.choice_self 0 Examples.choice_heap
      = (Py.Ok (obs1, reward1, done1), h1)
      ∧ h1 !! RowChoiceEnvironment.matrix Examples.choice_self = Some a1
      ∧ RowChoiceEnvironment.step Examples.choice_self 0 h1 = (Py.Ok (obs2, -100, done2), h2)
      ∧ h2 !! RowChoiceEnvironment.matrix Examples.choice_self = Some a1
      ∧ done2 = done1.
Proof.
  assert (Hv : RowChoiceSpec.valid_action Examples.choice_self 0)
    by (vm_compute; split; congruence).
  split; [apply choice_example_reachable|]. split; [exact Hv|].
  exact (choice_step_repeat (H := Qfloat) Examples.choice_self Examples.choice_heap 0
           choice_example_reachable Hv).
Defined.

Lemma choice_reduced_is_absorbing_witness :
  RowChoiceSpec.reachable (H := Qfloat) Examples.choice_self Examples.choice_reduced_heap
  ∧ RowChoiceSpec.valid_action Examples.choice_self 2
  ∧ Pure.is_reduced [[1; 0]; [0; 1]; [0; 0]] = true
  ∧ ∃ obs h',
      RowChoiceEnvironment.step Examples.choice_self 2 Examples.choice_reduced_heap
      = (Py.Ok (obs, -100, true), h')
      ∧ h' !! RowChoiceEnvironment.matrix Examples.choice_self = Some [[1; 0]; [0; 1]; [0; 0]]
      ∧ h' !! obs = Some [[1; 0]; [0; 1]; [0; 0]].
Proof.
  assert (Hv : RowChoiceSpec.valid_action Examples.choice_self 2)
    by (vm_compute; split; congruence).
  split; [apply choice_example_reduced_reachable|]. split; [exact Hv|].
  split; [reflexivity|].
  exact (choice_reduced_is_absorbing (H := Qfloat) Examples.choice_self
           Examples.choice_reduced_heap [[1; 0]; [0; 1]; [0; 0]] 2
           choice_example_reduced_reachable Hv eq_refl eq_refl).
Defined.

(** ** RowChoiceEnvironment: a negative index in range *)

Section ChoiceNegative.
Context `{Float}.
Import RowChoiceEnvironment RowChoiceSpec.
Implicit Types (self : t) (h : Np.heap) (a : Np.ndarray).

(** With a negative [action] the test [i != action] never fails, and the
    loop reaches the chosen row [p] itself. *)
Lemma pivot_negative n m action p lead rows :
  action < 0 → (p < n)%nat → NoDup rows → Forall (λ i, (i < n)%nat) rows →
  ∀ a moves, Pure.shaped n m a → Pure.binary a →
    let r := Pure.pivot Np.add_mod action p lead rows a moves in
    Pure.shaped n m r.1 ∧ Pure.binary r.1
    ∧ moves ≤ r.2 ≤ moves + Z.of_nat (length rows)
    ∧ (p ∉ rows → Pure.row r.1 p = Pure.row a p)
    ∧ (p ∈ rows → Pure.entry a p lead ≠ 0 → moves < r.2 ∧ ∀ j, Pure.entry r.1 p j = 0).
Proof.
  intros Hneg Hp Hnd. induction Hnd as [|i0 rest Hnotin Hnd IH]; intros Hlt a moves Hs Ha.
  { cbn. split_and!; [done|done|lia|lia|done|]. intros Hin. by inversion Hin. }
  apply Forall_cons in Hlt as [Hi0 Hlt]. specialize (IH Hlt).
  cbn [Pure.pivot]. rewrite bool_decide_eq_true_2 by lia.
  case_bool_decide as He.
  - set (a1 := <[i0 := Np.add_mod (Pure.row a i0) (Pure.row a p) 2]> a).
    assert (Hs1 : Pure.shaped n m a1).
    { apply shaped_insert; [done|].
      rewrite add_mod_keeps_length; rewrite !(shaped_row_length n m); done. }
    assert (Ha1 : Pure.binary a1) by (apply Forall_insert; [done|apply add_mod_binary]).
    destruct (IH a1 (moves + 1) Hs1 Ha1) as (Hs' & Ha' & Hm & Hout & Hin). cbn zeta in *.
    split_and!; [done|done|cbn [length]; lia|cbn [length]; lia| |].
    + intros Hp0. rewrite Hout by (intros Hc; apply Hp0; by right).
      subst a1. apply row_insert_ne. intros ->. apply Hp0. by left.
    + intros Hpin Hpe. destruct (decide (i0 = p)) as [-> | Hne].
      * split; [lia|]. intros j. unfold Pure.entry. rewrite (Hout Hnotin).
        fold (Pure.entry a1 p j). subst a1.
        rewrite entry_insert_eq by (rewrite (proj1 Hs); lia).
        rewrite add_mod_entry; [|done|by apply binary_row|by apply binary_row].
        fold (Pure.entry a p j).
        destruct (binary_entry a p j Ha) as [-> | ->]; done.
      * assert (Hrest : p ∈ rest) by (apply elem_of_cons in Hpin as [-> | ?]; done).
        assert (Hpe1 : Pure.entry a1 p lead ≠ 0) by (subst a1; by rewrite entry_insert_ne).
        destruct (Hin Hrest Hpe1) as [Hlt' Hzero]. split; [lia|done].
  - destruct (IH a moves Hs Ha) as (Hs' & Ha' & Hm & Hout & Hin). cbn zeta in *.
    split_and!; [done|done|lia|cbn [length]; lia| |].
    + intros Hp0. apply Hout. intros Hc. apply Hp0. by right.
    + intros Hpin Hpe. destruct (decide (i0 = p)) as [-> | Hne].
      * destruct He. done.
      * assert (Hrest : p ∈ rest) by (apply elem_of_cons in Hpin as [-> | ?]; done).
        apply (Hin Hrest Hpe).
Qed.

(** X13.  [step] takes a negative index in [-N, -1] as numpy does, for the row
    that many places from the end; but its loop then adds the chosen row to
    itself too.  If that row is not zero, it is zero after the step, which
    counts it among the moves: the reward is between -N and -1. *)
Theorem choice_step_negative_action self h action :
  reachable self h → - Z.of_nat (N self) ≤ action < 0 →
  ∃ a a' obs reward done h',
    h !! matrix self = Some a
    ∧ step self action h = (Py.Ok (obs, reward, done), h')
    ∧ h' !! matrix self = Some a'
    ∧ match Np.lead (Pure.row a (Z.to_nat (Z.of_nat (N self) + action))) with
      | None => a' = a ∧ reward = -100
      | Some _ =>
          (∀ j, Pure.entry a' (Z.to_nat (Z.of_nat (N self) + action)) j = 0)
          ∧ - Z.of_nat (N self) ≤ reward ≤ -1
      end.
Proof.
  intros Hreach Hact.
  destruct (choice_state_of_inv _ _ _ Hreach) as (a & Hl & Hs).
  destruct (choice_state_binary _ _ _ Hreach) as (a0 & Hl0 & Ha).
  rewrite Hl in Hl0. injection Hl0 as <-.
  set (p := Z.to_nat (Z.of_nat (N self) + action)).
  assert (Hp : (p < N self)%nat) by lia.
  assert (Hidx : Py.norm_index (N self) action = Some p).
  { unfold Py.norm_index. rewrite bool_decide_eq_false_2 by lia.
    by rewrite bool_decide_eq_true_2 by lia. }
  pose proof (choice_step_Ok self h a action p Hl Hs Hidx) as Hstep.
  eexists a, _, _, _, _, _. split; [done|]. split; [exact Hstep|]. split.
  { rewrite lookup_insert_ne; [apply lookup_insert_eq|]. apply fresh_not_in. by rewrite Hl. }
  unfold Pure.choice_step, Pure.pivoted.
  destruct (Np.lead (Pure.row a p)) as [l|] eqn:Hlead; [|done].
  destruct (pivot_negative (N self) (M self) action p l (seq 0 (length a))
              (proj2 Hact) Hp (NoDup_seq _ _)) with (a := a) (moves := 0)
    as (_ & _ & Hm & _ & Hin); [|done|done|].
  { rewrite (proj1 Hs). apply Forall_seq_lt. }
  cbn zeta in Hm, Hin. rewrite length_seq in Hm. pose proof (proj1 Hs) as Hlen.
  destruct Hin as [Hpos Hzero].
  { apply elem_of_seq. rewrite (proj1 Hs). lia. }
  { apply lead_Some_entries in Hlead as (_ & Hne & _). done. }
  destruct (Pure.pivot Np.add_mod action p l (seq 0 (length a)) a 0) as [a' moves].
  cbn [fst snd] in *. split; [done|].
  rewrite bool_decide_eq_false_2 by lia. lia.
Qed.
End ChoiceNegative.

Lemma choice_step_negative_action_witness :
  RowChoiceSpec.reachable (H := Qfloat) Examples.choice_self Examples.choice_heap
  ∧ - Z.of_nat (RowChoiceEnvironment.N Examples.choice_self) ≤ -2 < 0
  ∧ ∃ a a' obs reward done h',
      Examples.choice_heap !! RowChoiceEnvironment.matrix Examples.choice_self = Some a
      ∧ RowChoiceEnvironment.step Examples.choice_self (-2) Examples.choice_heap
        = (Py.Ok (obs, reward, done), h')
      ∧ h' !! RowChoiceEnvironment.matrix Examples.choice_self = Some a'
      ∧ match Np.lead (Pure.row a (Z.to_nat
                (Z.of_nat (RowChoiceEnvironment.N Examples.choice_self) + -2))) with
        | None => a' = a ∧ reward = -100
        | Some _ =>
            (∀ j, Pure.entry a' (Z.to_nat
                    (Z.of_nat (RowChoiceEnvironment.N Examples.choice_self) + -2)) j = 0)
            ∧ - Z.of_nat (RowChoiceEnvironment.N Examples.choice_self) ≤ reward ≤ -1
        end.
Proof.
  assert (Hr : - Z.of_nat (RowChoiceEnvironment.N Examples.choice_self) ≤ -2 < 0)
    by (simpl; lia).
  split; [apply choice_example_reachable|]. split; [exact Hr|].
  exact (choice_step_negative_action (H := Qfloat) Examples.choice_self Examples.choice_heap
           (-2) choice_example_reachable Hr).
Defined.

(** ** RowChoiceEnvironmentExtra: the flags of the rows and the reward *)

Section ExtraStep.
Context `{Float}.
Import RowChoiceEnvironmentExtra RowChoiceExtraSpec.
Implicit Types (self : t) (h : Np.heap) (a rw : Np.ndarray).

(** On entries 0 and 1 the float64 sum and the int64 sum agree. *)
Lemma add_mod_float_eq r1 r2 :
  Forall (λ x, x = 0 ∨ x = 1) r1 → Forall (λ x, x = 0 ∨ x = 1) r2 →
  Np.add_mod_float r1 r2 2 = Np.add_mod r1 r2 2.
Proof.
  intros H1. revert r2. induction H1 as [|x r1 Hx _ IH]; intros r2 H2; [done|].
  destruct H2 as [|y r2 Hy H2]; [done|].
  unfold Np.add_mod_float, Np.add_mod in *. cbn [zip_with]. rewrite IH by done.
  rewrite wrap64_small; [done|]. destruct Hx as [-> | ->], Hy as [-> | ->]; by vm_compute.
Qed.

Lemma pivot_float_eq action p lead rows :
  ∀ a moves, Pure.binary a →
    Pure.pivot Np.add_mod_float action p lead rows a moves
    = Pure.pivot Np.add_mod action p lead rows a moves.
Proof.
  induction rows as [|i rows IH]; intros a moves Ha; [done|].
  cbn [Pure.pivot]. case_bool_decide; [|by apply IH]. case_bool_decide; [|by apply IH].
  rewrite add_mod_float_eq by (by apply binary_row).
  apply IH. apply Forall_insert; [done|apply add_mod_binary].
Qed.

Lemma extra_step_matrix action p is_new a :
  Pure.binary a → (Pure.extra_step action p is_new a).1 = (Pure.choice_step action p a).1.
Proof.
  intros Ha. unfold Pure.extra_step, Pure.choice_step, Pure.pivoted.
  destruct (Np.lead (Pure.row a p)); [|done]. rewrite pivot_float_eq by done.
  by destruct (Pure.pivot Np.add_mod action p n (seq 0 (length a)) a 0).
Qed.

Lemma extra_step_no_move (action is_new : Z) a :
  0 ≤ action → Pure.no_move (length a) a (Z.to_nat action) →
  Pure.extra_step action (Z.to_nat action) is_new a = (a, 1000 * (is_new - 1)).
Proof.
  intros H0 Hno. unfold Pure.extra_step, Pure.pivoted. unfold Pure.no_move in Hno.
  destruct (Np.lead (Pure.row a (Z.to_nat action))) as [lead|]; [|done].
  rewrite pivot_clear; [done|].
  apply Forall_forall. intros i Hi%elem_of_seq Hne. apply Hno; lia.
Qed.

(** When there is a move, the reward is minus the number of rows changed. *)
Lemma extra_step_move_reward n m (k : nat) is_new a :
  Pure.shaped n m a → Pure.binary a → (k < n)%nat →
  ¬ Pure.no_move n a k →
  - Z.of_nat n < (Pure.extra_step (Z.of_nat k) k is_new a).2 ≤ -1.
Proof.
  intros Hs Ha Hk Hmove. unfold Pure.extra_step, Pure.pivoted.
  unfold Pure.no_move in Hmove.
  destruct (Np.lead (Pure.row a k)) as [l|] eqn:Hlead; [|by destruct Hmove].
  rewrite pivot_float_eq by done.
  pose proof (pivot_moves Np.add_mod k l (seq 0 (length a)) (NoDup_seq _ _) a 0) as Hm.
  destruct (Pure.pivot Np.add_mod (Z.of_nat k) k l (seq 0 (length a)) a 0) as [a' moves].
  cbn [fst snd] in *. rewrite (proj1 Hs) in Hm.
  pose proof (length_filter_le_pred (λ i, i ≠ k ∧ Pure.entry a i l ≠ 0) n k Hk) as Hle.
  cbn beta in Hle.
  assert (Hnk : ¬ (k ≠ k ∧ Pure.entry a k l ≠ 0)) by tauto. specialize (Hle Hnk).
  destruct (filter (λ i, i ≠ k ∧ Pure.entry a i l ≠ 0) (seq 0 n)) as [|i0 rest] eqn:Hf.
  - destruct Hmove. intros i Hi Hik.
    destruct (decide (Pure.entry a i l = 0)) as [|Hne]; [done|].
    assert (Hin : i ∈ filter (λ i, i ≠ k ∧ Pure.entry a i l ≠ 0) (seq 0 n)).
    { apply list_elem_of_filter. split; [done|]. apply elem_of_seq. lia. }
    rewrite Hf in Hin. by inversion Hin.
  - cbn [length] in *. rewrite bool_decide_eq_false_2 by lia. lia.
Qed.

(** In every state the flags are 0 and 1. *)
Lemma extra_rows_binary b self h :
  state_of b self h → ∃ rw, h !! rows self = Some rw ∧ Pure.binary rw.
Proof.
  induction 1 as [shape density h0 self h Hinit
                 |b self0 h0 fuel draws self obs h Hst IH Hreset
                 |b self h action r h' Hst IH Hact Hstep
                 |b self h h' Hst IH Hsame Hsame'].
  - destruct (extra_state_of_inv _ _ _ (st_init _ _ _ _ _ Hinit)) as (a & rw & _ & _ & Hr & _ & ->).
    exists []. split; [done|]. unfold Pure.binary. constructor.
  - destruct obs as [obs_rows obs].
    apply extra_reset_Ok in Hreset as (a' & draw & _ & _ & Hr' & _).
    eexists. split; [done|]. unfold Pure.binary, Np.ones.
    apply Forall_replicate, Forall_replicate. by right.
  - destruct IH as (rw & Hr & Hb).
    destruct (extra_state_of_inv _ _ _ Hst) as (a & rw0 & Hl & Hs & Hr0 & Hne & Hrw).
    rewrite Hr in Hr0. injection Hr0 as <-. destruct b.
    + rewrite (extra_step_Ok _ _ _ _ _ _ Hl Hs Hr Hrw Hne (extra_valid_action_index _ _ Hact))
        in Hstep.
      injection Hstep as <- <-.
      exists (<[Z.to_nat action := [0]]> rw). split.
      * set (o1 := fresh (dom h)).
        assert (Ho1r : o1 ≠ rows self) by (apply fresh_not_in; by rewrite Hr).
        rewrite lookup_insert_ne.
        -- rewrite lookup_insert_ne by done. rewrite lookup_insert_ne by done.
           apply lookup_insert_eq.
        -- intros Heq. apply (is_fresh ({[o1]} ∪ dom h)). rewrite Heq.
           apply elem_of_union_r, elem_of_dom. by rewrite Hr.
      * apply Forall_insert; [done|]. constructor; [by left|constructor].
    + subst rw. unfold step in Hstep.
      by rewrite (bind_Raise _ _ _ _ _ (item_empty_Raise _ _ _ _ Hr)) in Hstep.
  - destruct IH as (rw & Hr & Hb). exists rw. by rewrite Hsame'.
Qed.

(** [step] on a state after [reset], with a valid action. *)
Lemma extra_step_state self h action :
  reachable self h → valid_action self action →
  ∃ a rw,
    h !! matrix self = Some a ∧ Pure.shaped (N self) (M self) a ∧ Pure.binary a
    ∧ h !! rows self = Some rw ∧ Pure.shaped (N self) 1 rw ∧ Pure.binary rw
    ∧ rows self ≠ matrix self
    ∧ let o1 := fresh (dom h) in
      let o2 := fresh ({[o1]} ∪ dom h) in
      let rw' := <[Z.to_nat action := [0]]> rw in
      let res := Pure.extra_step action (Z.to_nat action)
                   (Pure.entry rw (Z.to_nat action) 0) a in
      step self action h =
        (Py.Ok (o1, o2, res.2, Pure.is_reduced res.1),
         <[o2 := res.1]> (<[o1 := rw']> (<[matrix self := res.1]> (<[rows self := rw']> h))))
      ∧ o1 ≠ matrix self ∧ o1 ≠ rows self ∧ o2 ≠ matrix self ∧ o2 ≠ rows self ∧ o2 ≠ o1.
Proof.
  intros Hreach Hact.
  destruct (extra_state_of_inv _ _ _ Hreach) as (a & rw & Hl & Hs & Hr & Hne & Hrw).
  destruct (extra_state_binary _ _ _ Hreach) as (a0 & Hl0 & Ha).
  rewrite Hl in Hl0. injection Hl0 as <-.
  destruct (extra_rows_binary _ _ _ Hreach) as (rw0 & Hr0 & Hb).
  rewrite Hr in Hr0. injection Hr0 as <-.
  exists a, rw. split_and!; [done..|]. cbn zeta.
  split; [by apply extra_step_Ok; [..|apply extra_valid_action_index]|].
  assert (Ho2 : ∀ l, is_Some (h !! l) → fresh ({[fresh (dom h)]} ∪ dom h) ≠ l).
  { intros l Hsome Heq. apply (is_fresh ({[fresh (dom h)]} ∪ dom h)). rewrite Heq.
    by apply elem_of_union_r, elem_of_dom. }
  split_and!.
  - apply fresh_not_in. by rewrite Hl.
  - apply fresh_not_in. by rewrite Hr.
  - apply Ho2. by rewrite Hl.
  - apply Ho2. by rewrite Hr.
  - intros Heq. apply (is_fresh ({[fresh (dom h)]} ∪ dom h)). rewrite Heq.
    apply elem_of_union_l, elem_of_singleton. done.
Qed.

(** X16.  [step] with a valid action [k] sets the flag of row [k] to 0 and keeps
    the other flags, in the object and in the copy it returns; the second
    array it returns is a copy of the matrix after the step.  If row [k] has
    its lead in column [l], row [k] is added modulo 2 to exactly the other
    rows with a non-zero entry in column [l], and the reward is minus the
    number of rows changed, between -(N - 1) and -1.  When no row is changed,
    or row [k] is zero, the matrix stays and the reward is 1000 * (flag - 1)
    for the flag of row [k] before the step: 0 for a row not used since
    [reset], -1000 for a used one. *)
Theorem extra_step_marks_row self h action :
  reachable self h → valid_action self action →
  ∃ a rw obs_rows obs reward done h' a',
    h !! matrix self = Some a ∧ h !! rows self = Some rw
    ∧ step self action h = (Py.Ok (obs_rows, obs, reward, done), h')
    ∧ h' !! rows self = Some (<[Z.to_nat action := [0]]> rw)
    ∧ h' !! obs_rows = Some (<[Z.to_nat action := [0]]> rw)
    ∧ h' !! matrix self = Some a'
    ∧ h' !! obs = Some a'
    ∧ (Pure.entry rw (Z.to_nat action) 0 = 0 ∨ Pure.entry rw (Z.to_nat action) 0 = 1)
    ∧ (Pure.no_move (N self) a (Z.to_nat action) →
       a' = a ∧ reward = 1000 * (Pure.entry rw (Z.to_nat action) 0 - 1))
    ∧ (¬ Pure.no_move (N self) a (Z.to_nat action) →
       - Z.of_nat (N self) < reward ≤ -1)
    ∧ match Np.lead (Pure.row a (Z.to_nat action)) with
      | None => a' = a ∧ reward = 1000 * (Pure.entry rw (Z.to_nat action) 0 - 1)
      | Some l =>
          (∀ i j, Pure.entry a' i j
                  = if bool_decide (i ≠ Z.to_nat action ∧ Pure.entry a i l ≠ 0)
                    then (Pure.entry a i j + Pure.entry a (Z.to_nat action) j) `mod` 2
                    else Pure.entry a i j)
          ∧ (let changed :=
               length (filter (λ i, i ≠ Z.to_nat action ∧ Pure.entry a i l ≠ 0)
                              (seq 0 (N self))) in
             (changed < N self)%nat
             ∧ reward = if bool_decide (changed = 0%nat)
                        then 1000 * (Pure.entry rw (Z.to_nat action) 0 - 1)
                        else - Z.of_nat changed)
      end.
Proof.
  intros Hreach Hact.
  destruct (extra_step_state _ _ _ Hreach Hact)
    as (a & rw & Hl & Hs & Ha & Hr & Hrw & Hb & Hne & Hstep & Ho1m & Ho1r & Ho2m & Ho2r & Ho21).
  cbn zeta in Hstep.
  assert (Hk : (Z.to_nat action < N self)%nat)
    by (destruct Hact; unfold action_size in *; lia).
  assert (Hak : action = Z.of_nat (Z.to_nat action)) by (destruct Hact; lia).
  eexists a, rw, _, _, _, _, _, _. split; [done|]. split; [done|]. split; [exact Hstep|].
  split_and!.
  - rewrite lookup_insert_ne by done. rewrite lookup_insert_ne by done.
    rewrite lookup_insert_ne by done. apply lookup_insert_eq.
  - rewrite lookup_insert_ne by done. apply lookup_insert_eq.
  - rewrite lookup_insert_ne by done. rewrite lookup_insert_ne by done.
    apply lookup_insert_eq.
  - apply lookup_insert_eq.
  - by apply binary_entry.
  - intros Hno. rewrite <- (proj1 Hs) in Hno.
    by rewrite (extra_step_no_move action _ a (proj1 Hact) Hno).
  - intros Hmove.
    pose proof (extra_step_move_reward (N self) (M self) (Z.to_nat action)
                  (Pure.entry rw (Z.to_nat action) 0) a Hs Ha Hk Hmove) as Hrew.
    rewrite Z2Nat.id in Hrew by apply Hact. exact Hrew.
  - set (k := Z.to_nat action) in *.
    destruct (Np.lead (Pure.row a k)) as [l|] eqn:Hlead.
    + split.
      * rewrite extra_step_matrix by done. rewrite Hak.
        by apply (choice_step_entries (N self) (M self)).
      * cbn zeta. split.
        -- pose proof (length_filter_le_pred
                         (λ i, i ≠ k ∧ Pure.entry a i l ≠ 0) (N self) k Hk) as Hle.
           cbn beta in Hle.
           assert (Hnk : ¬ (k ≠ k ∧ Pure.entry a k l ≠ 0)) by tauto.
           specialize (Hle Hnk). lia.
        -- rewrite Hak. unfold Pure.extra_step, Pure.pivoted. rewrite Hlead.
           rewrite pivot_float_eq by done.
           pose proof (pivot_moves Np.add_mod k l (seq 0 (length a)) (NoDup_seq _ _) a 0) as Hm.
           destruct (Pure.pivot Np.add_mod (Z.of_nat k) k l (seq 0 (length a)) a 0)
             as [a' moves]. cbn [fst snd] in *. rewrite (proj1 Hs) in Hm. subst moves.
           repeat case_bool_decide; lia.
    + rewrite Hak. unfold Pure.extra_step, Pure.pivoted. by rewrite Hlead.
Qed.

(** X17.  The same action twice: the second [step] changes neither the matrix nor
    the flags and is answered with -1000. *)
Theorem extra_step_repeat self h action :
  reachable self h → valid_action self action →
  ∃ r1 h1 a1 rw1 obs_rows2 obs2 done2 h2,
    step self action h = (Py.Ok r1, h1)
    ∧ h1 !! matrix self = Some a1 ∧ h1 !! rows self = Some rw1
    ∧ step self action h1 = (Py.Ok (obs_rows2, obs2, -1000, done2), h2)
    ∧ h2 !! matrix self = Some a1 ∧ h2 !! rows self = Some rw1.
Proof.
  intros Hreach Hact.
  destruct (extra_step_state _ _ _ Hreach Hact)
    as (a & rw & Hl & Hs & Ha & Hr & Hrw & Hb & Hne & Hstep & Ho1m & Ho1r & Ho2m & Ho2r & Ho21).
  cbn zeta in Hstep.
  assert (Hk : (Z.to_nat action < N self)%nat)
    by (destruct Hact; unfold action_size in *; lia).
  assert (Hak : action = Z.of_nat (Z.to_nat action)) by (destruct Hact; lia).
  set (k := Z.to_nat action) in *.
  set (a1 := (Pure.extra_step action k (Pure.entry rw k 0) a).1) in *.
  set (rw1 := <[k := [0]]> rw) in *.
  pose proof (st_step _ _ _ _ _ _ Hreach Hact Hstep) as Hreach1.
  destruct (extra_step_state _ _ _ Hreach1 Hact)
    as (a1' & rw1' & Hl1 & Hs1 & Ha1 & Hr1 & Hrw1 & Hb1 & _ & Hstep1
        & Hp1m & Hp1r & Hp2m & Hp2r & Hp21).
  cbn zeta in Hstep1. fold k in Hstep1.
  assert (Ea : a1' = a1).
  { rewrite lookup_insert_ne in Hl1 by done. rewrite lookup_insert_ne in Hl1 by done.
    rewrite lookup_insert_eq in Hl1. by injection Hl1. }
  assert (Er : rw1' = rw1).
  { rewrite lookup_insert_ne in Hr1 by done. rewrite lookup_insert_ne in Hr1 by done.
    rewrite lookup_insert_ne in Hr1 by done.
    rewrite lookup_insert_eq in Hr1. by injection Hr1. }
  subst a1' rw1'.
  assert (Hno : Pure.no_move (length a1) a1 k).
  { rewrite (proj1 Hs1). subst a1. rewrite extra_step_matrix by done. rewrite Hak.
    by apply (choice_step_settles (N self) (M self)). }
  assert (Hflag : Pure.entry rw1 k 0 = 0).
  { subst rw1. by rewrite entry_insert_eq by (rewrite (proj1 Hrw); lia). }
  rewrite Hflag in Hstep1.
  pose proof (extra_step_no_move action 0 a1 (proj1 Hact) Hno) as Hnm. fold k in Hnm.
  rewrite Hnm in Hstep1. cbn [fst snd] in Hstep1.
  assert (Hrw11 : <[k := [0]]> rw1 = rw1) by (subst rw1; apply list_insert_insert_eq).
  rewrite Hrw11 in Hstep1.
  eexists _, _, a1, rw1, _, _, _, _. split; [exact Hstep|].
  split; [exact Hl1|]. split; [exact Hr1|]. split; [exact Hstep1|]. split.
  - rewrite lookup_insert_ne by done. rewrite lookup_insert_ne by done.
    apply lookup_insert_eq.
  - rewrite lookup_insert_ne by done. rewrite lookup_insert_ne by done.
    rewrite lookup_insert_ne by done. apply lookup_insert_eq.
Qed.
End ExtraStep.

Section ExtraBeforeReset.
Context `{Float}.
Import RowChoiceEnvironmentExtra RowChoiceExtraSpec.

(** X18.  Before the first [reset], [step] of [RowChoiceEnvironmentExtra] raises
    IndexError for every action and changes nothing: [self.rows] is still
    the one-dimensional array of [__init__], which [self.rows[action, 0]]
    cannot index. *)
Theorem extra_step_before_reset self h action :
  state_of false self h → step self action h = (Py.Raise Py.IndexError, h).
Proof.
  intros Hst.
  destruct (extra_state_of_inv _ _ _ Hst) as (a & rw & _ & _ & Hr & _ & ->).
  unfold step. by rewrite (bind_Raise _ _ _ _ _ (item_empty_Raise _ _ _ _ Hr)).
Qed.
End ExtraBeforeReset.

Lemma extra_step_marks_row_witness :
  RowChoiceExtraSpec.reachable (H := Qfloat) Examples.extra_self Examples.extra_heap
  ∧ RowChoiceExtraSpec.valid_action Examples.extra_self 0
  ∧ ∃ a rw obs_rows obs reward done h' a',
      Examples.extra_heap !! RowChoiceEnvironmentExtra.matrix Examples.extra_self = Some a
      ∧ Examples.extra_heap !! RowChoiceEnvironmentExtra.rows Examples.extra_self = Some rw
      ∧ RowChoiceEnvironmentExtra.step Examples.extra_self 0 Examples.extra_heap
        = (Py.Ok (obs_rows, obs, reward, done), h')
      ∧ h' !! RowChoiceEnvironmentExtra.rows Examples.extra_self
        = Some (<[Z.to_nat 0 := [0]]> rw)
      ∧ h' !! obs_rows = Some (<[Z.to_nat 0 := [0]]> rw)
      ∧ h' !! RowChoiceEnvironmentExtra.matrix Examples.extra_self = Some a'
      ∧ h' !! obs = Some a'
      ∧ (Pure.entry rw (Z.to_nat 0) 0 = 0 ∨ Pure.entry rw (Z.to_nat 0) 0 = 1)
      ∧ (Pure.no_move (RowChoiceEnvironmentExtra.N Examples.extra_self) a (Z.to_nat 0) →
         a' = a ∧ reward = 1000 * (Pure.entry rw (Z.to_nat 0) 0 - 1))
      ∧ (¬ Pure.no_move (RowChoiceEnvironmentExtra.N Examples.extra_self) a (Z.to_nat 0) →
         - Z.of_nat (RowChoiceEnvironmentExtra.N Examples.extra_self) < reward ≤ -1)
      ∧ match Np.lead (Pure.row a (Z.to_nat 0)) with
        | None => a' = a ∧ reward = 1000 * (Pure.entry rw (Z.to_nat 0) 0 - 1)
        | Some l =>
            (∀ i j, Pure.entry a' i j
                    = if bool_decide (i ≠ Z.to_nat 0 ∧ Pure.entry a i l ≠ 0)
                      then (Pure.entry a i j + Pure.entry a (Z.to_nat 0) j) `mod` 2
                      else Pure.entry a i j)
            ∧ (let changed :=
                 length (filter (λ i, i ≠ Z.to_nat 0 ∧ Pure.entry a i l ≠ 0)
                                (seq 0 (RowChoiceEnvironmentExtra.N Examples.extra_self))) in
               (changed < RowChoiceEnvironmentExtra.N Examples.extra_self)%nat
               ∧ reward = if bool_decide (changed = 0%nat)
                          then 1000 * (Pure.entry rw (Z.to_nat 0) 0 - 1)
                          else - Z.of_nat changed)
        end.
Proof.
  assert (Hv : RowChoiceExtraSpec.valid_action Examples.extra_self 0)
    by (vm_compute; split; congruence).
  split; [apply extra_example_reachable|]. split; [exact Hv|].
  exact (extra_step_marks_row (H := Qfloat) Examples.extra_self Examples.extra_heap 0
           extra_example_reachable Hv).
Defined.

Lemma extra_step_repeat_witness :
  RowChoiceExtraSpec.reachable (H := Qfloat) Examples.extra_self Examples.extra_heap
  ∧ RowChoiceExtraSpec.valid_action Examples.extra_self 0
  ∧ ∃ r1 h1 a1 rw1 obs_rows2 obs2 done2 h2,
      RowChoiceEnvironmentExtra.step Examples.extra_self 0 Examples.extra_heap = (Py.Ok r1, h1)
      ∧ h1 !! RowChoiceEnvironmentExtra.matrix Examples.extra_self = Some a1
      ∧ h1 !! RowChoiceEnvironmentExtra.rows Examples.extra_self = Some rw1
      ∧ RowChoiceEnvironmentExtra.step Examples.extra_self 0 h1
        = (Py.Ok (obs_rows2, obs2, -1000, done2), h2)
      ∧ h2 !! RowChoiceEnvironmentExtra.matrix Examples.extra_self = Some a1
      ∧ h2 !! RowChoiceEnvironmentExtra.rows Examples.extra_self = Some rw1.
Proof.
  assert (Hv : RowChoiceExtraSpec.valid_action Examples.extra_self 0)
    by (vm_compute; split; congruence).
  split; [apply extra_example_reachable|]. split; [exact Hv|].
  exact (extra_step_repeat (H := Qfloat) Examples.extra_self Examples.extra_heap 0
           extra_example_reachable Hv).
Defined.

Lemma extra_step_before_reset_witness :
  RowChoiceExtraSpec.state_of (H := Qfloat) false Examples.extra_self0 Examples.extra_heap0
  ∧ RowChoiceEnvironmentExtra.step Examples.extra_self0 1 Examples.extra_heap0
    = (Py.Raise Py.IndexError, Examples.extra_heap0).
Proof.
  assert (Hst : RowChoiceExtraSpec.state_of (H := Qfloat) false
                  Examples.extra_self0 Examples.extra_heap0).
  { apply (RowChoiceExtraSpec.st_init (H := Qfloat) (3%nat, 2%nat) (1 # 2)%Q ∅).
    apply extra_example_init. }
  split; [exact Hst|].
  exact (extra_step_before_reset (H := Qfloat) Examples.extra_self0 Examples.extra_heap0 1 Hst).
Defined.

(** ** AtariEnv: step *)

Section AtariStep.
Context `{Float}.
Context {gym : Type}.
Variable gym_step : gym → Z → Py.outcome (AtariEnv.image * float * bool * AtariEnv.info) * gym.
Import AtariEnv.
Implicit Types (self : @AtariEnv.t gym) (d : list frame).

(** What a [step] that returns has done. *)
Lemma atari_step_inv self action stacked reward done inf self' :
  step gym_step action self = (Py.Ok (stacked, reward, done, inf), self') →
  ∃ state reward0 done0 g' l d,
    gym_step (env self) action = (Py.Ok (state, reward0, done0, inf), g')
    ∧ inf !! "ale.lives"%string = Some l
    ∧ history self = Some d ∧ d ≠ []
    ∧ stacked = to_frame state :: removelast d
    ∧ reward = fsign reward0
    ∧ done = (if life_lost self l then true else done0)
    ∧ self' = Build g' (no_op_max self) (Some stacked)
                (if life_lost self l then l else lives self) (reset_on_death self).
Proof.
  unfold step, env_step, life_lost. intros Hrun. unfold Py.bind at 1 in Hrun.
  destruct (gym_step (env self) action) as [[[[[state reward0] done0] inf0]|e|] g'] eqn:Hgym;
    [|done|done].
  destruct (inf0 !! "ale.lives"%string) as [l|] eqn:Hlives; [|done].
  destruct self as [g nom hist lv rod]. cbn [env lives reset_on_death no_op_max history] in *.
  cbv beta iota zeta delta [Py.bind Py.get Py.put Py.ret Py.raise push_frame set_lives
    set_history set_env stack env lives reset_on_death no_op_max history default from_option id] in Hrun.
  destruct (bool_decide (l < lv) && rod) eqn:Hlost;
    (destruct hist as [[|f0 d0]|]; [done| |done]);
    destruct (forallb _ _); [|done| |done];
    injection Hrun as <- <- <- <- <-;
    exists state, reward0, done0, g', l, (f0 :: d0); rewrite Hlost; by split_and!.
Qed.

(** When the emulator answers, the info has the lives, and the history
    holds frames of the shape of the new one, [step] returns. *)
Lemma atari_step_Ok self action state reward0 done0 inf g' l d :
  gym_step (env self) action = (Py.Ok (state, reward0, done0, inf), g') →
  inf !! "ale.lives"%string = Some l →
  history self = Some d → d ≠ [] →
  Forall (λ f, shape f = shape (to_frame state)) (removelast d) →
  step gym_step action self
  = (Py.Ok (to_frame state :: removelast d, fsign reward0,
            (if life_lost self l then true else done0), inf),
     Build g' (no_op_max self) (Some (to_frame state :: removelast d))
       (if life_lost self l then l else lives self) (reset_on_death self)).
Proof.
  intros Hgym Hlives Hhist Hne Hshape.
  unfold step, env_step, life_lost. unfold Py.bind at 1. rewrite Hgym, Hlives.
  destruct self as [g nom hist lv rod]. cbn [env lives reset_on_death no_op_max history] in *.
  subst hist. destruct d as [|f0 d0]; [done|].
  assert (Hall : forallb (λ g0, bool_decide (shape g0 = shape (to_frame state)))
                   (removelast (f0 :: d0)) = true).
  { apply forallb_forall. intros f Hf%list_elem_of_In. apply bool_decide_eq_true_2.
    rewrite Forall_forall in Hshape. by apply Hshape. }
  cbv beta iota zeta delta [Py.bind Py.get Py.put Py.ret Py.raise push_frame set_lives
    set_history set_env stack env lives reset_on_death no_op_max history default from_option id].
  destruct (bool_decide (l < lv) && rod); by rewrite Hall.
Qed.

Lemma removelast_take {A} (l : list A) : removelast l = take (length l - 1) l.
Proof.
  induction l as [|x [|y l] IH]; [done|done|].
  change (removelast (x :: y :: l)) with (x :: removelast (y :: l)). rewrite IH.
  cbn [length]. replace (S (S (length l)) - 1)%nat with (S (S (length l) - 1)) by lia. done.
Qed.

(** X19.  The history is a window: [step] puts the frame of the new image in front
    and drops the oldest frame, and returns the window as the observation.
    The window keeps its length. *)
Theorem atari_step_window self action stacked reward done inf self' :
  step gym_step action self = (Py.Ok (stacked, reward, done, inf), self') →
  ∃ state reward0 done0 d,
    gym_step (env self) action = (Py.Ok (state, reward0, done0, inf), env self')
    ∧ history self = Some d
    ∧ history self' = Some stacked
    ∧ stacked = take (length d) (to_frame state :: d)
    ∧ length stacked = length d
    ∧ reward = fsign reward0.
Proof.
  intros Hstep.
  apply atari_step_inv in Hstep
    as (state & reward0 & done0 & g' & l & d & Hgym & _ & Hhist & Hne & -> & -> & _ & ->).
  exists state, reward0, done0, d. cbn [env history]. split_and!; [done..| | |done].
  - rewrite removelast_take. destruct d as [|f0 d0]; [done|].
    cbn [length]. by replace (S (length d0) - 1)%nat with (length d0) by lia.
  - cbn [length]. rewrite removelast_take, length_take. destruct d; [done|]. cbn [length]. lia.
Qed.

Lemma take_app_take {A} (n : nat) (l k : list A) : take n (l ++ take n k) = take n (l ++ k).
Proof. rewrite !take_app, take_take. do 2 f_equal. lia. Qed.

Lemma atari_play_history actions :
  ∀ self rs self' d,
    play gym_step actions self = (Py.Ok rs, self') → history self = Some d →
    history self' = Some (take (length d) (reverse (newest <$> rs) ++ d))
    ∧ length rs = length actions.
Proof.
  induction actions as [|action actions IH]; intros self rs self' d Hplay Hhist.
  { cbn in Hplay. injection Hplay as <- <-. cbn. by rewrite take_ge by lia. }
  cbn [play] in Hplay.
  apply bind_inv_Ok in Hplay as ([[[stacked reward] done] inf] & s1 & Hstep & Hplay).
  apply bind_inv_Ok in Hplay as (rs' & s2 & Hrest & Hret).
  injection Hret as <- <-.
  apply atari_step_inv in Hstep
    as (state & reward0 & done0 & g' & l & d0 & _ & _ & Hhist0 & Hne & -> & _ & _ & ->).
  rewrite Hhist in Hhist0. injection Hhist0 as <-.
  destruct (IH _ _ _ _ Hrest eq_refl) as [Hh Hlen].
  split; [|by cbn [length]; rewrite Hlen].
  rewrite Hh. f_equal. cbn [fmap list_fmap newest head fst default from_option id].
  rewrite reverse_cons, <- app_assoc. cbn [app].
  assert (Hwin : to_frame state :: removelast d = take (length d) (to_frame state :: d)).
  { rewrite removelast_take. destruct d as [|f0 d0]; [done|].
    cbn [length]. by replace (S (length d0) - 1)%nat with (length d0) by lia. }
  rewrite Hwin.
  assert (Hlen' : length (take (length d) (to_frame state :: d)) = length d)
    by (rewrite length_take; cbn [length]; lia).
  rewrite Hlen'. apply take_app_take.
Qed.

(** X20.  Over any number of steps the history is the window of the most recent
    frames, newest first: after the steps it consists of the frames the steps
    have put in front, in reverse order, followed by what is left of the old
    window; after as many steps as the window is long, nothing of the old
    window is left. *)
Theorem atari_play_window actions self rs self' d :
  play gym_step actions self = (Py.Ok rs, self') → history self = Some d →
  history self' = Some (take (length d) (reverse (newest <$> rs) ++ d))
  ∧ ((length d ≤ length actions)%nat →
     history self' = Some (take (length d) (reverse (newest <$> rs)))).
Proof.
  intros Hplay Hhist.
  destruct (atari_play_history actions self rs self' d Hplay Hhist) as [Hh Hlen].
  split; [done|]. intros Hle. rewrite Hh. f_equal.
  rewrite take_app_le; [done|]. rewrite length_reverse, length_fmap. lia.
Qed.

(** X21.  The lives and the done flag: [step] reports the end of the episode when
    the emulator does, or when a life is lost and [reset_on_death] is set,
    and only then records the lives of the info; the lives it holds never
    increase, and without [reset_on_death] never change. *)
Theorem atari_step_lives self action stacked reward done inf self' :
  step gym_step action self = (Py.Ok (stacked, reward, done, inf), self') →
  ∃ l state reward0 done0,
    inf !! "ale.lives"%string = Some l
    ∧ (gym_step (env self) action).1 = Py.Ok (state, reward0, done0, inf)
    ∧ done = (if life_lost self l then true else done0)
    ∧ lives self' = (if life_lost self l then l else lives self)
    ∧ lives self' ≤ lives self
    ∧ reset_on_death self' = reset_on_death self
    ∧ no_op_max self' = no_op_max self
    ∧ (reset_on_death self = false → lives self' = lives self ∧ done = done0).
Proof.
  intros Hstep.
  apply atari_step_inv in Hstep
    as (state & reward0 & done0 & g' & l & d & Hgym & Hl & _ & _ & _ & _ & -> & ->).
  exists l, state, reward0, done0. rewrite Hgym. cbn [lives reset_on_death no_op_max fst].
  split_and!; [done..| |done|done|].
  - unfold life_lost. case_bool_decide; simpl; [destruct (reset_on_death self)|]; lia.
  - intros Hrod. unfold life_lost. rewrite Hrod, andb_false_r. done.
Qed.

(** X22.  A [step] that fails is not undone.  Without the lives in the info it
    raises KeyError, and before the first [reset], when there is no history,
    AttributeError: in both cases the emulator has taken the step, and in
    the second the lives have been lowered and recorded as for a step that
    returns. *)
Theorem atari_step_failures self action state reward0 done0 inf g' :
  gym_step (env self) action = (Py.Ok (state, reward0, done0, inf), g') →
  (inf !! "ale.lives"%string = None →
   step gym_step action self = (Py.Raise Py.KeyError, set_env self g'))
  ∧ (∀ l, inf !! "ale.lives"%string = Some l → history self = None →
     step gym_step action self
     = (Py.Raise Py.AttributeError,
        Build g' (no_op_max self) None
          (if life_lost self l then l else lives self) (reset_on_death self)))
  ∧ (∀ l, inf !! "ale.lives"%string = Some l → history self = Some [] →
     step gym_step action self
     = (Py.Raise Py.IndexError,
        Build g' (no_op_max self) (Some [])
          (if life_lost self l then l else lives self) (reset_on_death self))).
Proof.
  intros Hgym. split_and!.
  - intros Hl. unfold step, env_step. unfold Py.bind at 1. by rewrite Hgym, Hl.
  - intros l Hl Hhist. unfold step, env_step, life_lost. unfold Py.bind at 1.
    rewrite Hgym, Hl. destruct self as [g nom hist lv rod].
    cbn [env lives reset_on_death no_op_max history] in *. subst hist.
    cbv beta iota zeta delta [Py.bind Py.get Py.put Py.ret Py.raise push_frame set_lives
      set_history set_env stack env lives reset_on_death no_op_max history default from_option id].
    by destruct (bool_decide (l < lv) && rod).
  - intros l Hl Hhist. unfold step, env_step, life_lost. unfold Py.bind at 1.
    rewrite Hgym, Hl. destruct self as [g nom hist lv rod].
    cbn [env lives reset_on_death no_op_max history] in *. subst hist.
    cbv beta iota zeta delta [Py.bind Py.get Py.put Py.ret Py.raise push_frame set_lives
      set_history set_env stack env lives reset_on_death no_op_max history default from_option id].
    by destruct (bool_decide (l < lv) && rod).
Qed.
End AtariStep.

(** ** AtariEnv: the frame of an image *)

Section Frames.
Import AtariEnv.

Lemma every_other_length {A} (l : list A) :
  length (every_other l) = ((length l + 1) / 2)%nat
  ∧ ∀ x, length (every_other (x :: l)) = ((length l + 2) / 2)%nat.
Proof.
  induction l as [|y l [IH1 IH2]].
  { split; [done|]. intros x. done. }
  split.
  - rewrite IH2. cbn [length]. f_equal. lia.
  - intros x. cbn [every_other length]. rewrite IH1.
    replace (S (length l) + 2)%nat with (length l + 1 + 1 * 2)%nat by lia.
    rewrite Nat.div_add by lia. lia.
Qed.

Lemma every_other_Forall {A} (P : A → Prop) (l : list A) :
  Forall P l → Forall P (every_other l) ∧ ∀ x, P x → Forall P (every_other (x :: l)).
Proof.
  induction 1 as [|y l Hy _ [IH1 IH2]].
  { split; [constructor|]. intros x Hx. by repeat constructor. }
  split.
  - by apply IH2.
  - intros x Hx. cbn [every_other]. by constructor.
Qed.

Lemma mean_uint8_range (px : list Z) :
  px ≠ [] → Forall (λ x, 0 ≤ x ≤ 255) px → 0 ≤ mean_uint8 px ≤ 255.
Proof.
  intros Hne Hpx. unfold mean_uint8.
  assert (Hsum : 0 ≤ foldr Z.add 0 px ≤ 255 * Z.of_nat (length px)).
  { clear Hne. induction Hpx as [|x px Hx _ IH]; [simpl; lia|]. cbn [foldr length]. lia. }
  assert (Hlen : 0 < Z.of_nat (length px)) by (destruct px; [done|simpl; lia]).
  split.
  - apply Z.div_pos; lia.
  - apply Z.div_le_upper_bound; lia.
Qed.

(** [l[::2]] has the entries of [l] at the even indices. *)
Lemma every_other_lookup {A} (l : list A) :
  (∀ i, every_other l !! i = l !! (2 * i)%nat)
  ∧ ∀ x i, every_other (x :: l) !! i = (x :: l) !! (2 * i)%nat.
Proof.
  induction l as [|y l [IH1 IH2]].
  { split; [done|]. intros x [|i]; [done|]. cbn [every_other].
    replace (2 * S i)%nat with (S (S (2 * i))) by lia. done. }
  split; [apply IH2|].
  intros x [|i]; [done|]. cbn [every_other].
  replace (2 * S i)%nat with (S (S (2 * i))) by lia. cbn [lookup list_lookup]. apply IH1.
Qed.

(** X23.  The frame of a [height] by [width] image with [channels] > 0 channels
    of bytes has every other row and every other column of the image: it
    has (height + 1) / 2 by (width + 1) / 2 pixels, its entry [(i, j)] is the
    mean over the channels of the pixel [(2 i, 2 j)] of the image, cut to an
    integer, and its entries are bytes. *)
Theorem to_frame_shape (height width channels : nat) (state : image) :
  (0 < channels)%nat → length state = height →
  Forall (λ r, length r = width
               ∧ Forall (λ px, length px = channels ∧ Forall (λ x, 0 ≤ x ≤ 255) px) r) state →
  length (to_frame state) = ((height + 1) / 2)%nat
  ∧ Forall (λ r, length r = ((width + 1) / 2)%nat ∧ Forall (λ x, 0 ≤ x ≤ 255) r)
      (to_frame state)
  ∧ ∀ i j : nat,
      to_frame state !! i ≫= (λ r, r !! j)
      = (λ px, foldr Z.add 0 px `div` Z.of_nat channels)
          <$> (state !! (2 * i)%nat ≫= (λ r, r !! (2 * j)%nat)).
Proof.
  intros Hc Hh Hall. unfold to_frame. split_and!.
  - by rewrite length_fmap, (proj1 (every_other_length state)), Hh.
  - apply Forall_fmap. apply (every_other_Forall _ state) in Hall as [Hall _].
    eapply Forall_impl; [exact Hall|]. intros r [Hw Hr]. cbn. split.
    + by rewrite length_fmap, (proj1 (every_other_length r)), Hw.
    + apply Forall_fmap. apply (every_other_Forall _ r) in Hr as [Hr _].
      eapply Forall_impl; [exact Hr|]. intros px [Hlen Hpx]. cbn.
      apply mean_uint8_range; [|done]. destruct px; [simpl in Hlen; lia|done].
  - intros i j. rewrite list_lookup_fmap, (proj1 (every_other_lookup state)).
    destruct (state !! (2 * i)%nat) as [r|] eqn:Hr; [|done]. cbn [fmap option_fmap option_map mbind option_bind].
    rewrite list_lookup_fmap, (proj1 (every_other_lookup r)).
    destruct (r !! (2 * j)%nat) as [px|] eqn:Hpx; [|done].
    cbn [fmap option_fmap option_map]. unfold mean_uint8. do 3 f_equal.
    apply (Forall_lookup_1 _ _ _ _ Hall) in Hr as [_ Hr].
    by apply (Forall_lookup_1 _ _ _ _ Hr) in Hpx as [-> _].
Qed.
End Frames.

Lemma atari_example_play :
  ∃ rs self', AtariEnv.play (H := Qfloat) Examples.atari_gym_step [0; 0; 0; 0; 0]
                Examples.atari_self
              = (Py.Ok rs, self').
Proof. eexists _, _. vm_compute. reflexivity. Defined.

Lemma atari_step_window_witness :
  ∃ stacked reward done inf self' state reward0 done0 d,
    AtariEnv.step (H := Qfloat) Examples.atari_gym_step 0 Examples.atari_self
    = (Py.Ok (stacked, reward, done, inf), self')
    ∧ Examples.atari_gym_step (AtariEnv.env Examples.atari_self) 0
      = (Py.Ok (state, reward0, done0, inf), AtariEnv.env self')
    ∧ AtariEnv.history Examples.atari_self = Some d
    ∧ AtariEnv.history self' = Some stacked
    ∧ stacked = take (length d) (AtariEnv.to_frame state :: d)
    ∧ length stacked = length d
    ∧ reward = @fsign Qfloat reward0.
Proof.
  destruct atari_example_step as ([[[stacked reward] done] inf] & self' & Hstep).
  destruct (atari_step_window (H := Qfloat) Examples.atari_gym_step _ _ _ _ _ _ _ Hstep)
    as (state & reward0 & done0 & d & Hrest).
  by exists stacked, reward, done, inf, self', state, reward0, done0, d.
Defined.

Lemma atari_play_window_witness :
  ∃ rs self',
    AtariEnv.play (H := Qfloat) Examples.atari_gym_step [0; 0; 0; 0; 0] Examples.atari_self
    = (Py.Ok rs, self')
    ∧ AtariEnv.history Examples.atari_self = Some [[[0]]; [[0]]; [[0]]; [[0]]]
    ∧ AtariEnv.history self'
      = Some (take 4 (reverse (AtariEnv.newest <$> rs) ++ [[[0]]; [[0]]; [[0]]; [[0]]]))
    ∧ ((4 ≤ 5)%nat → AtariEnv.history self' = Some (take 4 (reverse (AtariEnv.newest <$> rs)))).
Proof.
  destruct atari_example_play as (rs & self' & Hplay).
  exists rs, self'. split; [exact Hplay|]. split; [reflexivity|].
  exact (atari_play_window (H := Qfloat) Examples.atari_gym_step [0; 0; 0; 0; 0]
           Examples.atari_self rs self' [[[0]]; [[0]]; [[0]]; [[0]]] Hplay eq_refl).
Defined.

Lemma atari_step_lives_witness :
  ∃ stacked reward done inf self' l state reward0 done0,
    AtariEnv.step (H := Qfloat) Examples.atari_gym_step 0 Examples.atari_self
    = (Py.Ok (stacked, reward, done, inf), self')
    ∧ inf !! "ale.lives"%string = Some l
    ∧ (Examples.atari_gym_step (AtariEnv.env Examples.atari_self) 0).1
      = Py.Ok (state, reward0, done0, inf)
    ∧ done = (if AtariEnv.life_lost Examples.atari_self l then true else done0)
    ∧ AtariEnv.lives self'
      = (if AtariEnv.life_lost Examples.atari_self l then l
         else AtariEnv.lives Examples.atari_self)
    ∧ AtariEnv.lives self' ≤ AtariEnv.lives Examples.atari_self
    ∧ AtariEnv.reset_on_death self' = AtariEnv.reset_on_death Examples.atari_self
    ∧ AtariEnv.no_op_max self' = AtariEnv.no_op_max Examples.atari_self
    ∧ (AtariEnv.reset_on_death Examples.atari_self = false →
       AtariEnv.lives self' = AtariEnv.lives Examples.atari_self ∧ done = done0).
Proof.
  destruct atari_example_step as ([[[stacked reward] done] inf] & self' & Hstep).
  destruct (atari_step_lives (H := Qfloat) Examples.atari_gym_step _ _ _ _ _ _ _ Hstep)
    as (l & state & reward0 & done0 & Hrest).
  by exists stacked, reward, done, inf, self', l, state, reward0, done0.
Defined.

Lemma atari_step_failures_witness :
  Examples.atari_gym_step (AtariEnv.env Examples.atari_new) 0
  = (Py.Ok (Examples.atari_image, 5%Q, false, {[ "ale.lives"%string := 3 ]}), 1%nat)
  ∧ AtariEnv.step (H := Qfloat) Examples.atari_gym_step 0 Examples.atari_new
    = (Py.Raise Py.AttributeError,
       AtariEnv.Build 1%nat 30 None
         (if AtariEnv.life_lost Examples.atari_new 3 then 3
          else AtariEnv.lives Examples.atari_new) true).
Proof.
  split; [reflexivity|].
  exact (proj1 (proj2 (atari_step_failures (H := Qfloat) Examples.atari_gym_step
                         Examples.atari_new 0 Examples.atari_image 5%Q false
                         {[ "ale.lives"%string := 3 ]} 1%nat eq_refl))
           3 eq_refl eq_refl).
Defined.

Lemma to_frame_shape_witness :
  (0 < 3)%nat ∧ length Examples.atari_image = 2%nat
  ∧ length (AtariEnv.to_frame Examples.atari_image) = ((2 + 1) / 2)%nat
  ∧ Forall (λ r, length r = ((2 + 1) / 2)%nat ∧ Forall (λ x, 0 ≤ x ≤ 255) r)
      (AtariEnv.to_frame Examples.atari_image)
  ∧ ∀ i j : nat,
      AtariEnv.to_frame Examples.atari_image !! i ≫= (λ r, r !! j)
      = (λ px, foldr Z.add 0 px `div` Z.of_nat 3)
          <$> (Examples.atari_image !! (2 * i)%nat ≫= (λ r, r !! (2 * j)%nat)).
Proof.
  split; [lia|]. split; [reflexivity|].
  apply (to_frame_shape 2 2 3 Examples.atari_image); [lia|reflexivity|].
  unfold Examples.atari_image.
  repeat (first [apply Forall_nil_2 | apply Forall_cons_2 | split | reflexivity | lia]).
Defined.

(** ** AtariEnv: reset *)

Section AtariReset.
Context `{Float}.
Context {gym : Type}.
Variable gym_step : gym → Z → Py.outcome (AtariEnv.image * float * bool * AtariEnv.info) * gym.
Import AtariEnv.
Implicit Types (self : @AtariEnv.t gym) (d : list frame).

(** What [step] keeps of the object. *)
Lemma atari_step_keeps self action r self' :
  step gym_step action self = (Py.Ok r, self') →
  history self' = Some r.1.1.1
  ∧ (∀ d, history self = Some d → length r.1.1.1 = length d)
  ∧ reset_on_death self' = reset_on_death self
  ∧ no_op_max self' = no_op_max self
  ∧ (reset_on_death self = false → lives self' = lives self).
Proof.
  destruct r as [[[stacked reward] done] inf]. intros Hstep.
  apply atari_step_inv in Hstep
    as (state & reward0 & done0 & g' & l & d & _ & _ & Hhist & Hne & -> & _ & _ & ->).
  cbn [history reset_on_death no_op_max lives fst]. split_and!; [done| |done|done|].
  - intros d' Hd'. rewrite Hhist in Hd'. injection Hd' as <-.
    cbn [length]. rewrite removelast_take, length_take. destruct d; [done|]. cbn [length]. lia.
  - intros Hrod. unfold life_lost. by rewrite Hrod, andb_false_r.
Qed.

Lemma atari_no_ops_loop_keeps (n : nat) :
  ∀ self state done state' done' self',
    no_ops_loop gym_step n state done self = (Py.Ok (state', done'), self') →
    history self = Some state →
    history self' = Some state'
    ∧ length state' = length state
    ∧ reset_on_death self' = reset_on_death self
    ∧ no_op_max self' = no_op_max self
    ∧ (reset_on_death self = false → lives self' = lives self).
Proof.
  induction n as [|n IH]; intros self state done state' done' self' Hloop Hhist.
  { cbn in Hloop. injection Hloop as <- <- <-. by split_and!. }
  cbn [no_ops_loop] in Hloop.
  apply bind_inv_Ok in Hloop as ([[[st1 rw1] dn1] inf1] & s1 & Hstep & Hloop).
  destruct (atari_step_keeps _ _ _ _ Hstep) as (Hh1 & Hlen1 & Hrod1 & Hnom1 & Hlv1).
  cbn [fst] in Hh1, Hlen1. specialize (Hlen1 _ Hhist).
  destruct dn1.
  - injection Hloop as <- <- <-. by split_and!.
  - destruct (IH _ _ _ _ _ _ Hloop Hh1) as (Hh' & Hlen' & Hrod' & Hnom' & Hlv').
    split_and!; [done|lia|congruence|congruence|].
    intros Hrod. rewrite Hlv' by congruence. by apply Hlv1.
Qed.

Section Emulator.
Variable gym_reset : gym → Py.outcome image * gym.
Variable ale_lives : gym → Z.

(** What a body of [reset] that reaches the [return] has done. *)
Lemma atari_reset_body_inv x self state done self' :
  reset_body gym_step gym_reset ale_lives x self = (Py.Ok (state, done), self') →
  history self' = Some state
  ∧ length state = 4%nat
  ∧ 0 < no_op_max self ≤ 2 ^ 63
  ∧ reset_on_death self' = reset_on_death self
  ∧ no_op_max self' = no_op_max self
  ∧ (lives self ≠ 0 → reset_on_death self = false → lives self' = lives self).
Proof.
  unfold reset_body. intros Hrun.
  apply bind_inv_Ok in Hrun as (s0 & s0' & Hget & Hrun).
  injection Hget as <- <-.
  apply bind_inv_Ok in Hrun as ([img dn] & s1 & Hfirst & Hrun).
  assert (Hs1 : reset_on_death s1 = reset_on_death self ∧ no_op_max s1 = no_op_max self
                ∧ (lives self ≠ 0 → lives s1 = lives self)).
  { case_bool_decide as Hlv.
    - apply bind_inv_Ok in Hfirst as (img0 & s2 & Hreset & Hfirst).
      unfold env_reset in Hreset. destruct (gym_reset (env self)) as [o g].
      injection Hreset as -> <-.
      cbv beta iota zeta delta [Py.bind Py.get Py.put Py.ret set_lives set_env
        env lives reset_on_death no_op_max history] in Hfirst.
      injection Hfirst as <- <- <-. destruct self. by cbn.
    - apply bind_inv_Ok in Hfirst as ([[[img0 rw0] dn0] inf0] & s2 & Hstep & Hfirst).
      unfold env_step in Hstep. destruct (gym_step (env self) 0) as [o g].
      injection Hstep as -> <-. injection Hfirst as <- <- <-. destruct self. by cbn. }
  destruct Hs1 as (Hrod1 & Hnom1 & Hlv1).
  cbv beta iota zeta delta [Py.bind Py.get Py.put Py.ret Py.raise set_history stack randint
    default from_option id history forallb] in Hrun.
  rewrite !bool_decide_eq_true_2 in Hrun by done. cbn [andb] in Hrun.
  cbn [no_op_max] in Hrun.
  case_bool_decide as Hnom; [|done].
  apply atari_no_ops_loop_keeps in Hrun as (Hh & Hlen & Hrod & Hnom' & Hlv); [|done].
  cbn [reset_on_death no_op_max lives length] in *.
  split_and!; [done|done|lia|lia|congruence|congruence|].
  intros Hl0 Hr0. rewrite Hlv by congruence. by apply Hlv1.
Qed.

(** X24.  When [reset] returns, the observation is the history, four frames, and
    [no_op_max] is a bound numpy accepts: with any other [reset] cannot
    return. *)
Theorem atari_reset_returns_window fuel draws :
  ∀ k self state self',
    reset gym_step gym_reset ale_lives fuel draws k self = (Py.Ok state, self') →
    history self' = Some state
    ∧ length state = 4%nat
    ∧ 0 < no_op_max self ≤ 2 ^ 63
    ∧ reset_on_death self' = reset_on_death self
    ∧ no_op_max self' = no_op_max self.
Proof.
  induction fuel as [|fuel IH]; intros k self state self' Hrun; cbn [reset] in Hrun;
    apply bind_inv_Ok in Hrun as ([st dn] & s1 & Hbody & Hrun);
    destruct (atari_reset_body_inv _ _ _ _ _ Hbody) as (Hh & Hlen & Hnom & Hrod & Hnom' & _);
    destruct dn; try done.
  - injection Hrun as <- <-. destruct Hnom. by split_and!.
  - destruct (IH _ _ _ _ Hrun) as (Hh2 & Hlen2 & _ & Hrod2 & Hnom2). destruct Hnom.
    split_and!; [done|done|done|done|congruence|congruence].
  - injection Hrun as <- <-. destruct Hnom. by split_and!.
Qed.

(** X25.  [reset] with a [no_op_max] that is zero or negative never returns an
    observation: when the emulator has given the first image,
    [np.random.randint] raises ValueError; by then the lives and the history
    have been set. *)
Theorem atari_reset_no_op_max fuel draws k self :
  no_op_max self ≤ 0 →
  (∀ state self', reset gym_step gym_reset ale_lives fuel draws k self ≠ (Py.Ok state, self'))
  ∧ (∀ img g, lives self = 0 → gym_reset (env self) = (Py.Ok img, g) →
       reset gym_step gym_reset ale_lives fuel draws k self
       = (Py.Raise Py.ValueError,
          Build g (no_op_max self)
            (Some [to_frame img; to_frame img; to_frame img; to_frame img])
            (ale_lives g) (reset_on_death self))).
Proof.
  intros Hnom. split.
  - intros state self' Hrun.
    destruct fuel; cbn [reset] in Hrun;
      apply bind_inv_Ok in Hrun as ([st dn] & s1 & Hbody & _);
      apply atari_reset_body_inv in Hbody as (_ & _ & Hpos & _); lia.
  - intros img g Hlives Hgym.
    assert (Hbody : reset_body gym_step gym_reset ale_lives (draws k) self
                    = (Py.Raise Py.ValueError,
                       Build g (no_op_max self)
                         (Some [to_frame img; to_frame img; to_frame img; to_frame img])
                         (ale_lives g) (reset_on_death self))).
    { unfold reset_body.
      cbv beta iota zeta delta [Py.bind Py.get Py.put Py.ret Py.raise set_history stack randint
        default from_option id history forallb env_reset set_lives set_env].
      rewrite bool_decide_eq_true_2 by done. rewrite Hgym.
      cbn [env lives reset_on_death no_op_max history].
      rewrite !bool_decide_eq_true_2 by done. cbn [andb no_op_max].
      by rewrite bool_decide_eq_false_2 by lia. }
    destruct fuel; cbn [reset]; by rewrite (bind_Raise _ _ _ _ _ Hbody).
Qed.
End Emulator.

Lemma atari_reset_body_same gym_reset1 ale_lives1 gym_reset2 ale_lives2 x self :
  lives self ≠ 0 →
  reset_body gym_step gym_reset1 ale_lives1 x self
  = reset_body gym_step gym_reset2 ale_lives2 x self.
Proof.
  intros Hlives. unfold reset_body.
  rewrite !(bind_Ok Py.get _ self self self eq_refl). cbv beta.
  by rewrite !bool_decide_eq_false_2 by done.
Qed.

(** X26.  Without [reset_on_death], once the lives are not 0 [reset] never resets
    the emulator again: it steps it with action 0 instead, whatever the
    state of the game, and the result does not depend on what
    [self.env.reset()] and [ale.lives()] would give. *)
Theorem atari_reset_never_resets_emulator
    gym_reset1 ale_lives1 gym_reset2 ale_lives2 fuel draws :
  ∀ k self,
    lives self ≠ 0 → reset_on_death self = false →
    reset gym_step gym_reset1 ale_lives1 fuel draws k self
    = reset gym_step gym_reset2 ale_lives2 fuel draws k self.
Proof.
  induction fuel as [|fuel IH]; intros k self Hlives Hrod; cbn [reset];
    pose proof (atari_reset_body_same gym_reset1 ale_lives1 gym_reset2 ale_lives2
                  (draws k) self Hlives) as Hsame;
    destruct (reset_body gym_step gym_reset2 ale_lives2 (draws k) self)
      as [[[st dn]|e|] s1] eqn:Hbody.
  - by rewrite (bind_Ok _ _ _ _ _ Hsame), (bind_Ok _ _ _ _ _ Hbody).
  - by rewrite (bind_Raise _ _ _ _ _ Hsame), (bind_Raise _ _ _ _ _ Hbody).
  - by rewrite (bind_Running _ _ _ _ Hsame), (bind_Running _ _ _ _ Hbody).
  - rewrite (bind_Ok _ _ _ _ _ Hsame), (bind_Ok _ _ _ _ _ Hbody).
    destruct dn; [|done].
    destruct (atari_reset_body_inv _ _ _ _ _ _ _ Hbody) as (_ & _ & _ & Hrod1 & _ & Hlv1).
    apply IH; [|congruence]. rewrite Hlv1 by done. done.
  - by rewrite (bind_Raise _ _ _ _ _ Hsame), (bind_Raise _ _ _ _ _ Hbody).
  - by rewrite (bind_Running _ _ _ _ Hsame), (bind_Running _ _ _ _ Hbody).
Qed.
End AtariReset.

Lemma atari_example_reset :
  ∃ state self',
    AtariEnv.reset (H := Qfloat) Examples.atari_gym_step Examples.atari_gym_reset
      Examples.atari_ale_lives 0 (λ _, 2) 0 Examples.atari_new
    = (Py.Ok state, self').
Proof. eexists _, _. vm_compute. reflexivity. Defined.

Lemma atari_reset_returns_window_witness :
  ∃ state self',
    AtariEnv.reset (H := Qfloat) Examples.atari_gym_step Examples.atari_gym_reset
      Examples.atari_ale_lives 0 (λ _, 2) 0 Examples.atari_new
    = (Py.Ok state, self')
    ∧ AtariEnv.history self' = Some state
    ∧ length state = 4%nat
    ∧ 0 < AtariEnv.no_op_max Examples.atari_new ≤ 2 ^ 63
    ∧ AtariEnv.reset_on_death self' = AtariEnv.reset_on_death Examples.atari_new
    ∧ AtariEnv.no_op_max self' = AtariEnv.no_op_max Examples.atari_new.
Proof.
  destruct atari_example_reset as (state & self' & Hreset).
  exists state, self'. split; [exact Hreset|].
  exact (atari_reset_returns_window (H := Qfloat) Examples.atari_gym_step
           Examples.atari_gym_reset Examples.atari_ale_lives 0 (λ _, 2) 0
           Examples.atari_new state self' Hreset).
Defined.

Lemma atari_reset_no_op_max_witness :
  AtariEnv.no_op_max Examples.atari_no_noops ≤ 0
  ∧ (∀ state self',
       AtariEnv.reset (H := Qfloat) Examples.atari_gym_step Examples.atari_gym_reset
         Examples.atari_ale_lives 5 (λ _, 0) 0 Examples.atari_no_noops
       ≠ (Py.Ok state, self'))
  ∧ AtariEnv.reset (H := Qfloat) Examples.atari_gym_step Examples.atari_gym_reset
      Examples.atari_ale_lives 5 (λ _, 0) 0 Examples.atari_no_noops
    = (Py.Raise Py.ValueError,
       AtariEnv.Build 0%nat 0 (Some [[[20]]; [[20]]; [[20]]; [[20]]]) 3 true).
Proof.
  assert (Hnom : AtariEnv.no_op_max Examples.atari_no_noops ≤ 0) by (simpl; lia).
  split; [exact Hnom|]. split.
  - exact (proj1 (atari_reset_no_op_max (H := Qfloat) Examples.atari_gym_step
                    Examples.atari_gym_reset Examples.atari_ale_lives 5 (λ _, 0) 0
                    Examples.atari_no_noops Hnom)).
  - exact (proj2 (atari_reset_no_op_max (H := Qfloat) Examples.atari_gym_step
                    Examples.atari_gym_reset Examples.atari_ale_lives 5 (λ _, 0) 0
                    Examples.atari_no_noops Hnom)
             Examples.atari_image 0%nat eq_refl eq_refl).
Defined.

Lemma atari_reset_never_resets_emulator_witness :
  AtariEnv.lives Examples.atari_keep_lives ≠ 0
  ∧ AtariEnv.reset_on_death Examples.atari_keep_lives = false
  ∧ AtariEnv.reset (H := Qfloat) Examples.atari_gym_step Examples.atari_gym_reset
      Examples.atari_ale_lives 3 (λ _, 1) 0 Examples.atari_keep_lives
    = AtariEnv.reset (H := Qfloat) Examples.atari_gym_step Examples.atari_gym_reset_fails
        (λ _, 0) 3 (λ _, 1) 0 Examples.atari_keep_lives.
Proof.
  assert (Hlives : AtariEnv.lives Examples.atari_keep_lives ≠ 0) by (simpl; lia).
  split; [exact Hlives|]. split; [reflexivity|].
  exact (atari_reset_never_resets_emulator (H := Qfloat) Examples.atari_gym_step
           Examples.atari_gym_reset Examples.atari_ale_lives
           Examples.atari_gym_reset_fails (λ _, 0) 3 (λ _, 1) 0
           Examples.atari_keep_lives Hlives eq_refl).
Defined.

(** ** The networks: get_weights and predict *)

Section GetWeights.
Context {W : Type}.
Import MultilayerPerceptron MultilayerPerceptronSpec.

Lemma getitem_index {A} (l : list A) (i : nat) :
  (i < length l)%nat → ∃ x, l !! i = Some x ∧ Py.getitem l (Z.of_nat i) = Some x.
Proof.
  intros Hi. destruct (lookup_lt_is_Some_2 l i Hi) as [x Hx].
  exists x. split; [done|]. by apply getitem_nat.
Qed.

Lemma mlp_append_pairs (nw : list W) (n : nat) :
  ∀ k ws, (2 * (k + n) ≤ length nw)%nat →
    ∃ ws', append_pairs nw (seq k n) ws = (Py.Ok tt, ws ++ ws')
           ∧ length ws' = n
           ∧ flatten ws' = take (2 * n) (drop (2 * k) nw).
Proof.
  induction n as [|n IH]; intros k ws Hlen.
  { exists []. cbn. by rewrite app_nil_r. }
  cbn [seq append_pairs].
  destruct (getitem_index nw (2 * k)) as (m & Hm & Hgm); [lia|].
  destruct (getitem_index nw (2 * k + 1)) as (b & Hb & Hgb); [lia|].
  replace (2 * Z.of_nat k) with (Z.of_nat (2 * k)) by lia. rewrite Hgm.
  replace (Z.of_nat (2 * k) + 1) with (Z.of_nat (2 * k + 1)) by lia. rewrite Hgb.
  rewrite (bind_Ok Py.get _ ws ws ws eq_refl).
  rewrite (bind_Ok (Py.put (ws ++ [(m, b)])) _ ws tt (ws ++ [(m, b)]) eq_refl).
  destruct (IH (S k) (ws ++ [(m, b)])) as (ws' & Hrun & Hlen' & Hflat); [lia|].
  exists ((m, b) :: ws'). rewrite Hrun. split_and!.
  - by rewrite <- app_assoc.
  - by cbn; rewrite Hlen'.
  - unfold flatten in *. cbn [mbind list_bind fst snd app]. rewrite Hflat.
    rewrite (drop_S nw m (2 * k) Hm).
    replace (S (2 * k)) with (2 * k + 1)%nat by lia.
    rewrite (drop_S nw b (2 * k + 1) Hb).
    replace (2 * S n)%nat with (S (S (2 * n))) by lia. cbn [take].
    do 3 f_equal. f_equal. lia.
Qed.

(** X27.  [get_weights] never fails.  It replaces [self.weights] by the pairs of
    consecutive arrays of the list the network gives, and returns that list:
    half as many pairs as there are arrays, which side by side are the
    arrays again, but for a last one without a partner, which is left out. *)
Theorem mlp_get_weights (nw : list W) (old : list (W * W)) :
  ∃ ws, get_weights nw old = (Py.Ok ws, ws)
        ∧ length ws = (length nw / 2)%nat
        ∧ flatten ws = take (2 * (length nw / 2)) nw
        ∧ (Nat.Even (length nw) → flatten ws = nw).
Proof.
  unfold get_weights.
  destruct (mlp_append_pairs nw (length nw / 2) 0 []) as (ws & Hrun & Hlen & Hflat).
  { pose proof (Nat.Div0.mul_div_le (length nw) 2). lia. }
  exists ws. rewrite (bind_Ok (Py.put []) _ old tt [] eq_refl).
  rewrite (bind_Ok _ _ _ _ _ Hrun). cbn [app drop] in *.
  split_and!; [done|done|done|].
  intros [h Heven]. rewrite Hflat, Heven.
  replace (2 * h / 2)%nat with h by (rewrite Nat.mul_comm, Nat.div_mul; lia).
  rewrite <- Heven. apply take_ge. lia.
Qed.
End GetWeights.

Section ParallelGetWeights.
Context {Num : Type}.
Import ParallelMultilayerPerceptron ParallelMultilayerPerceptronSpec.
Implicit Types (nw : list (tensor Num)) (ws : list (tensor Num * tensor Num)).

Lemma squeeze0_squeezed (a : tensor Num) ws :
  squeeze0 a ws = match squeezed a with
                  | Some m => (Py.Ok m, ws)
                  | None => (Py.Raise Py.ValueError, ws)
                  end.
Proof. by destruct a as [x|[|m [|m' ts]]]. Qed.

Lemma parallel_append_pairs_Ok nw (n : nat) :
  ∀ k ws, (2 * (k + n) ≤ length nw)%nat →
    (∀ i a, (k ≤ i < k + n)%nat → nw !! (2 * i)%nat = Some a → is_Some (squeezed a)) →
    ∃ ws', append_pairs nw (seq k n) ws = (Py.Ok tt, ws ++ ws')
           ∧ length ws' = n
           ∧ ∀ i, (i < n)%nat →
               ∃ a m b, nw !! (2 * (k + i))%nat = Some a
                        ∧ squeezed a = Some m
                        ∧ nw !! (2 * (k + i) + 1)%nat = Some b
                        ∧ ws' !! i = Some (m, b).
Proof.
  induction n as [|n IH]; intros k ws Hlen Hunit.
  { exists []. cbn. rewrite app_nil_r. split_and!; [done|done|]. intros i Hi. lia. }
  cbn [seq append_pairs].
  destruct (getitem_index nw (2 * k)) as (a & Ha & Hga); [lia|].
  destruct (getitem_index nw (2 * k + 1)) as (b & Hb & Hgb); [lia|].
  replace (2 * Z.of_nat k) with (Z.of_nat (2 * k)) by lia. rewrite Hga.
  replace (Z.of_nat (2 * k) + 1) with (Z.of_nat (2 * k + 1)) by lia. rewrite Hgb.
  destruct (Hunit k a ltac:(lia) Ha) as [m Hm].
  assert (Hsq : squeeze0 a ws = (Py.Ok m, ws)) by (by rewrite squeeze0_squeezed, Hm).
  rewrite (bind_Ok _ _ _ _ _ Hsq).
  rewrite (bind_Ok Py.get _ ws ws ws eq_refl).
  rewrite (bind_Ok (Py.put (ws ++ [(m, b)])) _ ws tt (ws ++ [(m, b)]) eq_refl).
  destruct (IH (S k) (ws ++ [(m, b)])) as (ws' & Hrun & Hlen' & Hall); [lia| |].
  { intros i a' Hi. apply Hunit. lia. }
  exists ((m, b) :: ws'). rewrite Hrun. split_and!.
  - by rewrite <- app_assoc.
  - by cbn; rewrite Hlen'.
  - intros [|i] Hi.
    + exists a, m, b. rewrite Nat.add_0_r. by split_and!.
    + destruct (Hall i) as (a0 & m0 & b0 & H1 & H2 & H3 & H4); [lia|].
      exists a0, m0, b0. replace (k + S i)%nat with (S k + i)%nat by lia. by split_and!.
Qed.

Lemma parallel_append_pairs_Raise nw (i : nat) :
  ∀ k n ws a, (2 * (k + n) ≤ length nw)%nat → (i < n)%nat →
    (∀ j a', (k ≤ j < k + i)%nat → nw !! (2 * j)%nat = Some a' → is_Some (squeezed a')) →
    nw !! (2 * (k + i))%nat = Some a → squeezed a = None →
    ∃ ws', append_pairs nw (seq k n) ws = (Py.Raise Py.ValueError, ws ++ ws')
           ∧ length ws' = i.
Proof.
  induction i as [|i IH]; intros k n ws a Hlen Hi Hunit Ha Hbad.
  - destruct n as [|n]; [lia|]. cbn [seq append_pairs].
    rewrite Nat.add_0_r in Ha.
    replace (2 * Z.of_nat k) with (Z.of_nat (2 * k)) by lia.
    rewrite (getitem_nat _ _ _ Ha).
    exists []. rewrite app_nil_r. split; [|done].
    assert (Hsq : squeeze0 a ws = (Py.Raise Py.ValueError, ws))
      by (by rewrite squeeze0_squeezed, Hbad).
    by rewrite (bind_Raise _ _ _ _ _ Hsq).
  - destruct n as [|n]; [lia|]. cbn [seq append_pairs].
    destruct (getitem_index nw (2 * k)) as (a0 & Ha0 & Hga0); [lia|].
    destruct (getitem_index nw (2 * k + 1)) as (b & Hb & Hgb); [lia|].
    replace (2 * Z.of_nat k) with (Z.of_nat (2 * k)) by lia. rewrite Hga0.
    replace (Z.of_nat (2 * k) + 1) with (Z.of_nat (2 * k + 1)) by lia. rewrite Hgb.
    destruct (Hunit k a0 ltac:(lia) Ha0) as [m Hm].
    assert (Hsq : squeeze0 a0 ws = (Py.Ok m, ws)) by (by rewrite squeeze0_squeezed, Hm).
    rewrite (bind_Ok _ _ _ _ _ Hsq).
    rewrite (bind_Ok Py.get _ ws ws ws eq_refl).
    rewrite (bind_Ok (Py.put (ws ++ [(m, b)])) _ ws tt (ws ++ [(m, b)]) eq_refl).
    destruct (IH (S k) n (ws ++ [(m, b)]) a) as (ws' & Hrun & Hlen'); [lia|lia| | |done|].
    { intros j a' Hj. apply Hunit. lia. }
    { by replace (S k + i)%nat with (k + S i)%nat by lia. }
    exists ((m, b) :: ws'). rewrite Hrun. split; [by rewrite <- app_assoc|by cbn; rewrite Hlen'].
Qed.

(** X29.  [get_weights] of [ParallelMultilayerPerceptron] squeezes the first axis
    of each kernel: an axis of length 1 is removed, and a kernel of no
    dimensions is taken as it is.  If every kernel is one of these, it
    returns the pairs (squeezed kernel, bias).  If kernel [i] is the first
    with a first axis of another length, it raises ValueError, and
    [self.weights] is left with the [i] pairs before it. *)
Theorem parallel_get_weights nw old :
  ((∀ i a, (i < length nw / 2)%nat → nw !! (2 * i)%nat = Some a → is_Some (squeezed a)) →
   ∃ ws, get_weights nw old = (Py.Ok ws, ws)
         ∧ length ws = (length nw / 2)%nat
         ∧ ∀ i, (i < length nw / 2)%nat →
             ∃ a m b, nw !! (2 * i)%nat = Some a
                      ∧ squeezed a = Some m
                      ∧ nw !! (2 * i + 1)%nat = Some b
                      ∧ ws !! i = Some (m, b))
  ∧ (∀ i a, (i < length nw / 2)%nat →
       (∀ j a', (j < i)%nat → nw !! (2 * j)%nat = Some a' → is_Some (squeezed a')) →
       nw !! (2 * i)%nat = Some a → squeezed a = None →
       ∃ ws, get_weights nw old = (Py.Raise Py.ValueError, ws) ∧ length ws = i).
Proof.
  assert (Hlen : (2 * (0 + length nw / 2) ≤ length nw)%nat).
  { pose proof (Nat.Div0.mul_div_le (length nw) 2). lia. }
  unfold get_weights. rewrite (bind_Ok (Py.put []) _ old tt [] eq_refl). split.
  - intros Hunit.
    destruct (parallel_append_pairs_Ok nw (length nw / 2) 0 [] Hlen) as (ws & Hrun & Hl & Hall).
    { intros i a Hi. apply Hunit. lia. }
    exists ws. rewrite (bind_Ok _ _ _ _ _ Hrun). split_and!; [done|done|].
    intros i Hi. destruct (Hall i Hi) as (a & m & b & H1 & H2 & H3 & H4). by exists a, m, b.
  - intros i a Hi Hunit Ha Hbad.
    destruct (parallel_append_pairs_Raise nw i 0 (length nw / 2) [] a Hlen Hi)
      as (ws & Hrun & Hl); [|done|done|].
    { intros j a' Hj. apply Hunit. lia. }
    exists ws. by rewrite (bind_Raise _ _ _ _ _ Hrun).
Qed.
End ParallelGetWeights.

Lemma parallel_get_weights_witness :
  (∃ ws, ParallelMultilayerPerceptron.get_weights Examples.parallel_weights []
         = (Py.Ok ws, ws)
         ∧ length ws = 2%nat)
  ∧ (∃ ws, ParallelMultilayerPerceptron.get_weights Examples.parallel_weights_wide []
           = (Py.Raise Py.ValueError, ws)
           ∧ length ws = 1%nat)
  ∧ (∃ ws, ParallelMultilayerPerceptron.get_weights Examples.parallel_weights_flat []
           = (Py.Ok ws, ws)
           ∧ ws !! 0%nat
             = Some (ParallelMultilayerPerceptron.Scalar 7,
                     ParallelMultilayerPerceptron.Nested [ParallelMultilayerPerceptron.Scalar 2])).
Proof.
  split_and!.
  - destruct (proj1 (parallel_get_weights Examples.parallel_weights [])) as (ws & Hrun & Hlen & _).
    + intros [|[|i]] a Hi Ha; cbn in Hi, Ha; [by injection Ha as <-..|lia].
    + by exists ws.
  - destruct (proj2 (parallel_get_weights Examples.parallel_weights_wide []) 1%nat
                (ParallelMultilayerPerceptron.Nested
                   [ParallelMultilayerPerceptron.Nested [ParallelMultilayerPerceptron.Scalar 3];
                    ParallelMultilayerPerceptron.Nested [ParallelMultilayerPerceptron.Scalar 5]]))
      as (ws & Hrun & Hlen).
    + cbn. lia.
    + intros [|j] a' Hj Ha'; [|lia]. cbn in Ha'. by injection Ha' as <-.
    + reflexivity.
    + reflexivity.
    + by exists ws.
  - destruct (proj1 (parallel_get_weights Examples.parallel_weights_flat []))
      as (ws & Hrun & Hlen & Hall).
    + intros [|i] a Hi Ha; cbn in Hi, Ha; [by injection Ha as <-|lia].
    + exists ws. split; [exact Hrun|].
      destruct (Hall 0%nat) as (a & m & b & Ha & Hm & Hb & Hws); [cbn; lia|].
      cbn in Ha, Hb. injection Ha as <-. injection Hb as <-. cbn in Hm. injection Hm as <-.
      exact Hws.
Defined.

Section MlpPredict.
Context `{Float}.
Variable maximum : float → float → float.
Variable softmax : list float → list float.
Hypothesis softmax_length : ∀ r, length (softmax r) = length r.
Import MultilayerPerceptron MultilayerPerceptronSpec.
Implicit Types (X Y m : ndarray) (b : list float).

Lemma mlp_dot_shape X m :
  well_formed X → ncols X = nrows m →
  ∃ Y, dot X m = Py.Ok Y ∧ well_formed Y ∧ nrows Y = nrows X ∧ ncols Y = ncols m.
Proof.
  intros [Hrows Hcols] Hfit. unfold dot. rewrite bool_decide_eq_true_2 by done.
  eexists. split; [done|]. split_and!; [|done|done]. split; cbn [cells nrows ncols].
  - by rewrite length_fmap.
  - apply Forall_fmap, Forall_forall. intros r _. cbn. by rewrite length_fmap, length_seq.
Qed.

Lemma mlp_add_bias_shape Y b :
  well_formed Y → length b = ncols Y →
  ∃ Y', add_bias Y b = Py.Ok Y' ∧ well_formed Y' ∧ nrows Y' = nrows Y ∧ ncols Y' = ncols Y.
Proof.
  intros [Hrows Hcols] Hb. unfold add_bias. rewrite bool_decide_eq_true_2 by done.
  eexists. split; [done|]. split_and!; [|done|done]. split; cbn [cells nrows ncols].
  - by rewrite length_fmap.
  - apply Forall_fmap. eapply Forall_impl; [exact Hcols|]. intros r Hr. cbn.
    rewrite length_zip_with, Hr, Hb. cbn [ncols]. lia.
Qed.

Lemma mlp_relu_shape Y :
  well_formed Y → well_formed (relu maximum Y).
Proof.
  intros [Hrows Hcols]. split; cbn [relu cells nrows ncols].
  - by rewrite length_fmap.
  - apply Forall_fmap. eapply Forall_impl; [exact Hcols|]. intros r Hr. cbn.
    by rewrite length_fmap.
Qed.

Lemma mlp_softmax_shape Y :
  well_formed Y → well_formed (softmax_rows softmax Y).
Proof.
  intros [Hrows Hcols]. split; cbn [softmax_rows cells nrows ncols].
  - by rewrite length_fmap.
  - apply Forall_fmap. eapply Forall_impl; [exact Hcols|]. intros r Hr. cbn.
    by rewrite softmax_length.
Qed.

Lemma mlp_layers_shape self ws :
  ∀ i X, well_formed X → fits (ncols X) ws →
    ∃ Y, layers maximum softmax self i ws X = Py.Ok Y
         ∧ well_formed Y ∧ nrows Y = nrows X ∧ ncols Y = out_dim (ncols X) ws.
Proof.
  induction ws as [|[m b] ws IH]; intros i X HX Hfits.
  { exists X. by split_and!. }
  destruct Hfits as (Hm & Hb & Hrest). cbn [layers out_dim].
  destruct (mlp_dot_shape X m HX (eq_sym Hm)) as (Y & -> & HY & HYr & HYc).
  destruct (mlp_add_bias_shape Y b HY) as (Y' & -> & HY' & HYr' & HYc'); [congruence|].
  set (X' := if bool_decide _ then _ else _).
  assert (HX' : well_formed X' ∧ nrows X' = nrows Y' ∧ ncols X' = ncols Y').
  { subst X'. repeat case_bool_decide.
    - split; [by apply mlp_softmax_shape|done].
    - done.
    - split; [by apply mlp_relu_shape|done]. }
  destruct HX' as (HX'w & HX'r & HX'c).
  destruct (IH (S i) X' HX'w) as (Z & HZ & HZw & HZr & HZc).
  { rewrite HX'c, HYc', HYc. done. }
  exists Z. split_and!; [done|done|congruence|].
  rewrite HZc, HX'c, HYc', HYc. done.
Qed.

Lemma mlp_layers_mismatch self pre m b post :
  ∀ i X, well_formed X → fits (ncols X) pre → nrows m ≠ out_dim (ncols X) pre →
    layers maximum softmax self i (pre ++ (m, b) :: post) X = Py.Raise Py.ValueError.
Proof.
  induction pre as [|[m0 b0] pre IH]; intros i X HX Hfits Hbad.
  { cbn [app layers out_dim] in *. unfold dot. by rewrite bool_decide_eq_false_2 by congruence. }
  destruct Hfits as (Hm & Hb & Hrest). cbn [app layers out_dim] in *.
  destruct (mlp_dot_shape X m0 HX (eq_sym Hm)) as (Y & -> & HY & HYr & HYc).
  destruct (mlp_add_bias_shape Y b0 HY) as (Y' & -> & HY' & HYr' & HYc'); [congruence|].
  set (X' := if bool_decide _ then _ else _).
  assert (HX' : well_formed X' ∧ ncols X' = ncols Y').
  { subst X'. repeat case_bool_decide.
    - split; [by apply mlp_softmax_shape|done].
    - done.
    - split; [by apply mlp_relu_shape|done]. }
  destruct HX' as (HX'w & HX'c).
  apply IH; [done| |]; rewrite HX'c, HYc', HYc; done.
Qed.

(** X28.  [predict] keeps the shape discipline of the layers.  On a batch of [n]
    rows, through layers that fit (each kernel with as many rows as its
    input has columns, each bias as long as its kernel is wide), it returns
    an array of [n] rows and as many columns as the last kernel has; with no
    layer it returns the batch.  At the first kernel that does not fit it
    raises ValueError. *)
Theorem mlp_predict_shape self X :
  well_formed X →
  (fits (ncols X) (weights self) →
   ∃ Y, predict maximum softmax self X = Py.Ok Y
        ∧ well_formed Y ∧ nrows Y = nrows X
        ∧ ncols Y = out_dim (ncols X) (weights self))
  ∧ (weights self = [] → predict maximum softmax self X = Py.Ok X)
  ∧ (∀ pre m b post,
       weights self = pre ++ (m, b) :: post →
       fits (ncols X) pre → nrows m ≠ out_dim (ncols X) pre →
       predict maximum softmax self X = Py.Raise Py.ValueError).
Proof.
  intros HX. unfold predict. split_and!.
  - intros Hfits. by apply mlp_layers_shape.
  - by intros ->.
  - intros pre m b post -> Hfits Hbad. by apply mlp_layers_mismatch.
Qed.
End MlpPredict.

Lemma mlp_example_softmax_length r : length (Examples.mlp_softmax r) = length r.
Proof. unfold Examples.mlp_softmax. apply length_fmap. Defined.

Lemma mlp_predict_shape_witness :
  MultilayerPerceptronSpec.well_formed Examples.mlp_batch
  ∧ MultilayerPerceptronSpec.fits (MultilayerPerceptron.ncols Examples.mlp_batch)
      (MultilayerPerceptron.weights Examples.mlp_self)
  ∧ ∃ Y, MultilayerPerceptron.predict (H := Qfloat) Examples.mlp_maximum Examples.mlp_softmax
           Examples.mlp_self Examples.mlp_batch = Py.Ok Y
         ∧ MultilayerPerceptronSpec.well_formed Y
         ∧ MultilayerPerceptron.nrows Y = 2%nat
         ∧ MultilayerPerceptron.ncols Y = 1%nat.
Proof.
  assert (HX : MultilayerPerceptronSpec.well_formed Examples.mlp_batch).
  { split; [reflexivity|]. repeat constructor. }
  assert (Hfits : MultilayerPerceptronSpec.fits (MultilayerPerceptron.ncols Examples.mlp_batch)
                    (MultilayerPerceptron.weights Examples.mlp_self)).
  { cbn. by split_and!. }
  split; [exact HX|]. split; [exact Hfits|].
  exact (proj1 (mlp_predict_shape (H := Qfloat) Examples.mlp_maximum Examples.mlp_softmax
                  mlp_example_softmax_length Examples.mlp_self Examples.mlp_batch HX) Hfits).
Defined.

(** ** AgentBaseline.predict has no bound on the steps *)

Section BaselineLoop.
Context `{Float}.
Context {Item Obs Agent : Type}.
Context (act : Agent → Obs → Z * Agent).
Context (observe : list (list Item) → Obs).
Context (transition : list (list Item) → Z → Py.outcome (Obs * float * bool) * list (list Item)).
Implicit Types (h : gmap positive (list Item)) (e : AgentBaseline.env).

Lemma baseline_step_inv e action h r h' :
  AgentBaseline.step transition e action h = (Py.Ok r, h') →
  ∃ contents contents', transition contents action = (Py.Ok r, contents').
Proof.
  unfold AgentBaseline.step. intros Hrun.
  apply bind_inv_Ok in Hrun as (contents & h1 & _ & Hrun).
  destruct (transition contents action) as [o contents'] eqn:Htr.
  apply bind_inv_Ok in Hrun as ([] & h2 & _ & Hrun).
  destruct o as [r0| |]; [|done|done]. injection Hrun as <- _.
  by exists contents, contents'.
Qed.

Lemma baseline_rollout_needs_done fuel self e :
  (∀ contents action obs reward done contents',
     transition contents action = (Py.Ok (obs, reward, done), contents') → done = false) →
  ∀ ag state R discount h x h',
    AgentBaseline.rollout act transition fuel self ag e state R discount h ≠ (Py.Ok x, h').
Proof.
  intros Hnever. induction fuel as [|fuel IH]; intros ag state R discount h x h' Hrun; [done|].
  cbn [AgentBaseline.rollout] in Hrun. destruct (act ag state) as [action ag'].
  apply bind_inv_Ok in Hrun as ([[state' reward] fin] & h1 & Hstep & Hrun).
  apply baseline_step_inv in Hstep as (contents & contents' & Htr).
  rewrite (Hnever _ _ _ _ _ _ Htr) in Hrun. by apply IH in Hrun.
Qed.

(** X30.  [predict] steps the copy until a step reports done, and has no other way
    out of its loop: on an environment whose steps never report done it
    returns no value, however long it runs. *)
Theorem baseline_predict_needs_done fuel self e h :
  (∀ contents action obs reward done contents',
     transition contents action = (Py.Ok (obs, reward, done), contents') → done = false) →
  ∀ x h', AgentBaseline.predict act observe transition fuel self e h ≠ (Py.Ok x, h').
Proof.
  intros Hnever x h' Hrun. unfold AgentBaseline.predict in Hrun.
  apply bind_inv_Ok in Hrun as (e' & h1 & _ & Hrun).
  apply bind_inv_Ok in Hrun as (contents & h2 & _ & Hrun).
  by apply baseline_rollout_needs_done in Hrun.
Qed.
End BaselineLoop.

Lemma baseline_predict_needs_done_witness :
  (∀ contents action obs reward done contents',
     Examples.baseline_endless contents action = (Py.Ok (obs, reward, done), contents') →
     done = false)
  ∧ ∀ x h',
      AgentBaseline.predict (H := Qfloat) Examples.baseline_act Examples.baseline_observe
        Examples.baseline_endless 50 Examples.baseline_self Examples.baseline_env
        Examples.baseline_store
      ≠ (Py.Ok x, h').
Proof.
  assert (Hnever : ∀ contents action obs reward done contents',
             Examples.baseline_endless contents action = (Py.Ok (obs, reward, done), contents') →
             done = false).
  { intros contents action obs reward done contents' Htr.
    unfold Examples.baseline_endless in Htr. by injection Htr as _ _ <- _. }
  split; [exact Hnever|].
  exact (baseline_predict_needs_done (H := Qfloat) Examples.baseline_act
           Examples.baseline_observe Examples.baseline_endless 50 Examples.baseline_self
           Examples.baseline_env Examples.baseline_store Hnever).
Defined.

(** ** RowChoiceEnvironment: the matrix reset returns *)

Section ChoiceResetDraw.
Context `{Float}.
Import RowChoiceEnvironment RowChoiceSpec.
Implicit Types (self : t) (h : Np.heap) (a : Np.ndarray).

Lemma choice_reset_loop_first sample (draws : nat → nat → nat → float) (d : nat) :
  (∀ self k, sample self k
             = Np.tabulate (N self) (M self)
                 (λ i j, 1 * Z.b2z (fgtb (draws k i j) (fsub (of_Z 1) (density self))))) →
  ∀ fuel k self h a,
    (d ≤ fuel)%nat → h !! matrix self = Some a → Pure.shaped (N self) (M self) a →
    (∀ j, (j < d)%nat →
       Pure.is_reduced (match j with O => a | S j' => sample self (k + j')%nat end) = true) →
    Pure.is_reduced (match d with O => a | S d' => sample self (k + d')%nat end) = false →
    ∃ self' h',
      reset_loop fuel draws k self h = (Py.Ok self', h')
      ∧ h' !! matrix self' = Some (match d with O => a | S d' => sample self (k + d')%nat end)
      ∧ self' = set_matrix self (matrix self').
Proof.
  intros Hsample.
  assert (Hset : ∀ self l k, sample (set_matrix self l) k = sample self k).
  { intros self l k. by rewrite !Hsample. }
  induction d as [|d IH]; intros fuel k self h a Hd Hl Hs Htrue Hfalse.
  - exists self, h. split_and!; [|done|by destruct self].
    destruct fuel; cbn [reset_loop]; unfold _is_reduced;
      by rewrite (bind_Ok _ _ _ _ _ (is_reduced_Ok _ _ _ _ _ Hl Hs)), Hfalse.
  - destruct fuel as [|fuel]; [lia|]. cbn [reset_loop]. unfold _is_reduced at 1.
    rewrite (bind_Ok _ _ _ _ _ (is_reduced_Ok _ _ _ _ _ Hl Hs)).
    rewrite (Htrue 0%nat) by lia.
    unfold _random_matrix. rewrite (bind_Ok _ _ _ _ _ (alloc_Ok _ _)).
    rewrite <- Hsample.
    set (self1 := set_matrix self (fresh (dom h))).
    destruct (IH fuel (S k) self1 (<[fresh (dom h) := sample self k]> h) (sample self k))
      as (self' & h' & Hloop & Hl' & Hself); [lia|apply lookup_insert_eq| | | |].
    + rewrite Hsample. apply tabulate_shaped.
    + intros j Hj. specialize (Htrue (S j)). destruct j as [|j'].
      * rewrite Nat.add_0_r in Htrue. apply Htrue. lia.
      * subst self1. rewrite Hset. rewrite Nat.add_succ_r in Htrue. apply Htrue. lia.
    + destruct d as [|d'].
      * by rewrite Nat.add_0_r in Hfalse.
      * subst self1. rewrite Hset. by rewrite Nat.add_succ_r in Hfalse.
    + exists self', h'. split_and!; [done| |by rewrite Hself].
      rewrite Hl'. destruct d as [|d'].
      * by rewrite Nat.add_0_r.
      * subst self1. rewrite Hset. by rewrite Nat.add_succ_r.
Qed.

(** X14.  [reset] of [RowChoiceEnvironment] returns the first matrix drawn that is
    not reduced, and a copy of it as the observation.  A drawn matrix has a 1
    where the sample of the generator exceeds 1 - density, and a 0
    elsewhere. *)
Theorem choice_reset_first_draw fuel draws self h (d : nat) :
  let drawn k :=
    Np.tabulate (N self) (M self)
      (λ i j, 1 * Z.b2z (fgtb (draws k i j) (fsub (of_Z 1) (density self)))) in
  (d ≤ fuel)%nat →
  (∀ j, (j < d)%nat → Pure.is_reduced (drawn j) = true) →
  Pure.is_reduced (drawn d) = false →
  ∃ self' obs h',
    reset fuel draws self h = (Py.Ok (self', obs), h')
    ∧ h' !! matrix self' = Some (drawn d)
    ∧ h' !! obs = Some (drawn d)
    ∧ obs ≠ matrix self'
    ∧ self' = set_matrix self (matrix self').
Proof.
  intros drawn Hd Htrue Hfalse. unfold reset, _random_matrix.
  rewrite (bind_Ok _ _ _ _ _ (alloc_Ok _ _)). fold (drawn O).
  destruct (choice_reset_loop_first
              (λ self k, Np.tabulate (N self) (M self)
                 (λ i j, 1 * Z.b2z (fgtb (draws k i j) (fsub (of_Z 1) (density self)))))
              draws d (λ _ _, eq_refl) fuel 1%nat (set_matrix self (fresh (dom h)))
              (<[fresh (dom h) := drawn O]> h) (drawn O))
    as (self' & h' & Hloop & Hl' & Hself);
    [done|apply lookup_insert_eq|apply tabulate_shaped| | |].
  - intros [|j] Hj; [apply (Htrue 0%nat); lia|apply (Htrue (S j)); lia].
  - by destruct d.
  - assert (Hm : h' !! matrix self' = Some (drawn d)) by (by destruct d).
    rewrite (bind_Ok _ _ _ _ _ Hloop), (bind_Ok _ _ _ _ _ (copy_Ok _ _ _ Hm)).
    assert (Hne : fresh (dom h') ≠ matrix self') by (apply fresh_not_in; by rewrite Hm).
    eexists _, _, _. split; [done|]. split_and!.
    + by rewrite lookup_insert_ne.
    + apply lookup_insert_eq.
    + done.
    + rewrite Hself. by destruct self.
Qed.
End ChoiceResetDraw.

Lemma choice_reset_first_draw_witness :
  ∃ self' obs h',
    RowChoiceEnvironment.reset (H := Qfloat) 0 Examples.choice_draws
      Examples.choice_self0 Examples.choice_heap0
    = (Py.Ok (self', obs), h')
    ∧ h' !! RowChoiceEnvironment.matrix self' = Some [[1; 1]; [1; 0]; [0; 0]]
    ∧ h' !! obs = Some [[1; 1]; [1; 0]; [0; 0]]
    ∧ obs ≠ RowChoiceEnvironment.matrix self'
    ∧ self' = RowChoiceEnvironment.set_matrix Examples.choice_self0
                (RowChoiceEnvironment.matrix self').
Proof.
  apply (choice_reset_first_draw (H := Qfloat) 0 Examples.choice_draws
           Examples.choice_self0 Examples.choice_heap0 0).
  - lia.
  - intros j Hj. lia.
  - reflexivity.
Defined.
